(** * Naval War: the single-player simulation core (SinglePlayerServer)

    A shallow embedding of the authoritative simulation of the game
    (class [SinglePlayerServer] and class [SpatialHashGrid], together with
    the tables of [shared/types.ts]) and the properties of its collision,
    combat and progression logic.

    Conventions of the embedding.
    - A JavaScript [number] that the code only ever fills with integers
      (health, damage, xp, level, score, kills, stat points, upgrade points,
      millisecond timestamps) is a [Z].
    - Coordinates, velocities, angles and lifetimes are rationals ([Q]):
      arithmetic is exact, [Math.floor] is [Qfloor].  The functions that
      leave the rationals ([Math.sqrt], [Math.cos], [Math.sin],
      [Math.atan2]) are variables of the section that holds the simulation,
      so every theorem about the simulation holds for any choice of them.
    - The swept clamp against an island and its hit test are embedded over
      the real numbers ([R], module [Geometry]), where [sqrt] has its
      meaning; the statements about distances to an island are made there.
      The hit test appears a second time on rationals, for [updateBullets].
    - One collision pass reads one clock value: every [Date.now()] of a pass
      is the argument [now].
    - Objects that the code shares by reference (players held in the grid,
      in [livingPlayers] and in the [players] map; neutrals held in the grid
      and in the [neutrals] array) are positions in the list that owns them.
    - The values of [Math.random()] are arguments of the functions that
      read them; events passed to [emit] and writes to [localStorage] are
      recorded in the world.
    - Only [handleJoinGame] adds players; the public [joinGame] calls it with
      the id ['local-player'], the simulation itself works on any number of
      players and so do the statements. *)

From Stdlib Require Import ZArith QArith Qround Qabs Reals Psatz String.
From stdpp Require Import base gmap list strings pretty sorting.

Local Open Scope Z_scope.

(** ** JavaScript number operations *)

Module JS.

  (** [ToInt32] and [ToUint32] of an integral number. *)
Definition ToInt32 (z : Z) : Z :=
    let m := z mod 2 ^ 32 in if m <? 2 ^ 31 then m else m - 2 ^ 32.

Definition ToUint32 (z : Z) : Z := z mod 2 ^ 32.

  (** [a & b], [a | b], [a << n], [a >>> n] *)
Definition band (a b : Z) : Z := Z.land (ToInt32 a) (ToInt32 b).
Definition bor (a b : Z) : Z := Z.lor (ToInt32 a) (ToInt32 b).
Definition shl (a n : Z) : Z := ToInt32 (Z.shiftl (ToInt32 a) (ToUint32 n mod 32)).
Definition ushr (a n : Z) : Z := Z.shiftr (ToUint32 a) (ToUint32 n mod 32).

  (** [Math.floor], [Math.round] (halves go up), [Math.max] *)
Definition floor (q : Q) : Z := Qfloor q.
Definition round (q : Q) : Z := Qfloor (q + (1 # 2))%Q.
Definition max (a b : Q) : Q := if Qle_bool a b then b else a.

  (** [a < b] and [a <= b] on rationals, as booleans *)
Definition ltb (a b : Q) : bool := negb (Qle_bool b a).
Definition leb (a b : Q) : bool := Qle_bool a b.

End JS.

(** ** class SpatialHashGrid<T> *)

Module SpatialHashGrid.

Record t (T : Type) : Type := mk {
    cellSize : Q;
    buckets : gmap Z (list T)
  }.
Arguments mk {T} _ _.
Arguments cellSize {T} _.
Arguments buckets {T} _.

Section Ops.
Context {T : Type}.

    (** [constructor(cellSize)] *)
Definition new (cs : Q) : t T :=
      {| cellSize := JS.max 1 cs; buckets := ∅ |}.

    (** [key(cx, cy)]: [((cx & 0xffff) << 16 | (cy & 0xffff)) >>> 0] *)
Definition key (cx cy : Z) : Z :=
      JS.ushr (JS.bor (JS.shl (JS.band cx 0xffff) 16) (JS.band cy 0xffff)) 0.

    (** [insert(x, y, value)] *)
Definition insert (x y : Q) (value : T) (g : t T) : t T :=
      let cx := JS.floor (x / cellSize g) in
      let cy := JS.floor (y / cellSize g) in
      let k := key cx cy in
      match buckets g !! k with
      | Some bucket => mk (cellSize g) (<[k := bucket ++ [value]]> (buckets g))
      | None => mk (cellSize g) (<[k := [value]]> (buckets g))
      end.

    (** The inner loop of [queryInto]: one cell's bucket is pushed on [out]. *)
Definition pushCell (g : t T) (cy : Z) (out : list T) (cx : Z) : list T :=
      match buckets g !! key cx cy with
      | None => out
      | Some bucket => out ++ bucket
      end.

    (** [queryInto(x, y, range, out)]; the result is the content of [out]
        when the call returns. *)
Definition queryInto (g : t T) (x y range : Q) (out : list T) : list T :=
      let out := @nil T in
      let r := JS.max 0 range in
      let minCx := JS.floor ((x - r) / cellSize g) in
      let maxCx := JS.floor ((x + r) / cellSize g) in
      let minCy := JS.floor ((y - r) / cellSize g) in
      let maxCy := JS.floor ((y + r) / cellSize g) in
      foldl (fun out cy =>
               foldl (pushCell g cy) out (seqZ minCx (maxCx - minCx + 1)))
            out (seqZ minCy (maxCy - minCy + 1)).

    (** A sequence of [insert] calls, in order. *)
Definition insertAll (items : list (Q * Q * T)) (g : t T) : t T :=
      foldl (fun g '(x, y, v) => insert x y v g) g items.

End Ops.

End SpatialHashGrid.

(** ** shared/types.ts *)

Inductive ShipClass : Type :=
  patrol_boat | destroyer | cruiser | battleship | submarine | carrier.

Inductive BulletType : Type := cannon | machinegun | torpedo.

Inductive NeutralType : Type := buoy | cargo | lighthouse | tank.

(** [keyof PlayerStats] *)
Inductive StatName : Type := healthBonus | speedBonus | damageBonus | reloadBonus.

Definition NeutralType_eqb (a b : NeutralType) : bool :=
  match a, b with
  | buoy, buoy | cargo, cargo | lighthouse, lighthouse | tank, tank => true
  | _, _ => false
  end.

(** The string a class or a neutral type is at run time. *)
Definition ShipClass_name (c : ShipClass) : string :=
  match c with
  | patrol_boat => "patrol_boat" | destroyer => "destroyer"
  | cruiser => "cruiser" | battleship => "battleship"
  | submarine => "submarine" | carrier => "carrier"
  end.

Definition NeutralType_name (t : NeutralType) : string :=
  match t with
  | buoy => "buoy" | cargo => "cargo" | lighthouse => "lighthouse" | tank => "tank"
  end.

Module PlayerStats.
Record t : Type := mk {
  healthBonus : Z;
  speedBonus : Z;
  damageBonus : Z;
  reloadBonus : Z
}.

End PlayerStats.

(** [stats[stat]] *)
Definition stat_get (stat : StatName) (s : PlayerStats.t) : Z :=
  match stat with
  | healthBonus => PlayerStats.healthBonus s
  | speedBonus => PlayerStats.speedBonus s
  | damageBonus => PlayerStats.damageBonus s
  | reloadBonus => PlayerStats.reloadBonus s
  end.

(** [stats[stat] = v] *)
Definition stat_set (stat : StatName) (v : Z) (s : PlayerStats.t) : PlayerStats.t :=
  match stat with
  | healthBonus =>
      PlayerStats.mk v (PlayerStats.speedBonus s) (PlayerStats.damageBonus s)
                     (PlayerStats.reloadBonus s)
  | speedBonus =>
      PlayerStats.mk (PlayerStats.healthBonus s) v (PlayerStats.damageBonus s)
                     (PlayerStats.reloadBonus s)
  | damageBonus =>
      PlayerStats.mk (PlayerStats.healthBonus s) (PlayerStats.speedBonus s) v
                     (PlayerStats.reloadBonus s)
  | reloadBonus =>
      PlayerStats.mk (PlayerStats.healthBonus s) (PlayerStats.speedBonus s)
                     (PlayerStats.damageBonus s) v
  end.

Definition DEFAULT_STATS : PlayerStats.t := PlayerStats.mk 0 0 0 0.

Definition MAX_STAT_POINTS : Z := 7.

Module Ship.
Record t : Type := mk {
  id : string;
  x : Q;
  y : Q;
  rotation : Q;
  velocityX : Q;
  velocityY : Q;
  health : Z;
  maxHealth : Z;
  level : Z;
  xp : Z;
  shipClass : ShipClass;
  kills : Z;
  score : Z;
  stats : PlayerStats.t;
  abilityActive : bool;
  abilityCooldown : Z;
  isStealthed : bool;
  isShielded : bool
}.

Definition set_x (v : Q) (s : t) : t :=
  mk (id s) v (y s) (rotation s) (velocityX s) (velocityY s) (health s)
     (maxHealth s) (level s) (xp s) (shipClass s) (kills s) (score s) (stats s)
     (abilityActive s) (abilityCooldown s) (isStealthed s) (isShielded s).
Definition set_y (v : Q) (s : t) : t :=
  mk (id s) (x s) v (rotation s) (velocityX s) (velocityY s) (health s)
     (maxHealth s) (level s) (xp s) (shipClass s) (kills s) (score s) (stats s)
     (abilityActive s) (abilityCooldown s) (isStealthed s) (isShielded s).
Definition set_health (v : Z) (s : t) : t :=
  mk (id s) (x s) (y s) (rotation s) (velocityX s) (velocityY s) v
     (maxHealth s) (level s) (xp s) (shipClass s) (kills s) (score s) (stats s)
     (abilityActive s) (abilityCooldown s) (isStealthed s) (isShielded s).
Definition set_maxHealth (v : Z) (s : t) : t :=
  mk (id s) (x s) (y s) (rotation s) (velocityX s) (velocityY s) (health s)
     v (level s) (xp s) (shipClass s) (kills s) (score s) (stats s)
     (abilityActive s) (abilityCooldown s) (isStealthed s) (isShielded s).
Definition set_level (v : Z) (s : t) : t :=
  mk (id s) (x s) (y s) (rotation s) (velocityX s) (velocityY s) (health s)
     (maxHealth s) v (xp s) (shipClass s) (kills s) (score s) (stats s)
     (abilityActive s) (abilityCooldown s) (isStealthed s) (isShielded s).
Definition set_xp (v : Z) (s : t) : t :=
  mk (id s) (x s) (y s) (rotation s) (velocityX s) (velocityY s) (health s)
     (maxHealth s) (level s) v (shipClass s) (kills s) (score s) (stats s)
     (abilityActive s) (abilityCooldown s) (isStealthed s) (isShielded s).
Definition set_kills (v : Z) (s : t) : t :=
  mk (id s) (x s) (y s) (rotation s) (velocityX s) (velocityY s) (health s)
     (maxHealth s) (level s) (xp s) (shipClass s) v (score s) (stats s)
     (abilityActive s) (abilityCooldown s) (isStealthed s) (isShielded s).
Definition set_score (v : Z) (s : t) : t :=
  mk (id s) (x s) (y s) (rotation s) (velocityX s) (velocityY s) (health s)
     (maxHealth s) (level s) (xp s) (shipClass s) (kills s) v (stats s)
     (abilityActive s) (abilityCooldown s) (isStealthed s) (isShielded s).
Definition set_stats (v : PlayerStats.t) (s : t) : t :=
  mk (id s) (x s) (y s) (rotation s) (velocityX s) (velocityY s) (health s)
     (maxHealth s) (level s) (xp s) (shipClass s) (kills s) (score s) v
     (abilityActive s) (abilityCooldown s) (isStealthed s) (isShielded s).
Definition set_shipClass (v : ShipClass) (s : t) : t :=
  mk (id s) (x s) (y s) (rotation s) (velocityX s) (velocityY s) (health s)
     (maxHealth s) (level s) (xp s) v (kills s) (score s) (stats s)
     (abilityActive s) (abilityCooldown s) (isStealthed s) (isShielded s).
Definition set_rotation (v : Q) (s : t) : t :=
  mk (id s) (x s) (y s) v (velocityX s) (velocityY s) (health s)
     (maxHealth s) (level s) (xp s) (shipClass s) (kills s) (score s) (stats s)
     (abilityActive s) (abilityCooldown s) (isStealthed s) (isShielded s).
Definition set_isShielded (v : bool) (s : t) : t :=
  mk (id s) (x s) (y s) (rotation s) (velocityX s) (velocityY s) (health s)
     (maxHealth s) (level s) (xp s) (shipClass s) (kills s) (score s) (stats s)
     (abilityActive s) (abilityCooldown s) (isStealthed s) v.
End Ship.

Module Bullet.
(** [ignoreTerrain?: boolean] is read only as [!b.ignoreTerrain], where a
    missing field counts as [false]; both creation sites set it. *)
Record t : Type := mk {
  id : string;
  ownerId : string;
  x : Q;
  y : Q;
  velocityX : Q;
  velocityY : Q;
  damage : Z;
  lifetime : Q;
  type : BulletType;
  ignoreTerrain : bool
}.
End Bullet.

Module NeutralObject.
Record t : Type := mk {
  id : string;
  x : Q;
  y : Q;
  type : NeutralType;
  health : Z;
  maxHealth : Z;
  xpValue : Z;
  rotation : option Q;
  velocityX : option Q;
  velocityY : option Q;
  lastFireTime : option Z
}.

Definition set_health (v : Z) (n : t) : t :=
  mk (id n) (x n) (y n) (type n) v (maxHealth n) (xpValue n)
     (rotation n) (velocityX n) (velocityY n) (lastFireTime n).
Definition set_rotation (v : option Q) (n : t) : t :=
  mk (id n) (x n) (y n) (type n) (health n) (maxHealth n) (xpValue n)
     v (velocityX n) (velocityY n) (lastFireTime n).
Definition set_lastFireTime (v : option Z) (n : t) : t :=
  mk (id n) (x n) (y n) (type n) (health n) (maxHealth n) (xpValue n)
     (rotation n) (velocityX n) (velocityY n) v.
End NeutralObject.

Module Drone.
Record t : Type := mk {
  id : string;
  ownerId : string;
  x : Q;
  y : Q;
  rotation : Q;
  health : Z;
  lifetime : Q
}.

Definition set_xy (vx vy : Q) (d : t) : t :=
  mk (id d) (ownerId d) vx vy (rotation d) (health d) (lifetime d).
End Drone.

Module Island.
(** The outline [points] and the [seed] only feed the renderer. *)
Record t : Type := mk {
  id : string;
  x : Q;
  y : Q;
  radius : Q
}.
End Island.

Module PlayerInput.
Record t : Type := mk {
  x : option Q;
  y : option Q;
  rotation : Q;
  thrust : bool;
  fire : bool;
  useAbility : bool
}.
End PlayerInput.

Module LeaderboardEntry.
Record t : Type := mk {
  id : string;
  name : string;
  score : Z;
  kills : Z;
  level : Z;
  shipClass : ShipClass
}.
End LeaderboardEntry.

Module GameState.
Record t : Type := mk {
  timestamp : Z;
  ships : list Ship.t;
  bullets : list Bullet.t;
  neutrals : list NeutralObject.t;
  islands : list Island.t;
  leaderboard : list LeaderboardEntry.t;
  drones : list Drone.t
}.
End GameState.

Definition SHIP_UPGRADE_PATHS (c : ShipClass) : list ShipClass :=
  match c with
  | patrol_boat => [destroyer; cruiser; battleship; submarine; carrier]
  | _ => []
  end.

Definition SHIP_UNLOCK_LEVELS (c : ShipClass) : Z :=
  match c with
  | patrol_boat => 1 | destroyer => 2 | cruiser => 4
  | battleship => 5 | submarine => 6 | carrier => 7
  end.

Module ShipStats.
Record t : Type := mk {
  maxHealth : Z;
  speed : Z;
  turnRate : Q;
  fireRate : Z;
  damage : Z
}.
End ShipStats.

Definition SHIP_STATS (c : ShipClass) : ShipStats.t :=
  match c with
  | patrol_boat => ShipStats.mk 100 300 (5 # 100) 400 12
  | destroyer => ShipStats.mk 90 380 (65 # 1000) 250 10
  | cruiser => ShipStats.mk 180 220 (35 # 1000) 500 15
  | battleship => ShipStats.mk 160 160 (25 # 1000) 800 35
  | submarine => ShipStats.mk 80 280 (45 # 1000) 1500 55
  | carrier => ShipStats.mk 140 200 (3 # 100) 600 8
  end.

Definition XP_PER_LEVEL : list Z :=
  [0; 50; 150; 300; 500; 800; 1200; 1700; 2400; 3500].

Definition MAX_LEVEL : Z := 10.

(** ** Constants of the server *)

Definition WORLD_WIDTH : Q := 3000 # 1.
Definition WORLD_HEIGHT : Q := 3000 # 1.
Definition MAX_NEUTRALS : nat := 50.
Definition CARGO_SPEED : Q := 60 # 1.
Definition DRONE_DAMAGE : Z := 5.
Definition SHIP_RADIUS : Q := 25 # 1.
Definition BULLET_RADIUS : Q := 6 # 1.
Definition DRONE_RADIUS : Q := 12 # 1.
Definition LIGHTHOUSE_RANGE : Q := 500 # 1.
Definition LIGHTHOUSE_DAMAGE : Z := 15.
Definition LIGHTHOUSE_FIRE_RATE : Z := 2000.
Definition TANK_RANGE : Q := 400 # 1.
Definition TANK_DAMAGE : Z := 20.
Definition TANK_FIRE_RATE : Z := 1500.

(** [1e-9] *)
Definition tiny : Q := 1 # 1000000000.

Definition localPlayerId : string := "local-player".

Module Player.
Record t : Type := mk {
  id : string;
  name : string;
  ship : Ship.t;
  lastInput : PlayerInput.t;
  spawnProtectionUntil : Z;
  lastFireTime : Z;
  upgradePoints : Z;
  isDead : bool;
  deathTime : Z;
  abilityActiveUntil : Z;
  abilityCooldownUntil : Z
}.

Definition set_ship (v : Ship.t) (p : t) : t :=
  mk (id p) (name p) v (lastInput p) (spawnProtectionUntil p) (lastFireTime p)
     (upgradePoints p) (isDead p) (deathTime p) (abilityActiveUntil p)
     (abilityCooldownUntil p).
Definition set_upgradePoints (v : Z) (p : t) : t :=
  mk (id p) (name p) (ship p) (lastInput p) (spawnProtectionUntil p) (lastFireTime p)
     v (isDead p) (deathTime p) (abilityActiveUntil p) (abilityCooldownUntil p).
Definition set_isDead (v : bool) (p : t) : t :=
  mk (id p) (name p) (ship p) (lastInput p) (spawnProtectionUntil p) (lastFireTime p)
     (upgradePoints p) v (deathTime p) (abilityActiveUntil p) (abilityCooldownUntil p).
Definition set_deathTime (v : Z) (p : t) : t :=
  mk (id p) (name p) (ship p) (lastInput p) (spawnProtectionUntil p) (lastFireTime p)
     (upgradePoints p) (isDead p) v (abilityActiveUntil p) (abilityCooldownUntil p).

Definition set_spawnProtectionUntil (v : Z) (p : t) : t :=
  mk (id p) (name p) (ship p) (lastInput p) v (lastFireTime p)
     (upgradePoints p) (isDead p) (deathTime p) (abilityActiveUntil p)
     (abilityCooldownUntil p).

(** [player.ship.f = ...] *)
Definition on_ship (f : Ship.t -> Ship.t) (p : t) : t := set_ship (f (ship p)) p.
End Player.

(** ** Persistence ([localStorage]) and notifications ([emit]) *)

Module SaveState.
(** The value stored under ['navalwar_save']. *)
Record t : Type := mk {
  score : Z;
  level : Z;
  xp : Z;
  shipClass : ShipClass;
  stats : PlayerStats.t;
  upgradePoints : Z
}.
End SaveState.

Module ScoreEntry.
Record t : Type := mk {
  name : string;
  score : Z;
  date : string
}.
End ScoreEntry.

Module LeaderboardData.
(** The value stored under ['navalwar_leaderboard']. *)
Record t : Type := mk {
  lastGame : option ScoreEntry.t;
  highScores : list ScoreEntry.t
}.
End LeaderboardData.

Module Storage.
Record t : Type := mk {
  navalwar_save : option SaveState.t;
  navalwar_leaderboard : option LeaderboardData.t
}.
End Storage.

(** The calls of [this.emit(name, payload)], one constructor per event name. *)
Module Ev.
Inductive t : Type :=
| gameState (state : GameState.t)
| playerId (id : string)
| worldInit (islands : list Island.t)
| playerStats (stats : PlayerStats.t) (upgradePoints xpToNextLevel : Z)
| levelUp (newLevel upgradePoints : Z) (availableShipClasses : list ShipClass)
| damageDealt (x y : Q) (damage : Z) (isCritical : bool)
| xpGained (x y : Q) (amount : Z)
| playerDied (killerId victimId killerName : string)
| deathTimer (deathTime : Z)
| killFeed (killerName victimName weapon : string)
| respawned (x y : Q).
End Ev.

(** ** The world state of [SinglePlayerServer] *)

Module World.
Record t : Type := mk {
  players : list Player.t;      (* the [players] map, in insertion order *)
  bullets : list Bullet.t;
  neutrals : list NeutralObject.t;
  islands : list Island.t;
  drones : list Drone.t;
  lastNeutralSpawn : Z;
  droneIdCounter : Z;
  bulletIdCounter : Z;
  neutralIdCounter : Z;
  emitted : list Ev.t;          (* every [emit] so far, oldest first *)
  storage : Storage.t
}.

Definition set_players (v : list Player.t) (w : t) : t :=
  mk v (bullets w) (neutrals w) (islands w) (drones w) (lastNeutralSpawn w)
     (droneIdCounter w) (bulletIdCounter w) (neutralIdCounter w) (emitted w) (storage w).
Definition set_bullets (v : list Bullet.t) (w : t) : t :=
  mk (players w) v (neutrals w) (islands w) (drones w) (lastNeutralSpawn w)
     (droneIdCounter w) (bulletIdCounter w) (neutralIdCounter w) (emitted w) (storage w).
Definition set_neutrals (v : list NeutralObject.t) (w : t) : t :=
  mk (players w) (bullets w) v (islands w) (drones w) (lastNeutralSpawn w)
     (droneIdCounter w) (bulletIdCounter w) (neutralIdCounter w) (emitted w) (storage w).
Definition set_drones (v : list Drone.t) (w : t) : t :=
  mk (players w) (bullets w) (neutrals w) (islands w) v (lastNeutralSpawn w)
     (droneIdCounter w) (bulletIdCounter w) (neutralIdCounter w) (emitted w) (storage w).
Definition set_bulletIdCounter (v : Z) (w : t) : t :=
  mk (players w) (bullets w) (neutrals w) (islands w) (drones w) (lastNeutralSpawn w)
     (droneIdCounter w) v (neutralIdCounter w) (emitted w) (storage w).
Definition set_neutralIdCounter (v : Z) (w : t) : t :=
  mk (players w) (bullets w) (neutrals w) (islands w) (drones w) (lastNeutralSpawn w)
     (droneIdCounter w) (bulletIdCounter w) v (emitted w) (storage w).
Definition set_emitted (v : list Ev.t) (w : t) : t :=
  mk (players w) (bullets w) (neutrals w) (islands w) (drones w) (lastNeutralSpawn w)
     (droneIdCounter w) (bulletIdCounter w) (neutralIdCounter w) v (storage w).
Definition set_storage (v : Storage.t) (w : t) : t :=
  mk (players w) (bullets w) (neutrals w) (islands w) (drones w) (lastNeutralSpawn w)
     (droneIdCounter w) (bulletIdCounter w) (neutralIdCounter w) (emitted w) v.
End World.

(** ** class SinglePlayerServer *)

(** A stable sort into descending order of [key], as
    [sort((a, b) => b.key - a.key)] gives. *)
Fixpoint insertDesc {A : Type} (key : A -> Z) (a : A) (l : list A) : list A :=
  match l with
  | [] => [a]
  | b :: l' => if key b <=? key a then a :: l else b :: insertDesc key a l'
  end.

Definition sortDesc {A : Type} (key : A -> Z) (l : list A) : list A :=
  foldr (insertDesc key) [] l.

Definition BulletType_name (t : BulletType) : string :=
  match t with
  | cannon => "cannon" | machinegun => "machinegun" | torpedo => "torpedo"
  end.

(** The state of a collision pass: the world and the two removal sets
    [bulletsToRemove] and [neutralsToRemove]. *)
Module Pass.
Record t : Type := mk {
  world : World.t;
  bulletsToRemove : gset string;
  neutralsToRemove : gset string
}.
End Pass.

Section Simulation.

(** [Math.sqrt], [Math.cos], [Math.sin], [Math.atan2],
    [new Date(ms).toISOString()] and [Math.PI] *)
Variable Math_sqrt Math_cos Math_sin : Q -> Q.
Variable Math_atan2 : Q -> Q -> Q.
Variable toISOString : Z -> string.
Variable Math_PI : Q.

(** *** Access to the collections *)

(** [this.emit(...)] *)
Definition emit (e : Ev.t) (w : World.t) : World.t :=
  World.set_emitted (World.emitted w ++ [e]) w.

(** [this.players.get(id)]: the player and its position in the map. *)
Definition players_get (id : string) (w : World.t) : option (nat * Player.t) :=
  list_find (fun p => Player.id p = id) (World.players w).

(** [this.players.has(id)] *)
Definition players_has (id : string) (w : World.t) : bool :=
  match players_get id w with Some _ => true | None => false end.

(** An assignment through a reference to the player at position [i]. *)
Definition modPlayer (i : nat) (f : Player.t -> Player.t) (w : World.t) : World.t :=
  World.set_players (alter f i (World.players w)) w.

Definition modNeutral (i : nat) (f : NeutralObject.t -> NeutralObject.t)
    (w : World.t) : World.t :=
  World.set_neutrals (alter f i (World.neutrals w)) w.

Definition modDrone (i : nat) (f : Drone.t -> Drone.t) (w : World.t) : World.t :=
  World.set_drones (alter f i (World.drones w)) w.

(** *** Progression *)

(** [getXPToNextLevel(level)]; [XP_PER_LEVEL[level] || 9999] falls back on
    a missing entry and on the entry 0. *)
Definition getXPToNextLevel (level : Z) : Z :=
  if MAX_LEVEL <=? level then 999999
  else if level <? 0 then 9999
  else match XP_PER_LEVEL !! Z.to_nat level with
       | Some v => if v =? 0 then 9999 else v
       | None => 9999
       end.

(** [sendStats(player)] *)
Definition sendStats (i : nat) (w : World.t) : World.t :=
  match World.players w !! i with
  | None => w
  | Some player =>
      emit (Ev.playerStats (Ship.stats (Player.ship player))
                        (Player.upgradePoints player)
                        (getXPToNextLevel (Ship.level (Player.ship player)))) w
  end.

(** [savePlayerState(player)] *)
Definition savePlayerState (i : nat) (w : World.t) : World.t :=
  match World.players w !! i with
  | None => w
  | Some player =>
      if negb (String.eqb (Player.id player) localPlayerId) then w
      else
        let ship := Player.ship player in
        let state :=
          SaveState.mk (Ship.score ship) (Ship.level ship) (Ship.xp ship)
                       (Ship.shipClass ship) (Ship.stats ship)
                       (Player.upgradePoints player) in
        World.set_storage
          (Storage.mk (Some state) (Storage.navalwar_leaderboard (World.storage w))) w
  end.

(** [recalculateShipStats(player)]; the ratio is exact. *)
Definition recalculateShipStats (player : Player.t) : Player.t :=
  let ship := Player.ship player in
  let base := SHIP_STATS (Ship.shipClass ship) in
  let oldMax := Ship.maxHealth ship in
  let ship :=
    Ship.set_maxHealth
      (ShipStats.maxHealth base + PlayerStats.healthBonus (Ship.stats ship) * 10) ship in
  let ship :=
    if 0 <? oldMax then
      let ratio := (inject_Z (Ship.health ship) / inject_Z oldMax)%Q in
      Ship.set_health (JS.round (ratio * inject_Z (Ship.maxHealth ship))%Q) ship
    else ship in
  Player.set_ship ship player.

(** [awardXP(player, amount)] *)
Definition awardXP (i : nat) (amount : Z) (w : World.t) : World.t :=
  match World.players w !! i with
  | None => w
  | Some player =>
      let ship := Player.ship player in
      let ship := Ship.set_xp (Ship.xp ship + amount) ship in
      let ship := Ship.set_score (Ship.score ship + amount * 10) ship in
      let xpNeeded := getXPToNextLevel (Ship.level ship) in
      let w :=
        if (xpNeeded <=? Ship.xp ship) && (Ship.level ship <? MAX_LEVEL) then
          let ship := Ship.set_level (Ship.level ship + 1) ship in
          let ship := Ship.set_xp (Ship.xp ship - xpNeeded) ship in
          let upgradePoints := Player.upgradePoints player + 1 in
          let ship := Ship.set_health (Ship.maxHealth ship) ship in
          let allPossible := SHIP_UPGRADE_PATHS (Ship.shipClass ship) in
          let availableShipClasses :=
            List.filter (fun shipClass => SHIP_UNLOCK_LEVELS shipClass <=? Ship.level ship)
                        allPossible in
          let player := Player.set_upgradePoints upgradePoints (Player.set_ship ship player) in
          emit (Ev.levelUp (Ship.level ship) upgradePoints availableShipClasses)
               (modPlayer i (fun _ => player) w)
        else modPlayer i (fun _ => Player.set_ship ship player) w in
      savePlayerState i (sendStats i w)
  end.

(** [handleUpgradeStat(playerId, stat)] *)
Definition handleUpgradeStat (playerId : string) (stat : StatName) (w : World.t) : World.t :=
  match players_get playerId w with
  | None => w
  | Some (i, player) =>
      if Player.upgradePoints player <=? 0 then w
      else if MAX_STAT_POINTS <=? stat_get stat (Ship.stats (Player.ship player)) then w
      else
        let bump (p : Player.t) : Player.t :=
          let stats := Ship.stats (Player.ship p) in
          let p := Player.on_ship (Ship.set_stats (stat_set stat (stat_get stat stats + 1) stats)) p in
          Player.set_upgradePoints (Player.upgradePoints p - 1) p in
        let w := modPlayer i (fun p => recalculateShipStats (bump p)) w in
        savePlayerState i (sendStats i w)
  end.

(** *** Death *)

(** [saveGameResult(player)]; the stored value is taken to be well formed,
    so the [catch] branch is never entered. *)
Definition saveGameResult (player : Player.t) (now : Z) (w : World.t) : World.t :=
  let entry :=
    ScoreEntry.mk (Player.name player) (Ship.score (Player.ship player)) (toISOString now) in
  let data :=
    match Storage.navalwar_leaderboard (World.storage w) with
    | Some data => data
    | None => LeaderboardData.mk None []
    end in
  let highScores :=
    take 10 (sortDesc ScoreEntry.score (LeaderboardData.highScores data ++ [entry])) in
  World.set_storage
    (Storage.mk (Storage.navalwar_save (World.storage w))
                (Some (LeaderboardData.mk (Some entry) highScores))) w.

(** [localStorage.removeItem('navalwar_save')] *)
Definition removeSave (w : World.t) : World.t :=
  World.set_storage
    (Storage.mk None (Storage.navalwar_leaderboard (World.storage w))) w.

(** [handlePlayerDeath(player, killerId, weaponType)] *)
Definition handlePlayerDeath (i : nat) (killerId weaponType : string) (now : Z)
    (w : World.t) : World.t :=
  match World.players w !! i with
  | None => w
  | Some player =>
      if Player.isDead player then w
      else
        let w :=
          if String.eqb (Player.id player) localPlayerId
          then removeSave (saveGameResult player now w)
          else w in
        let w :=
          modPlayer i (fun p => Player.set_deathTime now
                                  (Player.set_isDead true
                                     (Player.on_ship (Ship.set_health 0) p))) w in
        let victimLevel := Ship.level (Player.ship player) in
        let '(w, killerName, killerWeapon) :=
          match players_get killerId w with
          | Some (k, killer) =>
              let w := modPlayer k (Player.on_ship
                                      (fun s => Ship.set_kills (Ship.kills s + 1) s)) w in
              let w := modPlayer k (Player.on_ship
                                      (fun s => Ship.set_score
                                                  (Ship.score s + (100 + victimLevel * 10)) s)) w in
              let w := awardXP k (100 + victimLevel * 20) w in
              (w, Player.name killer, ShipClass_name (Ship.shipClass (Player.ship killer)))
          | None =>
              match List.find (fun n => String.eqb (NeutralObject.id n) killerId)
                              (World.neutrals w) with
              | Some killerNeutral =>
                  let killerName :=
                    match NeutralObject.type killerNeutral with
                    | tank => "Island Tank"
                    | lighthouse => "Defense Tower"
                    | _ => "Enemy"
                    end in
                  (w, killerName, NeutralType_name (NeutralObject.type killerNeutral))
              | None => (w, "Unknown", weaponType)
              end
          end in
        let w := emit (Ev.playerDied killerId (Player.id player) killerName) w in
        let w := emit (Ev.deathTimer now) w in
        emit (Ev.killFeed killerName (Player.name player) killerWeapon) w
  end.

(** *** Collision resolution *)

(** [getNeutralRadius(type)], also the [switch] in
    [checkBulletNeutralCollisions] *)
Definition getNeutralRadius (type : NeutralType) : Q :=
  match type with
  | buoy => 15 # 1
  | cargo => 30 # 1
  | lighthouse => 25 # 1
  | tank => 20 # 1
  end.

(** The candidate loop of [checkBulletShipCollisions] for one bullet.
    [continue] goes on with the rest of the candidates, [break] returns. *)
Fixpoint bulletShipCandidates (now : Z) (bullet : Bullet.t) (candidates : list nat)
    (st : Pass.t) : Pass.t :=
  match candidates with
  | [] => st
  | c :: rest =>
      let w := Pass.world st in
      match World.players w !! c with
      | None => bulletShipCandidates now bullet rest st
      | Some player =>
          let hitDistance := (SHIP_RADIUS + BULLET_RADIUS)%Q in
          let hitDistanceSq := (hitDistance * hitDistance)%Q in
          let ship := Player.ship player in
          if String.eqb (Bullet.ownerId bullet) (Player.id player)
          then bulletShipCandidates now bullet rest st
          else if Player.isDead player then bulletShipCandidates now bullet rest st
          else if Ship.isStealthed ship then bulletShipCandidates now bullet rest st
          else if now <? Player.spawnProtectionUntil player
          then bulletShipCandidates now bullet rest st
          else
            let dx := (Bullet.x bullet - Ship.x ship)%Q in
            let dy := (Bullet.y bullet - Ship.y ship)%Q in
            let distanceSq := (dx * dx + dy * dy)%Q in
            if JS.ltb distanceSq hitDistanceSq then
              let bulletsToRemove := {[Bullet.id bullet]} ∪ Pass.bulletsToRemove st in
              if Ship.isShielded ship then
                let w := emit (Ev.damageDealt (Ship.x ship) (Ship.y ship) 0 false) w in
                bulletShipCandidates now bullet rest
                  (Pass.mk w bulletsToRemove (Pass.neutralsToRemove st))
              else
                let health := Ship.health ship - Bullet.damage bullet in
                let w := modPlayer c (Player.on_ship (Ship.set_health health)) w in
                let w := emit (Ev.damageDealt (Ship.x ship) (Ship.y ship)
                                           (Bullet.damage bullet)
                                           (30 <=? Bullet.damage bullet)) w in
                let w :=
                  if health <=? 0
                  then handlePlayerDeath c (Bullet.ownerId bullet)
                                         (BulletType_name (Bullet.type bullet)) now w
                  else w in
                Pass.mk w bulletsToRemove (Pass.neutralsToRemove st)
            else bulletShipCandidates now bullet rest st
      end
  end.

(** [checkBulletShipCollisions(shipGrid, bulletsToRemove)] *)
Definition checkBulletShipCollisions (now : Z) (shipGrid : SpatialHashGrid.t nat)
    (st : Pass.t) : Pass.t :=
  let hitDistance := (SHIP_RADIUS + BULLET_RADIUS)%Q in
  foldl (fun st bullet =>
           if bool_decide (Bullet.id bullet ∈ Pass.bulletsToRemove st) then st
           else
             let candidates :=
               SpatialHashGrid.queryInto shipGrid (Bullet.x bullet) (Bullet.y bullet)
                                         hitDistance [] in
             bulletShipCandidates now bullet candidates st)
        st (World.bullets (Pass.world st)).

(** The block of [checkBulletNeutralCollisions] entered on a hit
    ([distanceSq < hitDistanceSq]) of [bullet] on the neutral at [c]. *)
Definition bulletHitsNeutral (bullet : Bullet.t) (c : nat) (neutral : NeutralObject.t)
    (st : Pass.t) : Pass.t :=
  let w := Pass.world st in
  let health := NeutralObject.health neutral - Bullet.damage bullet in
  let w := modNeutral c (NeutralObject.set_health health) w in
  let bulletsToRemove := {[Bullet.id bullet]} ∪ Pass.bulletsToRemove st in
  if health <=? 0 then
    let neutralsToRemove := {[NeutralObject.id neutral]} ∪ Pass.neutralsToRemove st in
    match players_get (Bullet.ownerId bullet) w with
    | Some (shooter, _) =>
        let w := awardXP shooter (NeutralObject.xpValue neutral) w in
        let w := emit (Ev.xpGained (NeutralObject.x neutral) (NeutralObject.y neutral)
                                (NeutralObject.xpValue neutral)) w in
        Pass.mk w bulletsToRemove neutralsToRemove
    | None => Pass.mk w bulletsToRemove neutralsToRemove
    end
  else Pass.mk w bulletsToRemove (Pass.neutralsToRemove st).

(** The candidate loop of [checkBulletNeutralCollisions] for one bullet. *)
Fixpoint bulletNeutralCandidates (bullet : Bullet.t) (candidates : list nat)
    (st : Pass.t) : Pass.t :=
  match candidates with
  | [] => st
  | c :: rest =>
      let w := Pass.world st in
      match World.neutrals w !! c with
      | None => bulletNeutralCandidates bullet rest st
      | Some neutral =>
          let neutralRadius := getNeutralRadius (NeutralObject.type neutral) in
          if String.eqb (Bullet.ownerId bullet) (NeutralObject.id neutral)
          then bulletNeutralCandidates bullet rest st
          else if negb (players_has (Bullet.ownerId bullet) w)
          then bulletNeutralCandidates bullet rest st
          else
            let hitDistance := (neutralRadius + BULLET_RADIUS)%Q in
            let hitDistanceSq := (hitDistance * hitDistance)%Q in
            let dx := (Bullet.x bullet - NeutralObject.x neutral)%Q in
            let dy := (Bullet.y bullet - NeutralObject.y neutral)%Q in
            let distanceSq := (dx * dx + dy * dy)%Q in
            if JS.ltb distanceSq hitDistanceSq
            then bulletHitsNeutral bullet c neutral st
            else bulletNeutralCandidates bullet rest st
      end
  end.

(** [checkBulletNeutralCollisions(neutralGrid, bulletsToRemove, neutralsToRemove)] *)
Definition checkBulletNeutralCollisions (neutralGrid : SpatialHashGrid.t nat)
    (st : Pass.t) : Pass.t :=
  let maxNeutralRadius := (30 # 1)%Q in
  let queryRange := (BULLET_RADIUS + maxNeutralRadius)%Q in
  foldl (fun st bullet =>
           if bool_decide (Bullet.id bullet ∈ Pass.bulletsToRemove st) then st
           else
             let candidates :=
               SpatialHashGrid.queryInto neutralGrid (Bullet.x bullet) (Bullet.y bullet)
                                         queryRange [] in
             bulletNeutralCandidates bullet candidates st)
        st (World.bullets (Pass.world st)).

(** The body of the candidate loop of [checkShipShipCollisions]: [p1] is
    [livingPlayers[i]], [p2] a candidate. *)
Definition shipShipPair (now : Z) (playerIndex : gmap string nat) (i p1 : nat)
    (w : World.t) (p2 : nat) : World.t :=
  match World.players w !! p1, World.players w !! p2 with
  | Some player1, Some player2 =>
      match playerIndex !! Player.id player2 with
      | None => w
      | Some j =>
          if (j <=? i)%nat then w
          else
            let hitDistance := (SHIP_RADIUS * 2)%Q in
            let hitDistanceSq := (hitDistance * hitDistance)%Q in
            let dx := (Ship.x (Player.ship player2) - Ship.x (Player.ship player1))%Q in
            let dy := (Ship.y (Player.ship player2) - Ship.y (Player.ship player1))%Q in
            let distanceSq := (dx * dx + dy * dy)%Q in
            if JS.ltb distanceSq hitDistanceSq && JS.ltb tiny distanceSq then
              let distance := Math_sqrt distanceSq in
              let overlap := ((hitDistance - distance) / 2)%Q in
              let nx := (dx / distance)%Q in
              let ny := (dy / distance)%Q in
              let w := modPlayer p1 (Player.on_ship
                         (fun s => Ship.set_x (Ship.x s - nx * overlap)%Q s)) w in
              let w := modPlayer p1 (Player.on_ship
                         (fun s => Ship.set_y (Ship.y s - ny * overlap)%Q s)) w in
              let w := modPlayer p2 (Player.on_ship
                         (fun s => Ship.set_x (Ship.x s + nx * overlap)%Q s)) w in
              let w := modPlayer p2 (Player.on_ship
                         (fun s => Ship.set_y (Ship.y s + ny * overlap)%Q s)) w in
              let w := modPlayer p1 (Player.on_ship
                         (fun s => Ship.set_health (Ship.health s - 1) s)) w in
              let w := modPlayer p2 (Player.on_ship
                         (fun s => Ship.set_health (Ship.health s - 1) s)) w in
              let w :=
                match World.players w !! p1 with
                | Some q1 =>
                    if (Ship.health (Player.ship q1) <=? 0) && negb (Player.isDead q1)
                    then handlePlayerDeath p1 (Player.id player2) "collision" now w
                    else w
                | None => w
                end in
              match World.players w !! p2 with
              | Some q2 =>
                  if (Ship.health (Player.ship q2) <=? 0) && negb (Player.isDead q2)
                  then handlePlayerDeath p2 (Player.id player1) "collision" now w
                  else w
              | None => w
              end
            else w
      end
  | _, _ => w
  end.

(** [checkShipShipCollisions(livingPlayers, shipGrid)] *)
Definition checkShipShipCollisions (now : Z) (livingPlayers : list nat)
    (shipGrid : SpatialHashGrid.t nat) (w : World.t) : World.t :=
  let hitDistance := (SHIP_RADIUS * 2)%Q in
  let playerIndex : gmap string nat :=
    foldl (fun m '(i, p) =>
             match World.players w !! p with
             | Some player => <[Player.id player := i]> m
             | None => m
             end)
          ∅ (imap (fun i p => (i, p)) livingPlayers) in
  foldl (fun w '(i, p1) =>
           match World.players w !! p1 with
           | None => w
           | Some player1 =>
               let candidates :=
                 SpatialHashGrid.queryInto shipGrid (Ship.x (Player.ship player1))
                                           (Ship.y (Player.ship player1)) hitDistance [] in
               foldl (shipShipPair now playerIndex i p1) w candidates
           end)
        w (imap (fun i p => (i, p)) livingPlayers).

(** The body of the ship loop of [checkDroneCollisions] for the drone at
    [d] and the candidate player at [c]. *)
Definition droneShip (now : Z) (d : nat) (w : World.t) (c : nat) : World.t :=
  match World.drones w !! d, World.players w !! c with
  | Some drone, Some player =>
      let shipHitDistance := (DRONE_RADIUS + SHIP_RADIUS)%Q in
      let shipHitDistanceSq := (shipHitDistance * shipHitDistance)%Q in
      let ship := Player.ship player in
      if String.eqb (Player.id player) (Drone.ownerId drone) || Player.isDead player then w
      else if Ship.isStealthed ship then w
      else if now <? Player.spawnProtectionUntil player then w
      else
        let dx := (Drone.x drone - Ship.x ship)%Q in
        let dy := (Drone.y drone - Ship.y ship)%Q in
        let distanceSq := (dx * dx + dy * dy)%Q in
        if JS.ltb distanceSq shipHitDistanceSq && JS.ltb tiny distanceSq then
          let w :=
            if negb (Ship.isShielded ship) then
              let health := Ship.health ship - DRONE_DAMAGE in
              let w := modPlayer c (Player.on_ship (Ship.set_health health)) w in
              let w := emit (Ev.damageDealt (Ship.x ship) (Ship.y ship) DRONE_DAMAGE false) w in
              if health <=? 0
              then handlePlayerDeath c (Drone.ownerId drone) "drone" now w
              else w
            else w in
          let distance := Math_sqrt distanceSq in
          modDrone d (fun dr => Drone.set_xy (Drone.x dr + (dx / distance) * (30 # 1))%Q
                                             (Drone.y dr + (dy / distance) * (30 # 1))%Q dr) w
        else w
  | _, _ => w
  end.

(** The body of the neutral loop of [checkDroneCollisions]; [owner] is the
    position of the drone's owner. *)
Definition droneNeutral (d owner : nat) (st : Pass.t) (c : nat) : Pass.t :=
  let w := Pass.world st in
  match World.drones w !! d, World.neutrals w !! c with
  | Some drone, Some neutral =>
      if bool_decide (NeutralObject.id neutral ∈ Pass.neutralsToRemove st) then st
      else
        let neutralRadius := getNeutralRadius (NeutralObject.type neutral) in
        let hitDistance := (DRONE_RADIUS + neutralRadius)%Q in
        let hitDistanceSq := (hitDistance * hitDistance)%Q in
        let dx := (Drone.x drone - NeutralObject.x neutral)%Q in
        let dy := (Drone.y drone - NeutralObject.y neutral)%Q in
        let distanceSq := (dx * dx + dy * dy)%Q in
        if JS.ltb distanceSq hitDistanceSq then
          let health := NeutralObject.health neutral - DRONE_DAMAGE in
          let w := modNeutral c (NeutralObject.set_health health) w in
          if health <=? 0 then
            let neutralsToRemove :=
              {[NeutralObject.id neutral]} ∪ Pass.neutralsToRemove st in
            let w := awardXP owner (NeutralObject.xpValue neutral) w in
            let w := emit (Ev.xpGained (NeutralObject.x neutral) (NeutralObject.y neutral)
                                    (NeutralObject.xpValue neutral)) w in
            Pass.mk w (Pass.bulletsToRemove st) neutralsToRemove
          else Pass.mk w (Pass.bulletsToRemove st) (Pass.neutralsToRemove st)
        else st
  | _, _ => st
  end.

(** The loop body of [checkDroneCollisions] for the drone at [d]. *)
Definition droneCollisions (now : Z) (shipGrid neutralGrid : SpatialHashGrid.t nat)
    (st : Pass.t) (d : nat) : Pass.t :=
  let shipHitDistance := (DRONE_RADIUS + SHIP_RADIUS)%Q in
  let maxNeutralRadius := (30 # 1)%Q in
  let neutralQueryRange := (DRONE_RADIUS + maxNeutralRadius)%Q in
  let w := Pass.world st in
  match World.drones w !! d with
  | None => st
  | Some drone =>
      match players_get (Drone.ownerId drone) w with
      | None => st
      | Some (owner, _) =>
          let shipCandidates :=
            SpatialHashGrid.queryInto shipGrid (Drone.x drone) (Drone.y drone)
                                      shipHitDistance [] in
          let w := foldl (droneShip now d) w shipCandidates in
          match World.drones w !! d with
          | None => st
          | Some drone =>
              let neutralCandidates :=
                SpatialHashGrid.queryInto neutralGrid (Drone.x drone) (Drone.y drone)
                                          neutralQueryRange [] in
              foldl (droneNeutral d owner)
                    (Pass.mk w (Pass.bulletsToRemove st) (Pass.neutralsToRemove st))
                    neutralCandidates
          end
      end
  end.

(** [checkDroneCollisions(shipGrid, neutralGrid, neutralsToRemove)] *)
Definition checkDroneCollisions (now : Z) (shipGrid neutralGrid : SpatialHashGrid.t nat)
    (st : Pass.t) : Pass.t :=
  foldl (droneCollisions now shipGrid neutralGrid) st
        (seq 0 (length (World.drones (Pass.world st)))).

(** The positions, in [players], of the players that are not dead. *)
Definition livingPlayersOf (w : World.t) : list nat :=
  List.filter (fun i => match World.players w !! i with
                        | Some p => negb (Player.isDead p)
                        | None => false
                        end)
              (seq 0 (length (World.players w))).

(** The grid of living ships that [checkCollisions] builds. *)
Definition shipGridOf (w : World.t) (livingPlayers : list nat) : SpatialHashGrid.t nat :=
  foldl (fun g p => match World.players w !! p with
                    | Some player =>
                        SpatialHashGrid.insert (Ship.x (Player.ship player))
                                               (Ship.y (Player.ship player)) p g
                    | None => g
                    end)
        (SpatialHashGrid.new (140 # 1)) livingPlayers.

(** The grid of neutrals that [checkCollisions] builds. *)
Definition neutralGridOf (w : World.t) : SpatialHashGrid.t nat :=
  foldl (fun g n => match World.neutrals w !! n with
                    | Some neutral =>
                        SpatialHashGrid.insert (NeutralObject.x neutral)
                                               (NeutralObject.y neutral) n g
                    | None => g
                    end)
        (SpatialHashGrid.new (140 # 1)) (seq 0 (length (World.neutrals w))).

(** [checkCollisions()] *)
Definition checkCollisions (now : Z) (w : World.t) : World.t :=
  let livingPlayers := livingPlayersOf w in
  let shipGrid := shipGridOf w livingPlayers in
  let neutralGrid := neutralGridOf w in
  let st := Pass.mk w ∅ ∅ in
  let st := checkBulletShipCollisions now shipGrid st in
  let st := checkBulletNeutralCollisions neutralGrid st in
  let st := Pass.mk (checkShipShipCollisions now livingPlayers shipGrid (Pass.world st))
                    (Pass.bulletsToRemove st) (Pass.neutralsToRemove st) in
  let st := checkDroneCollisions now shipGrid neutralGrid st in
  let w := Pass.world st in
  let w :=
    if bool_decide (Pass.bulletsToRemove st = ∅) then w
    else World.set_bullets
           (List.filter (fun b => negb (bool_decide (Bullet.id b ∈ Pass.bulletsToRemove st)))
                        (World.bullets w)) w in
  if bool_decide (Pass.neutralsToRemove st = ∅) then w
  else World.set_neutrals
         (List.filter (fun n => negb (bool_decide (NeutralObject.id n ∈ Pass.neutralsToRemove st)))
                      (World.neutrals w)) w.

(** *** The snapshot *)

(** [getLeaderboard()] *)
Definition getLeaderboard (w : World.t) : list LeaderboardEntry.t :=
  take 10
    (sortDesc LeaderboardEntry.score
       (map (fun p => LeaderboardEntry.mk (Player.id p) (Player.name p)
                        (Ship.score (Player.ship p)) (Ship.kills (Player.ship p))
                        (Ship.level (Player.ship p)) (Ship.shipClass (Player.ship p)))
            (List.filter (fun p => negb (Player.isDead p)) (World.players w)))).

(** The state that [broadcastGameState()] emits. *)
Definition snapshot (now : Z) (w : World.t) : GameState.t :=
  GameState.mk now (map Player.ship (World.players w)) (World.bullets w)
               (World.neutrals w) (World.islands w) (getLeaderboard w) (World.drones w).

(** [broadcastGameState()] *)
Definition broadcastGameState (now : Z) (w : World.t) : World.t :=
  emit (Ev.gameState (snapshot now w)) w.

(** *** Bullets *)

(** [spawnBullet(player)] *)
Definition spawnBullet (i : nat) (w : World.t) : World.t :=
  match World.players w !! i with
  | None => w
  | Some player =>
      let ship := Player.ship player in
      let stats := SHIP_STATS (Ship.shipClass ship) in
      let angle := Ship.rotation ship in
      let speed := (600 # 1)%Q in
      let spawnX := (Ship.x ship + Math_cos angle * (30 # 1))%Q in
      let spawnY := (Ship.y ship + Math_sin angle * (30 # 1))%Q in
      let bullet :=
        Bullet.mk ("bullet-" +:+ pretty (World.bulletIdCounter w))
                  (Player.id player) spawnX spawnY
                  (Math_cos angle * speed)%Q (Math_sin angle * speed)%Q
                  (ShipStats.damage stats + PlayerStats.damageBonus (Ship.stats ship) * 2)
                  (2000 # 1)%Q cannon true in
      World.set_bulletIdCounter (World.bulletIdCounter w + 1)
        (World.set_bullets (World.bullets w ++ [bullet]) w)
  end.

(** [spawnNeutralBullet(source, target)];
    [Phaser.Math.Angle.Between(x1, y1, x2, y2)] is [Math.atan2(y2 - y1, x2 - x1)]. *)
Definition spawnNeutralBullet (source : NeutralObject.t) (target : nat)
    (w : World.t) : World.t :=
  match World.players w !! target with
  | None => w
  | Some targetPlayer =>
      let speed := (400 # 1)%Q in
      let angle :=
        Math_atan2 (Ship.y (Player.ship targetPlayer) - NeutralObject.y source)%Q
                   (Ship.x (Player.ship targetPlayer) - NeutralObject.x source)%Q in
      let damage :=
        if NeutralType_eqb (NeutralObject.type source) lighthouse
        then LIGHTHOUSE_DAMAGE else TANK_DAMAGE in
      let offset :=
        if NeutralType_eqb (NeutralObject.type source) tank then (40 # 1)%Q else (50 # 1)%Q in
      let bullet :=
        Bullet.mk ("bullet-" +:+ pretty (World.bulletIdCounter w))
                  (NeutralObject.id source)
                  (NeutralObject.x source + Math_cos angle * offset)%Q
                  (NeutralObject.y source + Math_sin angle * offset)%Q
                  (Math_cos angle * speed)%Q (Math_sin angle * speed)%Q
                  damage (3000 # 1)%Q cannon
                  (NeutralType_eqb (NeutralObject.type source) tank) in
      World.set_bulletIdCounter (World.bulletIdCounter w + 1)
        (World.set_bullets (World.bullets w ++ [bullet]) w)
  end.

(** [getFirstSegmentCircleHitT(ax, ay, bx, by, cx, cy, r)] on rationals *)
Definition getFirstSegmentCircleHitT (ax ay bx by_ cx cy r : Q) : option Q :=
  let dx := (bx - ax)%Q in
  let dy := (by_ - ay)%Q in
  let a := (dx * dx + dy * dy)%Q in
  if JS.leb a tiny then None
  else
    let fx := (ax - cx)%Q in
    let fy := (ay - cy)%Q in
    let b := ((2 # 1) * (fx * dx + fy * dy))%Q in
    let c := ((fx * fx + fy * fy) - r * r)%Q in
    let disc := (b * b - (4 # 1) * a * c)%Q in
    if JS.ltb disc 0 then None
    else
      let sqrtDisc := Math_sqrt disc in
      let inv2a := (1 / ((2 # 1) * a))%Q in
      let t1 := ((- b - sqrtDisc) * inv2a)%Q in
      let t2 := ((- b + sqrtDisc) * inv2a)%Q in
      if JS.leb 0 t1 && JS.leb t1 1 then Some t1
      else if JS.leb 0 t2 && JS.leb t2 1 then Some t2
      else None.

(** [isPointInIsland(px, py, island)] *)
Definition isPointInIsland (px py : Q) (island : Island.t) : bool :=
  let dx := (px - Island.x island)%Q in
  let dy := (py - Island.y island)%Q in
  JS.ltb (dx * dx + dy * dy) (Island.radius island * Island.radius island).

(** What one iteration of the loop of [updateBullets] does with a bullet:
    it stays (moved and aged), it is spliced out by the expiry and bounds
    test, or it is spliced out by the island test. *)
Inductive BulletFate : Type :=
| Flies (b : Bullet.t)
| Expired
| HitIsland.

Definition bulletStep (dt : Q) (islands : list Island.t) (b : Bullet.t) : BulletFate :=
  let b :=
    Bullet.mk (Bullet.id b) (Bullet.ownerId b)
              (Bullet.x b + Bullet.velocityX b * dt)%Q
              (Bullet.y b + Bullet.velocityY b * dt)%Q
              (Bullet.velocityX b) (Bullet.velocityY b) (Bullet.damage b)
              (Bullet.lifetime b - dt * (1000 # 1))%Q
              (Bullet.type b) (Bullet.ignoreTerrain b) in
  if JS.leb (Bullet.lifetime b) 0 || JS.ltb (Bullet.x b) 0 || JS.ltb WORLD_WIDTH (Bullet.x b)
     || JS.ltb (Bullet.y b) 0 || JS.ltb WORLD_HEIGHT (Bullet.y b)
  then Expired
  else if negb (Bullet.ignoreTerrain b)
          && existsb (fun island =>
                        let expanded := (Island.radius island + BULLET_RADIUS)%Q in
                        let hitT :=
                          getFirstSegmentCircleHitT
                            (Bullet.x b - Bullet.velocityX b * dt)%Q
                            (Bullet.y b - Bullet.velocityY b * dt)%Q
                            (Bullet.x b) (Bullet.y b)
                            (Island.x island) (Island.y island) expanded in
                        match hitT with
                        | Some _ => true
                        | None => isPointInIsland (Bullet.x b) (Bullet.y b) island
                        end)
                     islands
  then HitIsland
  else Flies b.

(** [updateBullets(dt)]: the bullets that stay keep their order. *)
Definition updateBullets (dt : Q) (w : World.t) : World.t :=
  World.set_bullets
    (flat_map (fun b => match bulletStep dt (World.islands w) b with
                        | Flies b' => [b']
                        | _ => []
                        end)
              (World.bullets w)) w.

(** *** Turrets (the second half of the loop body of [updateNeutrals]; the
    first half moves cargo vessels only) *)

(** The search for the nearest player; the result is [target]. *)
Definition nearestTarget (now : Z) (n : NeutralObject.t) (range : Q)
    (w : World.t) : option nat :=
  fst (foldl (fun '(target, minDist) '(i, p) =>
                if Player.isDead p || Ship.isStealthed (Player.ship p)
                then (target, minDist)
                else if now <? Player.spawnProtectionUntil p then (target, minDist)
                else
                  let dx := (NeutralObject.x n - Ship.x (Player.ship p))%Q in
                  let dy := (NeutralObject.y n - Ship.y (Player.ship p))%Q in
                  let dist := Math_sqrt (dx * dx + dy * dy) in
                  if JS.ltb dist minDist then (Some i, dist) else (target, minDist))
             (None, range) (imap (fun i p => (i, p)) (World.players w))).

(** The block [if (n.type === 'lighthouse' || n.type === 'tank')] for the
    neutral at position [c]. *)
Definition turretFire (now : Z) (w : World.t) (c : nat) : World.t :=
  match World.neutrals w !! c with
  | None => w
  | Some n =>
      if NeutralType_eqb (NeutralObject.type n) lighthouse
         || NeutralType_eqb (NeutralObject.type n) tank
      then
        let fireRate :=
          if NeutralType_eqb (NeutralObject.type n) lighthouse
          then LIGHTHOUSE_FIRE_RATE else TANK_FIRE_RATE in
        let range :=
          if NeutralType_eqb (NeutralObject.type n) lighthouse
          then LIGHTHOUSE_RANGE else TANK_RANGE in
        let ready :=
          match NeutralObject.lastFireTime n with
          | None => true
          | Some t => (t =? 0) || (fireRate <? now - t)
          end in
        if ready then
          match nearestTarget now n range w with
          | Some target =>
              let w :=
                if NeutralType_eqb (NeutralObject.type n) tank then
                  match World.players w !! target with
                  | Some tp =>
                      modNeutral c
                        (NeutralObject.set_rotation
                           (Some (Math_atan2
                                    (Ship.y (Player.ship tp) - NeutralObject.y n)%Q
                                    (Ship.x (Player.ship tp) - NeutralObject.x n)%Q))) w
                  | None => w
                  end
                else w in
              let w := spawnNeutralBullet n target w in
              modNeutral c (NeutralObject.set_lastFireTime (Some now)) w
          | None => w
          end
        else w
      else w
  end.

(** *** Neutral spawning *)

(** The [while (!valid && attempts < 20)] loop of [spawnNeutral]; [rnd k]
    is the value of the [k]-th call of [Math.random()], [fuel] the number of
    attempts left. *)
Fixpoint spawnPosition (islands : list Island.t) (rnd : nat -> Q) (k fuel : nat)
    : option (Q * Q * nat) :=
  match fuel with
  | O => None
  | S fuel' =>
      let x := (rnd k * (WORLD_WIDTH - (200 # 1)) + (100 # 1))%Q in
      let y := (rnd (S k) * (WORLD_HEIGHT - (200 # 1)) + (100 # 1))%Q in
      let valid :=
        forallb (fun isl =>
                   let dx := (x - Island.x isl)%Q in
                   let dy := (y - Island.y isl)%Q in
                   negb (JS.ltb (Math_sqrt (dx * dx + dy * dy))
                                (Island.radius isl + (80 # 1))%Q))
                islands in
      if valid then Some (x, y, S (S k)) else spawnPosition islands rnd (S (S k)) fuel'
  end.

(** [spawnNeutral()] *)
Definition spawnNeutral (rnd : nat -> Q) (w : World.t) : World.t :=
  if (MAX_NEUTRALS <=? length (World.neutrals w))%nat then w
  else
    let rand := rnd 0%nat in
    let type :=
      if JS.ltb rand (6 # 10) then buoy
      else if JS.ltb rand (9 # 10) then cargo else lighthouse in
    let health := match type with buoy => 25 | cargo => 60 | _ => 120 end in
    let xp := match type with buoy => 8 | cargo => 25 | _ => 60 end in
    match spawnPosition (World.islands w) rnd 1 20 with
    | None => w
    | Some (x, y, k) =>
        let rotation :=
          match type with
          | cargo => (rnd k * Math_PI * (2 # 1))%Q
          | _ => 0%Q
          end in
        let velocityX :=
          match type with cargo => (Math_cos rotation * CARGO_SPEED)%Q | _ => 0%Q end in
        let velocityY :=
          match type with cargo => (Math_sin rotation * CARGO_SPEED)%Q | _ => 0%Q end in
        let neutral :=
          NeutralObject.mk (NeutralType_name type +:+ "-" +:+ pretty (World.neutralIdCounter w))
                           x y type health health xp
                           (Some rotation) (Some velocityX) (Some velocityY) None in
        World.set_neutralIdCounter (World.neutralIdCounter w + 1)
          (World.set_neutrals (World.neutrals w ++ [neutral]) w)
    end.

(** *** Joining and respawning *)

(** [loadPlayerState(player)]; [state.f || d] falls back on the value 0. *)
Definition loadPlayerState (w : World.t) (player : Player.t) : Player.t :=
  match Storage.navalwar_save (World.storage w) with
  | None => player
  | Some state =>
      let ship := Player.ship player in
      let ship := Ship.set_score (SaveState.score state) ship in
      let ship := Ship.set_level (if SaveState.level state =? 0 then 1
                                  else SaveState.level state) ship in
      let ship := Ship.set_xp (SaveState.xp state) ship in
      let ship := Ship.set_shipClass (SaveState.shipClass state) ship in
      let ship := Ship.set_stats (SaveState.stats state) ship in
      let player := Player.set_upgradePoints (SaveState.upgradePoints state)
                      (Player.set_ship ship player) in
      let player := recalculateShipStats player in
      Player.on_ship (fun s => Ship.set_health (Ship.maxHealth s) s) player
  end.

(** The player object that [handleJoinGame] builds; [spawnX] and [spawnY]
    are [Math.random() * 2000 + 500]. *)
Definition newPlayer (playerId playerName : string) (spawnX spawnY : Q) (now : Z)
    : Player.t :=
  let baseStats := SHIP_STATS patrol_boat in
  Player.mk playerId
            (if String.eqb playerName "" then "Player" else playerName)
            (Ship.mk playerId spawnX spawnY 0 0 0
                     (ShipStats.maxHealth baseStats) (ShipStats.maxHealth baseStats)
                     1 0 patrol_boat 0 0 DEFAULT_STATS false 0 false false)
            (PlayerInput.mk (Some spawnX) (Some spawnY) 0 false false false)
            (now + 3000) 0 0 false 0 0 0.

(** [this.players.set(id, player)] *)
Definition players_set (id : string) (player : Player.t) (w : World.t) : World.t :=
  match players_get id w with
  | Some (i, _) => World.set_players (<[i := player]> (World.players w)) w
  | None => World.set_players (World.players w ++ [player]) w
  end.

(** [handleJoinGame(playerId, playerName)]; [r1], [r2] are the two values
    of [Math.random()]. *)
Definition handleJoinGame (playerId playerName : string) (now : Z) (r1 r2 : Q)
    (w : World.t) : World.t :=
  let spawnX := (r1 * (2000 # 1) + (500 # 1))%Q in
  let spawnY := (r2 * (2000 # 1) + (500 # 1))%Q in
  let player := loadPlayerState w (newPlayer playerId playerName spawnX spawnY now) in
  let w := players_set playerId player w in
  let w := emit (Ev.playerId playerId) w in
  let w := emit (Ev.worldInit (World.islands w)) w in
  match players_get playerId w with
  | Some (i, _) => sendStats i w
  | None => w
  end.

(** [handleRespawn(playerId)] *)
Definition handleRespawn (playerId : string) (now : Z) (r1 r2 : Q)
    (w : World.t) : World.t :=
  match players_get playerId w with
  | None => w
  | Some (i, _) =>
      let baseStats := SHIP_STATS patrol_boat in
      let x := (r1 * (2000 # 1) + (500 # 1))%Q in
      let y := (r2 * (2000 # 1) + (500 # 1))%Q in
      let reset (p : Player.t) : Player.t :=
        let p := Player.set_isDead false p in
        let ship := Player.ship p in
        let ship := Ship.set_score 0 ship in
        let ship := Ship.set_level 1 ship in
        let ship := Ship.set_xp 0 ship in
        let ship := Ship.set_shipClass patrol_boat ship in
        let ship := Ship.set_stats DEFAULT_STATS ship in
        let p := Player.set_upgradePoints 0 p in
        let ship := Ship.set_kills 0 ship in
        let ship := Ship.set_maxHealth (ShipStats.maxHealth baseStats) ship in
        let ship := Ship.set_health (Ship.maxHealth ship) ship in
        let ship := Ship.set_x x ship in
        let ship := Ship.set_y y ship in
        let ship := Ship.set_rotation 0 ship in
        Player.set_spawnProtectionUntil (now + 3000) (Player.set_ship ship p) in
      let w := modPlayer i reset w in
      let w := savePlayerState i w in
      let w := emit (Ev.respawned x y) w in
      sendStats i w
  end.

End Simulation.

(** ** The geometry primitives over the real numbers *)

Module Geometry.

Local Open Scope R_scope.

Record Island : Type := mkIsland {
  x : R;
  y : R;
  radius : R
}.

(** [Math.sqrt(v) || 1] *)
Definition sqrtOr1 (v : R) : R :=
  if Req_dec_T (sqrt v) 0 then 1 else sqrt v.

(** [getFirstSegmentCircleHitT(ax, ay, bx, by, cx, cy, r)] *)
Definition getFirstSegmentCircleHitT (ax ay bx by_ cx cy r : R) : option R :=
  let dx := bx - ax in
  let dy := by_ - ay in
  let a := dx * dx + dy * dy in
  if Rle_dec a (1 / 1000000000) then None
  else
    let fx := ax - cx in
    let fy := ay - cy in
    let b := 2 * (fx * dx + fy * dy) in
    let c := (fx * fx + fy * fy) - r * r in
    let disc := b * b - 4 * a * c in
    if Rlt_dec disc 0 then None
    else
      let sqrtDisc := sqrt disc in
      let inv2a := 1 / (2 * a) in
      let t1 := (- b - sqrtDisc) * inv2a in
      let t2 := (- b + sqrtDisc) * inv2a in
      if Rle_dec 0 t1 then
        if Rle_dec t1 1 then Some t1
        else if Rle_dec 0 t2 then if Rle_dec t2 1 then Some t2 else None else None
      else if Rle_dec 0 t2 then if Rle_dec t2 1 then Some t2 else None else None.

(** [clampEntityOutsideIslandAlongSegment(prevX, prevY, nextX, nextY,
    entityRadius, island)] *)
Definition clampEntityOutsideIslandAlongSegment
    (prevX prevY nextX nextY entityRadius : R) (island : Island) : R * R :=
  let expanded := radius island + entityRadius in
  let endDx := nextX - x island in
  let endDy := nextY - y island in
  let endDistSq := endDx * endDx + endDy * endDy in
  if Rlt_dec endDistSq (expanded * expanded) then
    let endDist := sqrt endDistSq in
    let epsilon := 1 / 100 in
    if Rlt_dec (1 / 1000000) endDist then
      (x island + (endDx / endDist) * (expanded + epsilon),
       y island + (endDy / endDist) * (expanded + epsilon))
    else
      let mvx := nextX - prevX in
      let mvy := nextY - prevY in
      let mvLen := sqrtOr1 (mvx * mvx + mvy * mvy) in
      (x island + (mvx / mvLen) * (expanded + epsilon),
       y island + (mvy / mvLen) * (expanded + epsilon))
  else
    match getFirstSegmentCircleHitT prevX prevY nextX nextY (x island) (y island) expanded with
    | None => (nextX, nextY)
    | Some t =>
        let hitX := prevX + (nextX - prevX) * t in
        let hitY := prevY + (nextY - prevY) * t in
        let nx := hitX - x island in
        let ny := hitY - y island in
        let len := sqrtOr1 (nx * nx + ny * ny) in
        let epsilon := 1 / 100 in
        (x island + (nx / len) * (expanded + epsilon),
         y island + (ny / len) * (expanded + epsilon))
    end.

(** The square of the distance of a point to the centre of an island. *)
Definition distSq (p : R * R) (island : Island) : R :=
  (fst p - x island) * (fst p - x island) + (snd p - y island) * (snd p - y island).


(** The segment from [(ax, ay)] to [(bx, by)] meets the boundary of the
    island's circle grown by [entityRadius]. *)
Definition segmentMeetsCircle (ax ay bx by_ entityRadius : R) (island : Island) : Prop :=
  exists t, 0 <= t <= 1 /\
    distSq (ax + (bx - ax) * t, ay + (by_ - ay) * t) island
    = (radius island + entityRadius) * (radius island + entityRadius).

End Geometry.

(** ** Vocabulary of the statements *)

(** What may happen to a player that takes no damage: its identity, its
    protection deadline and its maximum health stay, and its health stays
    or is set to the maximum (the heal of a level-up). *)
Definition undamaged (p p' : Player.t) : Prop :=
  Player.id p' = Player.id p
  /\ Player.spawnProtectionUntil p' = Player.spawnProtectionUntil p
  /\ Player.isDead p' = Player.isDead p
  /\ Ship.maxHealth (Player.ship p') = Ship.maxHealth (Player.ship p)
  /\ (Ship.health (Player.ship p') = Ship.health (Player.ship p)
      \/ Ship.health (Player.ship p') = Ship.maxHealth (Player.ship p)).

(** A player followed through a step: it is still at position [i], undamaged. *)
Definition stays (i : nat) (p : Player.t) (w' : World.t) : Prop :=
  exists p', World.players w' !! i = Some p' /\ undamaged p p'.

(** The bounds that stat upgrades keep. *)
Definition statsBounded (p : Player.t) : Prop :=
  (forall stat, stat_get stat (Ship.stats (Player.ship p)) <= MAX_STAT_POINTS)
  /\ 0 <= Player.upgradePoints p.

(** ** Scenarios on which the code is evaluated *)

(** A square root on rationals that is exact on the squares of rationals
    with up to six decimals; the scenarios only take roots of such. *)
Definition sqrt6 (q : Q) : Q :=
  Qred (Z.sqrt (Qnum q * Zpos (Qden q) * 10 ^ 12) # (Qden q * 10 ^ 6)).

(** Bob, a second player, at [(x, 100)]. *)
Definition bobAt (x : Q) : Player.t := newPlayer "player-2" "Bob" x (100 # 1) 0.

(** Two ships 30 apart, the first one down to 10 health, and a tank bullet
    on the first ship.  Both joined at time 0; the pass runs at time 5000. *)
Definition rammedWorld : World.t :=
  World.mk
    [ Player.on_ship (Ship.set_health 10)
        (newPlayer "local-player" "Ann" (100 # 1) (100 # 1) 0);
      bobAt (130 # 1) ]
    [ Bullet.mk "bullet-7" "neutral-0" (100 # 1) (100 # 1) (-400 # 1) 0 20 (1000 # 1)
                cannon true ]
    [ NeutralObject.mk "neutral-0" (500 # 1) (100 # 1) tank 120 120 250
                       (Some 0%Q) (Some 0%Q) (Some 0%Q) (Some 4000) ]
    [ Island.mk "island_0" (500 # 1) (100 # 1) (100 # 1) ]
    [] 0 0 8 1 [] (Storage.mk None None).

(** A tank bullet of damage 20. *)
Definition tankBullet : Bullet.t :=
  Bullet.mk "bullet-7" "neutral-0" (105 # 1) (100 # 1) (-400 # 1) 0 20 (1000 # 1)
            cannon true.

(** A shielded ship and an unshielded one 10 apart, and a tank bullet of
    damage 20 between them, within 31 of both. *)
Definition shieldedWorld : World.t :=
  World.mk
    [ Player.on_ship (Ship.set_isShielded true)
        (newPlayer "local-player" "Ann" (100 # 1) (100 # 1) 0);
      bobAt (110 # 1) ]
    [ tankBullet ] [] [] [] 0 0 8 1 [] (Storage.mk None None).

(** Ann in a fresh patrol boat, a buoy as [spawnNeutral] makes it, and [k]
    bullets as [spawnBullet] makes them for Ann (damage 12), on the buoy. *)
Definition ann : Player.t := newPlayer "local-player" "Ann" (200 # 1) (300 # 1) 0.

Definition buoy3 : NeutralObject.t :=
  NeutralObject.mk "buoy-3" (300 # 1) (300 # 1) buoy 25 25 8
                   (Some 0%Q) (Some 0%Q) (Some 0%Q) None.

Definition annBullet (i : nat) : Bullet.t :=
  Bullet.mk ("bullet-" +:+ pretty i) "local-player"
            (300 # 1) (300 # 1) (600 # 1) 0 12 (1500 # 1) cannon true.

Definition buoyWorld (k : nat) : World.t :=
  World.mk [ ann ] (map annBullet (seq 0 k)) [ buoy3 ]
           [] [] 0 0 (Z.of_nat k) 4 [] (Storage.mk None None).

(** A stand-in for [toISOString] in the scenarios. *)
Definition stamp (ms : Z) : string := "T" +:+ pretty ms.

(** Ann as [handlePlayerDeath] leaves her, and a world that holds her. *)
Definition deadAnn : Player.t :=
  Player.set_deathTime 5000
    (Player.set_isDead true
       (Player.on_ship (Ship.set_health 0)
          (newPlayer "local-player" "Ann" (100 # 1) (100 # 1) 0))).

Definition graveWorld : World.t :=
  World.mk [ deadAnn; bobAt (130 # 1) ]
           [] [] [] [] 0 0 0 0 [] (Storage.mk None None).

(** Ann with two upgrade points. *)
Definition upgradeAnn : Player.t :=
  Player.set_upgradePoints 2 (newPlayer "local-player" "Ann" (200 # 1) (300 # 1) 0).

Definition upgradeWorld : World.t :=
  World.mk [ upgradeAnn ] [] [] [] [] 0 0 0 0 [] (Storage.mk None None).

(** A level-1 player with no xp, about to receive the 250 xp of a tank. *)
Definition rookieWorld : World.t :=
  World.mk [ ann ] [] [] [] [] 0 0 0 0 [] (Storage.mk None None).

(** ** More of class SinglePlayerServer *)

(** [SHIP_ABILITIES] of shared/types.ts *)
Module Ability.
Inductive t : Type := stealth | shield | boost | drone.
End Ability.

Module AbilityConfig.
Record t : Type := mk {
  ability : Ability.t;
  cooldown : Z;
  duration : Z;
  description : string
}.
End AbilityConfig.

Definition SHIP_ABILITIES (c : ShipClass) : option AbilityConfig.t :=
  match c with
  | patrol_boat => None
  | destroyer => Some (AbilityConfig.mk Ability.boost 8000 2000 "Speed boost (2s)")
  | cruiser => Some (AbilityConfig.mk Ability.shield 15000 3000 "Damage shield (3s)")
  | battleship => None
  | submarine => Some (AbilityConfig.mk Ability.stealth 12000 4000 "Invisibility (4s)")
  | carrier => Some (AbilityConfig.mk Ability.drone 10000 5000 "Deploy drone (5s)")
  end.

Definition TICK_RATE : Q := 20 # 1.
Definition TICK_INTERVAL : Q := (1000 # 1) / TICK_RATE.
Definition NEUTRAL_SPAWN_INTERVAL : Z := 2000.
Definition DRONE_SPEED : Q := 280 # 1.
Definition DRONE_RANGE : Q := 200 # 1.
Definition DRONE_LIFETIME : Q := 5000 # 1.

(** [Math.min] *)
Definition Math_min (a b : Q) : Q := if Qle_bool a b then a else b.

(** Assignments to fields that the first part had no use for. *)
Definition Ship_set_velocity (vx vy : Q) (s : Ship.t) : Ship.t :=
  Ship.mk (Ship.id s) (Ship.x s) (Ship.y s) (Ship.rotation s) vx vy (Ship.health s)
          (Ship.maxHealth s) (Ship.level s) (Ship.xp s) (Ship.shipClass s) (Ship.kills s)
          (Ship.score s) (Ship.stats s) (Ship.abilityActive s) (Ship.abilityCooldown s)
          (Ship.isStealthed s) (Ship.isShielded s).

Definition Ship_set_abilityActive (v : bool) (s : Ship.t) : Ship.t :=
  Ship.mk (Ship.id s) (Ship.x s) (Ship.y s) (Ship.rotation s) (Ship.velocityX s)
          (Ship.velocityY s) (Ship.health s) (Ship.maxHealth s) (Ship.level s) (Ship.xp s)
          (Ship.shipClass s) (Ship.kills s) (Ship.score s) (Ship.stats s) v
          (Ship.abilityCooldown s) (Ship.isStealthed s) (Ship.isShielded s).

Definition Ship_set_abilityCooldown (v : Z) (s : Ship.t) : Ship.t :=
  Ship.mk (Ship.id s) (Ship.x s) (Ship.y s) (Ship.rotation s) (Ship.velocityX s)
          (Ship.velocityY s) (Ship.health s) (Ship.maxHealth s) (Ship.level s) (Ship.xp s)
          (Ship.shipClass s) (Ship.kills s) (Ship.score s) (Ship.stats s)
          (Ship.abilityActive s) v (Ship.isStealthed s) (Ship.isShielded s).

Definition Ship_set_isStealthed (v : bool) (s : Ship.t) : Ship.t :=
  Ship.mk (Ship.id s) (Ship.x s) (Ship.y s) (Ship.rotation s) (Ship.velocityX s)
          (Ship.velocityY s) (Ship.health s) (Ship.maxHealth s) (Ship.level s) (Ship.xp s)
          (Ship.shipClass s) (Ship.kills s) (Ship.score s) (Ship.stats s)
          (Ship.abilityActive s) (Ship.abilityCooldown s) v (Ship.isShielded s).

Definition Player_set_lastInput (v : PlayerInput.t) (p : Player.t) : Player.t :=
  Player.mk (Player.id p) (Player.name p) (Player.ship p) v
            (Player.spawnProtectionUntil p) (Player.lastFireTime p) (Player.upgradePoints p)
            (Player.isDead p) (Player.deathTime p) (Player.abilityActiveUntil p)
            (Player.abilityCooldownUntil p).

Definition Player_set_lastFireTime (v : Z) (p : Player.t) : Player.t :=
  Player.mk (Player.id p) (Player.name p) (Player.ship p) (Player.lastInput p)
            (Player.spawnProtectionUntil p) v (Player.upgradePoints p)
            (Player.isDead p) (Player.deathTime p) (Player.abilityActiveUntil p)
            (Player.abilityCooldownUntil p).

Definition Player_set_abilityActiveUntil (v : Z) (p : Player.t) : Player.t :=
  Player.mk (Player.id p) (Player.name p) (Player.ship p) (Player.lastInput p)
            (Player.spawnProtectionUntil p) (Player.lastFireTime p) (Player.upgradePoints p)
            (Player.isDead p) (Player.deathTime p) v (Player.abilityCooldownUntil p).

Definition Player_set_abilityCooldownUntil (v : Z) (p : Player.t) : Player.t :=
  Player.mk (Player.id p) (Player.name p) (Player.ship p) (Player.lastInput p)
            (Player.spawnProtectionUntil p) (Player.lastFireTime p) (Player.upgradePoints p)
            (Player.isDead p) (Player.deathTime p) (Player.abilityActiveUntil p) v.

Definition World_set_droneIdCounter (v : Z) (w : World.t) : World.t :=
  World.mk (World.players w) (World.bullets w) (World.neutrals w) (World.islands w)
           (World.drones w) (World.lastNeutralSpawn w) v (World.bulletIdCounter w)
           (World.neutralIdCounter w) (World.emitted w) (World.storage w).

Definition World_set_lastNeutralSpawn (v : Z) (w : World.t) : World.t :=
  World.mk (World.players w) (World.bullets w) (World.neutrals w) (World.islands w)
           (World.drones w) v (World.droneIdCounter w) (World.bulletIdCounter w)
           (World.neutralIdCounter w) (World.emitted w) (World.storage w).

Section Simulation2.

Variable Math_sqrt Math_cos Math_sin : Q -> Q.
Variable Math_atan2 : Q -> Q -> Q.
Variable toISOString : Z -> string.
Variable Math_PI : Q.

(** *** Requests of the client *)

(** [handlePlayerInput(playerId, input)] *)
Definition handlePlayerInput (playerId : string) (input : PlayerInput.t)
    (w : World.t) : World.t :=
  match players_get playerId w with
  | Some (i, _) => modPlayer i (Player_set_lastInput input) w
  | None => w
  end.

(** [handleUpgradeShipClass(playerId, shipClass)] *)
Definition handleUpgradeShipClass (playerId : string) (shipClass : ShipClass)
    (w : World.t) : World.t :=
  match players_get playerId w with
  | None => w
  | Some (i, player) =>
      if Ship.level (Player.ship player) <? SHIP_UNLOCK_LEVELS shipClass then w
      else
        let playerStats := SHIP_STATS shipClass in
        let upgrade (p : Player.t) : Player.t :=
          let ship := Ship.set_shipClass shipClass (Player.ship p) in
          let ship :=
            Ship.set_maxHealth
              (ShipStats.maxHealth playerStats
               + PlayerStats.healthBonus (Ship.stats ship) * 10) ship in
          let ship := Ship.set_health (Ship.maxHealth ship) ship in
          Player.set_ship ship p in
        let w := modPlayer i upgrade w in
        let w := sendStats i w in
        savePlayerState i w
  end.

(** *** Abilities *)

(** [spawnDrone(player)] *)
Definition spawnDrone (i : nat) (w : World.t) : World.t :=
  match World.players w !! i with
  | None => w
  | Some player =>
      let drone :=
        Drone.mk ("drone-" +:+ pretty (World.droneIdCounter w)) (Player.id player)
                 (Ship.x (Player.ship player)) (Ship.y (Player.ship player))
                 (Ship.rotation (Player.ship player)) 30 DRONE_LIFETIME in
      World_set_droneIdCounter (World.droneIdCounter w + 1)
        (World.set_drones (World.drones w ++ [drone]) w)
  end.

(** [updateAbility(player, now, lastInput)] *)
Definition updateAbility (i : nat) (now : Z) (lastInput : PlayerInput.t)
    (w : World.t) : World.t :=
  match World.players w !! i with
  | None => w
  | Some player =>
      match SHIP_ABILITIES (Ship.shipClass (Player.ship player)) with
      | None => w
      | Some abilityConfig =>
          let w :=
            modPlayer i (Player.on_ship
                           (Ship_set_abilityCooldown
                              (Z.max 0 (Player.abilityCooldownUntil player - now)))) w in
          let w :=
            if (0 <? Player.abilityActiveUntil player)
               && (Player.abilityActiveUntil player <=? now)
            then
              modPlayer i (fun p =>
                             Player_set_abilityActiveUntil 0
                               (Player.on_ship
                                  (fun s => Ship.set_isShielded false
                                              (Ship_set_isStealthed false
                                                 (Ship_set_abilityActive false s))) p)) w
            else w in
          match World.players w !! i with
          | None => w
          | Some player =>
              if PlayerInput.useAbility lastInput
                 && (Player.abilityCooldownUntil player <=? now)
                 && negb (Ship.abilityActive (Player.ship player))
              then
                let w :=
                  modPlayer i (fun p =>
                                 Player_set_abilityCooldownUntil
                                   (now + AbilityConfig.cooldown abilityConfig)
                                   (Player_set_abilityActiveUntil
                                      (now + AbilityConfig.duration abilityConfig)
                                      (Player.on_ship (Ship_set_abilityActive true) p))) w in
                match AbilityConfig.ability abilityConfig with
                | Ability.stealth => modPlayer i (Player.on_ship (Ship_set_isStealthed true)) w
                | Ability.shield => modPlayer i (Player.on_ship (Ship.set_isShielded true)) w
                | Ability.drone => spawnDrone i w
                | Ability.boost => w
                end
              else w
          end
      end
  end.

(** *** Movement of the ships *)

(** [clampEntityOutsideIslandAlongSegment(prevX, prevY, nextX, nextY,
    entityRadius, island)] on rationals; [Math.sqrt(v) || 1] falls back on
    the value 0. *)
Definition clampEntityOutsideIslandAlongSegment
    (prevX prevY nextX nextY entityRadius : Q) (island : Island.t) : Q * Q :=
  let expanded := (Island.radius island + entityRadius)%Q in
  let endDx := (nextX - Island.x island)%Q in
  let endDy := (nextY - Island.y island)%Q in
  let endDistSq := (endDx * endDx + endDy * endDy)%Q in
  if JS.ltb endDistSq (expanded * expanded) then
    let endDist := Math_sqrt endDistSq in
    let epsilon := (1 # 100)%Q in
    if JS.ltb (1 # 1000000) endDist then
      ((Island.x island + (endDx / endDist) * (expanded + epsilon))%Q,
       (Island.y island + (endDy / endDist) * (expanded + epsilon))%Q)
    else
      let mvx := (nextX - prevX)%Q in
      let mvy := (nextY - prevY)%Q in
      let mvLen :=
        let v := Math_sqrt (mvx * mvx + mvy * mvy) in
        if Qeq_bool v 0 then 1%Q else v in
      ((Island.x island + (mvx / mvLen) * (expanded + epsilon))%Q,
       (Island.y island + (mvy / mvLen) * (expanded + epsilon))%Q)
  else
    match getFirstSegmentCircleHitT Math_sqrt prevX prevY nextX nextY
            (Island.x island) (Island.y island) expanded with
    | None => (nextX, nextY)
    | Some t =>
        let hitX := (prevX + (nextX - prevX) * t)%Q in
        let hitY := (prevY + (nextY - prevY) * t)%Q in
        let nx := (hitX - Island.x island)%Q in
        let ny := (hitY - Island.y island)%Q in
        let len :=
          let v := Math_sqrt (nx * nx + ny * ny) in
          if Qeq_bool v 0 then 1%Q else v in
        let epsilon := (1 # 100)%Q in
        ((Island.x island + (nx / len) * (expanded + epsilon))%Q,
         (Island.y island + (ny / len) * (expanded + epsilon))%Q)
    end.

(** The part of the loop body of [updatePlayers] that moves the ship: the
    new ship, from the ship and the input read at the top of the body. *)
Definition moveShip (dt : Q) (islands : list Island.t) (lastInput : PlayerInput.t)
    (ship : Ship.t) : Ship.t :=
  let shipStats := SHIP_STATS (Ship.shipClass ship) in
  let speedMultiplier :=
    if Ship.abilityActive ship
       && match SHIP_ABILITIES (Ship.shipClass ship) with
          | Some c => match AbilityConfig.ability c with Ability.boost => true | _ => false end
          | None => false
          end
    then (15 # 10)%Q else 1%Q in
  let speed :=
    (inject_Z (ShipStats.speed shipStats + PlayerStats.speedBonus (Ship.stats ship) * 20)
     * speedMultiplier * (if PlayerInput.thrust lastInput then 1 else 0))%Q in
  let prevX := Ship.x ship in
  let prevY := Ship.y ship in
  let ship := Ship.set_rotation (PlayerInput.rotation lastInput) ship in
  let ship :=
    match PlayerInput.x lastInput, PlayerInput.y lastInput with
    | Some ix, Some iy => Ship.set_y iy (Ship.set_x ix ship)
    | _, _ =>
        let ship :=
          Ship_set_velocity (Math_cos (Ship.rotation ship) * speed)%Q
                            (Math_sin (Ship.rotation ship) * speed)%Q ship in
        let ship := Ship.set_x (Ship.x ship + Ship.velocityX ship * dt)%Q ship in
        Ship.set_y (Ship.y ship + Ship.velocityY ship * dt)%Q ship
    end in
  let ship :=
    Ship.set_x (JS.max (30 # 1) (Math_min (WORLD_WIDTH - (30 # 1)) (Ship.x ship))) ship in
  let ship :=
    Ship.set_y (JS.max (30 # 1) (Math_min (WORLD_HEIGHT - (30 # 1)) (Ship.y ship))) ship in
  foldl (fun ship island =>
           let swept :=
             clampEntityOutsideIslandAlongSegment prevX prevY (Ship.x ship) (Ship.y ship)
                                                  SHIP_RADIUS island in
           Ship.set_y (snd swept) (Ship.set_x (fst swept) ship))
        ship islands.

(** The loop body of [updatePlayers] for the player at position [i]. *)
Definition updatePlayer (dt : Q) (now : Z) (w : World.t) (i : nat) : World.t :=
  match World.players w !! i with
  | None => w
  | Some player =>
      if Player.isDead player then w
      else
        let lastInput := Player.lastInput player in
        let shipStats := SHIP_STATS (Ship.shipClass (Player.ship player)) in
        let w := modPlayer i (Player.on_ship (moveShip dt (World.islands w) lastInput)) w in
        let fireCooldown :=
          Z.max 100 (ShipStats.fireRate shipStats
                     - PlayerStats.reloadBonus (Ship.stats (Player.ship player)) * 50) in
        let w :=
          if PlayerInput.fire lastInput && (fireCooldown <? now - Player.lastFireTime player)
          then modPlayer i (Player_set_lastFireTime now) (spawnBullet Math_cos Math_sin i w)
          else w in
        updateAbility i now lastInput w
  end.

(** [updatePlayers(dt, now)] *)
Definition updatePlayers (dt : Q) (now : Z) (w : World.t) : World.t :=
  foldl (updatePlayer dt now) w (seq 0 (length (World.players w))).

(** *** Cargo vessels *)

(** [Phaser.Math.Clamp(value, min, max)] *)
Definition Phaser_Math_Clamp (value min max : Q) : Q := JS.max min (Math_min max value).

(** The block [if (n.type === 'cargo' && ...)] of [updateNeutrals] for the
    neutral [n]; [rnd k] is the value of the [k]-th call of [Math.random()],
    and the result carries the number of the next call. *)
Definition moveCargo (dt : Q) (islands : list Island.t) (rnd : nat -> Q) (k : nat)
    (n : NeutralObject.t) : NeutralObject.t * nat :=
  match NeutralObject.type n, NeutralObject.rotation n, NeutralObject.velocityX n,
        NeutralObject.velocityY n with
  | cargo, Some rotation, Some velocityX, Some velocityY =>
      let prevX := NeutralObject.x n in
      let prevY := NeutralObject.y n in
      let x := (NeutralObject.x n + velocityX * dt)%Q in
      let y := (NeutralObject.y n + velocityY * dt)%Q in
      let '(x, rotation, velocityX) :=
        if JS.ltb x (50 # 1) || JS.ltb (WORLD_WIDTH - (50 # 1)) x then
          let rotation := (Math_PI - rotation)%Q in
          (Phaser_Math_Clamp x (50 # 1) (WORLD_WIDTH - (50 # 1)), rotation,
           (Math_cos rotation * CARGO_SPEED)%Q)
        else (x, rotation, velocityX) in
      let '(y, rotation, velocityY) :=
        if JS.ltb y (50 # 1) || JS.ltb (WORLD_HEIGHT - (50 # 1)) y then
          let rotation := (- rotation)%Q in
          (Phaser_Math_Clamp y (50 # 1) (WORLD_HEIGHT - (50 # 1)), rotation,
           (Math_sin rotation * CARGO_SPEED)%Q)
        else (y, rotation, velocityY) in
      let '(x, y, rotation, velocityX, velocityY, k) :=
        foldl (fun '(x, y, rotation, velocityX, velocityY, k) island =>
                 let neutralRadius := (30 # 1)%Q in
                 let swept :=
                   clampEntityOutsideIslandAlongSegment prevX prevY x y neutralRadius
                                                        island in
                 if negb (Qeq_bool (fst swept) x) || negb (Qeq_bool (snd swept) y) then
                   let rotation :=
                     (rotation + (Math_PI + (rnd k * (5 # 10) - (25 # 100))))%Q in
                   (fst swept, snd swept, rotation,
                    (Math_cos rotation * CARGO_SPEED)%Q,
                    (Math_sin rotation * CARGO_SPEED)%Q, S k)
                 else (x, y, rotation, velocityX, velocityY, k))
              (x, y, rotation, velocityX, velocityY, k) islands in
      (NeutralObject.mk (NeutralObject.id n) x y (NeutralObject.type n)
                        (NeutralObject.health n) (NeutralObject.maxHealth n)
                        (NeutralObject.xpValue n) (Some rotation) (Some velocityX)
                        (Some velocityY) (NeutralObject.lastFireTime n), k)
  | _, _, _, _ => (n, k)
  end.

(** The loop body of [updateNeutrals] for the neutral at position [c]. *)
Definition updateNeutral (dt : Q) (now : Z) (rnd : nat -> Q) (st : World.t * nat)
    (c : nat) : World.t * nat :=
  let '(w, k) := st in
  match World.neutrals w !! c with
  | None => (w, k)
  | Some n =>
      let '(n', k) := moveCargo dt (World.islands w) rnd k n in
      let w := modNeutral c (fun _ => n') w in
      (turretFire Math_sqrt Math_cos Math_sin Math_atan2 now w c, k)
  end.

(** [updateNeutrals(dt)] *)
Definition updateNeutrals (dt : Q) (now : Z) (rnd : nat -> Q) (w : World.t) : World.t :=
  fst (foldl (updateNeutral dt now rnd) (w, 0%nat) (seq 0 (length (World.neutrals w)))).

(** *** Homing drones *)

(** [damageNeutral(n, damage, attackerId)] for the neutral at position [c];
    [indexOf] finds that position again. *)
Definition damageNeutral (c : nat) (damage : Z) (attackerId : string)
    (w : World.t) : World.t :=
  match World.neutrals w !! c with
  | None => w
  | Some n =>
      let health := NeutralObject.health n - damage in
      let w := modNeutral c (NeutralObject.set_health health) w in
      let w := emit (Ev.damageDealt (NeutralObject.x n) (NeutralObject.y n) damage false) w in
      if health <=? 0 then
        let w := World.set_neutrals (delete c (World.neutrals w)) w in
        match players_get attackerId w with
        | Some (player, _) =>
            let w := awardXP player (NeutralObject.xpValue n) w in
            emit (Ev.xpGained (NeutralObject.x n) (NeutralObject.y n)
                              (NeutralObject.xpValue n)) w
        | None => w
        end
      else w
  end.

(** The search for the nearest neutral within [DRONE_RANGE]: the position
    of the target and [minDist]. *)
Definition droneTarget (d : Drone.t) (w : World.t) : option nat * Q :=
  foldl (fun '(target, minDist) '(c, n) =>
           let dx := (Drone.x d - NeutralObject.x n)%Q in
           let dy := (Drone.y d - NeutralObject.y n)%Q in
           let dist := Math_sqrt (dx * dx + dy * dy) in
           if JS.ltb dist DRONE_RANGE && JS.ltb dist minDist
           then (Some c, dist) else (target, minDist))
        (None, (9999 # 1)%Q) (imap (fun c n => (c, n)) (World.neutrals w)).

(** The loop body of [updateDrones] for the drone [d]: the drone as it is
    left in the list, or [None] when it is spliced out, and the world. *)
Definition updateDrone (dt : Q) (d : Drone.t) (w : World.t) : option Drone.t * World.t :=
  let lifetime := (Drone.lifetime d - dt * (1000 # 1))%Q in
  let d := Drone.mk (Drone.id d) (Drone.ownerId d) (Drone.x d) (Drone.y d)
                    (Drone.rotation d) (Drone.health d) lifetime in
  if JS.leb lifetime 0 then (None, w)
  else
    match droneTarget d w with
    | (Some target, minDist) =>
        match World.neutrals w !! target with
        | None => (Some d, w)
        | Some t =>
            let angle :=
              Math_atan2 (NeutralObject.y t - Drone.y d)%Q (NeutralObject.x t - Drone.x d)%Q in
            let vx := (Math_cos angle * DRONE_SPEED)%Q in
            let vy := (Math_sin angle * DRONE_SPEED)%Q in
            let d := Drone.mk (Drone.id d) (Drone.ownerId d)
                              (Drone.x d + vx * dt)%Q (Drone.y d + vy * dt)%Q
                              angle (Drone.health d) (Drone.lifetime d) in
            if JS.ltb minDist (20 # 1)
            then (None, damageNeutral target DRONE_DAMAGE "drone" w)
            else (Some d, w)
        end
    | (None, _) =>
        (Some (Drone.mk (Drone.id d) (Drone.ownerId d)
                        (Drone.x d + Math_cos (Drone.rotation d) * DRONE_SPEED * dt)%Q
                        (Drone.y d + Math_sin (Drone.rotation d) * DRONE_SPEED * dt)%Q
                        (Drone.rotation d) (Drone.health d) (Drone.lifetime d)), w)
    end.

(** [updateDrones(dt)]: the loop runs from the last drone to the first;
    the drones that stay keep their order. *)
Definition updateDrones (dt : Q) (w : World.t) : World.t :=
  let '(drones, w') :=
    foldr (fun d '(kept, w) =>
             match updateDrone dt d w with
             | (Some d', w') => (d' :: kept, w')
             | (None, w') => (kept, w')
             end)
          ([], w) (World.drones w) in
  World.set_drones drones w'.

(** *** The game loop *)

(** [tick()]; every [Date.now()] of one tick reads [now]; [rnd] feeds
    [spawnNeutral] and [rnd'] the bounces of [updateNeutrals]. *)
Definition tick (now : Z) (rnd rnd' : nat -> Q) (w : World.t) : World.t :=
  let fixedDeltaTime := (TICK_INTERVAL / (1000 # 1))%Q in
  let w :=
    if NEUTRAL_SPAWN_INTERVAL <? now - World.lastNeutralSpawn w
    then World_set_lastNeutralSpawn now
           (spawnNeutral Math_sqrt Math_cos Math_sin Math_PI rnd w)
    else w in
  let w := updatePlayers fixedDeltaTime now w in
  let w := updateNeutrals fixedDeltaTime now rnd' w in
  let w := updateDrones fixedDeltaTime w in
  let w := updateBullets Math_sqrt fixedDeltaTime w in
  let w := checkCollisions Math_sqrt toISOString now w in
  broadcastGameState now w.

End Simulation2.
(** ** Vocabulary of the further properties *)

(** What collision resolution never changes of a ship, a player, a neutral
    and a drone: the object with the fields that it may assign blanked. *)
Definition shipFrame (s : Ship.t) : Ship.t :=
  Ship.set_x 0 (Ship.set_y 0 (Ship.set_health 0 (Ship.set_level 0
    (Ship.set_xp 0 (Ship.set_kills 0 (Ship.set_score 0 s)))))).

Definition playerFrame (p : Player.t) : Player.t :=
  Player.set_deathTime 0
    (Player.set_isDead false (Player.set_upgradePoints 0 (Player.on_ship shipFrame p))).

Definition neutralFrame (n : NeutralObject.t) : NeutralObject.t :=
  NeutralObject.set_health 0 n.

Definition droneFrame (d : Drone.t) : Drone.t := Drone.set_xy 0 0 d.

(** The part of the world that collision resolution keeps while it runs. *)
Definition collisionFrame (w : World.t) :=
  (map playerFrame (World.players w), World.bullets w,
   map neutralFrame (World.neutrals w), World.islands w,
   map droneFrame (World.drones w),
   (World.lastNeutralSpawn w, World.droneIdCounter w, World.bulletIdCounter w,
    World.neutralIdCounter w)).

(** A ship whose health is at most its maximum health. *)
Definition capped (p : Player.t) : Prop :=
  Ship.health (Player.ship p) <= Ship.maxHealth (Player.ship p)
  /\ 0 <= Ship.maxHealth (Player.ship p).

(** A neutral with positive health, at most its maximum health. *)
Definition afloat (n : NeutralObject.t) : Prop :=
  0 < NeutralObject.health n <= NeutralObject.maxHealth n.

(** The health bounds in the middle of a collision pass: a neutral whose
    health has dropped to 0 or below is scheduled for removal. *)
Definition healthBounds (st : Pass.t) : Prop :=
  Forall capped (World.players (Pass.world st))
  /\ forall c n, World.neutrals (Pass.world st) !! c = Some n ->
       NeutralObject.health n <= NeutralObject.maxHealth n
       /\ (0 < NeutralObject.health n
           \/ NeutralObject.id n ∈ Pass.neutralsToRemove st).

(** A player followed through collision resolution: still at position [i],
    undamaged, and with the same fields that the pass never assigns. *)
Definition keeps (i : nat) (p : Player.t) (w' : World.t) : Prop :=
  exists p', World.players w' !! i = Some p' /\ undamaged p p'
             /\ playerFrame p' = playerFrame p.

(** The states in which a ship takes no health damage from a hit. *)
Definition immune (p : Player.t) : Prop :=
  Player.isDead p = true \/ Ship.isStealthed (Player.ship p) = true
  \/ Ship.isShielded (Player.ship p) = true.

(** ** Further scenarios *)

(** Ann in a submarine, and the input that asks for the ability. *)
Definition subAnn : Player.t :=
  Player.on_ship (Ship.set_shipClass submarine) ann.

Definition subWorld : World.t :=
  World.mk [ subAnn ] [] [] [] [] 0 0 0 0 [] (Storage.mk None None).

Definition abilityInput : PlayerInput.t :=
  PlayerInput.mk None None 0 false false true.

(** What [updatePlayers] never changes of a player: the player with the
    position, heading, velocity, fire time and ability state blanked. *)
Definition motionFrame (p : Player.t) : Player.t :=
  let s := Player.ship p in
  Player.mk (Player.id p) (Player.name p)
            (Ship.mk (Ship.id s) 0 0 0 0 0 (Ship.health s) (Ship.maxHealth s)
                     (Ship.level s) (Ship.xp s) (Ship.shipClass s) (Ship.kills s)
                     (Ship.score s) (Ship.stats s) false 0 false false)
            (Player.lastInput p) (Player.spawnProtectionUntil p) 0
            (Player.upgradePoints p) (Player.isDead p) (Player.deathTime p) 0 0.

(** The cooldown between two shots of a player. *)
Definition fireCooldownOf (p : Player.t) : Z :=
  Z.max 100 (ShipStats.fireRate (SHIP_STATS (Ship.shipClass (Player.ship p)))
             - PlayerStats.reloadBonus (Ship.stats (Player.ship p)) * 50).

(** The test under which [updatePlayers] lets a player fire at [now]. *)
Definition firesAt (now : Z) (p : Player.t) : bool :=
  negb (Player.isDead p) && PlayerInput.fire (Player.lastInput p)
  && (fireCooldownOf p <? now - Player.lastFireTime p).

(** ** The start of the server *)

Section Start.
Variable Math_sqrt Math_cos Math_sin : Q -> Q.
Variable Math_PI : Q.

(** [generateIslands()]; the outlines [points] and the [seed] are left out
    with the fields of [Island] that hold them. *)
Definition generateIslands : list Island.t :=
  imap (fun index '(x, y, radius) =>
          Island.mk ("island_" +:+ pretty index) (inject_Z x) (inject_Z y) (inject_Z radius))
       [ (500, 500, 100); (2500, 500, 120); (500, 2500, 110); (2500, 2500, 105);
         (1500, 1500, 150); (1000, 800, 75); (2000, 800, 85); (800, 1800, 80);
         (2200, 2000, 90); (1500, 700, 65); (1500, 2300, 70); (700, 1200, 60);
         (2300, 1200, 65) ].

(** [spawnInitialNeutrals()]; [rnds i] holds the values of [Math.random()]
    in the [i]-th call of [spawnNeutral]. *)
Definition spawnInitialNeutrals (rnds : nat -> nat -> Q) (w : World.t) : World.t :=
  foldl (fun w i => spawnNeutral Math_sqrt Math_cos Math_sin Math_PI (rnds i) w)
        w (seq 0 30).

(** [spawnTanks()]; [rnd k] is the value of the [k]-th call of
    [Math.random()]. *)
Definition spawnTanks (rnd : nat -> Q) (w : World.t) : World.t :=
  fst (foldl (fun '(w, k) island =>
                if JS.ltb (rnd k) (5 # 10) then
                  let tank :=
                    NeutralObject.mk ("neutral-" +:+ pretty (World.neutralIdCounter w))
                                     (Island.x island) (Island.y island) tank 120 120 250
                                     (Some (rnd (S k) * Math_PI * (2 # 1))%Q)
                                     (Some 0%Q) (Some 0%Q) (Some 0) in
                  (World.set_neutralIdCounter (World.neutralIdCounter w + 1)
                     (World.set_neutrals (World.neutrals w ++ [tank]) w), S (S k))
                else (w, S k))
             (w, 0%nat) (World.islands w)).

(** The server after [new SinglePlayerServer()]: the field initialisers,
    [generateIslands()] and [start()]; [storage] is what [localStorage]
    holds. *)
Definition initialWorld (now : Z) (rnds : nat -> nat -> Q) (rnd : nat -> Q)
    (storage : Storage.t) : World.t :=
  let w := World.mk [] [] [] generateIslands [] now 0 0 0 [] storage in
  spawnTanks rnd (spawnInitialNeutrals rnds w).

End Start.

(** ** The invariant of the server *)

(** A ship in order: its health is at most its maximum health, its maximum
    health is the one of its class plus 10 per health-bonus point, and each
    of its stats has between 0 and [MAX_STAT_POINTS] points. *)
Definition shipshape (p : Player.t) : Prop :=
  let s := Player.ship p in
  Ship.health s <= Ship.maxHealth s
  /\ Ship.maxHealth s
     = ShipStats.maxHealth (SHIP_STATS (Ship.shipClass s))
       + PlayerStats.healthBonus (Ship.stats s) * 10
  /\ forall stat, 0 <= stat_get stat (Ship.stats s) <= MAX_STAT_POINTS.

(** A saved game whose stats have between 0 and [MAX_STAT_POINTS] points. *)
Definition savedGood (st : Storage.t) : Prop :=
  forall state, Storage.navalwar_save st = Some state ->
    forall stat, 0 <= stat_get stat (SaveState.stats state) <= MAX_STAT_POINTS.

Definition seaworthy (w : World.t) : Prop :=
  Forall shipshape (World.players w)
  /\ Forall afloat (World.neutrals w)
  /\ Forall (fun b => 0 <= Bullet.damage b) (World.bullets w)
  /\ savedGood (World.storage w).

(** The calls that reach the server: the game loop and the public methods
    [joinGame], [emitInput], [emitUpgradeShip], [emitUpgradeStat] and
    [emitRespawn], which act for the local player; with each call the
    values of [Date.now()] and [Math.random()] that it reads. *)
Inductive Call : Type :=
| Tick (now : Z) (rnd rnd' : nat -> Q)
| JoinGame (playerName : string) (now : Z) (r1 r2 : Q)
| EmitInput (input : PlayerInput.t)
| EmitUpgradeShip (shipClass : ShipClass)
| EmitUpgradeStat (stat : StatName)
| EmitRespawn (now : Z) (r1 r2 : Q).

Section Run.
Variable Math_sqrt Math_cos Math_sin : Q -> Q.
Variable Math_atan2 : Q -> Q -> Q.
Variable toISOString : Z -> string.
Variable Math_PI : Q.

Definition call (c : Call) (w : World.t) : World.t :=
  match c with
  | Tick now rnd rnd' =>
      tick Math_sqrt Math_cos Math_sin Math_atan2 toISOString Math_PI now rnd rnd' w
  | JoinGame playerName now r1 r2 => handleJoinGame localPlayerId playerName now r1 r2 w
  | EmitInput input => handlePlayerInput localPlayerId input w
  | EmitUpgradeShip shipClass => handleUpgradeShipClass localPlayerId shipClass w
  | EmitUpgradeStat stat => handleUpgradeStat localPlayerId stat w
  | EmitRespawn now r1 r2 => handleRespawn localPlayerId now r1 r2 w
  end.

(** A run of the server: the calls, in order. *)
Definition run (calls : list Call) (w : World.t) : World.t :=
  foldl (fun w c => call c w) w calls.

End Run.

(** What [updateNeutrals] never changes of a neutral: the neutral with its
    position, heading, velocity and fire time blanked. *)
Definition neutralVitals (n : NeutralObject.t) : NeutralObject.t :=
  NeutralObject.mk (NeutralObject.id n) 0 0 (NeutralObject.type n)
                   (NeutralObject.health n) (NeutralObject.maxHealth n)
                   (NeutralObject.xpValue n) None None None None.

(** The part of the invariant that the storage depends on: the stats of the
    players and of the saved game are within their bounds. *)
Definition statsIn (p : Player.t) : Prop :=
  forall stat, 0 <= stat_get stat (Ship.stats (Player.ship p)) <= MAX_STAT_POINTS.

Definition provisioned (w : World.t) : Prop :=
  Forall statsIn (World.players w) /\ savedGood (World.storage w).

(** ** The states that the server reaches *)

(** The game states among the notifications sent so far, oldest first. *)
Definition snapshotsOf (w : World.t) : list GameState.t :=
  omap (fun e => match e with Ev.gameState st => Some st | _ => None end)
       (World.emitted w).

(** A game state in which the health of every ship and of every neutral is
    at least 0 and at most its maximum. *)
Definition healthy (st : GameState.t) : Prop :=
  Forall (fun s => 0 <= Ship.health s <= Ship.maxHealth s) (GameState.ships st)
  /\ Forall (fun n => 0 <= NeutralObject.health n <= NeutralObject.maxHealth n)
            (GameState.neutrals st).

(** A ship whose health and maximum health are not negative. *)
Definition sturdy (p : Player.t) : Prop :=
  0 <= Ship.health (Player.ship p) /\ 0 <= Ship.maxHealth (Player.ship p).

(** A world with no player but, at most, the local player. *)
Definition solo (w : World.t) : Prop :=
  (length (World.players w) <= 1)%nat
  /\ Forall (fun p => Player.id p = localPlayerId) (World.players w).

(** The notifications other than [gameState]. *)
Definition silent (e : Ev.t) : Prop :=
  match e with Ev.gameState _ => False | _ => True end.

(** A world whose ships are sturdy and whose log holds the game states [X]. *)
Definition trim (X : list GameState.t) (w : World.t) : Prop :=
  Forall sturdy (World.players w) /\ snapshotsOf w = X.

(** The body of the bullet loop of [checkBulletShipCollisions] and of
    [checkBulletNeutralCollisions]: what the pass does for one bullet. *)
Definition bulletVsShips (toISOString : Z -> string) (now : Z)
    (shipGrid : SpatialHashGrid.t nat) (st : Pass.t) (bullet : Bullet.t) : Pass.t :=
  if bool_decide (Bullet.id bullet ∈ Pass.bulletsToRemove st) then st
  else
    bulletShipCandidates toISOString now bullet
      (SpatialHashGrid.queryInto shipGrid (Bullet.x bullet) (Bullet.y bullet)
                                 (SHIP_RADIUS + BULLET_RADIUS)%Q [])
      st.

Definition bulletVsNeutrals (neutralGrid : SpatialHashGrid.t nat) (st : Pass.t)
    (bullet : Bullet.t) : Pass.t :=
  if bool_decide (Bullet.id bullet ∈ Pass.bulletsToRemove st) then st
  else
    bulletNeutralCandidates bullet
      (SpatialHashGrid.queryInto neutralGrid (Bullet.x bullet) (Bullet.y bullet)
                                 (BULLET_RADIUS + (30 # 1))%Q [])
      st.

(** The ship that a bullet has hit, as the hit leaves it. *)
Definition shipAfterHit (now : Z) (bullet : Bullet.t) (p : Player.t) : Player.t :=
  if Ship.isShielded (Player.ship p) then p
  else
    let h := Ship.health (Player.ship p) - Bullet.damage bullet in
    if h <=? 0
    then Player.set_deathTime now
           (Player.set_isDead true (Player.on_ship (Ship.set_health 0) p))
    else Player.on_ship (Ship.set_health h) p.

(** What holds of every state that the server reaches. *)
Definition shipyard (w : World.t) : Prop :=
  seaworthy w /\ solo w /\ Forall sturdy (World.players w)
  /\ Forall healthy (snapshotsOf w).

Section Reach.
Variable Math_sqrt Math_cos Math_sin : Q -> Q.
Variable Math_atan2 : Q -> Q -> Q.
Variable toISOString : Z -> string.
Variable Math_PI : Q.

(** The states of the server: it is constructed in a browser that has
    never run the game ([localStorage] is empty) or over what an earlier
    server left in [localStorage], and then receives ticks of its game loop
    and calls of its public methods. *)
Inductive reachable : World.t -> Prop :=
| reachable_first (now : Z) (rnds : nat -> nat -> Q) (rnd : nat -> Q) :
    reachable (initialWorld Math_sqrt Math_cos Math_sin Math_PI now rnds rnd
                            (Storage.mk None None))
| reachable_reload (now : Z) (rnds : nat -> nat -> Q) (rnd : nat -> Q) (w : World.t) :
    reachable w ->
    reachable (initialWorld Math_sqrt Math_cos Math_sin Math_PI now rnds rnd
                            (World.storage w))
| reachable_call (c : Call) (w : World.t) :
    reachable w ->
    reachable (call Math_sqrt Math_cos Math_sin Math_atan2 toISOString Math_PI c w).

End Reach.

(** A server in a fresh browser after a join and one tick. *)
Definition harbourWorld : World.t :=
  call sqrt6 (fun _ => 1%Q) (fun _ => 0%Q) (fun _ _ => 0%Q) stamp (355 # 113)
    (Tick 1050 (fun _ => (1 # 2)%Q) (fun _ => (1 # 2)%Q))
    (call sqrt6 (fun _ => 1%Q) (fun _ => 0%Q) (fun _ _ => 0%Q) stamp (355 # 113)
       (JoinGame "Ann" 1000 (1 # 2) (1 # 4))
       (initialWorld sqrt6 (fun _ => 1%Q) (fun _ => 0%Q) (355 # 113) 0
          (fun i k => (Z.of_nat (7 * i + 3 * k) mod 10 # 10)%Q)
          (fun k => (Z.of_nat k mod 2 # 1)%Q)
          (Storage.mk None None))).

(** Ann alone, shielded, and a tank bullet of damage 20 within 31 of her. *)
Definition shieldedAnn : Player.t :=
  Player.on_ship (Ship.set_isShielded true)
    (newPlayer "local-player" "Ann" (100 # 1) (100 # 1) 0).

Definition soloShieldedWorld : World.t :=
  World.mk [ shieldedAnn ] [ tankBullet ] [] [] [] 0 0 8 1 [] (Storage.mk None None).

(* ===================================================================== *)
(** * Properties *)
(* ===================================================================== *)

(** ** The spatial hash grid *)

Section GridFacts.
Context {T : Type}.
Import SpatialHashGrid.

Lemma max_ge_l (a b : Q) : (a <= JS.max a b)%Q.
Proof.
    unfold JS.max. destruct (Qle_bool a b) eqn:E.
    - by apply Qle_bool_iff.
    - apply Qle_refl.
Qed.

Lemma max_ge_r (a b : Q) : (b <= JS.max a b)%Q.
Proof.
    unfold JS.max. destruct (Qle_bool a b) eqn:E.
    - apply Qle_refl.
    - apply Qlt_le_weak, Qnot_le_lt. intros H.
      apply Qle_bool_iff in H. congruence.
Qed.

Lemma Qsq_nonneg (a : Q) : (0 <= a * a)%Q.
Proof.
    destruct (Qlt_le_dec a 0) as [H|H].
    - assert (E : (a * a == (- a) * (- a))%Q) by ring. rewrite E.
      apply Qmult_le_0_compat; lra.
    - apply Qmult_le_0_compat; lra.
Qed.

Lemma Qsq_le_upper (a r : Q) : (0 <= r -> a * a <= r * r -> a <= r)%Q.
Proof.
    intros Hr H. destruct (Qlt_le_dec r a) as [Hlt|]; [|done].
    exfalso.
    assert (H1 : (r * r <= r * a)%Q).
    { rewrite (Qmult_comm r a). apply Qmult_le_compat_r; lra. }
    assert (H2 : (r * a < a * a)%Q).
    { apply Qmult_lt_compat_r; lra. }
    lra.
Qed.

Lemma Qsq_le_abs (a r : Q) : (0 <= r -> a * a <= r * r -> Qabs a <= r)%Q.
Proof.
    intros Hr H. apply Qabs_Qle_condition. split.
    - assert (- a <= r)%Q; [|lra].
      apply Qsq_le_upper; [done|].
      assert (E : (- a * - a == a * a)%Q) by ring. by rewrite E.
    - by apply Qsq_le_upper.
Qed.

Lemma cellSize_insert x y (v : T) g : cellSize (insert x y v g) = cellSize g.
Proof. unfold insert. by destruct (buckets g !! _). Qed.

Lemma cellSize_insertAll (items : list (Q * Q * T)) g :
    cellSize (insertAll items g) = cellSize g.
Proof.
    revert g. induction items as [|[[x y] v] items IH]; intros g; [done|].
    cbn. unfold insertAll in IH. rewrite IH. apply cellSize_insert.
Qed.

  (** A value stays in its bucket when more values are inserted. *)
Lemma insert_keeps x y (v w : T) g k b :
    buckets g !! k = Some b -> w ∈ b ->
    exists b', buckets (insert x y v g) !! k = Some b' /\ w ∈ b'.
Proof.
    intros Hk Hw. unfold insert.
    set (k0 := key _ _).
    destruct (decide (k0 = k)) as [->|Hne].
    - rewrite Hk. cbn. rewrite lookup_insert_eq.
      eexists; split; [done|]. apply elem_of_app; by left.
    - destruct (buckets g !! k0); cbn; (rewrite lookup_insert_ne; [|done]); eauto.
Qed.

Lemma insert_adds x y (v : T) g :
    exists b, buckets (insert x y v g)
                !! key (JS.floor (x / cellSize g)) (JS.floor (y / cellSize g)) = Some b
              /\ v ∈ b.
Proof.
    unfold insert. set (k0 := key _ _).
    destruct (buckets g !! k0); cbn; rewrite lookup_insert_eq;
      eexists; (split; [done|]); set_solver.
Qed.

Lemma insertAll_keeps (items : list (Q * Q * T)) g k b w :
    buckets g !! k = Some b -> w ∈ b ->
    exists b', buckets (insertAll items g) !! k = Some b' /\ w ∈ b'.
Proof.
    revert g b. induction items as [|[[x y] v] items IH]; intros g b Hk Hw.
    - eauto.
    - cbn. destruct (insert_keeps x y v w g k b Hk Hw) as (b' & Hb' & Hw').
      exact (IH _ _ Hb' Hw').
Qed.

Lemma insertAll_bucket (items : list (Q * Q * T)) g xi yi vi :
    (xi, yi, vi) ∈ items ->
    exists b, buckets (insertAll items g)
                !! key (JS.floor (xi / cellSize g)) (JS.floor (yi / cellSize g)) = Some b
              /\ vi ∈ b.
Proof.
    revert g. induction items as [|[[x y] v] items IH]; intros g Hin.
    - by apply elem_of_nil in Hin.
    - apply elem_of_cons in Hin as [Heq|Hin].
      + inversion Heq; subst. cbn.
        destruct (insert_adds x y v g) as (b & Hb & Hv).
        exact (insertAll_keeps items _ _ _ _ Hb Hv).
      + cbn. specialize (IH (insert x y v g) Hin).
        by rewrite cellSize_insert in IH.
Qed.

  (** The loops of [queryInto] only ever append. *)
Lemma pushCell_mono g cy out cx (w : T) : w ∈ out -> w ∈ pushCell g cy out cx.
Proof.
    intros H. unfold pushCell. destruct (buckets g !! _); [|done].
    apply elem_of_app; by left.
Qed.

Lemma row_mono g cy (cxs : list Z) out (w : T) :
    w ∈ out -> w ∈ foldl (pushCell g cy) out cxs.
Proof.
    revert out. induction cxs as [|c cxs IH]; intros out H; [done|].
    cbn. by apply IH, pushCell_mono.
Qed.

Lemma row_hit g cy (cxs : list Z) out cx b (w : T) :
    cx ∈ cxs -> buckets g !! key cx cy = Some b -> w ∈ b ->
    w ∈ foldl (pushCell g cy) out cxs.
Proof.
    revert out. induction cxs as [|c cxs IH]; intros out Hin Hb Hw.
    - by apply elem_of_nil in Hin.
    - apply elem_of_cons in Hin as [<-|Hin]; cbn.
      + apply row_mono. unfold pushCell. rewrite Hb.
        apply elem_of_app; by right.
      + by eapply IH.
Qed.

Lemma rows_mono g (cxs cys : list Z) out (w : T) :
    w ∈ out ->
    w ∈ foldl (fun out cy => foldl (pushCell g cy) out cxs) out cys.
Proof.
    revert out. induction cys as [|c cys IH]; intros out H; [done|].
    cbn. by apply IH, row_mono.
Qed.

Lemma rows_hit g (cxs cys : list Z) out cx cy b (w : T) :
    cx ∈ cxs -> cy ∈ cys -> buckets g !! key cx cy = Some b -> w ∈ b ->
    w ∈ foldl (fun out cy => foldl (pushCell g cy) out cxs) out cys.
Proof.
    revert out. induction cys as [|c cys IH]; intros out Hx Hy Hb Hw.
    - by apply elem_of_nil in Hy.
    - apply elem_of_cons in Hy as [<-|Hy]; cbn.
      + apply rows_mono. by eapply row_hit.
      + by eapply IH.
Qed.

  (** The cell of a point of the query square lies between the corner cells. *)
Lemma cell_in_range (cs x xi range : Q) :
    (0 < cs)%Q -> (Qabs (xi - x) <= range)%Q ->
    JS.floor (xi / cs)
      ∈ seqZ (JS.floor ((x - JS.max 0 range) / cs))
             (JS.floor ((x + JS.max 0 range) / cs)
              - JS.floor ((x - JS.max 0 range) / cs) + 1).
Proof.
    intros Hcs Habs.
    apply Qabs_Qle_condition in Habs as [Hlo Hhi].
    pose proof (max_ge_r 0 range) as Hr.
    assert (Hinv : (0 <= / cs)%Q) by (apply Qlt_le_weak, Qinv_lt_0_compat, Hcs).
    assert (H1 : ((x - JS.max 0 range) / cs <= xi / cs)%Q).
    { apply Qmult_le_compat_r; [lra|done]. }
    assert (H2 : (xi / cs <= (x + JS.max 0 range) / cs)%Q).
    { apply Qmult_le_compat_r; [lra|done]. }
    apply Qfloor_resp_le in H1, H2. unfold JS.floor.
    apply elem_of_seqZ. lia.
Qed.

Lemma cellSize_new_pos (cs : Q) : (0 < cellSize (@new T cs))%Q.
Proof.
    cbn. eapply Qlt_le_trans; [|apply (max_ge_l 1 cs)]. reflexivity.
Qed.

End GridFacts.

(** C9. After any sequence of [insert] calls on a fresh grid,
    [queryInto(x, y, range, out)] discards what [out] held before, and the
    result holds every value inserted at a point of the square
    [|xi - x| <= range], [|yi - y| <= range]; in particular every value
    inserted within Euclidean distance [range] of [(x, y)]. *)
Theorem C9_queryInto_superset {T : Type} (cs : Q) (items : list (Q * Q * T))
    (x y range : Q) (out : list T) :
  let g := SpatialHashGrid.insertAll items (SpatialHashGrid.new cs) in
  SpatialHashGrid.queryInto g x y range out = SpatialHashGrid.queryInto g x y range []
  /\ (forall xi yi vi, (xi, yi, vi) ∈ items ->
        (Qabs (xi - x) <= range)%Q -> (Qabs (yi - y) <= range)%Q ->
        vi ∈ SpatialHashGrid.queryInto g x y range out)
  /\ (forall xi yi vi, (xi, yi, vi) ∈ items ->
        (0 <= range)%Q ->
        ((xi - x) * (xi - x) + (yi - y) * (yi - y) <= range * range)%Q ->
        vi ∈ SpatialHashGrid.queryInto g x y range out).
Proof.
  intros g.
  assert (Hsq : forall xi yi vi, (xi, yi, vi) ∈ items ->
        (Qabs (xi - x) <= range)%Q -> (Qabs (yi - y) <= range)%Q ->
        vi ∈ SpatialHashGrid.queryInto g x y range out).
  { intros xi yi vi Hin Hx Hy.
    destruct (insertAll_bucket items (SpatialHashGrid.new cs) xi yi vi Hin)
      as (b & Hb & Hv).
    pose proof (cellSize_new_pos (T:=T) cs) as Hpos.
    unfold SpatialHashGrid.queryInto. fold g.
    assert (Hcs : SpatialHashGrid.cellSize g
                  = SpatialHashGrid.cellSize (@SpatialHashGrid.new T cs))
      by apply cellSize_insertAll.
    rewrite Hcs.
    eapply rows_hit; [ by apply cell_in_range | by apply cell_in_range | exact Hb | exact Hv ]. }
  split; [reflexivity|]. split; [exact Hsq|].
  intros xi yi vi Hin Hr Hd. apply (Hsq xi yi vi); [done| |].
  - apply Qsq_le_abs; [done|].
    pose proof (Qsq_nonneg (yi - y)). lra.
  - apply Qsq_le_abs; [done|].
    pose proof (Qsq_nonneg (xi - x)). lra.
Qed.

(** Witness of C9: three inserts, one of them in the query square. *)
Lemma C9_queryInto_superset_witness :
  5%nat ∈ SpatialHashGrid.queryInto
        (SpatialHashGrid.insertAll
           [(100 # 1, 100 # 1, 4%nat); (130 # 1, 90 # 1, 5%nat); (900 # 1, 900 # 1, 6%nat)]%Q
           (SpatialHashGrid.new (140 # 1)))
        (150 # 1) (100 # 1) (31 # 1) [9%nat].
Proof.
  apply (proj1 (proj2 (C9_queryInto_superset (140 # 1)
           [(100 # 1, 100 # 1, 4%nat); (130 # 1, 90 # 1, 5%nat); (900 # 1, 900 # 1, 6%nat)]%Q
           (150 # 1) (100 # 1) (31 # 1) [9%nat])) (130 # 1)%Q (90 # 1)%Q 5%nat).
  - apply list_elem_of_In. simpl. right. left. reflexivity.
  - vm_compute. intros H; discriminate H.
  - vm_compute. intros H; discriminate H.
Defined.

(** ** Swept collision against an island *)

Section GeometryFacts.
Import Geometry.
Local Open Scope R_scope.






Lemma hit_sound ax ay bx by_ cx cy r t :
  getFirstSegmentCircleHitT ax ay bx by_ cx cy r = Some t ->
  0 <= t <= 1 /\
  (ax + (bx - ax) * t - cx) * (ax + (bx - ax) * t - cx)
  + (ay + (by_ - ay) * t - cy) * (ay + (by_ - ay) * t - cy) = r * r.
Proof.
  unfold getFirstSegmentCircleHitT.
  set (dx := bx - ax). set (dy := by_ - ay).
  set (a := dx * dx + dy * dy).
  set (fx := ax - cx). set (fy := ay - cy).
  set (b := 2 * (fx * dx + fy * dy)).
  set (c := fx * fx + fy * fy - r * r).
  set (disc := b * b - 4 * a * c).
  destruct (Rle_dec a (1 / 1000000000)) as [Ha|Ha]; [discriminate|].
  destruct (Rlt_dec disc 0) as [Hd|Hd]; [discriminate|].
  assert (Hapos : 0 < a) by lra.
  assert (Hs : sqrt disc * sqrt disc = disc) by (apply sqrt_sqrt; lra).
  assert (Hroot : forall s, s * s = disc ->
            let t := (- b + s) * (1 / (2 * a)) in
            (ax + dx * t - cx) * (ax + dx * t - cx)
            + (ay + dy * t - cy) * (ay + dy * t - cy) = r * r).
  { intros s Hs' t0.
    assert (E : a * t0 * t0 + b * t0 + c = 0).
    { unfold t0. transitivity ((s * s - (b * b - 4 * a * c)) / (4 * a)).
      - field. lra.
      - rewrite Hs'. unfold disc. field. lra. }
    unfold a, b, c, fx, fy in E. nra. }
  intros H.
  assert (H1 := Hroot (- sqrt disc)). 
  assert (H2 := Hroot (sqrt disc) Hs).
  assert (Hs' : - sqrt disc * - sqrt disc = disc) by lra.
  specialize (H1 Hs'). cbv zeta in H1, H2.
  replace (- b + - sqrt disc) with (- b - sqrt disc) in H1 by ring.
  destruct (Rle_dec 0 _) as [L1|L1] in H.
  - destruct (Rle_dec _ 1) as [U1|U1] in H.
    + inversion H; subst t. split; [lra|exact H1].
    + destruct (Rle_dec 0 _) as [L2|L2] in H; [|discriminate].
      destruct (Rle_dec _ 1) as [U2|U2] in H; [|discriminate].
      inversion H; subst t. split; [lra|exact H2].
  - destruct (Rle_dec 0 _) as [L2|L2] in H; [|discriminate].
    destruct (Rle_dec _ 1) as [U2|U2] in H; [|discriminate].
    inversion H; subst t. split; [lra|exact H2].
Qed.

Lemma hit_complete ax ay bx by_ cx cy r t :
  1 / 1000000000 < (bx - ax) * (bx - ax) + (by_ - ay) * (by_ - ay) ->
  0 <= t <= 1 ->
  (ax + (bx - ax) * t - cx) * (ax + (bx - ax) * t - cx)
  + (ay + (by_ - ay) * t - cy) * (ay + (by_ - ay) * t - cy) = r * r ->
  exists t', getFirstSegmentCircleHitT ax ay bx by_ cx cy r = Some t'.
Proof.
  intros Hlen Ht Hon.
  unfold getFirstSegmentCircleHitT.
  set (dx := bx - ax) in *. set (dy := by_ - ay) in *.
  set (a := dx * dx + dy * dy) in *.
  set (fx := ax - cx). set (fy := ay - cy).
  set (b := 2 * (fx * dx + fy * dy)).
  set (c := fx * fx + fy * fy - r * r).
  set (disc := b * b - 4 * a * c).
  assert (E : a * t * t + b * t + c = 0).
  { unfold a, b, c, fx, fy. nra. }
  assert (Hdisc : disc = (2 * a * t + b) * (2 * a * t + b)).
  { unfold disc. nra. }
  destruct (Rle_dec a (1 / 1000000000)) as [Ha|Ha]; [lra|].
  destruct (Rlt_dec disc 0) as [Hd|Hd];
    [pose proof (Rle_0_sqr (2 * a * t + b)) as Hq; unfold Rsqr in Hq; lra|].
  assert (Hapos : 0 < a) by lra.
  assert (Hinv : forall u, u * (1 / (2 * a)) * (2 * a) = u) by (intros; field; lra).
  assert (Hcase : (- b - sqrt disc) * (1 / (2 * a)) = t
                  \/ (- b + sqrt disc) * (1 / (2 * a)) = t).
  { destruct (Rle_dec 0 (2 * a * t + b)) as [Hs|Hs].
    - right. rewrite Hdisc, sqrt_square by exact Hs. field. lra.
    - left. replace disc with ((- (2 * a * t + b)) * (- (2 * a * t + b))) by lra.
      rewrite sqrt_square by lra. field. lra. }
  destruct (Rle_dec 0 _) as [L1|L1].
  - destruct (Rle_dec _ 1) as [U1|U1]; [eauto|].
    destruct Hcase as [Hc|Hc]; [lra|].
    destruct (Rle_dec 0 _) as [L2|L2]; [|lra].
    destruct (Rle_dec _ 1) as [U2|U2]; [eauto|lra].
  - destruct Hcase as [Hc|Hc]; [lra|].
    destruct (Rle_dec 0 _) as [L2|L2]; [|lra].
    destruct (Rle_dec _ 1) as [U2|U2]; [eauto|lra].
Qed.




(** The length threshold in C5 (amended) is needed: a segment shorter than
    the 1e-9 threshold of the hit test that ends on the expanded circle is
    left where it ends, on the circle and not 0.01 outside it. *)
Lemma clamp_short_segment :
  let island := mkIsland 500 500 100 in
  segmentMeetsCircle (625 - 1 / 100000) 500 625 500 25 island
  /\ clampEntityOutsideIslandAlongSegment (625 - 1 / 100000) 500 625 500 25 island
     = (625, 500)
  /\ distSq (625, 500) island < (125 + 1 / 100) * (125 + 1 / 100).
Proof.
  intros island. split; [|split].
  - exists 1. split; [lra|]. unfold distSq, island. cbn [fst snd x y radius]. field.
  - unfold clampEntityOutsideIslandAlongSegment, island. cbn [x y radius].
    destruct (Rlt_dec _ _) as [Hlt|_]; [exfalso; lra|].
    unfold getFirstSegmentCircleHitT.
    destruct (Rle_dec _ _) as [_|Hn]; [reflexivity|].
    exfalso. apply Hn. lra.
  - unfold distSq, island. cbn [fst snd x y radius]. lra.
Qed.

End GeometryFacts.

(** ** Players through progression and death *)

Lemma alter_as_insert {A : Type} (f : A -> A) (l : list A) (i : nat) (x : A) :
  l !! i = Some x -> alter f i l = <[i := f x]> l.
Proof.
  revert i. induction l as [|a l IH]; intros [|i] H; try discriminate.
  - cbn in H. injection H as ->. reflexivity.
  - cbn. f_equal. by apply IH.
Qed.

Lemma players_emit e w : World.players (emit e w) = World.players w.
Proof. reflexivity. Qed.

Lemma players_sendStats i w : World.players (sendStats i w) = World.players w.
Proof. unfold sendStats. by destruct (World.players w !! i). Qed.

Lemma players_savePlayerState i w :
  World.players (savePlayerState i w) = World.players w.
Proof.
  unfold savePlayerState. destruct (World.players w !! i); [|done].
  by destruct (negb _).
Qed.

Lemma players_modPlayer i f w :
  World.players (modPlayer i f w) = alter f i (World.players w).
Proof. reflexivity. Qed.

Lemma players_get_Some id w i p :
  players_get id w = Some (i, p) ->
  World.players w !! i = Some p /\ Player.id p = id.
Proof.
  unfold players_get. intros H. apply list_find_Some in H. tauto.
Qed.

(** What [awardXP] does to the player it is called on. *)
Lemma awardXP_player w i player amount :
  World.players w !! i = Some player ->
  let ship := Player.ship player in
  let xp1 := Ship.xp ship + amount in
  let needed := getXPToNextLevel (Ship.level ship) in
  exists player',
    World.players (awardXP i amount w) = <[i := player']> (World.players w)
    /\ Player.id player' = Player.id player
    /\ Player.spawnProtectionUntil player' = Player.spawnProtectionUntil player
    /\ Player.isDead player' = Player.isDead player
    /\ Ship.maxHealth (Player.ship player') = Ship.maxHealth ship
    /\ Ship.stats (Player.ship player') = Ship.stats ship
    /\ Ship.score (Player.ship player') = Ship.score ship + amount * 10
    /\ if (needed <=? xp1) && (Ship.level ship <? MAX_LEVEL)
       then Ship.level (Player.ship player') = Ship.level ship + 1
            /\ Ship.xp (Player.ship player') = xp1 - needed
            /\ Player.upgradePoints player' = Player.upgradePoints player + 1
            /\ Ship.health (Player.ship player') = Ship.maxHealth ship
       else Ship.level (Player.ship player') = Ship.level ship
            /\ Ship.xp (Player.ship player') = xp1
            /\ Player.upgradePoints player' = Player.upgradePoints player
            /\ Ship.health (Player.ship player') = Ship.health ship.
Proof.
  intros Hi ship xp1 needed. unfold awardXP. rewrite Hi. cbn zeta.
  rewrite players_savePlayerState, players_sendStats.
  cbn [Ship.level Ship.set_score Ship.set_xp Ship.xp]. fold ship. fold needed. fold xp1.
  destruct ((needed <=? xp1) && (Ship.level ship <? MAX_LEVEL)) eqn:E.
  - eexists. split.
    + rewrite players_emit, players_modPlayer.
      apply (alter_as_insert _ _ _ _ Hi).
    + cbn. repeat split; reflexivity.
  - eexists. split.
    + rewrite players_modPlayer.
      apply (alter_as_insert _ _ _ _ Hi).
    + cbn. repeat split; reflexivity.
Qed.


Lemma undamaged_refl p : undamaged p p.
Proof. unfold undamaged. tauto. Qed.

Lemma undamaged_trans p q r : undamaged p q -> undamaged q r -> undamaged p r.
Proof.
  unfold undamaged. intros (?&?&?&?&?) (?&?&?&?&?).
  repeat split; try congruence.
  destruct H3, H8; [left|right|right|right]; congruence.
Qed.

Lemma stays_here i p w : World.players w !! i = Some p -> stays i p w.
Proof. intros H. exists p. split; [done|apply undamaged_refl]. Qed.

Lemma stays_players i p w w' :
  World.players w' = World.players w -> stays i p w -> stays i p w'.
Proof. unfold stays. intros ->. done. Qed.

Lemma stays_modPlayer_ne i p w k f :
  k <> i -> stays i p w -> stays i p (modPlayer k f w).
Proof.
  intros Hne (p' & Hp' & Hu). exists p'. split; [|done].
  rewrite players_modPlayer. by rewrite list_lookup_alter_ne.
Qed.

Lemma stays_modPlayer i p w k f :
  (forall q, undamaged q (f q)) -> stays i p w -> stays i p (modPlayer k f w).
Proof.
  intros Hf (p' & Hp' & Hu).
  destruct (decide (k = i)) as [->|Hne].
  - exists (f p'). split.
    + by rewrite players_modPlayer, list_lookup_alter_eq, Hp'.
    + eapply undamaged_trans; [exact Hu|apply Hf].
  - apply stays_modPlayer_ne; [done|]. by exists p'.
Qed.

Lemma stays_awardXP i p w k amount :
  stays i p w -> stays i p (awardXP k amount w).
Proof.
  intros (p' & Hp' & Hu).
  destruct (World.players w !! k) as [player|] eqn:Hk.
  - destruct (awardXP_player w k player amount Hk)
      as (q & Hq & Hid & Hsp & Hdead & Hmax & _ & _ & Hif).
    destruct (decide (k = i)) as [->|Hne].
    + exists q. split.
      * rewrite Hq. apply list_lookup_insert_eq. by eapply lookup_lt_Some.
      * assert (player = p') by congruence. subst player.
        eapply undamaged_trans; [exact Hu|].
        unfold undamaged. repeat split; try done.
        destruct (_ && _); [right|left]; tauto.
    + exists p'. split; [|done]. rewrite Hq. by rewrite list_lookup_insert_ne.
  - exists p'. split; [|done]. unfold awardXP. by rewrite Hk.
Qed.

Section DeathFacts.
Variable toISOString : Z -> string.

Lemma players_saveGameResult player now w :
  World.players (saveGameResult toISOString player now w) = World.players w.
Proof. reflexivity. Qed.

Lemma players_get_ext id w w' :
  World.players w' = World.players w -> players_get id w' = players_get id w.
Proof. unfold players_get. by intros ->. Qed.

(** A player other than the victim is not damaged by a death. *)
Lemma stays_handlePlayerDeath i p w v killerId weaponType now :
  v <> i -> stays i p w ->
  stays i p (handlePlayerDeath toISOString v killerId weaponType now w).
Proof.
  intros Hne Hs. unfold handlePlayerDeath.
  destruct (World.players w !! v) as [player|] eqn:Hv; [|done].
  destruct (Player.isDead player); [done|].
  set (w0 := if String.eqb _ _ then _ else w).
  assert (H0 : stays i p w0).
  { apply (stays_players _ _ w); [|done]. unfold w0. by destruct (String.eqb _ _). }
  clearbody w0.
  set (w1 := modPlayer v _ w0).
  assert (H1 : stays i p w1) by (by apply stays_modPlayer_ne).
  clearbody w1.
  destruct (players_get killerId w1) as [[k killer]|].
  - cbn zeta. apply (stays_players _ _ (awardXP k (100 + Ship.level (Player.ship player) * 20)
      (modPlayer k (Player.on_ship (fun s => Ship.set_score
          (Ship.score s + (100 + Ship.level (Player.ship player) * 10)) s))
        (modPlayer k (Player.on_ship (fun s => Ship.set_kills (Ship.kills s + 1) s)) w1))));
      [reflexivity|].
    apply stays_awardXP. apply stays_modPlayer; [intros q; unfold undamaged; cbn; tauto|].
    apply stays_modPlayer; [intros q; unfold undamaged; cbn; tauto|]. exact H1.
  - destruct (List.find _ _); exact H1.
Qed.

(** After a death the victim is dead. *)
Lemma handlePlayerDeath_dead w v player killerId weaponType now :
  World.players w !! v = Some player ->
  exists player',
    World.players (handlePlayerDeath toISOString v killerId weaponType now w) !! v
    = Some player' /\ Player.isDead player' = true.
Proof.
  intros Hv. unfold handlePlayerDeath. rewrite Hv.
  destruct (Player.isDead player) eqn:Hd; [eauto|].
  set (w0 := if String.eqb _ _ then _ else w).
  assert (H0 : World.players w0 = World.players w).
  { unfold w0. by destruct (String.eqb _ _). }
  clearbody w0.
  set (kill := fun p => Player.set_deathTime now (Player.set_isDead true
                          (Player.on_ship (Ship.set_health 0) p))).
  set (w1 := modPlayer v kill w0).
  assert (H1 : World.players w1 !! v = Some (kill player)).
  { unfold w1. by rewrite players_modPlayer, list_lookup_alter_eq, H0, Hv. }
  clearbody w1.
  assert (Hfin : forall w', stays v (kill player) w' ->
            exists player', World.players w' !! v = Some player'
                            /\ Player.isDead player' = true).
  { intros w' (q & Hq & Hu). exists q. split; [done|].
    destruct Hu as (_ & _ & Hdead & _). by rewrite Hdead. }
  destruct (players_get killerId w1) as [[k killer]|].
  - cbn zeta. apply Hfin.
    apply (stays_players _ _ (awardXP k (100 + Ship.level (Player.ship player) * 20)
      (modPlayer k (Player.on_ship (fun s => Ship.set_score
          (Ship.score s + (100 + Ship.level (Player.ship player) * 10)) s))
        (modPlayer k (Player.on_ship (fun s => Ship.set_kills (Ship.kills s + 1) s)) w1))));
      [reflexivity|].
    apply stays_awardXP. apply stays_modPlayer; [intros q; unfold undamaged; cbn; tauto|].
    apply stays_modPlayer; [intros q; unfold undamaged; cbn; tauto|]. by apply stays_here.
  - destruct (List.find _ _); apply Hfin; by apply stays_here.
Qed.

End DeathFacts.

(** ** XP and levels *)

(** C3 (amended). One call of [awardXP] adds the amount to the xp (and ten
    times the amount to the score) and then levels up at most once: if the
    xp now meets the threshold of the current level and the level is below
    the cap, the level goes up by one, the threshold is subtracted, one
    upgrade point is granted and the health is set to the maximum;
    otherwise level, upgrade points and health stay. *)
Theorem C3_awardXP_one_level (w : World.t) (i : nat) (player : Player.t) (amount : Z) :
  World.players w !! i = Some player ->
  let ship := Player.ship player in
  let xp1 := Ship.xp ship + amount in
  let needed := getXPToNextLevel (Ship.level ship) in
  exists player',
    World.players (awardXP i amount w) !! i = Some player'
    /\ Ship.score (Player.ship player') = Ship.score ship + amount * 10
    /\ if (needed <=? xp1) && (Ship.level ship <? MAX_LEVEL)
       then Ship.level (Player.ship player') = Ship.level ship + 1
            /\ Ship.xp (Player.ship player') = xp1 - needed
            /\ Player.upgradePoints player' = Player.upgradePoints player + 1
            /\ Ship.health (Player.ship player') = Ship.maxHealth ship
       else Ship.level (Player.ship player') = Ship.level ship
            /\ Ship.xp (Player.ship player') = xp1
            /\ Player.upgradePoints player' = Player.upgradePoints player
            /\ Ship.health (Player.ship player') = Ship.health ship.
Proof.
  intros Hi ship xp1 needed.
  destruct (awardXP_player w i player amount Hi)
    as (q & Hq & _ & _ & _ & _ & _ & Hscore & Hif).
  exists q. split; [|split; [exact Hscore|exact Hif]].
  rewrite Hq. apply list_lookup_insert_eq. by eapply lookup_lt_Some.
Qed.

(** Witness of C3: a level-1 player with 0 xp receives 30, then has 30. *)
Lemma C3_awardXP_one_level_witness :
  exists player',
    World.players (awardXP 0 30 rookieWorld) !! 0%nat = Some player'
    /\ Ship.level (Player.ship player') = 1
    /\ Ship.xp (Player.ship player') = 30.
Proof.
  destruct (C3_awardXP_one_level rookieWorld 0 _ 30 eq_refl) as (q & Hq & _ & Hif).
  exists q. split; [exact Hq|].
  vm_compute in Hif. destruct Hif as (Hl & Hx & _). split; [exact Hl|exact Hx].
Defined.

(** C3, as stated, fails: a level-1 player with 0 xp that receives the 250 xp
    of a tank is at level 2 with 200 xp, which meets the threshold 150 of
    level 2, below the cap. *)
Lemma C3_counterexample :
  exists player',
    World.players (awardXP 0 250 rookieWorld) !! 0%nat = Some player'
    /\ Ship.level (Player.ship player') = 2
    /\ Ship.level (Player.ship player') < MAX_LEVEL
    /\ Ship.xp (Player.ship player') = 200
    /\ getXPToNextLevel (Ship.level (Player.ship player')) = 150
    /\ getXPToNextLevel (Ship.level (Player.ship player')) <= Ship.xp (Player.ship player').
Proof.
  eexists. split; [vm_compute; reflexivity|].
  vm_compute. repeat split; congruence.
Qed.

(** ** Death *)

(** C6. [handlePlayerDeath] on a player that is already dead changes nothing
    in the world: players, score and kills, xp, stored values and emitted
    events are the same.  Hence a second call after any call is a no-op. *)
Theorem C6_handlePlayerDeath_idempotent (toISOString : Z -> string) (w : World.t)
    (i : nat) (player : Player.t) (killerId weaponType : string) (now : Z) :
  World.players w !! i = Some player ->
  (Player.isDead player = true ->
   handlePlayerDeath toISOString i killerId weaponType now w = w)
  /\ (forall killerId' weaponType' now',
        handlePlayerDeath toISOString i killerId' weaponType' now'
          (handlePlayerDeath toISOString i killerId weaponType now w)
        = handlePlayerDeath toISOString i killerId weaponType now w).
Proof.
  intros Hi.
  assert (Hnoop : forall w0 p k wt t,
            World.players w0 !! i = Some p -> Player.isDead p = true ->
            handlePlayerDeath toISOString i k wt t w0 = w0).
  { intros w0 p k wt t Hp Hd. unfold handlePlayerDeath. by rewrite Hp, Hd. }
  split; [apply Hnoop; exact Hi|].
  intros k' wt' t'.
  destruct (handlePlayerDeath_dead toISOString w i player killerId weaponType now Hi)
    as (q & Hq & Hd).
  exact (Hnoop _ q k' wt' t' Hq Hd).
Qed.

(** Witness of C6: Ann, already dead, dies again. *)
Lemma C6_handlePlayerDeath_idempotent_witness :
  handlePlayerDeath stamp 0 "player-2" "collision" 6000 graveWorld = graveWorld.
Proof.
  apply (proj1 (C6_handlePlayerDeath_idempotent stamp graveWorld 0 deadAnn
                  "player-2" "collision" 6000 eq_refl)).
  reflexivity.
Defined.

(** ** Stat upgrades *)

Lemma stat_get_set_eq stat v s : stat_get stat (stat_set stat v s) = v.
Proof. by destruct stat. Qed.

Lemma stat_get_set_ne stat other v s :
  other <> stat -> stat_get other (stat_set stat v s) = stat_get other s.
Proof. by destruct stat, other. Qed.

(** C8. [handleUpgradeStat] returns the world as it was when the player is
    not registered, has no upgrade point, or has the stat at the cap.
    Otherwise only that player changes: the stat is one higher, the other
    stats are the same, one upgrade point is spent and the maximum health is
    recomputed from the class and the health bonus.  So stats stay at most
    [MAX_STAT_POINTS] and upgrade points stay non-negative. *)
Theorem C8_handleUpgradeStat (w : World.t) (playerId : string) (stat : StatName) :
  (players_get playerId w = None -> handleUpgradeStat playerId stat w = w)
  /\ (forall i p, players_get playerId w = Some (i, p) ->
        Player.upgradePoints p <= 0
        \/ MAX_STAT_POINTS <= stat_get stat (Ship.stats (Player.ship p)) ->
        handleUpgradeStat playerId stat w = w)
  /\ (forall i p, players_get playerId w = Some (i, p) ->
        0 < Player.upgradePoints p ->
        stat_get stat (Ship.stats (Player.ship p)) < MAX_STAT_POINTS ->
        exists p',
          World.players (handleUpgradeStat playerId stat w) = <[i := p']> (World.players w)
          /\ stat_get stat (Ship.stats (Player.ship p'))
             = stat_get stat (Ship.stats (Player.ship p)) + 1
          /\ (forall other, other <> stat ->
                stat_get other (Ship.stats (Player.ship p'))
                = stat_get other (Ship.stats (Player.ship p)))
          /\ Player.upgradePoints p' = Player.upgradePoints p - 1
          /\ Ship.maxHealth (Player.ship p')
             = ShipStats.maxHealth (SHIP_STATS (Ship.shipClass (Player.ship p)))
               + PlayerStats.healthBonus (Ship.stats (Player.ship p')) * 10)
  /\ (Forall statsBounded (World.players w) ->
      Forall statsBounded (World.players (handleUpgradeStat playerId stat w))).
Proof.
  assert (Hchg : forall i p, players_get playerId w = Some (i, p) ->
        0 < Player.upgradePoints p ->
        stat_get stat (Ship.stats (Player.ship p)) < MAX_STAT_POINTS ->
        exists p',
          World.players (handleUpgradeStat playerId stat w) = <[i := p']> (World.players w)
          /\ stat_get stat (Ship.stats (Player.ship p'))
             = stat_get stat (Ship.stats (Player.ship p)) + 1
          /\ (forall other, other <> stat ->
                stat_get other (Ship.stats (Player.ship p'))
                = stat_get other (Ship.stats (Player.ship p)))
          /\ Player.upgradePoints p' = Player.upgradePoints p - 1
          /\ Ship.maxHealth (Player.ship p')
             = ShipStats.maxHealth (SHIP_STATS (Ship.shipClass (Player.ship p)))
               + PlayerStats.healthBonus (Ship.stats (Player.ship p')) * 10).
  { intros i p Hget Hup Hstat. unfold handleUpgradeStat. rewrite Hget.
    apply players_get_Some in Hget as [Hi _].
    destruct (Z.leb_spec (Player.upgradePoints p) 0) as [?|_]; [lia|].
    destruct (Z.leb_spec MAX_STAT_POINTS (stat_get stat (Ship.stats (Player.ship p))))
      as [?|_]; [lia|].
    rewrite players_savePlayerState, players_sendStats, players_modPlayer.
    rewrite (alter_as_insert _ _ _ _ Hi).
    eexists. split; [reflexivity|].
    unfold recalculateShipStats.
    split; [|split; [|split]].
    - destruct (0 <? _); cbn; apply stat_get_set_eq.
    - intros other Hne. destruct (0 <? _); cbn; by apply stat_get_set_ne.
    - by destruct (0 <? _).
    - by destruct (0 <? _). }
  split; [|split; [|split; [exact Hchg|]]].
  - intros Hget. unfold handleUpgradeStat. by rewrite Hget.
  - intros i p Hget Hor. unfold handleUpgradeStat. rewrite Hget.
    destruct (Z.leb_spec (Player.upgradePoints p) 0) as [?|?]; [done|].
    destruct (Z.leb_spec MAX_STAT_POINTS (stat_get stat (Ship.stats (Player.ship p))))
      as [?|?]; [done|lia].
  - intros Hall.
    destruct (players_get playerId w) as [[i p]|] eqn:Hget;
      [|unfold handleUpgradeStat; by rewrite Hget].
    destruct (Z.leb_spec (Player.upgradePoints p) 0) as [Hup|Hup];
      [unfold handleUpgradeStat; rewrite Hget;
       by destruct (Z.leb_spec (Player.upgradePoints p) 0); [|lia]|].
    destruct (Z.leb_spec MAX_STAT_POINTS (stat_get stat (Ship.stats (Player.ship p))))
      as [Hst|Hst].
    { unfold handleUpgradeStat. rewrite Hget.
      destruct (_ <=? 0); [done|].
      by destruct (Z.leb_spec MAX_STAT_POINTS (stat_get stat (Ship.stats (Player.ship p))));
        [|lia]. }
    destruct (Hchg i p eq_refl Hup Hst) as (p' & Hp' & Hs1 & Hs2 & Hu & _).
    rewrite Hp'. apply Forall_insert; [exact Hall|].
    apply players_get_Some in Hget as [Hi _].
    pose proof (proj1 (Forall_lookup _ _) Hall i p Hi) as [Hb Hnn].
    split; [|lia].
    intros s0.
    assert (Hdec : s0 = stat \/ s0 <> stat)
      by (destruct s0, stat; (by left) || (by right)).
    destruct Hdec as [->|Hne].
    + rewrite Hs1. lia.
    + rewrite (Hs2 s0 Hne). apply Hb.
Qed.

(** Witness of C8: Ann, with two upgrade points, upgrades her damage. *)
Lemma C8_handleUpgradeStat_witness :
  exists p',
    World.players (handleUpgradeStat "local-player" damageBonus upgradeWorld)
    = <[0%nat := p']> (World.players upgradeWorld)
    /\ stat_get damageBonus (Ship.stats (Player.ship p')) = 1
    /\ Player.upgradePoints p' = 1.
Proof.
  destruct (proj1 (proj2 (proj2
              (C8_handleUpgradeStat upgradeWorld "local-player" damageBonus)))
              0%nat upgradeAnn eq_refl eq_refl eq_refl)
    as (p' & Hp' & Hs & _ & Hu & _).
  exists p'. split; [exact Hp'|]. split; [exact Hs|exact Hu].
Defined.

(** ** Bullets and terrain *)

Section BulletFacts.
Variable Math_sqrt Math_cos Math_sin : Q -> Q.
Variable Math_atan2 : Q -> Q -> Q.

Lemma spawnNeutralBullet_bullets (source : NeutralObject.t) (target : nat) (w : World.t) :
  World.bullets (spawnNeutralBullet Math_cos Math_sin Math_atan2 source target w)
  = World.bullets w
  \/ exists b,
       World.bullets (spawnNeutralBullet Math_cos Math_sin Math_atan2 source target w)
       = World.bullets w ++ [b]
       /\ Bullet.ownerId b = NeutralObject.id source
       /\ Bullet.ignoreTerrain b = NeutralType_eqb (NeutralObject.type source) tank.
Proof.
  unfold spawnNeutralBullet.
  destruct (World.players w !! target); [|by left].
  right. eexists. split; [reflexivity|]. split; reflexivity.
Qed.

Lemma bulletStep_ignoreTerrain (dt : Q) (islands : list Island.t) (b : Bullet.t) :
  Bullet.ignoreTerrain b = true -> bulletStep Math_sqrt dt islands b <> HitIsland.
Proof.
  intros Hig. unfold bulletStep. cbn [Bullet.lifetime Bullet.x Bullet.y Bullet.ignoreTerrain].
  rewrite Hig. cbn [negb andb].
  destruct (_ || _); discriminate.
Qed.

Lemma bulletStep_Flies (dt : Q) (islands : list Island.t) (b b' : Bullet.t) :
  bulletStep Math_sqrt dt islands b = Flies b' ->
  Bullet.ignoreTerrain b' = Bullet.ignoreTerrain b
  /\ Bullet.ownerId b' = Bullet.ownerId b
  /\ Bullet.id b' = Bullet.id b.
Proof.
  unfold bulletStep. cbn [Bullet.lifetime Bullet.x Bullet.y Bullet.ignoreTerrain].
  destruct (_ || _); [discriminate|].
  destruct (_ && _); [discriminate|].
  intros H. injection H as <-. repeat split.
Qed.

End BulletFacts.

(** C10. [spawnBullet] appends one bullet, owned by the player, with
    [ignoreTerrain = true]; [spawnNeutralBullet] appends one with
    [ignoreTerrain] true exactly for a tank; a turret that fires is a
    lighthouse or a tank.  The island test of [updateBullets] never removes
    a bullet with [ignoreTerrain = true]: such a bullet either expires or
    stays in the list, still ignoring terrain.  So a bullet removed by the
    island test has [ignoreTerrain = false], which among created bullets
    only a lighthouse's has. *)
Theorem C10_ignoreTerrain (Math_sqrt Math_cos Math_sin : Q -> Q) (Math_atan2 : Q -> Q -> Q) :
  (forall w i player, World.players w !! i = Some player ->
     exists b,
       World.bullets (spawnBullet Math_cos Math_sin i w) = World.bullets w ++ [b]
       /\ Bullet.ownerId b = Player.id player
       /\ Bullet.ignoreTerrain b = true)
  /\ (forall w source target targetPlayer,
        World.players w !! target = Some targetPlayer ->
        exists b,
          World.bullets (spawnNeutralBullet Math_cos Math_sin Math_atan2 source target w)
          = World.bullets w ++ [b]
          /\ Bullet.ownerId b = NeutralObject.id source
          /\ Bullet.ignoreTerrain b = NeutralType_eqb (NeutralObject.type source) tank)
  /\ (forall now w c,
        World.bullets (turretFire Math_sqrt Math_cos Math_sin Math_atan2 now w c)
        = World.bullets w
        \/ exists n b,
             World.neutrals w !! c = Some n
             /\ (NeutralObject.type n = lighthouse \/ NeutralObject.type n = tank)
             /\ World.bullets (turretFire Math_sqrt Math_cos Math_sin Math_atan2 now w c)
                = World.bullets w ++ [b]
             /\ Bullet.ownerId b = NeutralObject.id n
             /\ (Bullet.ignoreTerrain b = false -> NeutralObject.type n = lighthouse))
  /\ (forall dt islands b,
        bulletStep Math_sqrt dt islands b = HitIsland -> Bullet.ignoreTerrain b = false)
  /\ (forall dt w b, b ∈ World.bullets w -> Bullet.ignoreTerrain b = true ->
        bulletStep Math_sqrt dt (World.islands w) b = Expired
        \/ exists b',
             bulletStep Math_sqrt dt (World.islands w) b = Flies b'
             /\ b' ∈ World.bullets (updateBullets Math_sqrt dt w)
             /\ Bullet.id b' = Bullet.id b
             /\ Bullet.ignoreTerrain b' = true).
Proof.
  split; [|split; [|split; [|split]]].
  - intros w i player Hi. unfold spawnBullet. rewrite Hi.
    eexists. split; [reflexivity|]. split; reflexivity.
  - intros w source target tp Ht. unfold spawnNeutralBullet. rewrite Ht.
    eexists. split; [reflexivity|]. split; reflexivity.
  - intros now w c. unfold turretFire.
    destruct (World.neutrals w !! c) as [n|] eqn:Hn; [|by left].
    destruct (NeutralType_eqb (NeutralObject.type n) lighthouse
              || NeutralType_eqb (NeutralObject.type n) tank) eqn:Hty; [|by left].
    assert (Htype : NeutralObject.type n = lighthouse \/ NeutralObject.type n = tank).
    { destruct (NeutralObject.type n); try discriminate; tauto. }
    destruct (match NeutralObject.lastFireTime n with
              | Some t => _ | None => true end); [|by left].
    destruct (nearestTarget _ _ _ _ _) as [target|]; [|by left].
    set (w1 := if NeutralType_eqb (NeutralObject.type n) tank then _ else w).
    assert (Hb1 : World.bullets w1 = World.bullets w).
    { unfold w1. destruct (NeutralType_eqb _ tank); [|done].
      by destruct (World.players w !! target). }
    clearbody w1.
    destruct (spawnNeutralBullet_bullets Math_cos Math_sin Math_atan2 n target w1)
      as [Hsame|(b & Hb & Ho & Hig)].
    + left. cbn. rewrite Hsame. exact Hb1.
    + right. exists n, b. split; [done|]. split; [done|].
      split; [cbn; by rewrite Hb, Hb1|]. split; [done|].
      intros Hf. rewrite Hf in Hig.
      destruct Htype as [?|Ht]; [done|]. rewrite Ht in Hig. discriminate.
  - intros dt islands b Hhit.
    destruct (Bullet.ignoreTerrain b) eqn:Hig; [|done].
    by apply (bulletStep_ignoreTerrain Math_sqrt dt islands) in Hig.
  - intros dt w b Hin Hig.
    destruct (bulletStep Math_sqrt dt (World.islands w) b) as [b'| |] eqn:Hstep.
    + right. exists b'. split; [done|].
      destruct (bulletStep_Flies _ _ _ _ _ Hstep) as (Hi' & _ & Hid).
      split; [|split; [done|congruence]].
      unfold updateBullets. cbn. apply list_elem_of_In, in_flat_map.
      exists b. split; [by apply list_elem_of_In|]. rewrite Hstep. by left.
    + by left.
    + by apply (bulletStep_ignoreTerrain Math_sqrt dt (World.islands w)) in Hig.
Qed.

(** Witness of C10: Ann fires; her bullet ignores terrain. *)
Lemma C10_ignoreTerrain_witness :
  exists b,
    World.bullets (spawnBullet (fun _ => 1%Q) (fun _ => 0%Q) 0 upgradeWorld)
    = World.bullets upgradeWorld ++ [b]
    /\ Bullet.ownerId b = "local-player"
    /\ Bullet.ignoreTerrain b = true.
Proof.
  exact (proj1 (C10_ignoreTerrain sqrt6 (fun _ => 1%Q) (fun _ => 0%Q) (fun _ _ => 0%Q))
               upgradeWorld 0%nat upgradeAnn eq_refl).
Defined.

(** ** Bullets on neutrals *)

Lemma neutrals_awardXP i amount w : World.neutrals (awardXP i amount w) = World.neutrals w.
Proof.
  unfold awardXP. destruct (World.players w !! i) as [player|]; [|done].
  cbn zeta.
  assert (Hsave : forall w0, World.neutrals (savePlayerState i w0) = World.neutrals w0).
  { intros w0. unfold savePlayerState. destruct (World.players w0 !! i); [|done].
    by destruct (negb _). }
  assert (Hsend : forall w0, World.neutrals (sendStats i w0) = World.neutrals w0).
  { intros w0. unfold sendStats. by destruct (World.players w0 !! i). }
  rewrite Hsave, Hsend. by destruct (_ && _).
Qed.

(** One hit that the neutral survives: only its health and the bullet's
    removal change. *)
Lemma bulletHitsNeutral_survives (bullet : Bullet.t) (c : nat) (neutral : NeutralObject.t)
    (st : Pass.t) :
  World.neutrals (Pass.world st) !! c = Some neutral ->
  0 < NeutralObject.health neutral - Bullet.damage bullet ->
  let st' := bulletHitsNeutral bullet c neutral st in
  World.neutrals (Pass.world st') !! c
  = Some (NeutralObject.set_health (NeutralObject.health neutral - Bullet.damage bullet)
                                   neutral)
  /\ World.players (Pass.world st') = World.players (Pass.world st)
  /\ Pass.neutralsToRemove st' = Pass.neutralsToRemove st
  /\ Bullet.id bullet ∈ Pass.bulletsToRemove st'.
Proof.
  intros Hc Hpos. unfold bulletHitsNeutral.
  destruct (Z.leb_spec (NeutralObject.health neutral - Bullet.damage bullet) 0); [lia|].
  cbn. rewrite list_lookup_alter_eq, Hc. split; [done|].
  split; [done|]. split; [done|]. set_solver.
Qed.

(** C4 (amended). A buoy of health 25 and xp value 8 survives two bullets of
    damage 12 with health 1: after the second hit it is not scheduled for
    removal and no player has changed.  The third such bullet, owned by a
    registered player, schedules the buoy for removal, and that player's xp
    has increased by exactly 8 unless the award makes the player level up.
    On the scenario [buoyWorld 3] the buoy is absent from the next snapshot
    and the xp went from 0 to 8. *)
Theorem C4_buoy_three_hits (st : Pass.t) (c shooter : nat) (n : NeutralObject.t)
    (sp : Player.t) (b1 b2 b3 : Bullet.t) :
  World.neutrals (Pass.world st) !! c = Some n ->
  NeutralObject.health n = 25 ->
  NeutralObject.xpValue n = 8 ->
  Bullet.damage b1 = 12 -> Bullet.damage b2 = 12 -> Bullet.damage b3 = 12 ->
  players_get (Bullet.ownerId b3) (Pass.world st) = Some (shooter, sp) ->
  NeutralObject.id n ∉ Pass.neutralsToRemove st ->
  let n1 := NeutralObject.set_health 13 n in
  let n2 := NeutralObject.set_health 1 n in
  let st1 := bulletHitsNeutral b1 c n st in
  let st2 := bulletHitsNeutral b2 c n1 st1 in
  let st3 := bulletHitsNeutral b3 c n2 st2 in
  World.neutrals (Pass.world st1) !! c = Some n1
  /\ World.neutrals (Pass.world st2) !! c = Some n2
  /\ (NeutralObject.id n ∉ Pass.neutralsToRemove st2)
  /\ World.players (Pass.world st2) = World.players (Pass.world st)
  /\ NeutralObject.id n ∈ Pass.neutralsToRemove st3
  /\ ((Ship.xp (Player.ship sp) + 8 < getXPToNextLevel (Ship.level (Player.ship sp))
       \/ MAX_LEVEL <= Ship.level (Player.ship sp)) ->
      exists sp', World.players (Pass.world st3) !! shooter = Some sp'
                  /\ Ship.xp (Player.ship sp') = Ship.xp (Player.ship sp) + 8)
  /\ (forall toISOString,
        let w' := checkCollisions sqrt6 toISOString 5000 (buoyWorld 3) in
        GameState.neutrals (snapshot 5000 w') = []
        /\ map (fun s => Ship.xp s) (GameState.ships (snapshot 5000 w')) = [8]).
Proof.
  intros Hc Hh Hxp Hd1 Hd2 Hd3 Hget Hnot n1 n2 st1 st2 st3.
  destruct (bulletHitsNeutral_survives b1 c n st Hc) as (Hc1 & Hp1 & Hr1 & _);
    [rewrite Hh, Hd1; lia|].
  rewrite Hh, Hd1 in Hc1. change (25 - 12) with 13 in Hc1. fold st1 n1 in Hc1, Hp1, Hr1.
  destruct (bulletHitsNeutral_survives b2 c n1 st1 Hc1) as (Hc2 & Hp2 & Hr2 & _);
    [unfold n1; cbn [NeutralObject.health NeutralObject.set_health]; rewrite Hd2; lia|].
  fold st2 in Hc2, Hp2, Hr2.
  assert (Hn2 : NeutralObject.set_health (NeutralObject.health n1 - Bullet.damage b2) n1 = n2).
  { unfold n1, n2. cbn. by rewrite Hd2. }
  rewrite Hn2 in Hc2.
  split; [exact Hc1|]. split; [exact Hc2|].
  split; [rewrite Hr2, Hr1; exact Hnot|]. split; [rewrite Hp2, Hp1; reflexivity|].
  assert (Hget2 : players_get (Bullet.ownerId b3)
                    (modNeutral c (NeutralObject.set_health (1 - 12)) (Pass.world st2))
                  = Some (shooter, sp)).
  { rewrite <- Hget. apply players_get_ext. cbn. by rewrite Hp2, Hp1. }
  assert (Hst3 : st3 = Pass.mk
            (emit (Ev.xpGained (NeutralObject.x n2) (NeutralObject.y n2) 8)
                  (awardXP shooter 8
                     (modNeutral c (NeutralObject.set_health (1 - 12)) (Pass.world st2))))
            ({[Bullet.id b3]} ∪ Pass.bulletsToRemove st2)
            ({[NeutralObject.id n2]} ∪ Pass.neutralsToRemove st2)).
  { unfold st3, bulletHitsNeutral.
    cbn [NeutralObject.health NeutralObject.set_health n2 NeutralObject.xpValue].
    rewrite Hd3. change (1 - 12 <=? 0) with true. cbn iota.
    rewrite Hget2. unfold n2. cbn [NeutralObject.xpValue NeutralObject.set_health].
    by rewrite Hxp. }
  split; [rewrite Hst3; cbn; apply elem_of_union; left; by apply elem_of_singleton|].
  split.
  - intros Hno. rewrite Hst3. cbn [Pass.world]. rewrite players_emit.
    assert (Hsh : World.players
                    (modNeutral c (NeutralObject.set_health (1 - 12)) (Pass.world st2))
                  !! shooter = Some sp).
    { apply players_get_Some in Hget as [Hg _]. cbn. by rewrite Hp2, Hp1. }
    destruct (awardXP_player _ shooter sp 8 Hsh)
      as (q & Hq & _ & _ & _ & _ & _ & _ & Hif).
    exists q. split.
    + rewrite Hq. apply list_lookup_insert_eq. by eapply lookup_lt_Some.
    + destruct (Z.leb_spec (getXPToNextLevel (Ship.level (Player.ship sp)))
                           (Ship.xp (Player.ship sp) + 8)) as [Hle|Hlt];
        destruct (Z.ltb_spec (Ship.level (Player.ship sp)) MAX_LEVEL) as [Hl|Hl];
        cbn [andb] in Hif; try tauto.
      destruct Hno; lia.
  - intros toISOString w'. vm_compute. split; reflexivity.
Qed.

(** Witness of C4: the three bullets of [buoyWorld 3] on its buoy. *)
Lemma C4_buoy_three_hits_witness :
  "buoy-3" ∈ Pass.neutralsToRemove
    (bulletHitsNeutral (annBullet 2) 0 (NeutralObject.set_health 1 buoy3)
       (bulletHitsNeutral (annBullet 1) 0 (NeutralObject.set_health 13 buoy3)
          (bulletHitsNeutral (annBullet 0) 0 buoy3 (Pass.mk (buoyWorld 3) ∅ ∅)))).
Proof.
  refine (proj1 (proj2 (proj2 (proj2 (proj2
    (C4_buoy_three_hits (Pass.mk (buoyWorld 3) ∅ ∅) 0 0 buoy3 ann
       (annBullet 0) (annBullet 1) (annBullet 2)
       eq_refl eq_refl eq_refl eq_refl eq_refl eq_refl eq_refl _)))))).
  cbn. apply not_elem_of_empty.
Defined.

(** C4, as stated, fails: after both bullets of [buoyWorld 2] have hit the
    buoy (both are consumed), the buoy is in the next snapshot with health
    1 and Ann's xp is still 0. *)
Lemma C4_counterexample :
  let w' := checkCollisions sqrt6 stamp 5000 (buoyWorld 2) in
  map Bullet.damage (World.bullets (buoyWorld 2)) = [12; 12]
  /\ World.bullets w' = []
  /\ map (fun n => (NeutralObject.id n, NeutralObject.health n))
         (GameState.neutrals (snapshot 5000 w')) = [("buoy-3", 1)]
  /\ map Ship.xp (GameState.ships (snapshot 5000 w')) = [0].
Proof. vm_compute. repeat split; reflexivity. Qed.

(** ** Spawn protection *)

Section ProtectionFacts.
Variable Math_sqrt : Q -> Q.
Variable toISOString : Z -> string.
Variable now : Z.
Variable pi : nat.
Variable p0 : Player.t.
Hypothesis protected : now < Player.spawnProtectionUntil p0.

(** A candidate that passes the protection test is not the protected player. *)
Lemma unprotected_other (w : World.t) (c : nat) (player : Player.t) :
  stays pi p0 w -> World.players w !! c = Some player ->
  (now <? Player.spawnProtectionUntil player) = false -> c <> pi.
Proof.
  intros (p' & Hp' & Hu) Hc Hguard ->.
  assert (player = p') by congruence. subst player.
  destruct Hu as (_ & Hsp & _). rewrite Hsp in Hguard.
  apply Z.ltb_ge in Hguard. lia.
Qed.

Lemma bulletShipCandidates_stays (bullet : Bullet.t) (candidates : list nat) (st : Pass.t) :
  stays pi p0 (Pass.world st) ->
  stays pi p0 (Pass.world (bulletShipCandidates toISOString now bullet candidates st)).
Proof.
  revert st. induction candidates as [|c rest IH]; intros st Hs; [done|].
  cbn [bulletShipCandidates]. cbv zeta.
  destruct (World.players (Pass.world st) !! c) as [player|] eqn:Hc; [|by apply IH].
  destruct (String.eqb _ _); [by apply IH|].
  destruct (Player.isDead player); [by apply IH|].
  destruct (Ship.isStealthed _); [by apply IH|].
  destruct (now <? Player.spawnProtectionUntil player) eqn:Hguard; [by apply IH|].
  assert (Hne : c <> pi) by (by eapply unprotected_other).
  destruct (JS.ltb _ _); [|by apply IH].
  destruct (Ship.isShielded _).
  - apply IH. cbn [Pass.world]. by apply (stays_players _ _ (Pass.world st)).
  - cbn [Pass.world].
    set (w1 := emit _ (modPlayer c _ (Pass.world st))).
    assert (H1 : stays pi p0 w1).
    { apply (stays_players _ _ (modPlayer c
               (Player.on_ship (Ship.set_health
                  (Ship.health (Player.ship player) - Bullet.damage bullet)))
               (Pass.world st))); [done|].
      by apply stays_modPlayer_ne. }
    destruct (_ <=? 0); [|done].
    by apply stays_handlePlayerDeath.
Qed.

Lemma checkBulletShipCollisions_stays (shipGrid : SpatialHashGrid.t nat) (st : Pass.t) :
  stays pi p0 (Pass.world st) ->
  stays pi p0 (Pass.world (checkBulletShipCollisions toISOString now shipGrid st)).
Proof.
  unfold checkBulletShipCollisions.
  generalize (World.bullets (Pass.world st)). intros bs. revert st.
  induction bs as [|b bs IH]; intros st Hs; [done|].
  cbn [foldl]. apply IH.
  destruct (bool_decide _); [done|]. by apply bulletShipCandidates_stays.
Qed.

Lemma droneShip_stays (d : nat) (w : World.t) (c : nat) :
  stays pi p0 w -> stays pi p0 (droneShip Math_sqrt toISOString now d w c).
Proof.
  intros Hs. unfold droneShip.
  destruct (World.drones w !! d) as [dr|]; [|done].
  destruct (World.players w !! c) as [player|] eqn:Hc; [|done].
  cbv zeta.
  destruct (_ || _); [done|].
  destruct (Ship.isStealthed _); [done|].
  destruct (now <? Player.spawnProtectionUntil player) eqn:Hguard; [done|].
  assert (Hne : c <> pi) by (by eapply unprotected_other).
  destruct (_ && _); [|done].
  apply (stays_players _ _
           (if negb (Ship.isShielded (Player.ship player))
            then
              let health := Ship.health (Player.ship player) - DRONE_DAMAGE in
              let w1 := modPlayer c (Player.on_ship (Ship.set_health health)) w in
              let w2 := emit (Ev.damageDealt (Ship.x (Player.ship player))
                                             (Ship.y (Player.ship player))
                                             DRONE_DAMAGE false) w1 in
              if health <=? 0
              then handlePlayerDeath toISOString c (Drone.ownerId dr) "drone" now w2
              else w2
            else w)); [reflexivity|].
  destruct (negb _); [|done]. cbv zeta.
  assert (H1 : stays pi p0
                 (emit (Ev.damageDealt (Ship.x (Player.ship player))
                                       (Ship.y (Player.ship player)) DRONE_DAMAGE false)
                       (modPlayer c (Player.on_ship
                          (Ship.set_health (Ship.health (Player.ship player) - DRONE_DAMAGE)))
                          w))).
  { apply (stays_players _ _ (modPlayer c (Player.on_ship
             (Ship.set_health (Ship.health (Player.ship player) - DRONE_DAMAGE))) w));
      [done|]. by apply stays_modPlayer_ne. }
  destruct (_ <=? 0); [|done].
  by apply stays_handlePlayerDeath.
Qed.

Lemma droneNeutral_stays (d owner : nat) (st : Pass.t) (c : nat) :
  stays pi p0 (Pass.world st) ->
  stays pi p0 (Pass.world (droneNeutral d owner st c)).
Proof.
  intros Hs. unfold droneNeutral.
  destruct (World.drones (Pass.world st) !! d) as [dr|]; [|done].
  destruct (World.neutrals (Pass.world st) !! c) as [neutral|]; [|done].
  destruct (bool_decide _); [done|]. cbv zeta.
  destruct (JS.ltb _ _); [|done].
  destruct (_ <=? 0); cbn [Pass.world].
  - apply (stays_players _ _ (awardXP owner (NeutralObject.xpValue neutral)
             (modNeutral c (NeutralObject.set_health
                              (NeutralObject.health neutral - DRONE_DAMAGE))
                         (Pass.world st)))); [done|].
    apply stays_awardXP. by apply (stays_players _ _ (Pass.world st)).
  - by apply (stays_players _ _ (Pass.world st)).
Qed.

Lemma foldl_stays {A : Type} (f : World.t -> A -> World.t) (l : list A) (w : World.t) :
  (forall w a, stays pi p0 w -> stays pi p0 (f w a)) ->
  stays pi p0 w -> stays pi p0 (foldl f w l).
Proof.
  intros Hf. revert w. induction l as [|a l IH]; intros w Hs; [done|].
  cbn. by apply IH, Hf.
Qed.

Lemma foldl_pass_stays {A : Type} (f : Pass.t -> A -> Pass.t) (l : list A) (st : Pass.t) :
  (forall st a, stays pi p0 (Pass.world st) -> stays pi p0 (Pass.world (f st a))) ->
  stays pi p0 (Pass.world st) -> stays pi p0 (Pass.world (foldl f st l)).
Proof.
  intros Hf. revert st. induction l as [|a l IH]; intros st Hs; [done|].
  cbn. by apply IH, Hf.
Qed.

Lemma droneCollisions_stays (shipGrid neutralGrid : SpatialHashGrid.t nat)
    (st : Pass.t) (d : nat) :
  stays pi p0 (Pass.world st) ->
  stays pi p0 (Pass.world (droneCollisions Math_sqrt toISOString now
                                           shipGrid neutralGrid st d)).
Proof.
  intros Hs. unfold droneCollisions. cbv zeta.
  destruct (World.drones (Pass.world st) !! d) as [dr|]; [|done].
  destruct (players_get _ _) as [[owner ?]|]; [|done].
  set (w1 := foldl _ (Pass.world st) _).
  assert (H1 : stays pi p0 w1).
  { apply foldl_stays; [|done]. intros w a. apply droneShip_stays. }
  clearbody w1.
  destruct (World.drones w1 !! d) as [dr'|]; [|done].
  apply foldl_pass_stays; [|done]. intros st' a. apply droneNeutral_stays.
Qed.

Lemma checkDroneCollisions_stays (shipGrid neutralGrid : SpatialHashGrid.t nat)
    (st : Pass.t) :
  stays pi p0 (Pass.world st) ->
  stays pi p0 (Pass.world (checkDroneCollisions Math_sqrt toISOString now
                                                shipGrid neutralGrid st)).
Proof.
  intros Hs. unfold checkDroneCollisions.
  apply foldl_pass_stays; [|done]. intros st' d. apply droneCollisions_stays.
Qed.

(** The target of a turret is alive, visible and past its protection. *)
Lemma nearestTarget_Some (n : NeutralObject.t) (range : Q) (w : World.t) (t : nat) :
  nearestTarget Math_sqrt now n range w = Some t ->
  exists p, World.players w !! t = Some p
            /\ Player.isDead p = false
            /\ Ship.isStealthed (Player.ship p) = false
            /\ (now <? Player.spawnProtectionUntil p) = false.
Proof.
  unfold nearestTarget.
  set (good := fun o : option nat =>
                 match o with
                 | None => True
                 | Some t => exists p, World.players w !! t = Some p
                              /\ Player.isDead p = false
                              /\ Ship.isStealthed (Player.ship p) = false
                              /\ (now <? Player.spawnProtectionUntil p) = false
                 end).
  match goal with |- context [foldl ?g _ _] => set (f := g) end.
  assert (Hinv : forall l acc,
            (forall i p, (i, p) ∈ l -> World.players w !! i = Some p) ->
            good (fst acc) -> good (fst (foldl f acc l))).
  { induction l as [|[i p] l IH]; intros [target minDist] Hl Hacc; [done|].
    cbn [foldl]. apply IH; [intros; apply Hl; by right|].
    unfold f. cbn [fst].
    destruct (Player.isDead p || Ship.isStealthed (Player.ship p)) eqn:Hds; [done|].
    destruct (now <? Player.spawnProtectionUntil p) eqn:Hguard; [done|].
    destruct (JS.ltb _ _); [|done].
    cbn. exists p. apply orb_false_elim in Hds as [? ?].
    split; [apply Hl; by left|done]. }
  intros Ht.
  specialize (Hinv (imap (fun i p => (i, p)) (World.players w)) (None, range)).
  rewrite Ht in Hinv. apply Hinv; [|done].
  intros i p Hin. apply elem_of_lookup_imap in Hin as (j & q & Heq & Hj).
  by injection Heq as -> ->.
Qed.

Lemma nearestTarget_not_protected (n : NeutralObject.t) (range : Q) (w : World.t) :
  stays pi p0 w -> nearestTarget Math_sqrt now n range w <> Some pi.
Proof.
  intros (p' & Hp' & Hu) Ht.
  apply nearestTarget_Some in Ht as (p & Hp & _ & _ & Hguard).
  assert (p = p') by congruence. subst p.
  destruct Hu as (_ & Hsp & _). rewrite Hsp in Hguard.
  apply Z.ltb_ge in Hguard. lia.
Qed.

End ProtectionFacts.

(** C7. A player whose protection deadline is after [now] is not damaged by
    the bullet pass nor by the drone pass run at [now]: after either pass
    the player is still registered with the same deadline and maximum
    health, and the health is what it was or the maximum (a level-up heal),
    hence not lower when it was at most the maximum.  A turret that looks
    for a target at [now] never selects that player. *)
Theorem C7_spawn_protection (Math_sqrt : Q -> Q) (toISOString : Z -> string) (now : Z)
    (st : Pass.t) (pi : nat) (p : Player.t) :
  World.players (Pass.world st) !! pi = Some p ->
  now < Player.spawnProtectionUntil p ->
  (forall shipGrid,
     exists p',
       World.players (Pass.world (checkBulletShipCollisions toISOString now shipGrid st))
         !! pi = Some p'
       /\ undamaged p p'
       /\ (Ship.health (Player.ship p) <= Ship.maxHealth (Player.ship p) ->
           Ship.health (Player.ship p) <= Ship.health (Player.ship p')))
  /\ (forall shipGrid neutralGrid,
        exists p',
          World.players (Pass.world (checkDroneCollisions Math_sqrt toISOString now
                                       shipGrid neutralGrid st)) !! pi = Some p'
          /\ undamaged p p'
          /\ (Ship.health (Player.ship p) <= Ship.maxHealth (Player.ship p) ->
              Ship.health (Player.ship p) <= Ship.health (Player.ship p')))
  /\ (forall n range, nearestTarget Math_sqrt now n range (Pass.world st) <> Some pi).
Proof.
  intros Hp Hprot.
  assert (Hs : stays pi p (Pass.world st)) by (by apply stays_here).
  assert (Hfin : forall w', stays pi p w' ->
            exists p', World.players w' !! pi = Some p' /\ undamaged p p'
              /\ (Ship.health (Player.ship p) <= Ship.maxHealth (Player.ship p) ->
                  Ship.health (Player.ship p) <= Ship.health (Player.ship p'))).
  { intros w' (p' & Hp' & Hu). exists p'. split; [done|]. split; [done|].
    destruct Hu as (_ & _ & _ & _ & [Hh|Hh]); lia. }
  split; [|split].
  - intros shipGrid. apply Hfin. by apply checkBulletShipCollisions_stays.
  - intros shipGrid neutralGrid. apply Hfin. by apply checkDroneCollisions_stays.
  - intros n range. by apply (nearestTarget_not_protected _ _ _ p).
Qed.

(** Witness of C7: at time 1000 Bob, who joined at time 0, is protected
    from the tank bullet of [shieldedWorld]. *)
Lemma C7_spawn_protection_witness :
  exists p',
    World.players
      (Pass.world (checkBulletShipCollisions stamp 1000
                     (shipGridOf shieldedWorld (livingPlayersOf shieldedWorld))
                     (Pass.mk shieldedWorld ∅ ∅))) !! 1%nat = Some p'
    /\ undamaged (bobAt (110 # 1)) p'.
Proof.
  destruct (proj1 (C7_spawn_protection sqrt6 stamp 1000 (Pass.mk shieldedWorld ∅ ∅)
                     1 (bobAt (110 # 1)) eq_refl eq_refl)
                  (shipGridOf shieldedWorld (livingPlayersOf shieldedWorld)))
    as (p' & Hp' & Hu & _).
  exists p'. split; [exact Hp'|exact Hu].
Defined.

(** ** The collision pass on ships *)

(** What the passes do on a world with two registered ships, a state that
    the server does not reach: it registers the local player only.  In
    [rammedWorld] the tank bullet kills Ann in the bullet pass
    ([handlePlayerDeath] sets her health to 0); she is still in
    [livingPlayers] and in the ship grid, so the ship pass separates her from
    Bob and takes 1 health from both.  The snapshot emitted next shows Ann
    with health -1. *)
Lemma rammed_ships_below_zero (toISOString : Z -> string) :
  let st1 :=
    checkBulletShipCollisions toISOString 5000
      (shipGridOf rammedWorld (livingPlayersOf rammedWorld))
      (Pass.mk rammedWorld ∅ ∅) in
  let w' := checkCollisions sqrt6 toISOString 5000 rammedWorld in
  map (fun p => (Ship.health (Player.ship p), Player.isDead p))
      (World.players (Pass.world st1)) = [(0, true); (100, false)]
  /\ last (World.emitted (broadcastGameState 5000 w'))
     = Some (Ev.gameState (snapshot 5000 w'))
  /\ map (fun s => (Ship.id s, Ship.health s, Ship.maxHealth s))
         (GameState.ships (snapshot 5000 w'))
     = [("local-player", -1, 100); ("player-2", 99, 100)].
Proof.
  intros st1 w'. split; [vm_compute; reflexivity|]. split.
  - unfold broadcastGameState, emit. cbn. apply last_snoc.
  - vm_compute. reflexivity.
Qed.

(** With two registered ships, again a state that the server does not
    reach: in [shieldedWorld] the tank bullet is within 31 of shielded Ann and
    of Bob.  The hit on Ann puts the bullet in the removal set and deals no
    damage, then the candidate loop goes on ([continue]) and the same bullet
    takes 20 health from Bob. *)
Lemma shielded_hit_continues (toISOString : Z -> string) :
  let shipGrid := shipGridOf shieldedWorld (livingPlayersOf shieldedWorld) in
  let st0 := Pass.mk shieldedWorld ∅ ∅ in
  let afterAnn := bulletShipCandidates toISOString 5000 tankBullet [0%nat] st0 in
  let st1 := checkBulletShipCollisions toISOString 5000 shipGrid st0 in
  SpatialHashGrid.queryInto shipGrid (Bullet.x tankBullet) (Bullet.y tankBullet)
                            (SHIP_RADIUS + BULLET_RADIUS)%Q [] = [0%nat; 1%nat]
  /\ bool_decide (Bullet.id tankBullet ∈ Pass.bulletsToRemove afterAnn) = true
  /\ map (fun p => Ship.health (Player.ship p)) (World.players (Pass.world afterAnn))
     = [100; 100]
  /\ map (fun p => Ship.health (Player.ship p)) (World.players (Pass.world st1))
     = [100; 80]
  /\ World.emitted (Pass.world st1)
     = [Ev.damageDealt (100 # 1) (100 # 1) 0 false;
        Ev.damageDealt (110 # 1) (100 # 1) 20 false].
Proof.
  intros shipGrid st0 afterAnn st1. vm_compute. repeat split; reflexivity.
Qed.

(** At most one ship loses health to a bullet in [checkBulletShipCollisions]:
    every player but one comes out of the candidate loop undamaged. *)
Lemma bulletShipCandidates_one_victim (toISOString : Z -> string) (now : Z)
    (bullet : Bullet.t) (candidates : list nat) (st : Pass.t) :
  exists victim, forall j p,
    j <> victim -> World.players (Pass.world st) !! j = Some p ->
    stays j p (Pass.world (bulletShipCandidates toISOString now bullet candidates st)).
Proof.
  revert st. induction candidates as [|c rest IH]; intros st.
  { exists 0%nat. intros j p _ Hj. by apply stays_here. }
  cbn [bulletShipCandidates]. cbv zeta.
  destruct (World.players (Pass.world st) !! c) as [player|] eqn:Hc; [|apply IH].
  destruct (String.eqb _ _); [apply IH|].
  destruct (Player.isDead player); [apply IH|].
  destruct (Ship.isStealthed _); [apply IH|].
  destruct (now <? Player.spawnProtectionUntil player); [apply IH|].
  destruct (JS.ltb _ _); [|apply IH].
  destruct (Ship.isShielded _).
  - match goal with |- context [bulletShipCandidates _ _ _ _ ?st'] =>
      destruct (IH st') as [victim Hv] end.
    exists victim. intros j p Hne Hj. by apply Hv.
  - exists c. intros j p Hne Hj. cbn [Pass.world].
    set (w1 := emit _ (modPlayer c _ (Pass.world st))).
    assert (H1 : stays j p w1).
    { apply (stays_players _ _ (modPlayer c
               (Player.on_ship (Ship.set_health
                  (Ship.health (Player.ship player) - Bullet.damage bullet)))
               (Pass.world st))); [done|].
      apply stays_modPlayer_ne; [done|]. by apply stays_here. }
    destruct (_ <=? 0); [|done].
    apply stays_handlePlayerDeath; [done|exact H1].
Qed.

(** ** Where the values of the scenarios come from *)

(** A bullet of a patrol boat without damage bonus has damage 12. *)
Lemma spawnBullet_patrol_damage (Math_cos Math_sin : Q -> Q) (w : World.t) (i : nat)
    (player : Player.t) :
  World.players w !! i = Some player ->
  Ship.shipClass (Player.ship player) = patrol_boat ->
  PlayerStats.damageBonus (Ship.stats (Player.ship player)) = 0 ->
  exists b, World.bullets (spawnBullet Math_cos Math_sin i w) = World.bullets w ++ [b]
            /\ Bullet.damage b = 12.
Proof.
  intros Hi Hc Hd. unfold spawnBullet. rewrite Hi.
  eexists. split; [reflexivity|]. cbn. by rewrite Hc, Hd.
Qed.

(** A buoy made by [spawnNeutral] has health 25 of 25 and xp value 8. *)
Lemma spawnNeutral_buoy (Math_sqrt Math_cos Math_sin : Q -> Q) (Math_PI : Q)
    (rnd : nat -> Q) (w : World.t) :
  World.neutrals (spawnNeutral Math_sqrt Math_cos Math_sin Math_PI rnd w) = World.neutrals w
  \/ exists n,
       World.neutrals (spawnNeutral Math_sqrt Math_cos Math_sin Math_PI rnd w)
       = World.neutrals w ++ [n]
       /\ NeutralObject.health n = NeutralObject.maxHealth n
       /\ (NeutralObject.type n = buoy ->
           NeutralObject.health n = 25 /\ NeutralObject.xpValue n = 8).
Proof.
  unfold spawnNeutral.
  destruct (_ <=? _)%nat; [by left|]. cbv zeta.
  destruct (spawnPosition _ _ _ _ _) as [[[x y] k]|]; [|by left].
  right. eexists. split; [reflexivity|]. split; [reflexivity|].
  cbn. destruct (JS.ltb (rnd 0%nat) (6 # 10)); [done|].
  destruct (JS.ltb (rnd 0%nat) (9 # 10)); discriminate.
Qed.

(** A respawn at [now] protects the player until [now + 3000] and restores
    full health. *)
Lemma handleRespawn_protection (playerId : string) (now : Z) (r1 r2 : Q) (w : World.t)
    (i : nat) (p : Player.t) :
  players_get playerId w = Some (i, p) ->
  exists p', World.players (handleRespawn playerId now r1 r2 w) !! i = Some p'
             /\ Player.spawnProtectionUntil p' = now + 3000
             /\ Player.isDead p' = false
             /\ Ship.health (Player.ship p') = Ship.maxHealth (Player.ship p').
Proof.
  intros Hget. unfold handleRespawn. rewrite Hget.
  apply players_get_Some in Hget as [Hi _]. cbv zeta.
  rewrite players_sendStats, players_emit, players_savePlayerState, players_modPlayer.
  rewrite list_lookup_alter_eq, Hi. eexists. split; [reflexivity|]. by cbn.
Qed.

(** A player that joins at [now] is protected until [now + 3000]. *)
Lemma handleJoinGame_protection (playerId playerName : string) (now : Z) (r1 r2 : Q)
    (w : World.t) :
  exists i p', players_get playerId (handleJoinGame playerId playerName now r1 r2 w)
               = Some (i, p')
               /\ Player.spawnProtectionUntil p' = now + 3000.
Proof.
  unfold handleJoinGame. cbv zeta.
  set (player := loadPlayerState w _).
  assert (Hid : Player.id player = playerId).
  { unfold player, loadPlayerState.
    destruct (Storage.navalwar_save (World.storage w)); [|done].
    unfold recalculateShipStats. cbn. reflexivity. }
  assert (Hsp : Player.spawnProtectionUntil player = now + 3000).
  { unfold player, loadPlayerState.
    destruct (Storage.navalwar_save (World.storage w)); [|done].
    unfold recalculateShipStats. cbn. reflexivity. }
  clearbody player.
  set (w2 := emit _ (emit _ (players_set playerId player w))).
  assert (Hget : exists i, players_get playerId w2 = Some (i, player)).
  { unfold w2, players_get. cbn [World.players emit World.set_emitted].
    unfold players_set, players_get.
    destruct (list_find _ (World.players w)) as [[i q]|] eqn:Hf.
    - exists i. cbn [World.players World.set_players].
      apply list_find_Some in Hf as (Hi & _ & Hmin).
      apply list_find_Some. split; [|split; [done|]].
      + apply list_lookup_insert_eq. by eapply lookup_lt_Some.
      + intros j y Hj Hlt. rewrite list_lookup_insert_ne in Hj by lia. by eapply Hmin.
    - exists (length (World.players w)). cbn [World.players World.set_players].
      apply list_find_None in Hf.
      apply list_find_Some. split; [|split; [done|]].
      + by rewrite lookup_app_r, Nat.sub_diag by lia.
      + intros j y Hj Hlt. rewrite lookup_app_l in Hj by done.
        rewrite Forall_forall in Hf. apply Hf.
        by eapply list_elem_of_lookup_2. }
  destruct Hget as [i Hget]. rewrite Hget.
  exists i, player. split; [|done].
  rewrite <- Hget. apply players_get_ext. apply players_sendStats.
Qed.

(* ===================================================================== *)
(** * Further properties of the server *)
(* ===================================================================== *)

(** ** The grid: cell keys *)

Ltac int32_arith :=
  unfold JS.ToInt32, JS.ToUint32; cbv zeta;
  change (2 ^ 32) with 4294967296 in *; change (2 ^ 31) with 2147483648 in *;
  change (2 ^ 16) with 65536 in *;
  repeat match goal with
         | |- context [?a <? ?b] => destruct (Z.ltb_spec a b)
         end;
  Z.div_mod_to_equations; lia.

Lemma ToInt32_mod (z : Z) : JS.ToInt32 z mod 2 ^ 32 = z mod 2 ^ 32.
Proof. int32_arith. Qed.

Lemma ToInt32_fix (z : Z) : - 2 ^ 31 <= z < 2 ^ 31 -> JS.ToInt32 z = z.
Proof. intros H. int32_arith. Qed.

Lemma ToInt32_range (z : Z) : - 2 ^ 31 <= JS.ToInt32 z < 2 ^ 31.
Proof. int32_arith. Qed.

Lemma band_ffff (c : Z) : JS.band c 0xffff = c mod 2 ^ 16.
Proof.
  unfold JS.band. rewrite (ToInt32_fix 0xffff) by lia.
  change 0xffff with (Z.ones 16). rewrite Z.land_ones by lia.
  int32_arith.
Qed.

(** Two numbers on disjoint bit ranges: [|] is [+]. *)
Lemma lor_shifted (a b : Z) :
  0 <= a -> 0 <= b < 2 ^ 16 -> Z.lor (a * 2 ^ 16) b = a * 2 ^ 16 + b.
Proof.
  intros Ha Hb.
  assert (Hland : Z.land (a * 2 ^ 16) b = 0).
  { apply Z.bits_inj'. intros i Hi. rewrite Z.land_spec, Z.bits_0.
    destruct (Z.lt_ge_cases i 16) as [Hlt|Hge].
    - rewrite Z.mul_pow2_bits_low by lia. reflexivity.
    - rewrite (Z.bits_above_log2 b i); [apply andb_false_r|lia|].
      destruct (Z.eq_dec b 0) as [->|Hnz]; [cbn; lia|].
      assert (Z.log2 b < 16) by (apply Z.log2_lt_pow2; lia). lia. }
  rewrite <- Z.lxor_lor by exact Hland.
  symmetry. by apply Z.add_nocarry_lxor.
Qed.

Lemma key_formula (cx cy : Z) :
  SpatialHashGrid.key cx cy = (cx mod 65536) * 65536 + cy mod 65536.
Proof.
  unfold SpatialHashGrid.key. rewrite !band_ffff.
  change (2 ^ 16) with 65536.
  pose proof (Z.mod_pos_bound cx 65536 ltac:(lia)) as Ha.
  pose proof (Z.mod_pos_bound cy 65536 ltac:(lia)) as Hb.
  set (a := cx mod 65536) in *. set (b := cy mod 65536) in *.
  unfold JS.ushr, JS.bor, JS.shl.
  change (JS.ToUint32 0 mod 32) with 0. change (JS.ToUint32 16 mod 32) with 16.
  rewrite Z.shiftr_0_r.
  rewrite (ToInt32_fix a) by lia. rewrite (ToInt32_fix b) by lia.
  rewrite Z.shiftl_mul_pow2 by lia.
  rewrite (ToInt32_fix (JS.ToInt32 _)) by apply ToInt32_range.
  unfold JS.ToUint32.
  rewrite <- (Z.land_ones _ 32) by lia.
  rewrite Z.land_lor_distr_l, !Z.land_ones by lia.
  rewrite ToInt32_mod.
  rewrite (Z.mod_small (a * 2 ^ 16)) by lia. rewrite (Z.mod_small b) by lia.
  apply lor_shifted; lia.
Qed.

Lemma grid_key_congruent (cx cy cx' cy' : Z) :
  SpatialHashGrid.key cx cy = SpatialHashGrid.key cx' cy' ->
  cx mod 65536 = cx' mod 65536 /\ cy mod 65536 = cy' mod 65536.
Proof.
  rewrite !key_formula.
  pose proof (Z.mod_pos_bound cx 65536 ltac:(lia)).
  pose proof (Z.mod_pos_bound cy 65536 ltac:(lia)).
  pose proof (Z.mod_pos_bound cx' 65536 ltac:(lia)).
  pose proof (Z.mod_pos_bound cy' 65536 ltac:(lia)).
  lia.
Qed.

(** X1. The key of a cell packs the low 16 bits of both cell coordinates:
    it is [(cx mod 65536) * 65536 + cy mod 65536], a number below [2^32];
    two cells share a bucket exactly when their coordinates agree modulo
    65536. *)
Theorem grid_key_packing (cx cy cx' cy' : Z) :
  SpatialHashGrid.key cx cy = (cx mod 65536) * 65536 + cy mod 65536
  /\ 0 <= SpatialHashGrid.key cx cy < 2 ^ 32
  /\ (SpatialHashGrid.key cx cy = SpatialHashGrid.key cx' cy'
      <-> cx mod 65536 = cx' mod 65536 /\ cy mod 65536 = cy' mod 65536).
Proof.
  rewrite !key_formula.
  pose proof (Z.mod_pos_bound cx 65536 ltac:(lia)).
  pose proof (Z.mod_pos_bound cy 65536 ltac:(lia)).
  pose proof (Z.mod_pos_bound cx' 65536 ltac:(lia)).
  pose proof (Z.mod_pos_bound cy' 65536 ltac:(lia)).
  split; [reflexivity|]. split; [change (2 ^ 32) with 4294967296; lia|].
  split; [intros Heq; lia|intros [-> ->]; reflexivity].
Qed.

(** ** The grid: what a query returns *)

Section GridOrigin.
Context {T : Type}.
Import SpatialHashGrid.

Lemma insert_origin (x y : Q) (w v : T) (g : t T) (k : Z) (b : list T) :
  buckets (insert x y w g) !! k = Some b -> v ∈ b ->
  (exists b0, buckets g !! k = Some b0 /\ v ∈ b0)
  \/ (v = w /\ k = key (JS.floor (x / cellSize g)) (JS.floor (y / cellSize g))).
Proof.
  unfold insert. set (k0 := key _ _). intros Hk Hv.
  destruct (decide (k0 = k)) as [<-|Hne].
  - destruct (buckets g !! k0) as [b0|] eqn:Hb0; cbn in Hk;
      rewrite lookup_insert_eq in Hk; injection Hk as <-.
    + apply elem_of_app in Hv as [Hv|Hv]; [left; eauto|].
      apply list_elem_of_singleton in Hv. by right.
    + apply list_elem_of_singleton in Hv. by right.
  - left. destruct (buckets g !! k0); cbn in Hk;
      rewrite lookup_insert_ne in Hk by done; eauto.
Qed.

Lemma insertAll_origin (items : list (Q * Q * T)) (g : t T) (k : Z) (b : list T) (v : T) :
  buckets (insertAll items g) !! k = Some b -> v ∈ b ->
  (exists b0, buckets g !! k = Some b0 /\ v ∈ b0)
  \/ (exists xi yi, (xi, yi, v) ∈ items
        /\ k = key (JS.floor (xi / cellSize g)) (JS.floor (yi / cellSize g))).
Proof.
  revert g. induction items as [|[[x y] w] items IH]; intros g Hk Hv.
  - left. eauto.
  - cbn in Hk. destruct (IH _ Hk Hv) as [(b0 & Hb0 & Hv0)|(xi & yi & Hin & ->)].
    + destruct (insert_origin x y w v g k b0 Hb0 Hv0) as [?|[-> ->]]; [by left|].
      right. exists x, y. split; [by left|done].
    + right. exists xi, yi. split; [by right|]. by rewrite cellSize_insert.
Qed.

Lemma row_origin (g : t T) (cy : Z) (cxs : list Z) (out : list T) (v : T) :
  v ∈ foldl (pushCell g cy) out cxs ->
  v ∈ out \/ exists cx b, cx ∈ cxs /\ buckets g !! key cx cy = Some b /\ v ∈ b.
Proof.
  revert out. induction cxs as [|c cxs IH]; intros out Hv; [by left|].
  cbn in Hv. apply IH in Hv as [Hv|(cx & b & Hin & Hb & Hvb)].
  - unfold pushCell in Hv. destruct (buckets g !! key c cy) as [b|] eqn:Hb; [|by left].
    apply elem_of_app in Hv as [Hv|Hv]; [by left|].
    right. exists c, b. split; [by left|done].
  - right. exists cx, b. split; [by right|done].
Qed.

Lemma rows_origin (g : t T) (cxs cys : list Z) (out : list T) (v : T) :
  v ∈ foldl (fun out cy => foldl (pushCell g cy) out cxs) out cys ->
  v ∈ out
  \/ exists cx cy b, cx ∈ cxs /\ cy ∈ cys /\ buckets g !! key cx cy = Some b /\ v ∈ b.
Proof.
  revert out. induction cys as [|c cys IH]; intros out Hv; [by left|].
  cbn in Hv. apply IH in Hv as [Hv|(cx & cy & b & Hx & Hy & Hb & Hvb)].
  - apply row_origin in Hv as [Hv|(cx & b & Hx & Hb & Hvb)]; [by left|].
    right. exists cx, c, b. split; [done|]. split; [by left|done].
  - right. exists cx, cy, b. split; [done|]. split; [by right|done].
Qed.

End GridOrigin.

(** A quotient between two integers has its floor between them. *)
Lemma floor_div_between (c q : Q) (lo hi : Z) :
  (0 < c)%Q -> (inject_Z lo * c <= q)%Q -> (q < inject_Z hi * c)%Q ->
  lo <= JS.floor (q / c) < hi.
Proof.
  intros Hc Hlo Hhi. unfold JS.floor.
  assert (H1 : (inject_Z lo <= q / c)%Q) by (by apply Qle_shift_div_l).
  assert (H2 : (q / c < inject_Z hi)%Q) by (by apply Qlt_shift_div_r).
  split.
  - apply Qfloor_resp_le in H1. by rewrite Qfloor_Z in H1.
  - pose proof (Qfloor_le (q / c)) as H3.
    assert (H4 : (inject_Z (Qfloor (q / c)) < inject_Z hi)%Q).
    { revert H2 H3. generalize (q / c)%Q. intros qq.
      generalize (inject_Z (Qfloor qq)) (inject_Z hi). intros; lra. }
    by rewrite <- Zlt_Qlt in H4.
Qed.

(** Cells at most one apart: the points are less than a cell plus the
    difference of the quotients apart. *)
Lemma floor_le_gap (c a b : Q) :
  (0 < c)%Q -> JS.floor (a / c) <= JS.floor (b / c) -> (a - c < b)%Q.
Proof.
  intros Hc Hle. unfold JS.floor in Hle.
  pose proof (Qlt_floor (a / c)) as Ha. pose proof (Qfloor_le (b / c)) as Hb.
  rewrite Zle_Qle in Hle. rewrite inject_Z_plus in Ha.
  change (inject_Z 1) with 1%Q in Ha.
  assert (H : (a / c - 1 < b / c)%Q).
  { revert Hle Ha Hb. generalize (a / c)%Q (b / c)%Q.
    intros qa qb. generalize (inject_Z (Qfloor qa)) (inject_Z (Qfloor qb)).
    intros; lra. }
  assert (Hm : ((a / c - 1) * c < b / c * c)%Q) by (apply Qmult_lt_compat_r; done).
  assert (E1 : ((a / c - 1) * c == a - c)%Q) by (field; lra).
  assert (E2 : (b / c * c == b)%Q) by (field; lra).
  by rewrite E1, E2 in Hm.
Qed.

(** X2. A query returns only inserted values, and only from cells that
    agree modulo 65536 with a cell of the query square.  When every
    inserted point and the query square lie within 32768 cells of the
    origin on both axes, in either direction (coordinates from
    [-32768 * cellSize] up to, not including, [32768 * cellSize]), each
    returned value was inserted less than [range + cellSize] away from the
    query point on both axes. *)
Theorem grid_query_sound {T : Type} (cs : Q) (items : list (Q * Q * T))
    (x y range : Q) (out : list T) (v : T) :
  let c := JS.max 1 cs in
  let r := JS.max 0 range in
  v ∈ SpatialHashGrid.queryInto
        (SpatialHashGrid.insertAll items (SpatialHashGrid.new cs)) x y range out ->
  (exists xi yi cx cy,
     (xi, yi, v) ∈ items
     /\ JS.floor ((x - r) / c) <= cx <= JS.floor ((x + r) / c)
     /\ JS.floor ((y - r) / c) <= cy <= JS.floor ((y + r) / c)
     /\ JS.floor (xi / c) mod 65536 = cx mod 65536
     /\ JS.floor (yi / c) mod 65536 = cy mod 65536)
  /\ ((forall xi yi w, (xi, yi, w) ∈ items ->
         (- (32768) * c <= xi)%Q /\ (xi < 32768 * c)%Q
         /\ (- (32768) * c <= yi)%Q /\ (yi < 32768 * c)%Q) ->
      (- (32768) * c <= x - r)%Q -> (x + r < 32768 * c)%Q ->
      (- (32768) * c <= y - r)%Q -> (y + r < 32768 * c)%Q ->
      exists xi yi, (xi, yi, v) ∈ items
        /\ (x - r - c < xi)%Q /\ (xi < x + r + c)%Q
        /\ (y - r - c < yi)%Q /\ (yi < y + r + c)%Q).
Proof.
  intros c r Hv.
  assert (Hc : (0 < c)%Q) by apply (cellSize_new_pos (T:=T) cs).
  assert (Hfirst : exists xi yi cx cy,
     (xi, yi, v) ∈ items
     /\ JS.floor ((x - r) / c) <= cx <= JS.floor ((x + r) / c)
     /\ JS.floor ((y - r) / c) <= cy <= JS.floor ((y + r) / c)
     /\ JS.floor (xi / c) mod 65536 = cx mod 65536
     /\ JS.floor (yi / c) mod 65536 = cy mod 65536).
  { unfold SpatialHashGrid.queryInto in Hv. cbv zeta in Hv.
    rewrite cellSize_insertAll in Hv.
    change (SpatialHashGrid.cellSize (SpatialHashGrid.new cs)) with c in Hv.
    fold r in Hv.
    apply rows_origin in Hv as [Hv|(cx & cy & b & Hx & Hy & Hb & Hvb)];
      [by apply elem_of_nil in Hv|].
    apply elem_of_seqZ in Hx, Hy.
    destruct (insertAll_origin _ _ _ _ _ Hb Hvb)
      as [(b0 & Hb0 & _)|(xi & yi & Hin & Hk)];
      [cbn in Hb0; by rewrite lookup_empty in Hb0|].
    change (SpatialHashGrid.cellSize (SpatialHashGrid.new cs)) with c in Hk.
    symmetry in Hk. apply grid_key_congruent in Hk as [Hkx Hky].
    exists xi, yi, cx, cy. split; [done|]. split; [lia|]. split; [lia|done]. }
  split; [exact Hfirst|].
  intros Hitems Hx1 Hx2 Hy1 Hy2.
  destruct Hfirst as (xi & yi & cx & cy & Hin & Hcx & Hcy & Hmx & Hmy).
  destruct (Hitems _ _ _ Hin) as (Hxi0 & Hxi1 & Hyi0 & Hyi1).
  assert (Hr : (0 <= r)%Q) by apply max_ge_l.
  assert (Hcell : forall q, (- (32768) * c <= q)%Q -> (q < 32768 * c)%Q ->
            - 32768 <= JS.floor (q / c) < 32768).
  { intros q H1 H2. apply floor_div_between; [done| |]; done. }
  pose proof (Hcell xi Hxi0 Hxi1) as Bxi.
  pose proof (Hcell yi Hyi0 Hyi1) as Byi.
  pose proof (Hcell (x - r)%Q Hx1 ltac:(lra)) as Bx1.
  pose proof (Hcell (x + r)%Q ltac:(lra) Hx2) as Bx2.
  pose proof (Hcell (y - r)%Q Hy1 ltac:(lra)) as By1.
  pose proof (Hcell (y + r)%Q ltac:(lra) Hy2) as By2.
  assert (Ex : JS.floor (xi / c) = cx)
    by (revert Hmx; Z.div_mod_to_equations; lia).
  assert (Ey : JS.floor (yi / c) = cy)
    by (revert Hmy; Z.div_mod_to_equations; lia).
  exists xi, yi. split; [done|].
  pose proof (floor_le_gap c (x - r) xi Hc ltac:(lia)).
  pose proof (floor_le_gap c xi (x + r) Hc ltac:(lia)).
  pose proof (floor_le_gap c (y - r) yi Hc ltac:(lia)).
  pose proof (floor_le_gap c yi (y + r) Hc ltac:(lia)).
  repeat split; lra.
Qed.

(** Witness of X2: with points on both sides of the origin, the value
    inserted at (-130, 90) is returned by the query around (-150, 100). *)
Lemma grid_query_sound_witness :
  exists xi yi,
    (xi, yi, 5%nat)
      ∈ [(100 # 1, 100 # 1, 4%nat); (- 130 # 1, 90 # 1, 5%nat);
         (900 # 1, - 900 # 1, 6%nat)]%Q
    /\ ((- 150 # 1) - JS.max 0 (31 # 1) - JS.max 1 (140 # 1) < xi)%Q
    /\ (xi < (- 150 # 1) + JS.max 0 (31 # 1) + JS.max 1 (140 # 1))%Q
    /\ ((100 # 1) - JS.max 0 (31 # 1) - JS.max 1 (140 # 1) < yi)%Q
    /\ (yi < (100 # 1) + JS.max 0 (31 # 1) + JS.max 1 (140 # 1))%Q.
Proof.
  refine (proj2 (grid_query_sound (140 # 1)
            [(100 # 1, 100 # 1, 4%nat); (- 130 # 1, 90 # 1, 5%nat);
             (900 # 1, - 900 # 1, 6%nat)]%Q
            (- 150 # 1) (100 # 1) (31 # 1) [] 5%nat _) _ _ _ _ _).
  - vm_compute. apply list_elem_of_In. simpl. left. reflexivity.
  - intros xi yi w Hin. apply list_elem_of_In in Hin. simpl in Hin.
    destruct Hin as [H|[H|[H|[]]]]; injection H as <- <- <-;
      vm_compute; repeat split; discriminate.
  - vm_compute. discriminate.
  - vm_compute. reflexivity.
  - vm_compute. discriminate.
  - vm_compute. reflexivity.
Defined.

(** ** Sorting by score *)

Section SortFacts.
Context {A : Type} (key : A -> Z).

Lemma insertDesc_perm (a : A) (l : list A) : insertDesc key a l ≡ₚ a :: l.
Proof.
  induction l as [|b l IH]; [done|]. cbn.
  destruct (key b <=? key a); [done|]. rewrite IH. apply Permutation_swap.
Qed.

Lemma sortDesc_perm (l : list A) : sortDesc key l ≡ₚ l.
Proof.
  induction l as [|a l IH]; [done|]. cbn.
  rewrite insertDesc_perm. by rewrite IH.
Qed.

Lemma insertDesc_sorted (a : A) (l : list A) :
  StronglySorted (fun x y => key y <= key x) l ->
  StronglySorted (fun x y => key y <= key x) (insertDesc key a l).
Proof.
  induction 1 as [|b l Hs IH Hall]; cbn.
  - by repeat constructor.
  - destruct (Z.leb_spec (key b) (key a)) as [Hle|Hlt].
    + constructor; [by constructor|].
      constructor; [done|]. eapply Forall_impl; [exact Hall|]. cbn. intros; lia.
    + constructor; [done|].
      rewrite insertDesc_perm. constructor; [lia|done].
Qed.

Lemma sortDesc_sorted (l : list A) :
  StronglySorted (fun x y => key y <= key x) (sortDesc key l).
Proof.
  induction l as [|a l IH]; cbn; [constructor|]. by apply insertDesc_sorted.
Qed.

(** The sort is stable: the elements of one key keep their order. *)
Lemma insertDesc_stable (k : Z) (a : A) (l : list A) :
  List.filter (fun x => key x =? k) (insertDesc key a l)
  = List.filter (fun x => key x =? k) (a :: l).
Proof.
  induction l as [|b l IH]; [done|]. cbn [insertDesc].
  destruct (Z.leb_spec (key b) (key a)) as [Hle|Hlt]; [done|].
  cbn [List.filter] in *. rewrite IH.
  destruct (Z.eqb_spec (key a) k) as [Ha|Ha]; [|done].
  destruct (Z.eqb_spec (key b) k) as [Hb|Hb]; [lia|done].
Qed.

Lemma sortDesc_stable (k : Z) (l : list A) :
  List.filter (fun x => key x =? k) (sortDesc key l)
  = List.filter (fun x => key x =? k) l.
Proof.
  induction l as [|a l IH]; [done|]. cbn [sortDesc foldr].
  rewrite insertDesc_stable. cbn [List.filter].
  unfold sortDesc in IH. by rewrite IH.
Qed.

Lemma sorted_take (n : nat) (l : list A) :
  StronglySorted (fun x y => key y <= key x) l ->
  StronglySorted (fun x y => key y <= key x) (take n l).
Proof.
  intros Hs. rewrite <- (take_drop n l) in Hs.
  by apply StronglySorted_app_1_l in Hs.
Qed.

Lemma sorted_take_drop (n : nat) (l : list A) (x y : A) :
  StronglySorted (fun x y => key y <= key x) l ->
  x ∈ take n l -> y ∈ drop n l -> key y <= key x.
Proof.
  intros Hs Hx Hy. rewrite <- (take_drop n l) in Hs.
  exact (StronglySorted_app_1_elem_of _ _ _ _ _ Hs Hx Hy).
Qed.

End SortFacts.

(** ** The leaderboard of a snapshot *)

(** X3. The leaderboard holds the entries of living players only, at most
    ten, in descending order of score; a living player that is left out has
    a score no higher than any score on the board; with at most ten living
    players all of them are listed, players of equal score in the order in
    which they joined. *)
Theorem getLeaderboard_top10 (w : World.t) :
  let entry := fun p =>
    LeaderboardEntry.mk (Player.id p) (Player.name p)
      (Ship.score (Player.ship p)) (Ship.kills (Player.ship p))
      (Ship.level (Player.ship p)) (Ship.shipClass (Player.ship p)) in
  let living := List.filter (fun p => negb (Player.isDead p)) (World.players w) in
  let board := getLeaderboard w in
  length board = Nat.min 10 (length living)
  /\ StronglySorted (fun a b => LeaderboardEntry.score b <= LeaderboardEntry.score a) board
  /\ (forall e, e ∈ board ->
        exists p, p ∈ World.players w /\ Player.isDead p = false /\ e = entry p)
  /\ (forall p e, p ∈ living -> entry p ∉ board -> e ∈ board ->
        Ship.score (Player.ship p) <= LeaderboardEntry.score e)
  /\ ((length living <= 10)%nat ->
      board ≡ₚ map entry living
      /\ forall s, List.filter (fun e => LeaderboardEntry.score e =? s) board
                   = List.filter (fun e => LeaderboardEntry.score e =? s) (map entry living)).
Proof.
  intros entry living board.
  set (sorted := sortDesc LeaderboardEntry.score (map entry living)).
  assert (Hboard : board = take 10 sorted) by reflexivity.
  assert (Hperm : sorted ≡ₚ map entry living) by apply sortDesc_perm.
  assert (Hsorted : StronglySorted
            (fun a b => LeaderboardEntry.score b <= LeaderboardEntry.score a) sorted)
    by apply sortDesc_sorted.
  assert (Hlen : length sorted = length living).
  { rewrite Hperm. apply length_map. }
  split; [rewrite Hboard, length_take, Hlen; reflexivity|].
  split; [rewrite Hboard; by apply sorted_take|].
  split; [|split].
  - intros e He. rewrite Hboard in He. apply subseteq_take in He.
    rewrite Hperm in He. apply list_elem_of_fmap in He as (p & -> & Hp).
    unfold living in Hp. apply list_elem_of_In, filter_In in Hp as [Hp Hd].
    exists p. split; [by apply list_elem_of_In|]. split; [|done].
    by destruct (Player.isDead p).
  - intros p e Hp Hnot He.
    assert (Hin : entry p ∈ sorted).
    { rewrite Hperm. apply list_elem_of_fmap. eauto. }
    rewrite <- (take_drop 10 sorted) in Hin.
    apply elem_of_app in Hin as [Hin|Hin]; [by rewrite Hboard in Hnot|].
    rewrite Hboard in He.
    exact (sorted_take_drop LeaderboardEntry.score 10 sorted e (entry p) Hsorted He Hin).
  - intros Hfew.
    assert (Hall : board = sorted).
    { rewrite Hboard. apply take_ge. lia. }
    rewrite Hall. split; [exact Hperm|]. intros s. apply sortDesc_stable.
Qed.

(** ** The stored high scores *)

(** X4. [saveGameResult] stores the player's name and score as the last
    game and keeps at most ten high scores, in descending order of score,
    each of them a score stored before or the new one; the new one is kept
    when fewer than ten were stored.  Nothing but the stored leaderboard
    changes. *)
Theorem saveGameResult_highScores (toISOString : Z -> string) (player : Player.t)
    (now : Z) (w : World.t) :
  let entry :=
    ScoreEntry.mk (Player.name player) (Ship.score (Player.ship player)) (toISOString now) in
  let old :=
    match Storage.navalwar_leaderboard (World.storage w) with
    | Some data => LeaderboardData.highScores data
    | None => []
    end in
  let w' := saveGameResult toISOString player now w in
  exists highScores,
    World.storage w'
    = Storage.mk (Storage.navalwar_save (World.storage w))
                 (Some (LeaderboardData.mk (Some entry) highScores))
    /\ w' = World.set_storage (World.storage w') w
    /\ length highScores = Nat.min 10 (S (length old))
    /\ StronglySorted (fun a b => ScoreEntry.score b <= ScoreEntry.score a) highScores
    /\ (forall e, e ∈ highScores -> e = entry \/ e ∈ old)
    /\ ((length old < 10)%nat -> highScores ≡ₚ entry :: old)
    /\ (forall e, e ∈ highScores -> entry ∉ highScores ->
          ScoreEntry.score entry <= ScoreEntry.score e).
Proof.
  intros entry old w'.
  set (sorted := sortDesc ScoreEntry.score (old ++ [entry])).
  assert (Hperm : sorted ≡ₚ entry :: old).
  { unfold sorted. rewrite sortDesc_perm. by rewrite Permutation_app_comm. }
  assert (Hsorted : StronglySorted
            (fun a b => ScoreEntry.score b <= ScoreEntry.score a) sorted)
    by apply sortDesc_sorted.
  exists (take 10 sorted).
  split.
  { unfold w', saveGameResult, old, sorted, entry.
    by destruct (Storage.navalwar_leaderboard (World.storage w)). }
  split; [reflexivity|].
  split; [rewrite length_take, Hperm; reflexivity|].
  split; [by apply sorted_take|].
  split; [|split].
  - intros e He. apply subseteq_take in He. rewrite Hperm in He.
    by apply elem_of_cons in He.
  - intros Hfew. rewrite take_ge; [done|]. rewrite Hperm. cbn. lia.
  - intros e He Hnot.
    assert (Hin : entry ∈ sorted) by (rewrite Hperm; by left).
    rewrite <- (take_drop 10 sorted) in Hin.
    apply elem_of_app in Hin as [Hin|Hin]; [done|].
    exact (sorted_take_drop ScoreEntry.score 10 sorted e entry Hsorted He Hin).
Qed.

(** ** Sequences of XP awards *)

Lemma awardXP_other (w : World.t) (i j : nat) (amount : Z) :
  i <> j -> World.players (awardXP i amount w) !! j = World.players w !! j.
Proof.
  intros Hne. destruct (World.players w !! i) as [player|] eqn:Hi.
  - destruct (awardXP_player w i player amount Hi) as (q & Hq & _).
    rewrite Hq. by apply list_lookup_insert_ne.
  - unfold awardXP. by rewrite Hi.
Qed.

(** X5. Over any sequence of non-negative XP awards to a player whose level
    is at most the cap and whose xp is non-negative: the level never
    decreases and never exceeds the cap, the upgrade points gained equal
    the levels gained, the xp stays non-negative, the score grows by ten
    times the XP awarded, and no other player changes. *)
Theorem awardXP_sequence (w : World.t) (i : nat) (player : Player.t) (amounts : list Z) :
  World.players w !! i = Some player ->
  Forall (fun a => 0 <= a) amounts ->
  0 <= Ship.xp (Player.ship player) ->
  Ship.level (Player.ship player) <= MAX_LEVEL ->
  let w' := foldl (fun w a => awardXP i a w) w amounts in
  (exists player',
     World.players w' !! i = Some player'
     /\ Ship.level (Player.ship player) <= Ship.level (Player.ship player') <= MAX_LEVEL
     /\ Player.upgradePoints player' - Player.upgradePoints player
        = Ship.level (Player.ship player') - Ship.level (Player.ship player)
     /\ 0 <= Ship.xp (Player.ship player')
     /\ Ship.score (Player.ship player')
        = Ship.score (Player.ship player) + 10 * foldr Z.add 0 amounts)
  /\ (forall j, j <> i -> World.players w' !! j = World.players w !! j).
Proof.
  intros Hi Hpos. revert w player Hi.
  induction Hpos as [|a amounts Ha Hpos IH]; intros w player Hi Hxp Hlv; cbn zeta.
  { split; [|done]. exists player. cbn. repeat split; try done; lia. }
  cbn [foldl foldr].
  destruct (awardXP_player w i player a Hi)
    as (q & Hq & _ & _ & _ & _ & _ & Hscore & Hif).
  assert (Hiq : World.players (awardXP i a w) !! i = Some q).
  { rewrite Hq. apply list_lookup_insert_eq. by eapply lookup_lt_Some. }
  assert (Hstep : Ship.level (Player.ship player) <= Ship.level (Player.ship q) <= MAX_LEVEL
                  /\ Player.upgradePoints q - Player.upgradePoints player
                     = Ship.level (Player.ship q) - Ship.level (Player.ship player)
                  /\ 0 <= Ship.xp (Player.ship q)).
  { destruct (Z.leb_spec (getXPToNextLevel (Ship.level (Player.ship player)))
                         (Ship.xp (Player.ship player) + a));
      destruct (Z.ltb_spec (Ship.level (Player.ship player)) MAX_LEVEL);
      cbn [andb] in Hif; destruct Hif as (Hl & Hx & Hu & _); lia. }
  destruct Hstep as (Hl1 & Hu1 & Hx1).
  destruct (IH (awardXP i a w) q Hiq Hx1 ltac:(lia))
    as [(q' & Hq' & Hl2 & Hu2 & Hx2 & Hs2) Hother].
  split.
  - exists q'. split; [exact Hq'|]. split; [lia|]. split; [lia|]. split; [lia|].
    rewrite Hs2, Hscore. lia.
  - intros j Hne. rewrite (Hother j Hne). by apply awardXP_other.
Qed.

(** Witness of X5: Ann receives 250, 8 and 25 xp. *)
Lemma awardXP_sequence_witness :
  exists player',
    World.players (foldl (fun w a => awardXP 0 a w) rookieWorld [250; 8; 25]) !! 0%nat
    = Some player'
    /\ Ship.level (Player.ship ann) <= Ship.level (Player.ship player') <= MAX_LEVEL
    /\ Player.upgradePoints player' - Player.upgradePoints ann
       = Ship.level (Player.ship player') - Ship.level (Player.ship ann)
    /\ 0 <= Ship.xp (Player.ship player')
    /\ Ship.score (Player.ship player')
       = Ship.score (Player.ship ann) + 10 * foldr Z.add 0 [250; 8; 25].
Proof.
  refine (proj1 (awardXP_sequence rookieWorld 0 ann [250; 8; 25] eq_refl _ _ _)).
  - repeat constructor; discriminate.
  - discriminate.
  - discriminate.
Defined.

(** ** Saved progress *)

Lemma loadPlayerState_id (w : World.t) (player : Player.t) :
  Player.id (loadPlayerState w player) = Player.id player.
Proof.
  unfold loadPlayerState.
  destruct (Storage.navalwar_save (World.storage w)); [|done].
  unfold recalculateShipStats. cbn. reflexivity.
Qed.

(** [handleJoinGame] registers the new player object, with the saved
    progress loaded into it, under the player id. *)
Lemma handleJoinGame_registers (playerId playerName : string) (now : Z) (r1 r2 : Q)
    (w : World.t) :
  exists i,
    players_get playerId (handleJoinGame playerId playerName now r1 r2 w)
    = Some (i, loadPlayerState w
                 (newPlayer playerId playerName
                    (r1 * (2000 # 1) + (500 # 1))%Q (r2 * (2000 # 1) + (500 # 1))%Q now)).
Proof.
  unfold handleJoinGame. cbv zeta.
  set (player := loadPlayerState w _).
  assert (Hid : Player.id player = playerId) by apply loadPlayerState_id.
  clearbody player.
  set (w2 := emit _ (emit _ (players_set playerId player w))).
  assert (Hget : exists i, players_get playerId w2 = Some (i, player)).
  { unfold w2, players_get. cbn [World.players emit World.set_emitted].
    unfold players_set, players_get.
    destruct (list_find _ (World.players w)) as [[i q]|] eqn:Hf.
    - exists i. cbn [World.players World.set_players].
      apply list_find_Some in Hf as (Hi & _ & Hmin).
      apply list_find_Some. split; [|split; [done|]].
      + apply list_lookup_insert_eq. by eapply lookup_lt_Some.
      + intros j y Hj Hlt. rewrite list_lookup_insert_ne in Hj by lia. by eapply Hmin.
    - exists (length (World.players w)). cbn [World.players World.set_players].
      apply list_find_None in Hf.
      apply list_find_Some. split; [|split; [done|]].
      + by rewrite lookup_app_r, Nat.sub_diag by lia.
      + intros j y Hj Hlt. rewrite lookup_app_l in Hj by done.
        rewrite Forall_forall in Hf. apply Hf.
        by eapply list_elem_of_lookup_2. }
  destruct Hget as [i Hget]. rewrite Hget. exists i.
  rewrite <- Hget. apply players_get_ext. apply players_sendStats.
Qed.

(** X6. Saved progress survives a reload: after [savePlayerState] of the
    local player (whose level is not 0), the player that [handleJoinGame]
    registers has the saved score, level, xp, ship class, stats and upgrade
    points, the maximum health of that class and health bonus, and full
    health; kills start at 0 again. *)
Theorem save_then_join_restores (w : World.t) (i : nat) (p : Player.t)
    (playerName : string) (now : Z) (r1 r2 : Q) :
  World.players w !! i = Some p ->
  Player.id p = localPlayerId ->
  Ship.level (Player.ship p) <> 0 ->
  exists k q,
    players_get localPlayerId
      (handleJoinGame localPlayerId playerName now r1 r2 (savePlayerState i w))
    = Some (k, q)
    /\ Ship.score (Player.ship q) = Ship.score (Player.ship p)
    /\ Ship.level (Player.ship q) = Ship.level (Player.ship p)
    /\ Ship.xp (Player.ship q) = Ship.xp (Player.ship p)
    /\ Ship.shipClass (Player.ship q) = Ship.shipClass (Player.ship p)
    /\ Ship.stats (Player.ship q) = Ship.stats (Player.ship p)
    /\ Player.upgradePoints q = Player.upgradePoints p
    /\ Ship.maxHealth (Player.ship q)
       = ShipStats.maxHealth (SHIP_STATS (Ship.shipClass (Player.ship p)))
         + PlayerStats.healthBonus (Ship.stats (Player.ship p)) * 10
    /\ Ship.health (Player.ship q) = Ship.maxHealth (Player.ship q)
    /\ Ship.kills (Player.ship q) = 0
    /\ Player.isDead q = false.
Proof.
  intros Hi Hid Hlv.
  destruct (handleJoinGame_registers localPlayerId playerName now r1 r2
              (savePlayerState i w)) as [k Hk].
  exists k. eexists. split; [exact Hk|].
  unfold savePlayerState. rewrite Hi, Hid. cbn [String.eqb negb].
  replace (String.eqb localPlayerId localPlayerId) with true by reflexivity.
  cbn [negb]. unfold loadPlayerState, recalculateShipStats.
  cbn [World.storage World.set_storage Storage.navalwar_save].
  cbn -[Z.mul Z.add SHIP_STATS JS.round].
  apply Z.eqb_neq in Hlv. rewrite Hlv.
  repeat split; reflexivity.
Qed.

(** Witness of X6: Ann, holding two upgrade points, saves and joins again. *)
Lemma save_then_join_restores_witness :
  exists k q,
    players_get localPlayerId
      (handleJoinGame localPlayerId "Ann" 5000 (1 # 2) (1 # 4)
         (savePlayerState 0 upgradeWorld))
    = Some (k, q)
    /\ Ship.score (Player.ship q) = Ship.score (Player.ship upgradeAnn)
    /\ Ship.level (Player.ship q) = Ship.level (Player.ship upgradeAnn)
    /\ Ship.xp (Player.ship q) = Ship.xp (Player.ship upgradeAnn)
    /\ Ship.shipClass (Player.ship q) = Ship.shipClass (Player.ship upgradeAnn)
    /\ Ship.stats (Player.ship q) = Ship.stats (Player.ship upgradeAnn)
    /\ Player.upgradePoints q = Player.upgradePoints upgradeAnn
    /\ Ship.maxHealth (Player.ship q)
       = ShipStats.maxHealth (SHIP_STATS (Ship.shipClass (Player.ship upgradeAnn)))
         + PlayerStats.healthBonus (Ship.stats (Player.ship upgradeAnn)) * 10
    /\ Ship.health (Player.ship q) = Ship.maxHealth (Player.ship q)
    /\ Ship.kills (Player.ship q) = 0
    /\ Player.isDead q = false.
Proof.
  refine (save_then_join_restores upgradeWorld 0 upgradeAnn "Ann" 5000 (1 # 2) (1 # 4)
            eq_refl eq_refl _).
  vm_compute. discriminate.
Defined.

(** ** Deaths *)

Section DeathEffects.
Variable toISOString : Z -> string.

Lemma storage_sendStats i w : World.storage (sendStats i w) = World.storage w.
Proof. unfold sendStats. by destruct (World.players w !! i). Qed.

Lemma emitted_sendStats i w :
  exists evs, World.emitted (sendStats i w) = World.emitted w ++ evs.
Proof.
  unfold sendStats. destruct (World.players w !! i).
  - eexists. reflexivity.
  - exists []. by rewrite app_nil_r.
Qed.

Lemma emitted_savePlayerState i w :
  World.emitted (savePlayerState i w) = World.emitted w.
Proof.
  unfold savePlayerState. destruct (World.players w !! i); [|done].
  by destruct (negb _).
Qed.

Lemma emitted_awardXP k amount w :
  exists evs, World.emitted (awardXP k amount w) = World.emitted w ++ evs.
Proof.
  unfold awardXP. destruct (World.players w !! k) as [player|].
  - cbv zeta. rewrite emitted_savePlayerState.
    match goal with |- context [sendStats k ?w'] =>
      destruct (emitted_sendStats k w') as [evs ->] end.
    destruct (_ && _).
    + eexists. cbn [emit World.emitted World.set_emitted modPlayer World.set_players].
      rewrite <- app_assoc. reflexivity.
    + eexists. cbn [World.emitted modPlayer World.set_players]. reflexivity.
  - exists []. by rewrite app_nil_r.
Qed.

(** [awardXP] does not touch the kill count. *)
Lemma awardXP_kills w k player amount q :
  World.players w !! k = Some player ->
  World.players (awardXP k amount w) = <[k := q]> (World.players w) ->
  Ship.kills (Player.ship q) = Ship.kills (Player.ship player).
Proof.
  intros Hk Hq.
  assert (Hlook : World.players (awardXP k amount w) !! k = Some q).
  { rewrite Hq. apply list_lookup_insert_eq. by eapply lookup_lt_Some. }
  revert Hlook. unfold awardXP. rewrite Hk. cbv zeta.
  rewrite players_savePlayerState, players_sendStats.
  destruct (_ && _); cbn [emit World.players World.set_emitted];
    rewrite players_modPlayer, list_lookup_alter_eq, Hk; cbn;
    intros [= <-]; reflexivity.
Qed.

(** XP awarded to a player other than the local one leaves the storage alone. *)
Lemma storage_awardXP k amount w q :
  World.players w !! k = Some q -> Player.id q <> localPlayerId ->
  World.storage (awardXP k amount w) = World.storage w.
Proof.
  intros Hk Hid. unfold awardXP. rewrite Hk. cbv zeta.
  apply String.eqb_neq in Hid.
  destruct (_ && _); unfold savePlayerState;
    rewrite players_sendStats; cbn [emit World.players World.set_emitted];
    rewrite players_modPlayer, list_lookup_alter_eq, Hk; cbn [option_map fmap];
    cbn -[String.eqb localPlayerId]; rewrite Hid; cbn [negb];
    by rewrite storage_sendStats.
Qed.

(** Changing the player at [i] without changing its id does not change
    what [players.get] finds elsewhere. *)
Lemma players_get_modPlayer id w i f k q :
  (forall p, Player.id (f p) = Player.id p) -> k <> i ->
  players_get id w = Some (k, q) ->
  players_get id (modPlayer i f w) = Some (k, q).
Proof.
  intros Hf Hne Hget. unfold players_get in *.
  apply list_find_Some in Hget as (Hk & Hid & Hmin).
  apply list_find_Some. rewrite players_modPlayer. split; [|split; [done|]].
  - by rewrite list_lookup_alter_ne.
  - intros j y Hj Hlt. destruct (decide (j = i)) as [->|Hji].
    + rewrite list_lookup_alter_eq in Hj.
      destruct (World.players w !! i) as [p|] eqn:Hp; [|done].
      injection Hj as <-. rewrite Hf. by eapply Hmin.
    + rewrite list_lookup_alter_ne in Hj by done. by eapply Hmin.
Qed.

(** X7. A kill, for a living victim at position [i] and a registered killer
    at another position [k]: the victim becomes dead with health 0 and death
    time [now] and is otherwise unchanged; the killer gains one kill and
    1100 + 210 * (victim level) score, its level rises by at most one; every
    other player is unchanged; and the notifications end with playerDied,
    deathTimer and a killFeed naming the killer and its ship class. *)
Theorem handlePlayerDeath_kill_credit (w : World.t) (i k : nat) (p killer : Player.t)
    (killerId weaponType : string) (now : Z) :
  World.players w !! i = Some p ->
  Player.isDead p = false ->
  players_get killerId w = Some (k, killer) ->
  k <> i ->
  let w' := handlePlayerDeath toISOString i killerId weaponType now w in
  let L := Ship.level (Player.ship p) in
  World.players w' !! i
  = Some (Player.set_deathTime now
            (Player.set_isDead true (Player.on_ship (Ship.set_health 0) p)))
  /\ (exists killer',
        World.players w' !! k = Some killer'
        /\ Ship.kills (Player.ship killer') = Ship.kills (Player.ship killer) + 1
        /\ Ship.score (Player.ship killer')
           = Ship.score (Player.ship killer) + 1100 + 210 * L
        /\ Ship.level (Player.ship killer) <= Ship.level (Player.ship killer')
           <= Ship.level (Player.ship killer) + 1
        /\ Player.isDead killer' = Player.isDead killer)
  /\ (forall j, j <> i -> j <> k -> World.players w' !! j = World.players w !! j)
  /\ (exists evs,
        World.emitted w'
        = World.emitted w ++ evs
          ++ [Ev.playerDied killerId (Player.id p) (Player.name killer);
              Ev.deathTimer now;
              Ev.killFeed (Player.name killer) (Player.name p)
                          (ShipClass_name (Ship.shipClass (Player.ship killer)))]).
Proof.
  intros Hi Hdead Hget Hne w' L. subst w' L. unfold handlePlayerDeath.
  rewrite Hi, Hdead.
  set (L := Ship.level (Player.ship p)).
  set (w0 := if String.eqb _ _ then _ else w).
  assert (H0 : World.players w0 = World.players w /\ World.emitted w0 = World.emitted w).
  { unfold w0. by destruct (String.eqb _ _). }
  destruct H0 as [H0 E0]. clearbody w0.
  set (kill := fun p => Player.set_deathTime now (Player.set_isDead true
                          (Player.on_ship (Ship.set_health 0) p))).
  assert (Hget1 : players_get killerId (modPlayer i kill w0) = Some (k, killer)).
  { apply players_get_modPlayer; [done|done|].
    rewrite <- Hget. by apply players_get_ext. }
  rewrite Hget1. pose proof (players_get_Some _ _ _ _ Hget) as [Hk _].
  cbv beta iota zeta. cbn [emit World.players World.set_emitted World.emitted].
  set (w1 := modPlayer i kill w0).
  assert (Hk1 : World.players w1 !! k = Some killer).
  { unfold w1. by rewrite players_modPlayer, list_lookup_alter_ne, H0. }
  assert (Hi1 : World.players w1 !! i = Some (kill p)).
  { unfold w1. by rewrite players_modPlayer, list_lookup_alter_eq, H0, Hi. }
  set (f1 := Player.on_ship (fun s => Ship.set_kills (Ship.kills s + 1) s)).
  set (f2 := Player.on_ship (fun s => Ship.set_score (Ship.score s + (100 + L * 10)) s)).
  set (w3 := modPlayer k f2 (modPlayer k f1 w1)).
  assert (Hk3 : World.players w3 !! k = Some (f2 (f1 killer))).
  { unfold w3. rewrite !players_modPlayer, !list_lookup_alter_eq, Hk1. done. }
  assert (P3 : forall j, j <> k -> World.players w3 !! j = World.players w1 !! j).
  { intros j Hj. unfold w3. rewrite !players_modPlayer.
    by rewrite !list_lookup_alter_ne. }
  assert (E3 : World.emitted w3 = World.emitted w) by (by rewrite <- E0).
  clearbody w3.
  destruct (awardXP_player w3 k _ (100 + L * 20) Hk3)
    as (q & Hq & _ & _ & Hqd & _ & _ & Hscore & Hif).
  destruct (emitted_awardXP k (100 + L * 20) w3) as [evs Hev].
  split; [|split; [|split]].
  - rewrite Hq, list_lookup_insert_ne by done. rewrite P3 by done. exact Hi1.
  - exists q. split.
    { rewrite Hq. apply list_lookup_insert_eq. by eapply lookup_lt_Some. }
    split; [|split; [|split]].
    + rewrite (awardXP_kills _ _ _ _ _ Hk3 Hq). reflexivity.
    + rewrite Hscore. cbn. lia.
    + destruct (_ && _); destruct Hif as (Hl & _); rewrite Hl; cbn; lia.
    + rewrite Hqd. reflexivity.
  - intros j Hji Hjk. rewrite Hq, list_lookup_insert_ne by done.
    rewrite P3 by done. unfold w1.
    by rewrite players_modPlayer, list_lookup_alter_ne, H0.
  - exists evs. rewrite Hev, E3. rewrite <- !app_assoc. reflexivity.
Qed.

(** XP awarded to the local player is saved, dead or alive. *)
Lemma awardXP_saves k amount w pl :
  World.players w !! k = Some pl -> Player.id pl = localPlayerId ->
  exists q,
    World.players (awardXP k amount w) !! k = Some q
    /\ Player.isDead q = Player.isDead pl
    /\ Ship.score (Player.ship q) = Ship.score (Player.ship pl) + amount * 10
    /\ Ship.shipClass (Player.ship q) = Ship.shipClass (Player.ship pl)
    /\ Ship.stats (Player.ship q) = Ship.stats (Player.ship pl)
    /\ Storage.navalwar_save (World.storage (awardXP k amount w))
       = Some (SaveState.mk (Ship.score (Player.ship q)) (Ship.level (Player.ship q))
                            (Ship.xp (Player.ship q)) (Ship.shipClass (Player.ship q))
                            (Ship.stats (Player.ship q)) (Player.upgradePoints q)).
Proof.
  intros Hk Hid. unfold awardXP. rewrite Hk. cbv zeta.
  assert (Hsave : forall w1 q,
            World.players w1 !! k = Some q -> Player.id q = localPlayerId ->
            World.players (savePlayerState k (sendStats k w1)) !! k = Some q
            /\ Storage.navalwar_save (World.storage (savePlayerState k (sendStats k w1)))
               = Some (SaveState.mk (Ship.score (Player.ship q)) (Ship.level (Player.ship q))
                                    (Ship.xp (Player.ship q)) (Ship.shipClass (Player.ship q))
                                    (Ship.stats (Player.ship q)) (Player.upgradePoints q))).
  { intros w1 q Hq Hqid. split.
    - by rewrite players_savePlayerState, players_sendStats.
    - unfold savePlayerState. rewrite players_sendStats, Hq, Hqid.
      replace (String.eqb localPlayerId localPlayerId) with true by reflexivity.
      reflexivity. }
  destruct (_ && _).
  - match goal with |- context [sendStats k (emit ?e (modPlayer k (fun _ => ?q) w))] =>
      destruct (Hsave (emit e (modPlayer k (fun _ => q) w)) q) as [H1 H2];
        [by rewrite players_emit, players_modPlayer, list_lookup_alter_eq, Hk
        |exact Hid|];
      exists q
    end.
    split; [exact H1|]. split; [reflexivity|]. split; [reflexivity|].
    split; [reflexivity|]. split; [reflexivity|]. exact H2.
  - match goal with |- context [sendStats k (modPlayer k (fun _ => ?q) w)] =>
      destruct (Hsave (modPlayer k (fun _ => q) w) q) as [H1 H2];
        [by rewrite players_modPlayer, list_lookup_alter_eq, Hk|exact Hid|];
      exists q
    end.
    split; [exact H1|]. split; [reflexivity|]. split; [reflexivity|].
    split; [reflexivity|]. split; [reflexivity|]. exact H2.
Qed.

Lemma handlePlayerDeath_victim (w : World.t) (i : nat) (p : Player.t)
    (killerId weaponType : string) (now : Z) :
  World.players w !! i = Some p ->
  Player.isDead p = false ->
  killerId <> Player.id p ->
  World.players (handlePlayerDeath toISOString i killerId weaponType now w) !! i
  = Some (Player.set_deathTime now
            (Player.set_isDead true (Player.on_ship (Ship.set_health 0) p))).
Proof.
  intros Hi Hdead Hk. unfold handlePlayerDeath. rewrite Hi, Hdead.
  set (w0 := if String.eqb _ _ then _ else w).
  assert (H0 : World.players w0 = World.players w).
  { unfold w0. by destruct (String.eqb _ _). }
  clearbody w0.
  set (w1 := modPlayer i _ w0).
  assert (H1 : World.players w1 !! i
               = Some (Player.set_deathTime now
                         (Player.set_isDead true (Player.on_ship (Ship.set_health 0) p)))).
  { unfold w1. by rewrite players_modPlayer, list_lookup_alter_eq, H0, Hi. }
  clearbody w1.
  destruct (players_get killerId w1) as [[k killer]|] eqn:Hget.
  - cbv beta iota zeta. rewrite !players_emit.
    apply players_get_Some in Hget as [Hkl Hkid].
    assert (k <> i).
    { intros ->. rewrite H1 in Hkl. injection Hkl as <-. cbn in Hkid. congruence. }
    rewrite awardXP_other by done.
    by rewrite !players_modPlayer, !list_lookup_alter_ne.
  - by destruct (List.find _ _).
Qed.

(** X8. The death of the living local player, by anything but itself,
    records the game and clears the saved progress: the stored lastGame is
    the victim's name and score, no save is left, and a [handleJoinGame] of
    the local player in that state registers a fresh player object (level
    1, no xp, no score), not the old progress.  The clearing does not last:
    [awardXP] saves the player without looking at [isDead], so any xp that
    the dead player earns afterwards (a bullet of theirs still in flight
    that sinks a neutral) stores the progress again, with the score raised
    by ten times the xp, and a [handleJoinGame] after that registers a
    living player with that score and the old ship class and stats. *)
Theorem handlePlayerDeath_local_player (w : World.t) (i : nat) (p : Player.t)
    (killerId weaponType : string) (now : Z) :
  World.players w !! i = Some p ->
  Player.isDead p = false ->
  Player.id p = localPlayerId ->
  killerId <> localPlayerId ->
  let w' := handlePlayerDeath toISOString i killerId weaponType now w in
  Storage.navalwar_save (World.storage w') = None
  /\ (exists highScores,
        Storage.navalwar_leaderboard (World.storage w')
        = Some (LeaderboardData.mk
                  (Some (ScoreEntry.mk (Player.name p) (Ship.score (Player.ship p))
                                       (toISOString now)))
                  highScores))
  /\ (forall playerName now' r1 r2, exists k,
        players_get localPlayerId
          (handleJoinGame localPlayerId playerName now' r1 r2 w')
        = Some (k, newPlayer localPlayerId playerName
                     (r1 * (2000 # 1) + (500 # 1))%Q (r2 * (2000 # 1) + (500 # 1))%Q
                     now'))
  /\ (forall amount playerName now' r1 r2,
        let w2 := awardXP i amount w' in
        exists q k joined,
          World.players w2 !! i = Some q
          /\ Player.isDead q = true
          /\ Ship.score (Player.ship q) = Ship.score (Player.ship p) + amount * 10
          /\ Storage.navalwar_save (World.storage w2)
             = Some (SaveState.mk (Ship.score (Player.ship q)) (Ship.level (Player.ship q))
                                  (Ship.xp (Player.ship q))
                                  (Ship.shipClass (Player.ship p))
                                  (Ship.stats (Player.ship p)) (Player.upgradePoints q))
          /\ players_get localPlayerId
               (handleJoinGame localPlayerId playerName now' r1 r2 w2)
             = Some (k, joined)
          /\ Player.isDead joined = false
          /\ Ship.score (Player.ship joined) = Ship.score (Player.ship p) + amount * 10
          /\ Ship.shipClass (Player.ship joined) = Ship.shipClass (Player.ship p)
          /\ Ship.stats (Player.ship joined) = Ship.stats (Player.ship p)).
Proof.
  intros Hi Hdead Hid Hkiller w'.
  assert (Hst : World.storage w'
                = World.storage (removeSave (saveGameResult toISOString p now w))).
  { subst w'. unfold handlePlayerDeath. rewrite Hi, Hdead, Hid.
    replace (String.eqb localPlayerId localPlayerId) with true by reflexivity.
    set (w0 := removeSave _).
    set (kill := fun p => Player.set_deathTime now (Player.set_isDead true
                            (Player.on_ship (Ship.set_health 0) p))).
    destruct (players_get killerId (modPlayer i kill w0)) as [[k killer]|] eqn:Hget.
    - cbv beta iota zeta. cbn [emit World.storage World.set_emitted].
      apply players_get_Some in Hget as [Hk Hkid].
      erewrite storage_awardXP; [reflexivity| |].
      + rewrite !players_modPlayer, !list_lookup_alter_eq.
        rewrite players_modPlayer in Hk. rewrite Hk. reflexivity.
      + cbn. by rewrite Hkid.
    - by destruct (List.find _ _). }
  split; [by rewrite Hst|]. split.
  { rewrite Hst. eexists. reflexivity. }
  split.
  { intros playerName now' r1 r2.
    destruct (handleJoinGame_registers localPlayerId playerName now' r1 r2 w') as [k Hk].
    exists k. rewrite Hk. unfold loadPlayerState. by rewrite Hst. }
  intros amount playerName now' r1 r2 w2.
  assert (Hv : World.players w' !! i
               = Some (Player.set_deathTime now
                         (Player.set_isDead true (Player.on_ship (Ship.set_health 0) p)))).
  { apply handlePlayerDeath_victim; [done|done|]. by rewrite Hid. }
  destruct (awardXP_saves i amount w' _ Hv Hid) as (q & Hq & Hqd & Hqs & Hqc & Hqt & Hsave).
  cbn in Hqd, Hqs, Hqc, Hqt. fold w2 in Hq, Hsave.
  destruct (handleJoinGame_registers localPlayerId playerName now' r1 r2 w2) as [k Hk].
  exists q, k. eexists. split; [exact Hq|]. split; [exact Hqd|]. split; [exact Hqs|].
  split; [by rewrite Hsave, Hqc, Hqt|]. split; [exact Hk|].
  unfold loadPlayerState. rewrite Hsave. unfold recalculateShipStats.
  cbn -[Z.mul Z.add SHIP_STATS JS.round].
  rewrite Hqs, Hqc, Hqt. repeat split; reflexivity.
Qed.

End DeathEffects.

(** Witness of X7: Bob sinks Ann by ramming. *)
Lemma handlePlayerDeath_kill_credit_witness :
  exists killer',
    World.players (handlePlayerDeath stamp 0 "player-2" "ram" 5000 rammedWorld) !! 1%nat
    = Some killer'
    /\ Ship.kills (Player.ship killer') = 0 + 1
    /\ Ship.score (Player.ship killer') = 0 + 1100 + 210 * 1
    /\ 1 <= Ship.level (Player.ship killer') <= 1 + 1
    /\ Player.isDead killer' = false.
Proof.
  refine (proj1 (proj2 (handlePlayerDeath_kill_credit stamp rammedWorld 0 1
            (Player.on_ship (Ship.set_health 10)
               (newPlayer "local-player" "Ann" (100 # 1) (100 # 1) 0))
            (bobAt (130 # 1)) "player-2" "ram" 5000 eq_refl eq_refl eq_refl _))).
  discriminate.
Defined.

(** Witness of X8: the tank sinks Ann; nothing is left of her saved game,
    until the 8 xp of a buoy that one of her bullets sinks afterwards save it
    again. *)
Lemma handlePlayerDeath_local_player_witness :
  Storage.navalwar_save
    (World.storage (handlePlayerDeath stamp 0 "neutral-0" "cannon" 5000 rammedWorld))
  = None
  /\ Storage.navalwar_save
       (World.storage
          (awardXP 0 8 (handlePlayerDeath stamp 0 "neutral-0" "cannon" 5000 rammedWorld)))
     = Some (SaveState.mk 80 1 8 patrol_boat DEFAULT_STATS 0).
Proof.
  pose proof (handlePlayerDeath_local_player stamp rammedWorld 0
            (Player.on_ship (Ship.set_health 10)
               (newPlayer "local-player" "Ann" (100 # 1) (100 # 1) 0))
            "neutral-0" "cannon" 5000 eq_refl eq_refl eq_refl ltac:(discriminate))
    as (H1 & _ & _ & H4).
  split; [exact H1|].
  destruct (H4 8 "Ann" 6000 (1 # 2) (1 # 2)) as (q & k & joined & Hq & _ & _ & Hsave & _).
  rewrite Hsave. vm_compute in Hq. injection Hq as <-. reflexivity.
Defined.

(** ** What collision resolution leaves alone *)

Lemma foldl_kept {A B C : Type} (proj : A -> C) (f : A -> B -> A) (l : list B) (a : A) :
  (forall a x, proj (f a x) = proj a) -> proj (foldl f a l) = proj a.
Proof.
  intros Hf. revert a. induction l as [|x l IH]; intros a; [done|].
  cbn [foldl]. by rewrite IH, Hf.
Qed.

Lemma map_alter_kept {A B : Type} (g : A -> B) (f : A -> A) (i : nat) (l : list A) :
  (forall x, l !! i = Some x -> g (f x) = g x) -> map g (alter f i l) = map g l.
Proof.
  revert i. induction l as [|a l IH]; intros [|i] Hf; cbn; try done.
  - f_equal. by apply Hf.
  - f_equal. apply IH. intros x Hx. by apply Hf.
Qed.

Lemma pass_foldl_kept {B : Type} (f : Pass.t -> B -> Pass.t) (l : list B) (st : Pass.t) :
  (forall a x, collisionFrame (Pass.world (f a x)) = collisionFrame (Pass.world a)
               /\ Pass.neutralsToRemove (f a x) = Pass.neutralsToRemove a) ->
  collisionFrame (Pass.world (foldl f st l)) = collisionFrame (Pass.world st)
  /\ Pass.neutralsToRemove (foldl f st l) = Pass.neutralsToRemove st.
Proof.
  intros Hf. revert st. induction l as [|x l IH]; intros st; [done|].
  cbn [foldl]. destruct (IH (f st x)) as [-> ->]. apply Hf.
Qed.

Section Frame.
Variable Math_sqrt : Q -> Q.
Variable toISOString : Z -> string.
Variable now : Z.

Lemma frame_emit e w : collisionFrame (emit e w) = collisionFrame w.
Proof. reflexivity. Qed.

Lemma frame_sendStats i w : collisionFrame (sendStats i w) = collisionFrame w.
Proof. unfold sendStats. by destruct (World.players w !! i). Qed.

Lemma frame_savePlayerState i w : collisionFrame (savePlayerState i w) = collisionFrame w.
Proof.
  unfold savePlayerState. destruct (World.players w !! i); [|done].
  by destruct (negb _).
Qed.

Lemma frame_modPlayer_at i f w :
  (forall p, World.players w !! i = Some p -> playerFrame (f p) = playerFrame p) ->
  collisionFrame (modPlayer i f w) = collisionFrame w.
Proof.
  intros Hf. unfold collisionFrame, modPlayer. cbn [World.players World.set_players
    World.bullets World.neutrals World.islands World.drones World.lastNeutralSpawn
    World.droneIdCounter World.bulletIdCounter World.neutralIdCounter].
  by rewrite map_alter_kept.
Qed.

Lemma frame_modPlayer i f w :
  (forall p, playerFrame (f p) = playerFrame p) ->
  collisionFrame (modPlayer i f w) = collisionFrame w.
Proof. intros Hf. apply frame_modPlayer_at. auto. Qed.

Lemma frame_modNeutral i f w :
  (forall n, neutralFrame (f n) = neutralFrame n) ->
  collisionFrame (modNeutral i f w) = collisionFrame w.
Proof.
  intros Hf. unfold collisionFrame, modNeutral. cbn [World.players World.set_neutrals
    World.bullets World.neutrals World.islands World.drones World.lastNeutralSpawn
    World.droneIdCounter World.bulletIdCounter World.neutralIdCounter].
  rewrite map_alter_kept; auto.
Qed.

Lemma frame_modDrone i f w :
  (forall d, droneFrame (f d) = droneFrame d) ->
  collisionFrame (modDrone i f w) = collisionFrame w.
Proof.
  intros Hf. unfold collisionFrame, modDrone. cbn [World.players World.set_drones
    World.bullets World.neutrals World.islands World.drones World.lastNeutralSpawn
    World.droneIdCounter World.bulletIdCounter World.neutralIdCounter].
  rewrite map_alter_kept; auto.
Qed.

Lemma frame_awardXP k amount w : collisionFrame (awardXP k amount w) = collisionFrame w.
Proof.
  unfold awardXP. destruct (World.players w !! k) as [player|] eqn:Hk; [|done].
  cbv zeta. rewrite frame_savePlayerState, frame_sendStats.
  destruct (_ && _).
  - rewrite frame_emit. apply frame_modPlayer_at. intros p Hp.
    assert (p = player) by congruence. subst p. reflexivity.
  - apply frame_modPlayer_at. intros p Hp.
    assert (p = player) by congruence. subst p. reflexivity.
Qed.

Lemma frame_handlePlayerDeath v killerId weaponType w :
  collisionFrame (handlePlayerDeath toISOString v killerId weaponType now w)
  = collisionFrame w.
Proof.
  unfold handlePlayerDeath.
  destruct (World.players w !! v) as [player|]; [|done].
  destruct (Player.isDead player); [done|].
  set (w0 := if String.eqb _ _ then _ else w).
  assert (H0 : collisionFrame w0 = collisionFrame w).
  { unfold w0. by destruct (String.eqb _ _). }
  clearbody w0. rewrite <- H0.
  set (w1 := modPlayer v _ w0).
  assert (H1 : collisionFrame w1 = collisionFrame w0).
  { apply frame_modPlayer. reflexivity. }
  clearbody w1. rewrite <- H1.
  destruct (players_get killerId w1) as [[k killer]|].
  - cbv beta iota zeta. rewrite !frame_emit, frame_awardXP.
    rewrite !frame_modPlayer; reflexivity.
  - destruct (List.find _ _); reflexivity.
Qed.

Lemma frame_bulletShipCandidates bullet candidates st :
  collisionFrame (Pass.world (bulletShipCandidates toISOString now bullet candidates st))
  = collisionFrame (Pass.world st)
  /\ Pass.neutralsToRemove (bulletShipCandidates toISOString now bullet candidates st)
     = Pass.neutralsToRemove st.
Proof.
  revert st. induction candidates as [|c rest IH]; intros st; [done|].
  cbn [bulletShipCandidates]. cbv zeta.
  destruct (World.players (Pass.world st) !! c) as [player|]; [|apply IH].
  destruct (String.eqb _ _); [apply IH|].
  destruct (Player.isDead player); [apply IH|].
  destruct (Ship.isStealthed _); [apply IH|].
  destruct (now <? Player.spawnProtectionUntil player); [apply IH|].
  destruct (JS.ltb _ _); [|apply IH].
  destruct (Ship.isShielded _).
  - match goal with |- context [bulletShipCandidates _ _ _ _ ?st'] =>
      destruct (IH st') as [-> ->] end.
    done.
  - cbn [Pass.world Pass.neutralsToRemove]. split; [|done].
    destruct (_ <=? 0); [rewrite frame_handlePlayerDeath|];
      rewrite frame_emit; apply frame_modPlayer; reflexivity.
Qed.

Lemma frame_checkBulletShipCollisions shipGrid st :
  collisionFrame (Pass.world (checkBulletShipCollisions toISOString now shipGrid st))
  = collisionFrame (Pass.world st)
  /\ Pass.neutralsToRemove (checkBulletShipCollisions toISOString now shipGrid st)
     = Pass.neutralsToRemove st.
Proof.
  unfold checkBulletShipCollisions. cbv zeta.
  apply pass_foldl_kept.
  intros a b. destruct (bool_decide _); [done|].
  by destruct (frame_bulletShipCandidates b
      (SpatialHashGrid.queryInto shipGrid (Bullet.x b) (Bullet.y b)
         (SHIP_RADIUS + BULLET_RADIUS)%Q []) a) as [-> ->].
Qed.

Lemma frame_bulletHitsNeutral bullet c neutral st :
  collisionFrame (Pass.world (bulletHitsNeutral bullet c neutral st))
  = collisionFrame (Pass.world st).
Proof.
  unfold bulletHitsNeutral. cbv zeta.
  destruct (_ <=? 0); [|by apply frame_modNeutral].
  destruct (players_get _ _) as [[shooter ?]|]; cbn [Pass.world].
  - rewrite frame_emit, frame_awardXP. by apply frame_modNeutral.
  - by apply frame_modNeutral.
Qed.

Lemma frame_bulletNeutralCandidates bullet candidates st :
  collisionFrame (Pass.world (bulletNeutralCandidates bullet candidates st))
  = collisionFrame (Pass.world st).
Proof.
  revert st. induction candidates as [|c rest IH]; intros st; [done|].
  cbn [bulletNeutralCandidates]. cbv zeta.
  destruct (World.neutrals (Pass.world st) !! c) as [neutral|]; [|apply IH].
  destruct (String.eqb _ _); [apply IH|].
  destruct (negb _); [apply IH|].
  destruct (JS.ltb _ _); [apply frame_bulletHitsNeutral|apply IH].
Qed.

Lemma frame_checkBulletNeutralCollisions neutralGrid st :
  collisionFrame (Pass.world (checkBulletNeutralCollisions neutralGrid st))
  = collisionFrame (Pass.world st).
Proof.
  unfold checkBulletNeutralCollisions. cbv zeta.
  apply (foldl_kept (fun st => collisionFrame (Pass.world st))).
  intros a b. destruct (bool_decide _); [done|]. apply frame_bulletNeutralCandidates.
Qed.

Lemma frame_shipShipPair playerIndex i p1 w p2 :
  collisionFrame (shipShipPair Math_sqrt toISOString now playerIndex i p1 w p2)
  = collisionFrame w.
Proof.
  unfold shipShipPair.
  destruct (World.players w !! p1) as [player1|]; [|done].
  destruct (World.players w !! p2) as [player2|]; [|done].
  destruct (playerIndex !! _) as [j|]; [|done].
  destruct (j <=? i)%nat; [done|]. cbv zeta.
  destruct (_ && _); [|done].
  match goal with |- context [modPlayer p2 ?f6 (modPlayer p1 ?f5 (modPlayer p2 ?f4
      (modPlayer p2 ?f3 (modPlayer p1 ?f2 (modPlayer p1 ?f1 w)))))] =>
    set (w6 := modPlayer p2 f6 (modPlayer p1 f5 (modPlayer p2 f4
      (modPlayer p2 f3 (modPlayer p1 f2 (modPlayer p1 f1 w))))));
    assert (H6 : collisionFrame w6 = collisionFrame w)
      by (unfold w6; rewrite !frame_modPlayer; reflexivity)
  end.
  clearbody w6. rewrite <- H6.
  set (w7 := match World.players w6 !! p1 with Some _ => _ | None => w6 end).
  assert (H7 : collisionFrame w7 = collisionFrame w6).
  { unfold w7. destruct (World.players w6 !! p1) as [q1|]; [|done].
    destruct (_ && _); [apply frame_handlePlayerDeath|done]. }
  clearbody w7. rewrite <- H7.
  destruct (World.players w7 !! p2) as [q2|]; [|done].
  destruct (_ && _); [apply frame_handlePlayerDeath|done].
Qed.

Lemma frame_checkShipShipCollisions livingPlayers shipGrid w :
  collisionFrame (checkShipShipCollisions Math_sqrt toISOString now livingPlayers shipGrid w)
  = collisionFrame w.
Proof.
  unfold checkShipShipCollisions. cbv zeta.
  apply (foldl_kept collisionFrame).
  intros a [i p1]. destruct (World.players a !! p1) as [player1|]; [|done].
  apply (foldl_kept collisionFrame). intros a' p2. apply frame_shipShipPair.
Qed.

Lemma frame_droneShip d w c :
  collisionFrame (droneShip Math_sqrt toISOString now d w c) = collisionFrame w.
Proof.
  unfold droneShip.
  destruct (World.drones w !! d) as [drone|]; [|done].
  destruct (World.players w !! c) as [player|]; [|done]. cbv zeta.
  destruct (_ || _); [done|].
  destruct (Ship.isStealthed _); [done|].
  destruct (now <? _); [done|].
  destruct (_ && _); [|done].
  rewrite frame_modDrone by reflexivity.
  destruct (negb _); [|done].
  destruct (_ <=? 0); [rewrite frame_handlePlayerDeath|];
    rewrite frame_emit; apply frame_modPlayer; reflexivity.
Qed.

Lemma frame_droneNeutral d owner st c :
  collisionFrame (Pass.world (droneNeutral d owner st c))
  = collisionFrame (Pass.world st).
Proof.
  unfold droneNeutral. cbv zeta.
  destruct (World.drones (Pass.world st) !! d) as [drone|]; [|done].
  destruct (World.neutrals (Pass.world st) !! c) as [neutral|]; [|done].
  destruct (bool_decide _); [done|].
  destruct (JS.ltb _ _); [|done].
  destruct (_ <=? 0); cbn [Pass.world].
  - rewrite frame_emit, frame_awardXP. by apply frame_modNeutral.
  - by apply frame_modNeutral.
Qed.

Lemma frame_droneCollisions shipGrid neutralGrid st d :
  collisionFrame (Pass.world (droneCollisions Math_sqrt toISOString now shipGrid
                                neutralGrid st d))
  = collisionFrame (Pass.world st).
Proof.
  unfold droneCollisions. cbv zeta.
  destruct (World.drones (Pass.world st) !! d) as [drone|]; [|done].
  destruct (players_get _ _) as [[owner ?]|]; [|done].
  match goal with |- context [foldl (droneShip _ _ _ d) ?w ?l] =>
    set (w1 := foldl (droneShip Math_sqrt toISOString now d) w l);
    assert (H1 : collisionFrame w1 = collisionFrame w)
      by (apply (foldl_kept collisionFrame); intros; apply frame_droneShip)
  end.
  clearbody w1. destruct (World.drones w1 !! d) as [drone1|]; [|done].
  rewrite <- H1.
  rewrite (foldl_kept (fun st => collisionFrame (Pass.world st))); [done|].
  intros; apply frame_droneNeutral.
Qed.

Lemma frame_checkDroneCollisions shipGrid neutralGrid st :
  collisionFrame (Pass.world (checkDroneCollisions Math_sqrt toISOString now shipGrid
                                neutralGrid st))
  = collisionFrame (Pass.world st).
Proof.
  unfold checkDroneCollisions.
  apply (foldl_kept (fun st => collisionFrame (Pass.world st))).
  intros; apply frame_droneCollisions.
Qed.

End Frame.

Lemma filter_sublist {A : Type} (f : A -> bool) (l : list A) :
  sublist (List.filter f l) l.
Proof.
  induction l as [|a l IH]; cbn; [constructor|].
  destruct (f a); by constructor.
Qed.

(** ** Health bounds through collision resolution *)

Section HealthBounds.
Variable Math_sqrt : Q -> Q.
Variable toISOString : Z -> string.
Variable now : Z.

Lemma capped_modPlayer i f w :
  (forall p, capped p -> capped (f p)) ->
  Forall capped (World.players w) -> Forall capped (World.players (modPlayer i f w)).
Proof.
  intros Hf H. rewrite players_modPlayer. apply Forall_alter; [done|]. auto.
Qed.

Lemma capped_awardXP k amount w :
  Forall capped (World.players w) -> Forall capped (World.players (awardXP k amount w)).
Proof.
  intros H. destruct (World.players w !! k) as [player|] eqn:Hk.
  - destruct (awardXP_player w k player amount Hk)
      as (q & Hq & _ & _ & _ & Hmax & _ & _ & Hif).
    rewrite Hq. apply Forall_insert; [done|].
    rewrite Forall_lookup in H. destruct (H k player Hk) as [Hh Hm].
    unfold capped. rewrite Hmax.
    destruct (_ && _); destruct Hif as (_ & _ & _ & ->); lia.
  - unfold awardXP. by rewrite Hk.
Qed.

Lemma neutrals_handlePlayerDeath v killerId weaponType w :
  World.neutrals (handlePlayerDeath toISOString v killerId weaponType now w)
  = World.neutrals w.
Proof.
  unfold handlePlayerDeath.
  destruct (World.players w !! v) as [player|]; [|done].
  destruct (Player.isDead player); [done|].
  set (w0 := if String.eqb _ _ then _ else w).
  assert (H0 : World.neutrals w0 = World.neutrals w).
  { unfold w0. by destruct (String.eqb _ _). }
  clearbody w0. rewrite <- H0.
  set (w1 := modPlayer v _ w0).
  assert (H1 : World.neutrals w1 = World.neutrals w0) by reflexivity.
  clearbody w1. rewrite <- H1.
  destruct (players_get killerId w1) as [[k killer]|].
  - cbv beta iota zeta. cbn [emit World.neutrals World.set_emitted].
    by rewrite neutrals_awardXP.
  - destruct (List.find _ _); reflexivity.
Qed.

Lemma capped_handlePlayerDeath v killerId weaponType w :
  Forall capped (World.players w) ->
  Forall capped (World.players (handlePlayerDeath toISOString v killerId weaponType now w)).
Proof.
  intros H. unfold handlePlayerDeath.
  destruct (World.players w !! v) as [player|]; [|done].
  destruct (Player.isDead player); [done|].
  set (w0 := if String.eqb _ _ then _ else w).
  assert (H0 : Forall capped (World.players w0)).
  { unfold w0. by destruct (String.eqb _ _). }
  clearbody w0.
  set (w1 := modPlayer v _ w0).
  assert (H1 : Forall capped (World.players w1)).
  { apply capped_modPlayer; [|done]. intros p [Hh Hm]. unfold capped. cbn. lia. }
  clearbody w1.
  destruct (players_get killerId w1) as [[k killer]|].
  - cbv beta iota zeta. cbn [emit World.players World.set_emitted].
    apply capped_awardXP. apply capped_modPlayer; [by intros p [? ?]|].
    apply capped_modPlayer; [by intros p [? ?]|]. done.
  - destruct (List.find _ _); exact H1.
Qed.

(** A step on the players alone keeps the health bounds. *)
Lemma healthBounds_players st w' b :
  Forall capped (World.players w') ->
  World.neutrals w' = World.neutrals (Pass.world st) ->
  healthBounds st -> healthBounds (Pass.mk w' b (Pass.neutralsToRemove st)).
Proof.
  intros Hp Hn [_ HN]. split; [done|]. cbn [Pass.world Pass.neutralsToRemove].
  by rewrite Hn.
Qed.

Lemma healthBounds_eta st : healthBounds (Pass.mk (Pass.world st) (Pass.bulletsToRemove st)
                                            (Pass.neutralsToRemove st)) -> healthBounds st.
Proof. by destruct st. Qed.

Lemma healthBounds_bulletShipCandidates bullet candidates st :
  0 <= Bullet.damage bullet ->
  healthBounds st ->
  healthBounds (bulletShipCandidates toISOString now bullet candidates st).
Proof.
  intros Hd. revert st. induction candidates as [|c rest IH]; intros st HB; [done|].
  cbn [bulletShipCandidates]. cbv zeta.
  destruct (World.players (Pass.world st) !! c) as [player|] eqn:Hc; [|by apply IH].
  destruct (String.eqb _ _); [by apply IH|].
  destruct (Player.isDead player); [by apply IH|].
  destruct (Ship.isStealthed _); [by apply IH|].
  destruct (now <? Player.spawnProtectionUntil player); [by apply IH|].
  destruct (JS.ltb _ _); [|by apply IH].
  assert (Hplayer : capped player).
  { destruct HB as [HP _]. rewrite Forall_lookup in HP. by eapply HP. }
  destruct (Ship.isShielded _).
  - apply IH. apply healthBounds_players; [apply HB|done|done].
  - apply healthBounds_players; [|by destruct (_ <=? 0);
      rewrite ?neutrals_handlePlayerDeath|done].
    assert (H1 : Forall capped (World.players
              (modPlayer c (Player.on_ship (Ship.set_health
                 (Ship.health (Player.ship player) - Bullet.damage bullet)))
                 (Pass.world st)))).
    { rewrite players_modPlayer. apply Forall_alter; [apply HB|].
      intros p Hp _. assert (p = player) by congruence. subst p.
      destruct Hplayer. unfold capped. cbn. lia. }
    destruct (_ <=? 0); [apply capped_handlePlayerDeath|]; exact H1.
Qed.

Lemma healthBounds_foldl {A : Type} (f : Pass.t -> A -> Pass.t) (l : list A)
    (P : A -> Prop) (st : Pass.t) :
  (forall st a, P a -> healthBounds st -> healthBounds (f st a)) ->
  Forall P l -> healthBounds st -> healthBounds (foldl f st l).
Proof.
  intros Hf Hl. revert st. induction Hl as [|a l Ha Hl IH]; intros st HB; [done|].
  cbn [foldl]. apply IH. by apply Hf.
Qed.

Lemma healthBounds_checkBulletShipCollisions shipGrid st :
  Forall (fun b => 0 <= Bullet.damage b) (World.bullets (Pass.world st)) ->
  healthBounds st ->
  healthBounds (checkBulletShipCollisions toISOString now shipGrid st).
Proof.
  intros Hd HB. unfold checkBulletShipCollisions. cbv zeta.
  eapply healthBounds_foldl; [|exact Hd|exact HB].
  intros st' b Hb HB'. destruct (bool_decide _); [done|].
  by apply healthBounds_bulletShipCandidates.
Qed.

Lemma healthBounds_bulletHitsNeutral bullet c neutral st :
  World.neutrals (Pass.world st) !! c = Some neutral ->
  0 <= Bullet.damage bullet ->
  healthBounds st -> healthBounds (bulletHitsNeutral bullet c neutral st).
Proof.
  intros Hc Hd [HP HN]. unfold bulletHitsNeutral. cbv zeta.
  set (h := NeutralObject.health neutral - Bullet.damage bullet).
  destruct (HN c neutral Hc) as [Hmax _].
  assert (Hkeep : forall (extra : gset string) c' n,
            alter (NeutralObject.set_health h) c (World.neutrals (Pass.world st)) !! c'
            = Some n ->
            (h <= 0 -> NeutralObject.id neutral ∈ extra) ->
            Pass.neutralsToRemove st ⊆ extra ->
            NeutralObject.health n <= NeutralObject.maxHealth n
            /\ (0 < NeutralObject.health n \/ NeutralObject.id n ∈ extra)).
  { intros extra c' n Hn Hdead Hsub. destruct (decide (c' = c)) as [->|Hne].
    - rewrite list_lookup_alter_eq, Hc in Hn. injection Hn as <-. cbn.
      split; [lia|]. destruct (Z.lt_ge_cases 0 h); [by left|right; apply Hdead; lia].
    - rewrite list_lookup_alter_ne in Hn by done.
      destruct (HN c' n Hn) as [? [?|?]]; split; auto. }
  destruct (Z.leb_spec h 0).
  - destruct (players_get _ _) as [[shooter ?]|]; split;
      cbn [Pass.world Pass.neutralsToRemove emit World.players World.neutrals
           World.set_emitted modNeutral World.set_neutrals];
      try (apply capped_awardXP); try exact HP;
      rewrite ?neutrals_awardXP;
      intros c' n Hn;
      (apply (Hkeep _ c' n Hn);
         [intros _; apply elem_of_union_l; by apply elem_of_singleton
         |apply union_subseteq_r]).
  - split; [exact HP|]. cbn [Pass.world Pass.neutralsToRemove modNeutral
      World.neutrals World.set_neutrals].
    intros c' n Hn. apply (Hkeep _ c' n Hn); [lia|done].
Qed.

Lemma healthBounds_bulletNeutralCandidates bullet candidates st :
  0 <= Bullet.damage bullet ->
  healthBounds st -> healthBounds (bulletNeutralCandidates bullet candidates st).
Proof.
  intros Hd. revert st. induction candidates as [|c rest IH]; intros st HB; [done|].
  cbn [bulletNeutralCandidates]. cbv zeta.
  destruct (World.neutrals (Pass.world st) !! c) as [neutral|] eqn:Hc; [|by apply IH].
  destruct (String.eqb _ _); [by apply IH|].
  destruct (negb _); [by apply IH|].
  destruct (JS.ltb _ _); [by apply healthBounds_bulletHitsNeutral|by apply IH].
Qed.

Lemma healthBounds_checkBulletNeutralCollisions neutralGrid st :
  Forall (fun b => 0 <= Bullet.damage b) (World.bullets (Pass.world st)) ->
  healthBounds st -> healthBounds (checkBulletNeutralCollisions neutralGrid st).
Proof.
  intros Hd HB. unfold checkBulletNeutralCollisions. cbv zeta.
  eapply healthBounds_foldl; [|exact Hd|exact HB].
  intros st' b Hb HB'. destruct (bool_decide _); [done|].
  by apply healthBounds_bulletNeutralCandidates.
Qed.

Lemma world_foldl_kept {A : Type} (P : World.t -> Prop) (f : World.t -> A -> World.t)
    (l : list A) (w : World.t) :
  (forall w a, P w -> P (f w a)) -> P w -> P (foldl f w l).
Proof.
  intros Hf. revert w. induction l as [|a l IH]; intros w Hw; [done|].
  cbn [foldl]. by apply IH, Hf.
Qed.

Lemma capped_shipShipPair playerIndex i p1 w p2 :
  Forall capped (World.players w) ->
  Forall capped
    (World.players (shipShipPair Math_sqrt toISOString now playerIndex i p1 w p2)).
Proof.
  intros H. unfold shipShipPair.
  destruct (World.players w !! p1) as [player1|]; [|done].
  destruct (World.players w !! p2) as [player2|]; [|done].
  destruct (playerIndex !! _) as [j|]; [|done].
  destruct (j <=? i)%nat; [done|]. cbv zeta.
  destruct (_ && _); [|done].
  match goal with |- context [modPlayer p2 ?f6 (modPlayer p1 ?f5 (modPlayer p2 ?f4
      (modPlayer p2 ?f3 (modPlayer p1 ?f2 (modPlayer p1 ?f1 w)))))] =>
    set (w6 := modPlayer p2 f6 (modPlayer p1 f5 (modPlayer p2 f4
      (modPlayer p2 f3 (modPlayer p1 f2 (modPlayer p1 f1 w))))));
    assert (H6 : Forall capped (World.players w6))
      by (unfold w6; repeat (apply capped_modPlayer;
            [intros p [? ?]; unfold capped; cbn; lia|]); exact H)
  end.
  clearbody w6.
  set (w7 := match World.players w6 !! p1 with Some _ => _ | None => w6 end).
  assert (H7 : Forall capped (World.players w7)).
  { unfold w7. destruct (World.players w6 !! p1) as [q1|]; [|done].
    destruct (_ && _); [by apply capped_handlePlayerDeath|done]. }
  clearbody w7.
  destruct (World.players w7 !! p2) as [q2|]; [|done].
  destruct (_ && _); [by apply capped_handlePlayerDeath|done].
Qed.

Lemma capped_checkShipShipCollisions livingPlayers shipGrid w :
  Forall capped (World.players w) ->
  Forall capped (World.players
    (checkShipShipCollisions Math_sqrt toISOString now livingPlayers shipGrid w)).
Proof.
  unfold checkShipShipCollisions. cbv zeta.
  apply (world_foldl_kept (fun w => Forall capped (World.players w))).
  intros a [i p1] Ha. destruct (World.players a !! p1) as [player1|]; [|done].
  revert Ha. apply (world_foldl_kept (fun w => Forall capped (World.players w))).
  intros a' p2. apply capped_shipShipPair.
Qed.

Lemma capped_droneShip d w c :
  Forall capped (World.players w) ->
  Forall capped (World.players (droneShip Math_sqrt toISOString now d w c)).
Proof.
  intros H. unfold droneShip.
  destruct (World.drones w !! d) as [drone|]; [|done].
  destruct (World.players w !! c) as [player|] eqn:Hc; [|done]. cbv zeta.
  destruct (_ || _); [done|].
  destruct (Ship.isStealthed _); [done|].
  destruct (now <? _); [done|].
  destruct (_ && _); [|done].
  cbn [modDrone World.players World.set_drones].
  destruct (negb _); [|done].
  assert (H1 : Forall capped (World.players
            (modPlayer c (Player.on_ship (Ship.set_health
               (Ship.health (Player.ship player) - DRONE_DAMAGE))) w))).
  { rewrite players_modPlayer. apply Forall_alter; [done|].
    intros p Hp [? ?]. assert (p = player) by congruence. subst p.
    unfold capped, DRONE_DAMAGE. cbn. lia. }
  destruct (_ <=? 0); [apply capped_handlePlayerDeath|]; exact H1.
Qed.

Lemma neutrals_droneShip d w c :
  World.neutrals (droneShip Math_sqrt toISOString now d w c) = World.neutrals w.
Proof.
  unfold droneShip.
  destruct (World.drones w !! d) as [drone|]; [|done].
  destruct (World.players w !! c) as [player|]; [|done]. cbv zeta.
  destruct (_ || _); [done|].
  destruct (Ship.isStealthed _); [done|].
  destruct (now <? _); [done|].
  destruct (_ && _); [|done].
  cbn [modDrone World.neutrals World.set_drones].
  destruct (negb _); [|done].
  destruct (_ <=? 0); [rewrite neutrals_handlePlayerDeath|]; reflexivity.
Qed.

Lemma neutrals_shipShipPair playerIndex i p1 w p2 :
  World.neutrals (shipShipPair Math_sqrt toISOString now playerIndex i p1 w p2)
  = World.neutrals w.
Proof.
  unfold shipShipPair.
  destruct (World.players w !! p1) as [player1|]; [|done].
  destruct (World.players w !! p2) as [player2|]; [|done].
  destruct (playerIndex !! _) as [j|]; [|done].
  destruct (j <=? i)%nat; [done|]. cbv zeta.
  destruct (_ && _); [|done].
  match goal with |- context [modPlayer p2 ?f6 (modPlayer p1 ?f5 (modPlayer p2 ?f4
      (modPlayer p2 ?f3 (modPlayer p1 ?f2 (modPlayer p1 ?f1 w)))))] =>
    set (w6 := modPlayer p2 f6 (modPlayer p1 f5 (modPlayer p2 f4
      (modPlayer p2 f3 (modPlayer p1 f2 (modPlayer p1 f1 w))))));
    assert (H6 : World.neutrals w6 = World.neutrals w) by reflexivity
  end.
  clearbody w6. rewrite <- H6.
  set (w7 := match World.players w6 !! p1 with Some _ => _ | None => w6 end).
  assert (H7 : World.neutrals w7 = World.neutrals w6).
  { unfold w7. destruct (World.players w6 !! p1) as [q1|]; [|done].
    destruct (_ && _); [apply neutrals_handlePlayerDeath|done]. }
  clearbody w7. rewrite <- H7.
  destruct (World.players w7 !! p2) as [q2|]; [|done].
  destruct (_ && _); [apply neutrals_handlePlayerDeath|done].
Qed.

Lemma neutrals_checkShipShipCollisions livingPlayers shipGrid w :
  World.neutrals (checkShipShipCollisions Math_sqrt toISOString now livingPlayers shipGrid w)
  = World.neutrals w.
Proof.
  unfold checkShipShipCollisions. cbv zeta.
  apply (foldl_kept World.neutrals).
  intros a [i p1]. destruct (World.players a !! p1) as [player1|]; [|done].
  apply (foldl_kept World.neutrals). intros a' p2. apply neutrals_shipShipPair.
Qed.

Lemma healthBounds_droneNeutral d owner st c :
  healthBounds st -> healthBounds (droneNeutral d owner st c).
Proof.
  intros [HP HN]. unfold droneNeutral. cbv zeta.
  destruct (World.drones (Pass.world st) !! d) as [drone|]; [|done].
  destruct (World.neutrals (Pass.world st) !! c) as [neutral|] eqn:Hc; [|done].
  destruct (bool_decide _); [done|].
  destruct (JS.ltb _ _); [|done].
  set (h := NeutralObject.health neutral - DRONE_DAMAGE).
  destruct (HN c neutral Hc) as [Hmax _].
  assert (Hkeep : forall (extra : gset string) c' n,
            alter (NeutralObject.set_health h) c (World.neutrals (Pass.world st)) !! c'
            = Some n ->
            (h <= 0 -> NeutralObject.id neutral ∈ extra) ->
            Pass.neutralsToRemove st ⊆ extra ->
            NeutralObject.health n <= NeutralObject.maxHealth n
            /\ (0 < NeutralObject.health n \/ NeutralObject.id n ∈ extra)).
  { intros extra c' n Hn Hdead Hsub. destruct (decide (c' = c)) as [->|Hne].
    - rewrite list_lookup_alter_eq, Hc in Hn. injection Hn as <-. cbn.
      split; [unfold h, DRONE_DAMAGE; lia|].
      destruct (Z.lt_ge_cases 0 h); [by left|right; apply Hdead; lia].
    - rewrite list_lookup_alter_ne in Hn by done.
      destruct (HN c' n Hn) as [? [?|?]]; split; auto. }
  destruct (Z.leb_spec h 0); split;
    cbn [Pass.world Pass.neutralsToRemove emit World.players World.neutrals
         World.set_emitted modNeutral World.set_neutrals];
    try (apply capped_awardXP); try exact HP;
    rewrite ?neutrals_awardXP; intros c' n Hn.
  - apply (Hkeep _ c' n Hn);
      [intros _; apply elem_of_union_l; by apply elem_of_singleton
      |apply union_subseteq_r].
  - apply (Hkeep _ c' n Hn); [lia|done].
Qed.

Lemma healthBounds_droneCollisions shipGrid neutralGrid st d :
  healthBounds st ->
  healthBounds (droneCollisions Math_sqrt toISOString now shipGrid neutralGrid st d).
Proof.
  intros HB. unfold droneCollisions. cbv zeta.
  destruct (World.drones (Pass.world st) !! d) as [drone|]; [|done].
  destruct (players_get _ _) as [[owner ?]|]; [|done].
  match goal with |- context [foldl (droneShip _ _ _ d) ?w ?l] =>
    set (w1 := foldl (droneShip Math_sqrt toISOString now d) w l);
    assert (H1 : Forall capped (World.players w1)
                 /\ World.neutrals w1 = World.neutrals w)
  end.
  { split.
    - apply (world_foldl_kept (fun w => Forall capped (World.players w)));
        [intros; by apply capped_droneShip|apply HB].
    - apply (foldl_kept World.neutrals). intros; apply neutrals_droneShip. }
  clearbody w1. destruct H1 as [H1 N1].
  destruct (World.drones w1 !! d) as [drone1|]; [|done].
  apply (healthBounds_foldl _ _ (fun _ => True)).
  - intros st' a _. apply healthBounds_droneNeutral.
  - by apply Forall_true.
  - by apply healthBounds_players.
Qed.

Lemma healthBounds_checkDroneCollisions shipGrid neutralGrid st :
  healthBounds st ->
  healthBounds (checkDroneCollisions Math_sqrt toISOString now shipGrid neutralGrid st).
Proof.
  intros HB. unfold checkDroneCollisions.
  apply (healthBounds_foldl _ _ (fun _ => True)); [|by apply Forall_true|done].
  intros st' a _. apply healthBounds_droneCollisions.
Qed.

End HealthBounds.

(** The four passes of [checkCollisions], before the removals are applied:
    the state they leave keeps the frame and the health bounds. *)
Lemma checkCollisions_passes (Math_sqrt : Q -> Q) (toISOString : Z -> string)
    (now : Z) (w : World.t) :
  exists st,
    checkCollisions Math_sqrt toISOString now w
    = (let w1 :=
         if bool_decide (Pass.bulletsToRemove st = ∅) then Pass.world st
         else World.set_bullets
                (List.filter (fun b => negb (bool_decide (Bullet.id b ∈ Pass.bulletsToRemove st)))
                             (World.bullets (Pass.world st))) (Pass.world st) in
       if bool_decide (Pass.neutralsToRemove st = ∅) then w1
       else World.set_neutrals
              (List.filter
                 (fun n => negb (bool_decide (NeutralObject.id n ∈ Pass.neutralsToRemove st)))
                 (World.neutrals w1)) w1)
    /\ collisionFrame (Pass.world st) = collisionFrame w
    /\ (Forall capped (World.players w) -> Forall afloat (World.neutrals w) ->
        Forall (fun b => 0 <= Bullet.damage b) (World.bullets w) -> healthBounds st).
Proof.
  unfold checkCollisions. cbv zeta.
  set (st0 := Pass.mk w ∅ ∅).
  set (st1 := checkBulletShipCollisions _ _ _ st0).
  set (st2 := checkBulletNeutralCollisions _ st1).
  set (w3 := checkShipShipCollisions _ _ _ _ _ _).
  set (st3 := Pass.mk w3 _ _).
  set (st4 := checkDroneCollisions _ _ _ _ _ _).
  exists st4. split; [reflexivity|].
  assert (F1 : collisionFrame (Pass.world st1) = collisionFrame w).
  { unfold st1. by rewrite (proj1 (frame_checkBulletShipCollisions _ _ _ _)). }
  split.
  { unfold st4. rewrite frame_checkDroneCollisions. cbn [st3 Pass.world].
    unfold w3. rewrite frame_checkShipShipCollisions.
    unfold st2. by rewrite frame_checkBulletNeutralCollisions. }
  intros HP HN HD.
  assert (HB0 : healthBounds st0).
  { split; [done|]. intros c n Hn. rewrite Forall_lookup in HN.
    destruct (HN c n Hn). split; [done|by left]. }
  assert (HB1 : healthBounds st1) by (by apply healthBounds_checkBulletShipCollisions).
  assert (HD1 : World.bullets (Pass.world st1) = World.bullets w).
  { unfold collisionFrame in F1. congruence. }
  assert (HB2 : healthBounds st2).
  { apply healthBounds_checkBulletNeutralCollisions; [by rewrite HD1|done]. }
  assert (HB3 : healthBounds st3).
  { apply healthBounds_players; [|apply neutrals_checkShipShipCollisions|done].
    apply capped_checkShipShipCollisions, HB2. }
  by apply healthBounds_checkDroneCollisions.
Qed.

(** X9. Collision resolution only assigns the position, health, level, xp,
    kills, score, upgrade points and death state of players, the health of
    neutrals and the position of drones, and only removes bullets and
    neutrals: with those fields blanked the players and the drones are the
    same lists as before, the bullets are a sublist of the old bullets, the
    neutrals (health blanked) a sublist of the old neutrals, and the
    islands and the id counters are unchanged.  In particular no player
    joins, leaves or changes place, and no stealth, shield or protection
    state changes. *)
Theorem checkCollisions_frame (Math_sqrt : Q -> Q) (toISOString : Z -> string)
    (now : Z) (w : World.t) :
  let w' := checkCollisions Math_sqrt toISOString now w in
  map playerFrame (World.players w') = map playerFrame (World.players w)
  /\ sublist (World.bullets w') (World.bullets w)
  /\ sublist (map neutralFrame (World.neutrals w')) (map neutralFrame (World.neutrals w))
  /\ World.islands w' = World.islands w
  /\ map droneFrame (World.drones w') = map droneFrame (World.drones w)
  /\ World.lastNeutralSpawn w' = World.lastNeutralSpawn w
  /\ World.droneIdCounter w' = World.droneIdCounter w
  /\ World.bulletIdCounter w' = World.bulletIdCounter w
  /\ World.neutralIdCounter w' = World.neutralIdCounter w.
Proof.
  intros w'. subst w'.
  destruct (checkCollisions_passes Math_sqrt toISOString now w) as (st & -> & H & _).
  unfold collisionFrame in H.
  injection H as Hp Hb Hn Hi Hd H1 H2 H3 H4.
  cbv zeta.
  destruct (bool_decide (Pass.bulletsToRemove st = ∅));
    destruct (bool_decide (Pass.neutralsToRemove st = ∅));
    cbn [World.players World.bullets World.neutrals World.islands World.drones
         World.lastNeutralSpawn World.droneIdCounter World.bulletIdCounter
         World.neutralIdCounter World.set_bullets World.set_neutrals];
    rewrite ?Hp, ?Hi, ?Hd, ?H1, ?H2, ?H3, ?H4, <- ?Hb, <- ?Hn;
    repeat split; try reflexivity;
    try apply filter_sublist;
    try (apply fmap_sublist; apply filter_sublist).
Qed.

(** X10. Collision resolution keeps the upper health bounds and leaves no
    sunk neutral behind: if every ship's health is at most its (non-negative)
    maximum, every neutral's health is positive and at most its maximum, and
    no bullet has negative damage, then after [checkCollisions] every ship's
    health is still at most its maximum and every neutral still in the world
    has positive health, at most its maximum. *)
Theorem checkCollisions_health_bounds (Math_sqrt : Q -> Q) (toISOString : Z -> string)
    (now : Z) (w : World.t) :
  Forall capped (World.players w) ->
  Forall afloat (World.neutrals w) ->
  Forall (fun b => 0 <= Bullet.damage b) (World.bullets w) ->
  let w' := checkCollisions Math_sqrt toISOString now w in
  Forall capped (World.players w') /\ Forall afloat (World.neutrals w').
Proof.
  intros HP HN HD w'. subst w'.
  destruct (checkCollisions_passes Math_sqrt toISOString now w) as (st & -> & _ & HB).
  destruct (HB HP HN HD) as [HP4 HN4]. cbv zeta.
  assert (Hout : forall keep : NeutralObject.t -> bool,
            (forall n, keep n = true -> NeutralObject.id n ∉ Pass.neutralsToRemove st) ->
            Forall afloat (List.filter keep (World.neutrals (Pass.world st)))).
  { intros keep Hkeep. apply Forall_forall. intros n Hin.
    apply list_elem_of_In, filter_In in Hin as [Hin Hk].
    apply list_elem_of_In, list_elem_of_lookup in Hin as [c Hc].
    destruct (HN4 c n Hc) as [Hmax [Hpos|Hrem]]; [done|].
    by apply Hkeep in Hk. }
  assert (Hall : Pass.neutralsToRemove st = ∅ ->
                 Forall afloat (World.neutrals (Pass.world st))).
  { intros He. apply Forall_lookup. intros c n Hc.
    destruct (HN4 c n Hc) as [Hmax [Hpos|Hrem]]; [done|].
    rewrite He in Hrem. by apply not_elem_of_empty in Hrem. }
  destruct (bool_decide (Pass.bulletsToRemove st = ∅));
    destruct (bool_decide (Pass.neutralsToRemove st = ∅)) eqn:Hn;
    cbn [World.players World.neutrals World.set_bullets World.set_neutrals];
    (split; [exact HP4|]).
  all: try (apply Hall; by apply bool_decide_eq_true in Hn).
  all: apply Hout; intros n Hk; apply negb_true_iff, bool_decide_eq_false in Hk; exact Hk.
Qed.

(** Witness of X10: the pass on two ships, a tank and the tank's bullet. *)
Lemma checkCollisions_health_bounds_witness :
  Forall capped (World.players (checkCollisions sqrt6 stamp 5000 rammedWorld))
  /\ Forall afloat (World.neutrals (checkCollisions sqrt6 stamp 5000 rammedWorld)).
Proof.
  apply (checkCollisions_health_bounds sqrt6 stamp 5000 rammedWorld).
  - repeat constructor; discriminate.
  - repeat constructor; discriminate.
  - repeat constructor; discriminate.
Defined.

(** ** Ships that bullets and drones do not damage *)

Section ExemptFacts.
Variable Math_sqrt : Q -> Q.
Variable toISOString : Z -> string.
Variable now : Z.
Variable pi : nat.
Variable p0 : Player.t.

Lemma keeps_here w : World.players w !! pi = Some p0 -> keeps pi p0 w.
Proof. intros H. exists p0. split; [done|]. split; [apply undamaged_refl|done]. Qed.

Lemma keeps_stays w : keeps pi p0 w -> stays pi p0 w.
Proof. intros (p' & ? & ? & ?). by exists p'. Qed.

(** A step that keeps the frame and does not damage the player keeps it. *)
Lemma keeps_step w w' :
  collisionFrame w' = collisionFrame w -> stays pi p0 w' -> keeps pi p0 w ->
  keeps pi p0 w'.
Proof.
  intros HF (p' & Hp' & Hu) (p'' & Hp'' & _ & Hfr).
  exists p'. split; [done|]. split; [done|]. rewrite <- Hfr.
  assert (H : map playerFrame (World.players w') !! pi
              = map playerFrame (World.players w) !! pi).
  { unfold collisionFrame in HF. congruence. }
  change (map playerFrame) with (fmap (M := list) playerFrame) in H.
  rewrite !list_lookup_fmap, Hp', Hp'' in H. cbn in H. congruence.
Qed.

(** The flags of the followed player, read off the current world. *)
Lemma keeps_flags w c player :
  keeps pi p0 w -> World.players w !! c = Some player -> c = pi ->
  Player.id player = Player.id p0
  /\ Player.isDead player = Player.isDead p0
  /\ Ship.isStealthed (Player.ship player) = Ship.isStealthed (Player.ship p0)
  /\ Ship.isShielded (Player.ship player) = Ship.isShielded (Player.ship p0).
Proof.
  intros (p' & Hp' & Hu & Hfr) Hc ->.
  assert (player = p') by congruence. subst player.
  destruct Hu as (Hid & _ & Hdead & _).
  split; [done|]. split; [done|].
  split.
  - apply (f_equal (fun p => Ship.isStealthed (Player.ship p))) in Hfr. exact Hfr.
  - apply (f_equal (fun p => Ship.isShielded (Player.ship p))) in Hfr. exact Hfr.
Qed.

Lemma bulletShipCandidates_exempt (bullet : Bullet.t) (candidates : list nat)
    (st : Pass.t) :
  Bullet.ownerId bullet = Player.id p0 \/ immune p0 ->
  keeps pi p0 (Pass.world st) ->
  keeps pi p0 (Pass.world (bulletShipCandidates toISOString now bullet candidates st)).
Proof.
  intros Hex Hk.
  apply (keeps_step (Pass.world st));
    [apply frame_bulletShipCandidates| |exact Hk].
  revert st Hk. induction candidates as [|c rest IH]; intros st Hk;
    [by apply keeps_stays|].
  cbn [bulletShipCandidates]. cbv zeta.
  destruct (World.players (Pass.world st) !! c) as [player|] eqn:Hc; [|by apply IH].
  destruct (String.eqb _ _) eqn:Hown; [by apply IH|].
  destruct (Player.isDead player) eqn:Hdead; [by apply IH|].
  destruct (Ship.isStealthed _) eqn:Hst; [by apply IH|].
  destruct (now <? Player.spawnProtectionUntil player); [by apply IH|].
  destruct (JS.ltb _ _); [|by apply IH].
  destruct (Ship.isShielded _) eqn:Hsh.
  - apply IH. cbn [Pass.world]. destruct Hk as (p' & ? & ? & ?). by exists p'.
  - assert (Hne : c <> pi).
    { intros ->. destruct (keeps_flags _ _ _ Hk Hc eq_refl) as (Hid & Hd & Hs & Hh).
      destruct Hex as [Ho|[Hi|[Hi|Hi]]].
      - apply String.eqb_neq in Hown. congruence.
      - congruence.
      - congruence.
      - congruence. }
    cbn [Pass.world].
    set (w1 := emit _ (modPlayer c _ (Pass.world st))).
    assert (H1 : stays pi p0 w1).
    { apply (stays_players _ _ (modPlayer c
               (Player.on_ship (Ship.set_health
                  (Ship.health (Player.ship player) - Bullet.damage bullet)))
               (Pass.world st))); [done|].
      apply stays_modPlayer_ne; [done|]. by apply keeps_stays. }
    destruct (_ <=? 0); [|done].
    by apply stays_handlePlayerDeath.
Qed.

Lemma foldl_pass_keeps {A : Type} (P : A -> Prop) (f : Pass.t -> A -> Pass.t)
    (l : list A) (st : Pass.t) :
  (forall st a, P a -> keeps pi p0 (Pass.world st) -> keeps pi p0 (Pass.world (f st a))) ->
  Forall P l ->
  keeps pi p0 (Pass.world st) -> keeps pi p0 (Pass.world (foldl f st l)).
Proof.
  intros Hf Hl. revert st. induction Hl as [|a l Ha Hl IH]; intros st Hs; [done|].
  cbn. by apply IH, Hf.
Qed.

Lemma checkBulletShipCollisions_exempt (shipGrid : SpatialHashGrid.t nat) (st : Pass.t) :
  Forall (fun b => Bullet.ownerId b = Player.id p0 \/ immune p0)
         (World.bullets (Pass.world st)) ->
  keeps pi p0 (Pass.world st) ->
  keeps pi p0 (Pass.world (checkBulletShipCollisions toISOString now shipGrid st)).
Proof.
  intros Hb Hk. unfold checkBulletShipCollisions. cbv zeta.
  eapply foldl_pass_keeps; [|exact Hb|exact Hk].
  intros st' b Hex Hk'. destruct (bool_decide _); [done|].
  by apply bulletShipCandidates_exempt.
Qed.

(** The drone at [d] belongs to the followed player, or that player is
    immune. *)
Lemma droneShip_exempt (d : nat) (w : World.t) (c : nat) :
  (forall drone, World.drones w !! d = Some drone ->
                 Drone.ownerId drone = Player.id p0 \/ immune p0) ->
  keeps pi p0 w -> keeps pi p0 (droneShip Math_sqrt toISOString now d w c).
Proof.
  intros Hex Hk.
  apply (keeps_step w); [apply frame_droneShip| |exact Hk].
  unfold droneShip.
  destruct (World.drones w !! d) as [dr|] eqn:Hd; [|by apply keeps_stays].
  destruct (World.players w !! c) as [player|] eqn:Hc; [|by apply keeps_stays].
  cbv zeta.
  destruct (_ || _) eqn:Hod; [by apply keeps_stays|].
  destruct (Ship.isStealthed _) eqn:Hst; [by apply keeps_stays|].
  destruct (now <? Player.spawnProtectionUntil player); [by apply keeps_stays|].
  destruct (_ && _); [|by apply keeps_stays].
  apply (stays_players _ _
           (if negb (Ship.isShielded (Player.ship player))
            then
              let health := Ship.health (Player.ship player) - DRONE_DAMAGE in
              let w1 := modPlayer c (Player.on_ship (Ship.set_health health)) w in
              let w2 := emit (Ev.damageDealt (Ship.x (Player.ship player))
                                             (Ship.y (Player.ship player))
                                             DRONE_DAMAGE false) w1 in
              if health <=? 0
              then handlePlayerDeath toISOString c (Drone.ownerId dr) "drone" now w2
              else w2
            else w)); [reflexivity|].
  destruct (Ship.isShielded _) eqn:Hsh; cbn [negb]; [by apply keeps_stays|]. cbv zeta.
  assert (Hne : c <> pi).
  { intros ->. destruct (keeps_flags _ _ _ Hk Hc eq_refl) as (Hid & Hdd & Hs & Hh).
    apply orb_false_elim in Hod as [Hown Hdead].
    destruct (Hex dr eq_refl) as [Ho|[Hi|[Hi|Hi]]].
    - apply String.eqb_neq in Hown. congruence.
    - congruence.
    - congruence.
    - congruence. }
  assert (H1 : stays pi p0
                 (emit (Ev.damageDealt (Ship.x (Player.ship player))
                                       (Ship.y (Player.ship player)) DRONE_DAMAGE false)
                       (modPlayer c (Player.on_ship
                          (Ship.set_health (Ship.health (Player.ship player) - DRONE_DAMAGE)))
                          w))).
  { apply (stays_players _ _ (modPlayer c (Player.on_ship
             (Ship.set_health (Ship.health (Player.ship player) - DRONE_DAMAGE))) w));
      [done|]. apply stays_modPlayer_ne; [done|]. by apply keeps_stays. }
  destruct (_ <=? 0); [|done].
  by apply stays_handlePlayerDeath.
Qed.

Lemma droneNeutral_keeps (d owner : nat) (st : Pass.t) (c : nat) :
  keeps pi p0 (Pass.world st) -> keeps pi p0 (Pass.world (droneNeutral d owner st c)).
Proof.
  intros Hk. apply (keeps_step (Pass.world st)); [apply frame_droneNeutral| |exact Hk].
  apply droneNeutral_stays. by apply keeps_stays.
Qed.

Lemma owners_frame (P : string -> Prop) w w' :
  collisionFrame w' = collisionFrame w ->
  Forall (fun dr => P (Drone.ownerId dr)) (World.drones w) ->
  Forall (fun dr => P (Drone.ownerId dr)) (World.drones w').
Proof.
  intros HF H.
  assert (Hd : map droneFrame (World.drones w') = map droneFrame (World.drones w)).
  { unfold collisionFrame in HF. congruence. }
  assert (Hm : forall l, Forall (fun dr => P (Drone.ownerId dr)) l
                         <-> Forall (fun dr => P (Drone.ownerId dr)) (map droneFrame l)).
  { intros l. change (map droneFrame l) with (droneFrame <$> l).
    rewrite Forall_fmap.
    split; intros Hx; (eapply Forall_impl; [exact Hx|intros dr Hdr; exact Hdr]). }
  apply (proj2 (Hm _)). rewrite Hd. apply (proj1 (Hm _)). exact H.
Qed.

Lemma droneCollisions_exempt (shipGrid neutralGrid : SpatialHashGrid.t nat)
    (st : Pass.t) (d : nat) :
  let ex := fun dr => Drone.ownerId dr = Player.id p0 \/ immune p0 in
  keeps pi p0 (Pass.world st) /\ Forall ex (World.drones (Pass.world st)) ->
  let st' := droneCollisions Math_sqrt toISOString now shipGrid neutralGrid st d in
  keeps pi p0 (Pass.world st') /\ Forall ex (World.drones (Pass.world st')).
Proof.
  intros ex [Hk He] st'. split.
  2: { apply (owners_frame (fun o => o = Player.id p0 \/ immune p0) (Pass.world st));
         [apply frame_droneCollisions|exact He]. }
  subst st'. unfold droneCollisions. cbv zeta.
  destruct (World.drones (Pass.world st) !! d) as [dr|]; [|done].
  destruct (players_get _ _) as [[owner ?]|]; [|done].
  match goal with |- context [foldl (droneShip _ _ _ d) ?w ?l] =>
    set (w1 := foldl (droneShip Math_sqrt toISOString now d) w l);
    assert (H1 : keeps pi p0 w1 /\ Forall ex (World.drones w1))
  end.
  { apply (world_foldl_kept (fun w => keeps pi p0 w /\ Forall ex (World.drones w)));
      [|by split].
    intros w a [Hkw Hew]. split.
    - apply droneShip_exempt; [|done]. intros drone Hdr.
      rewrite Forall_lookup in Hew. by apply (Hew d).
    - apply (owners_frame (fun o => o = Player.id p0 \/ immune p0) w);
        [apply frame_droneShip|exact Hew]. }
  clearbody w1. destruct H1 as [Hk1 _].
  destruct (World.drones w1 !! d) as [dr'|]; [|done].
  apply (foldl_pass_keeps (fun _ => True)); [|by apply Forall_true|done].
  intros st2 a _. apply droneNeutral_keeps.
Qed.

Lemma checkDroneCollisions_exempt (shipGrid neutralGrid : SpatialHashGrid.t nat)
    (st : Pass.t) :
  Forall (fun dr => Drone.ownerId dr = Player.id p0 \/ immune p0)
         (World.drones (Pass.world st)) ->
  keeps pi p0 (Pass.world st) ->
  keeps pi p0 (Pass.world (checkDroneCollisions Math_sqrt toISOString now
                                                shipGrid neutralGrid st)).
Proof.
  intros He Hk. unfold checkDroneCollisions.
  generalize (seq 0 (length (World.drones (Pass.world st)))). intros ds.
  revert st He Hk. induction ds as [|d ds IH]; intros st He Hk; [done|].
  cbn [foldl].
  destruct (droneCollisions_exempt shipGrid neutralGrid st d (conj Hk He)) as [Hk' He'].
  by apply IH.
Qed.

End ExemptFacts.

(** X11. Bullets and drones do not damage a ship that is dead, stealthed or
    shielded, nor the ship of their owner: if every bullet (every drone) is
    the player's own or the player is dead, stealthed or shielded, then after
    the bullet pass (the drone pass) the player is still registered with the
    same death state, protection deadline and maximum health, and with the
    health it had, or the maximum after a level-up; so the health is not
    lower when it was at most the maximum. *)
Theorem collisions_spare_immune (Math_sqrt : Q -> Q) (toISOString : Z -> string)
    (now : Z) (st : Pass.t) (pi : nat) (p : Player.t) :
  World.players (Pass.world st) !! pi = Some p ->
  (Forall (fun b => Bullet.ownerId b = Player.id p \/ immune p)
          (World.bullets (Pass.world st)) ->
   forall shipGrid,
     exists p',
       World.players (Pass.world (checkBulletShipCollisions toISOString now shipGrid st))
         !! pi = Some p'
       /\ undamaged p p'
       /\ (Ship.health (Player.ship p) <= Ship.maxHealth (Player.ship p) ->
           Ship.health (Player.ship p) <= Ship.health (Player.ship p')))
  /\ (Forall (fun d => Drone.ownerId d = Player.id p \/ immune p)
             (World.drones (Pass.world st)) ->
      forall shipGrid neutralGrid,
        exists p',
          World.players (Pass.world (checkDroneCollisions Math_sqrt toISOString now
                                       shipGrid neutralGrid st)) !! pi = Some p'
          /\ undamaged p p'
          /\ (Ship.health (Player.ship p) <= Ship.maxHealth (Player.ship p) ->
              Ship.health (Player.ship p) <= Ship.health (Player.ship p'))).
Proof.
  intros Hp.
  assert (Hk : keeps pi p (Pass.world st)) by (by apply keeps_here).
  assert (Hfin : forall w', keeps pi p w' ->
            exists p', World.players w' !! pi = Some p' /\ undamaged p p'
              /\ (Ship.health (Player.ship p) <= Ship.maxHealth (Player.ship p) ->
                  Ship.health (Player.ship p) <= Ship.health (Player.ship p'))).
  { intros w' (p' & Hp' & Hu & _). exists p'. split; [done|]. split; [done|].
    destruct Hu as (_ & _ & _ & _ & [Hh|Hh]); lia. }
  split.
  - intros Hb shipGrid. apply Hfin. by apply checkBulletShipCollisions_exempt.
  - intros Hd shipGrid neutralGrid. apply Hfin. by apply checkDroneCollisions_exempt.
Qed.

(** Witness of X11: the shielded Ann of [shieldedWorld], long after her
    spawn protection, comes through the bullet pass undamaged. *)
Lemma collisions_spare_immune_witness :
  exists p',
    World.players
      (Pass.world (checkBulletShipCollisions stamp 5000
                     (shipGridOf shieldedWorld (livingPlayersOf shieldedWorld))
                     (Pass.mk shieldedWorld ∅ ∅))) !! 0%nat = Some p'
    /\ undamaged (Player.on_ship (Ship.set_isShielded true)
                    (newPlayer "local-player" "Ann" (100 # 1) (100 # 1) 0)) p'.
Proof.
  destruct (proj1 (collisions_spare_immune sqrt6 stamp 5000 (Pass.mk shieldedWorld ∅ ∅)
                     0 (Player.on_ship (Ship.set_isShielded true)
                          (newPlayer "local-player" "Ann" (100 # 1) (100 # 1) 0))
                     eq_refl)
                  ltac:(repeat constructor; right; right; right; reflexivity)
                  (shipGridOf shieldedWorld (livingPlayersOf shieldedWorld)))
    as (p' & Hp' & Hu & _).
  exists p'. split; [exact Hp'|exact Hu].
Defined.

(** ** Players that were dead before the pass *)

Section DeadFacts.
Variable Math_sqrt : Q -> Q.
Variable toISOString : Z -> string.
Variable now : Z.
Variable pi : nat.
Variable p0 : Player.t.

(** The ship grid holds positions of living players only. *)
Lemma shipGridOf_values (w : World.t) (livingPlayers : list nat) (k : Z)
    (b : list nat) (v : nat) :
  SpatialHashGrid.buckets (shipGridOf w livingPlayers) !! k = Some b -> v ∈ b ->
  v ∈ livingPlayers.
Proof.
  unfold shipGridOf. intros Hk Hv.
  assert (Hgen : forall l g b,
            SpatialHashGrid.buckets
              (foldl (fun g p => match World.players w !! p with
                                 | Some player =>
                                     SpatialHashGrid.insert (Ship.x (Player.ship player))
                                       (Ship.y (Player.ship player)) p g
                                 | None => g
                                 end) g l) !! k = Some b ->
            v ∈ b ->
            (exists b0, SpatialHashGrid.buckets g !! k = Some b0 /\ v ∈ b0) \/ v ∈ l).
  { clear. induction l as [|p l IH]; intros g b Hk Hv; [left; eauto|].
    cbn [foldl] in Hk. destruct (IH _ _ Hk Hv) as [(b0 & Hb0 & Hv0)|Hin].
    - destruct (World.players w !! p) as [player|]; [|left; eauto].
      destruct (insert_origin _ _ p v g k b0 Hb0 Hv0) as [?|[-> _]]; [by left|].
      right. by left.
    - right. by right. }
  destruct (Hgen _ _ _ Hk Hv) as [(b0 & Hb0 & Hv0)|Hin]; [|done].
  cbn in Hb0. by rewrite lookup_empty in Hb0.
Qed.

Lemma shipGridOf_candidates (w : World.t) (livingPlayers : list nat) (x y range : Q)
    (out : list nat) (v : nat) :
  v ∈ SpatialHashGrid.queryInto (shipGridOf w livingPlayers) x y range out ->
  v ∈ livingPlayers.
Proof.
  unfold SpatialHashGrid.queryInto. cbv zeta. intros Hv.
  apply rows_origin in Hv as [Hv|(cx & cy & b & _ & _ & Hb & Hvb)].
  - by apply elem_of_nil in Hv.
  - by eapply shipGridOf_values.
Qed.

Lemma shipShipPair_stays_other playerIndex i p1 w p2 :
  p1 <> pi -> p2 <> pi -> stays pi p0 w ->
  stays pi p0 (shipShipPair Math_sqrt toISOString now playerIndex i p1 w p2).
Proof.
  intros H1 H2 Hs. unfold shipShipPair.
  destruct (World.players w !! p1) as [player1|]; [|done].
  destruct (World.players w !! p2) as [player2|]; [|done].
  destruct (playerIndex !! _) as [j|]; [|done].
  destruct (j <=? i)%nat; [done|]. cbv zeta.
  destruct (_ && _); [|done].
  match goal with |- context [modPlayer p2 ?f6 (modPlayer p1 ?f5 (modPlayer p2 ?f4
      (modPlayer p2 ?f3 (modPlayer p1 ?f2 (modPlayer p1 ?f1 w)))))] =>
    set (w6 := modPlayer p2 f6 (modPlayer p1 f5 (modPlayer p2 f4
      (modPlayer p2 f3 (modPlayer p1 f2 (modPlayer p1 f1 w))))));
    assert (H6 : stays pi p0 w6)
      by (unfold w6; repeat (apply stays_modPlayer_ne; [done|]); exact Hs)
  end.
  clearbody w6.
  set (w7 := match World.players w6 !! p1 with Some _ => _ | None => w6 end).
  assert (H7 : stays pi p0 w7).
  { unfold w7. destruct (World.players w6 !! p1) as [q1|]; [|done].
    destruct (_ && _); [by apply stays_handlePlayerDeath|done]. }
  clearbody w7.
  destruct (World.players w7 !! p2) as [q2|]; [|done].
  destruct (_ && _); [by apply stays_handlePlayerDeath|done].
Qed.

Lemma checkShipShipCollisions_stays_other w0 livingPlayers w :
  pi ∉ livingPlayers -> stays pi p0 w ->
  stays pi p0 (checkShipShipCollisions Math_sqrt toISOString now livingPlayers
                 (shipGridOf w0 livingPlayers) w).
Proof.
  intros Hpi Hs. unfold checkShipShipCollisions. cbv zeta.
  match goal with |- context [shipShipPair _ _ _ ?m] =>
    set (playerIndex := m); clearbody playerIndex
  end.
  match goal with |- context [foldl ?g w ?l] =>
    assert (Hl : Forall (fun ip => snd ip ∈ livingPlayers) l)
  end.
  { apply Forall_forall. intros [i p1] Hin.
    apply elem_of_lookup_imap in Hin as (j & q & Heq & Hj).
    injection Heq as -> ->. by eapply list_elem_of_lookup_2. }
  revert Hl. generalize (imap (fun i p => (i, p)) livingPlayers). intros l Hl.
  revert w Hs. induction Hl as [|[i p1] l Hp1 Hl IH]; intros w Hs; [done|].
  cbn [foldl]. apply IH. cbn [snd] in Hp1.
  destruct (World.players w !! p1) as [player1|]; [|done].
  match goal with |- context [foldl _ w ?cs] =>
    assert (Hc : Forall (fun c => c ∈ livingPlayers) cs)
      by (apply Forall_forall; intros c Hc; by eapply shipGridOf_candidates);
    revert Hc; generalize cs
  end.
  intros cs Hc. revert w Hs.
  induction Hc as [|c cs Hc0 Hc IHc]; intros w Hs; [done|].
  cbn [foldl]. apply IHc. apply shipShipPair_stays_other; [| |done].
  - intros ->. done.
  - intros ->. done.
Qed.

Lemma bulletNeutralCandidates_stays bullet candidates st :
  stays pi p0 (Pass.world st) ->
  stays pi p0 (Pass.world (bulletNeutralCandidates bullet candidates st)).
Proof.
  revert st. induction candidates as [|c rest IH]; intros st Hs; [done|].
  cbn [bulletNeutralCandidates]. cbv zeta.
  destruct (World.neutrals (Pass.world st) !! c) as [neutral|]; [|by apply IH].
  destruct (String.eqb _ _); [by apply IH|].
  destruct (negb _); [by apply IH|].
  destruct (JS.ltb _ _); [|by apply IH].
  unfold bulletHitsNeutral. cbv zeta.
  destruct (_ <=? 0); [|done].
  destruct (players_get _ _) as [[shooter ?]|]; [|done].
  cbn [Pass.world].
  apply (stays_players _ _ (awardXP shooter (NeutralObject.xpValue neutral)
           (modNeutral c (NeutralObject.set_health
                            (NeutralObject.health neutral - Bullet.damage bullet))
                       (Pass.world st)))); [done|].
  apply stays_awardXP. by apply (stays_players _ _ (Pass.world st)).
Qed.

Lemma checkBulletNeutralCollisions_stays neutralGrid st :
  stays pi p0 (Pass.world st) ->
  stays pi p0 (Pass.world (checkBulletNeutralCollisions neutralGrid st)).
Proof.
  intros Hs. unfold checkBulletNeutralCollisions. cbv zeta.
  apply foldl_pass_stays; [|done].
  intros st' b Hs'. destruct (bool_decide _); [done|].
  by apply bulletNeutralCandidates_stays.
Qed.

End DeadFacts.

(** X12. A player that is dead when [checkCollisions] starts is not touched
    by it: no bullet, ship or drone changes its health (only the heal of a
    level-up, from xp earned by its bullets still in flight, can), and it
    stays dead, at the same position in the player map. *)
Theorem checkCollisions_spares_dead (Math_sqrt : Q -> Q) (toISOString : Z -> string)
    (now : Z) (w : World.t) (pi : nat) (p : Player.t) :
  World.players w !! pi = Some p ->
  Player.isDead p = true ->
  exists p',
    World.players (checkCollisions Math_sqrt toISOString now w) !! pi = Some p'
    /\ Player.isDead p' = true
    /\ undamaged p p'
    /\ (Ship.health (Player.ship p) <= Ship.maxHealth (Player.ship p) ->
        Ship.health (Player.ship p) <= Ship.health (Player.ship p')).
Proof.
  intros Hp Hdead.
  assert (Himm : immune p) by (by left).
  assert (Hfin : forall w', keeps pi p w' ->
            exists p', World.players w' !! pi = Some p' /\ Player.isDead p' = true
              /\ undamaged p p'
              /\ (Ship.health (Player.ship p) <= Ship.maxHealth (Player.ship p) ->
                  Ship.health (Player.ship p) <= Ship.health (Player.ship p'))).
  { intros w' (p' & Hp' & Hu & _). exists p'. split; [done|].
    split; [destruct Hu as (_ & _ & -> & _); done|]. split; [done|].
    destruct Hu as (_ & _ & _ & _ & [Hh|Hh]); lia. }
  assert (Hall : forall {A : Type} (own : A -> string) (l : list A),
            Forall (fun a => own a = Player.id p \/ immune p) l).
  { intros A own l. apply Forall_forall. intros; by right. }
  assert (Hliving : pi ∉ livingPlayersOf w).
  { unfold livingPlayersOf. intros Hin.
    apply list_elem_of_In, filter_In in Hin as [_ Hin].
    by rewrite Hp, Hdead in Hin. }
  unfold checkCollisions. cbv zeta.
  set (st0 := Pass.mk w ∅ ∅).
  assert (K0 : keeps pi p (Pass.world st0)) by (by apply keeps_here).
  set (st1 := checkBulletShipCollisions _ _ _ st0).
  assert (K1 : keeps pi p (Pass.world st1)).
  { apply checkBulletShipCollisions_exempt; [apply Hall|done]. }
  clearbody st1.
  set (st2 := checkBulletNeutralCollisions _ st1).
  assert (K2 : keeps pi p (Pass.world st2)).
  { apply (keeps_step _ _ (Pass.world st1));
      [apply frame_checkBulletNeutralCollisions| |done].
    apply checkBulletNeutralCollisions_stays. by apply keeps_stays. }
  clearbody st2.
  set (w3 := checkShipShipCollisions _ _ _ _ _ _).
  assert (K3 : keeps pi p w3).
  { apply (keeps_step _ _ (Pass.world st2));
      [apply frame_checkShipShipCollisions| |done].
    apply checkShipShipCollisions_stays_other; [done|]. by apply keeps_stays. }
  clearbody w3.
  set (st4 := checkDroneCollisions _ _ _ _ _ _).
  assert (K4 : keeps pi p (Pass.world st4)).
  { apply checkDroneCollisions_exempt; [apply Hall|done]. }
  clearbody st4.
  apply Hfin.
  destruct (bool_decide (Pass.bulletsToRemove st4 = ∅));
    destruct (bool_decide (Pass.neutralsToRemove st4 = ∅)); exact K4.
Qed.

(** Witness of X12: Ann, dead in [graveWorld], through a pass at 6000. *)
Lemma checkCollisions_spares_dead_witness :
  exists p',
    World.players (checkCollisions sqrt6 stamp 6000 graveWorld) !! 0%nat = Some p'
    /\ Player.isDead p' = true
    /\ undamaged deadAnn p'
    /\ (Ship.health (Player.ship deadAnn) <= Ship.maxHealth (Player.ship deadAnn) ->
        Ship.health (Player.ship deadAnn) <= Ship.health (Player.ship p')).
Proof.
  exact (checkCollisions_spares_dead sqrt6 stamp 6000 graveWorld 0 deadAnn
           eq_refl eq_refl).
Defined.

(** ** Bullets in flight *)

Section BulletFlight.
Variable Math_sqrt : Q -> Q.

Lemma ltb_false (a b : Q) : JS.ltb a b = false -> (b <= a)%Q.
Proof.
  unfold JS.ltb. intros H. apply negb_false_iff in H. by apply Qle_bool_iff.
Qed.

Lemma leb_false (a b : Q) : JS.leb a b = false -> (b < a)%Q.
Proof.
  unfold JS.leb. intros H. apply Qnot_le_lt. intros Hle.
  apply Qle_bool_iff in Hle. congruence.
Qed.

(** What a bullet that stays in flight looks like after the step. *)
Lemma bulletStep_Flies_inv (dt : Q) (islands : list Island.t) (b b' : Bullet.t) :
  bulletStep Math_sqrt dt islands b = Flies b' ->
  b' = Bullet.mk (Bullet.id b) (Bullet.ownerId b)
                 (Bullet.x b + Bullet.velocityX b * dt)%Q
                 (Bullet.y b + Bullet.velocityY b * dt)%Q
                 (Bullet.velocityX b) (Bullet.velocityY b) (Bullet.damage b)
                 (Bullet.lifetime b - dt * (1000 # 1))%Q
                 (Bullet.type b) (Bullet.ignoreTerrain b)
  /\ (0 < Bullet.lifetime b')%Q
  /\ (0 <= Bullet.x b' <= WORLD_WIDTH)%Q
  /\ (0 <= Bullet.y b' <= WORLD_HEIGHT)%Q
  /\ (Bullet.ignoreTerrain b' = false ->
      forall island, island ∈ islands ->
        isPointInIsland (Bullet.x b') (Bullet.y b') island = false).
Proof.
  unfold bulletStep. cbn [Bullet.lifetime Bullet.x Bullet.y Bullet.ignoreTerrain
                          Bullet.velocityX Bullet.velocityY].
  destruct (_ || _) eqn:Hout; [discriminate|].
  destruct (_ && _) eqn:Hisl; [discriminate|].
  intros H. injection H as <-.
  cbn [Bullet.lifetime Bullet.x Bullet.y Bullet.ignoreTerrain].
  repeat (apply orb_false_elim in Hout as [Hout ?]).
  split; [reflexivity|]. split; [by apply leb_false|].
  split; [split; by apply ltb_false|]. split; [split; by apply ltb_false|].
  intros Hig island Hin. rewrite Hig in Hisl. cbn [negb andb] in Hisl.
  destruct (isPointInIsland _ _ island) eqn:Hp; [|done].
  assert (Hex : existsb (fun island =>
            match getFirstSegmentCircleHitT Math_sqrt
                    (Bullet.x b + Bullet.velocityX b * dt - Bullet.velocityX b * dt)
                    (Bullet.y b + Bullet.velocityY b * dt - Bullet.velocityY b * dt)
                    (Bullet.x b + Bullet.velocityX b * dt)
                    (Bullet.y b + Bullet.velocityY b * dt)
                    (Island.x island) (Island.y island)
                    (Island.radius island + BULLET_RADIUS) with
            | Some _ => true
            | None => isPointInIsland (Bullet.x b + Bullet.velocityX b * dt)
                                      (Bullet.y b + Bullet.velocityY b * dt) island
            end) islands = true).
  { apply existsb_exists. exists island. split; [by apply list_elem_of_In|].
    rewrite Hp. by destruct (getFirstSegmentCircleHitT _ _ _ _ _ _ _ _). }
  cbv zeta in Hisl. congruence.
Qed.

Lemma updateBullets_elem (dt : Q) (w : World.t) (b' : Bullet.t) :
  b' ∈ World.bullets (updateBullets Math_sqrt dt w) ->
  exists b, b ∈ World.bullets w /\ bulletStep Math_sqrt dt (World.islands w) b = Flies b'.
Proof.
  unfold updateBullets. cbn [World.bullets World.set_bullets]. intros Hin.
  apply list_elem_of_In, in_flat_map in Hin as (b & Hb & Hin).
  exists b. split; [by apply list_elem_of_In|].
  destruct (bulletStep _ _ _ b) as [b1| |]; cbn in Hin; [|done|done].
  destruct Hin as [->|[]]. reflexivity.
Qed.

(** X13. One [updateBullets] step: every bullet left is an old bullet, moved
    by its velocity and aged by the step, with positive lifetime and inside
    the world rectangle; a bullet that does not ignore terrain is not inside
    any island; the bullets left keep their order (their ids are a sublist
    of the old ids); nothing else in the world changes. *)
Theorem updateBullets_survivors (dt : Q) (w : World.t) :
  let w' := updateBullets Math_sqrt dt w in
  (forall b', b' ∈ World.bullets w' ->
     exists b, b ∈ World.bullets w
       /\ b' = Bullet.mk (Bullet.id b) (Bullet.ownerId b)
                         (Bullet.x b + Bullet.velocityX b * dt)%Q
                         (Bullet.y b + Bullet.velocityY b * dt)%Q
                         (Bullet.velocityX b) (Bullet.velocityY b) (Bullet.damage b)
                         (Bullet.lifetime b - dt * (1000 # 1))%Q
                         (Bullet.type b) (Bullet.ignoreTerrain b)
       /\ (0 < Bullet.lifetime b')%Q
       /\ (0 <= Bullet.x b' <= WORLD_WIDTH)%Q
       /\ (0 <= Bullet.y b' <= WORLD_HEIGHT)%Q
       /\ (Bullet.ignoreTerrain b' = false ->
           forall island, island ∈ World.islands w ->
             isPointInIsland (Bullet.x b') (Bullet.y b') island = false))
  /\ sublist (map Bullet.id (World.bullets w')) (map Bullet.id (World.bullets w))
  /\ w' = World.set_bullets (World.bullets w') w.
Proof.
  intros w'. split; [|split].
  - intros b' Hin. apply updateBullets_elem in Hin as (b & Hb & Hstep).
    exists b. split; [done|]. by apply bulletStep_Flies_inv in Hstep.
  - subst w'. unfold updateBullets. cbn [World.bullets World.set_bullets].
    induction (World.bullets w) as [|b l IH]; [constructor|].
    cbn [flat_map map]. destruct (bulletStep _ _ _ b) as [b1| |] eqn:Hstep.
    + apply bulletStep_Flies in Hstep as (_ & _ & Hid).
      cbn [app map]. rewrite Hid. by constructor.
    + by constructor.
    + by constructor.
  - reflexivity.
Qed.

Lemma islands_iter_updateBullets (dt : Q) (n : nat) (w : World.t) :
  World.islands (Nat.iter n (updateBullets Math_sqrt dt) w) = World.islands w.
Proof. induction n as [|n IH]; [done|]. cbn [Nat.iter]. exact IH. Qed.

Lemma lifetime_iter_updateBullets (dt : Q) (n : nat) (w : World.t) (b' : Bullet.t) :
  b' ∈ World.bullets (Nat.iter n (updateBullets Math_sqrt dt) w) ->
  exists b, b ∈ World.bullets w
    /\ (Bullet.lifetime b' == Bullet.lifetime b - inject_Z (Z.of_nat n) * dt * (1000 # 1))%Q
    /\ ((0 < n)%nat -> (0 < Bullet.lifetime b')%Q).
Proof.
  revert b'. induction n as [|n IH]; intros b' Hin.
  - exists b'. split; [done|]. split; [cbn; ring|lia].
  - cbn [Nat.iter] in Hin. apply updateBullets_elem in Hin as (b1 & Hb1 & Hstep).
    apply bulletStep_Flies_inv in Hstep as (-> & Hpos & _).
    destruct (IH b1 Hb1) as (b & Hb & Hl & _).
    exists b. split; [done|]. split; [|done].
    cbn [Bullet.lifetime]. rewrite Hl, Nat2Z.inj_succ. unfold Z.succ.
    rewrite inject_Z_plus. change (inject_Z 1) with 1%Q. ring.
Qed.

(** X14. Bullets expire: after [n >= 1] steps of [updateBullets] with step
    [dt], no bullet whose lifetime was at most [n * dt * 1000] is left; when
    that holds of all bullets the bullet list is empty.  (With the server's
    step of 1/20 s a player's bullet, of lifetime 2000, is gone after 40
    steps.) *)
Theorem updateBullets_expiry (dt : Q) (n : nat) (w : World.t) :
  (0 < n)%nat ->
  Forall (fun b => (Bullet.lifetime b <= inject_Z (Z.of_nat n) * dt * (1000 # 1))%Q)
         (World.bullets w) ->
  World.bullets (Nat.iter n (updateBullets Math_sqrt dt) w) = [].
Proof.
  intros Hn Hall.
  destruct (World.bullets (Nat.iter n (updateBullets Math_sqrt dt) w)) as [|b' l] eqn:E;
    [done|exfalso].
  assert (Hin : b' ∈ World.bullets (Nat.iter n (updateBullets Math_sqrt dt) w))
    by (rewrite E; by left).
  apply lifetime_iter_updateBullets in Hin as (b & Hb & Hl & Hpos).
  specialize (Hpos Hn). rewrite Forall_forall in Hall. specialize (Hall b Hb).
  cbv beta in Hall. rewrite Hl in Hpos. lra.
Qed.

End BulletFlight.

(** Witness of X14: Ann's three bullets, of lifetime 1500, after 30 steps
    of 1/20 s. *)
Lemma updateBullets_expiry_witness :
  World.bullets (Nat.iter 30 (updateBullets sqrt6 (1 # 20)) (buoyWorld 3)) = [].
Proof.
  apply updateBullets_expiry; [lia|].
  repeat constructor; discriminate.
Defined.

(** ** Turrets *)

Lemma ltb_true (a b : Q) : JS.ltb a b = true -> (a < b)%Q.
Proof.
  unfold JS.ltb. intros H. apply negb_true_iff in H. apply Qnot_le_lt.
  intros Hle. apply Qle_bool_iff in Hle. congruence.
Qed.

Section TurretFacts.
Variable Math_sqrt Math_cos Math_sin : Q -> Q.
Variable Math_atan2 : Q -> Q -> Q.

(** X15. The target that a turret picks is the nearest eligible player: it
    is alive, not stealthed, past its spawn protection and strictly within
    range; no eligible player is nearer, and the eligible players before it
    in the player map are strictly farther (ties go to the first).  When
    there is no target, every eligible player is at the range or beyond. *)
Theorem nearestTarget_nearest (now : Z) (n : NeutralObject.t) (range : Q) (w : World.t) :
  let dist (p : Player.t) : Q :=
    let dx := (NeutralObject.x n - Ship.x (Player.ship p))%Q in
    let dy := (NeutralObject.y n - Ship.y (Player.ship p))%Q in
    Math_sqrt (dx * dx + dy * dy) in
  let eligible (p : Player.t) : Prop :=
    Player.isDead p = false /\ Ship.isStealthed (Player.ship p) = false
    /\ Player.spawnProtectionUntil p <= now in
  match nearestTarget Math_sqrt now n range w with
  | Some t =>
      exists p, World.players w !! t = Some p /\ eligible p /\ (dist p < range)%Q
        /\ forall j q, World.players w !! j = Some q -> eligible q ->
             (dist p <= dist q)%Q /\ ((j < t)%nat -> (dist p < dist q)%Q)
  | None =>
      forall j q, World.players w !! j = Some q -> eligible q -> (range <= dist q)%Q
  end.
Proof.
  intros dist eligible. unfold nearestTarget.
  match goal with |- context [foldl ?g _ _] => set (f := g) end.
  set (Inv := fun (l : list Player.t) (acc : option nat * Q) =>
    match acc with
    | (Some t, m) =>
        exists p, l !! t = Some p /\ eligible p /\ m = dist p /\ (m < range)%Q
          /\ forall j q, l !! j = Some q -> eligible q ->
               (m <= dist q)%Q /\ ((j < t)%nat -> (m < dist q)%Q)
    | (None, m) =>
        m = range /\ forall j q, l !! j = Some q -> eligible q -> (range <= dist q)%Q
    end).
  assert (Hinv : forall l, Inv l (foldl f (None, range) (imap (fun i p => (i, p)) l))).
  { induction l as [|x l IH] using rev_ind.
    - cbn. split; [done|]. intros j q Hj. by rewrite lookup_nil in Hj.
    - rewrite imap_app, foldl_app. cbn [imap foldl].
      destruct (foldl f (None, range) (imap (fun i p => (i, p)) l)) as [target m].
      unfold f at 1. cbn [compose]. rewrite Nat.add_0_r.
      assert (Hlast : forall j q, (l ++ [x]) !! j = Some q ->
                (l !! j = Some q /\ (j < length l)%nat) \/ (j = length l /\ q = x)).
      { intros j q Hj. apply lookup_app_Some in Hj as [Hj|[Hge Hj]].
        - left. split; [done|]. by eapply lookup_lt_Some.
        - right. destruct (j - length l)%nat eqn:E; cbn in Hj; [|discriminate].
          injection Hj as <-. split; [lia|done]. }
      assert (Hskip : ~ eligible x -> Inv l (target, m) -> Inv (l ++ [x]) (target, m)).
      { intros Hx HI. unfold Inv in *. destruct target as [t|].
        - destruct HI as (p & Hp & He & Hm & Hr & Hmin). exists p.
          split; [by apply lookup_app_l_Some|]. split; [done|]. split; [done|].
          split; [done|]. intros j q Hj Hq.
          destruct (Hlast j q Hj) as [[Hj' _]|[_ ->]]; [by apply Hmin|done].
        - destruct HI as (Hm & Hmin). split; [done|]. intros j q Hj Hq.
          destruct (Hlast j q Hj) as [[Hj' _]|[_ ->]]; [by eapply Hmin|done]. }
      destruct (Player.isDead x || Ship.isStealthed (Player.ship x)) eqn:Hds.
      { apply Hskip; [|exact IH]. intros (Hd & Hs & _). rewrite Hd, Hs in Hds. done. }
      apply orb_false_elim in Hds as [Hd Hs].
      destruct (now <? Player.spawnProtectionUntil x) eqn:Hg.
      { apply Hskip; [|exact IH]. intros (_ & _ & Hsp). apply Z.ltb_lt in Hg. lia. }
      apply Z.ltb_ge in Hg.
      assert (Hx : eligible x) by done.
      fold (dist x).
      destruct (JS.ltb (dist x) m) eqn:Hlt.
      + apply ltb_true in Hlt. unfold Inv. exists x.
        split; [by rewrite lookup_app_r, Nat.sub_diag by lia|].
        split; [done|]. split; [done|].
        assert (Hr : (dist x < range)%Q /\
                     forall j q, l !! j = Some q -> eligible q -> (dist x < dist q)%Q).
        { unfold Inv in IH. destruct target as [t|].
          - destruct IH as (p & Hp & He & Hm & Hr & Hmin).
            split; [lra|]. intros j q Hj Hq. destruct (Hmin j q Hj Hq). lra.
          - destruct IH as (Hm & Hmin). subst m.
            split; [done|]. intros j q Hj Hq. specialize (Hmin j q Hj Hq). lra. }
        destruct Hr as [Hr Hfar]. split; [done|]. intros j q Hj Hq.
        destruct (Hlast j q Hj) as [[Hj' Hlen]|[-> ->]].
        * specialize (Hfar j q Hj' Hq). split; [lra|done].
        * split; [lra|lia].
      + apply ltb_false in Hlt. unfold Inv in *. destruct target as [t|].
        * destruct IH as (p & Hp & He & Hm & Hr & Hmin). exists p.
          split; [by apply lookup_app_l_Some|]. split; [done|]. split; [done|].
          split; [done|]. intros j q Hj Hq.
          destruct (Hlast j q Hj) as [[Hj' _]|[-> ->]]; [by apply Hmin|].
          split; [done|]. intros Hlen. apply lookup_lt_Some in Hp. lia.
        * destruct IH as (Hm & Hmin). split; [done|]. intros j q Hj Hq.
          destruct (Hlast j q Hj) as [[Hj' _]|[-> ->]]; [by eapply Hmin|]. by subst m. }
  specialize (Hinv (World.players w)).
  destruct (foldl f (None, range) _) as [[t|] m]; cbn [fst].
  - destruct Hinv as (p & Hp & He & -> & Hr & Hmin). exists p. done.
  - destruct Hinv as (_ & Hmin). exact Hmin.
Qed.

Lemma neutrals_spawnNeutralBullet source target w :
  World.neutrals (spawnNeutralBullet Math_cos Math_sin Math_atan2 source target w)
  = World.neutrals w.
Proof. unfold spawnNeutralBullet. by destruct (World.players w !! target). Qed.

(** What [turretFire] leaves at the turret's position when it has fired. *)
Lemma turretFire_fired (now : Z) (w : World.t) (c : nat) (n : NeutralObject.t) :
  World.neutrals w !! c = Some n ->
  World.bullets (turretFire Math_sqrt Math_cos Math_sin Math_atan2 now w c)
  <> World.bullets w ->
  exists n',
    World.neutrals (turretFire Math_sqrt Math_cos Math_sin Math_atan2 now w c) !! c
    = Some n'
    /\ NeutralObject.type n' = NeutralObject.type n
    /\ NeutralObject.lastFireTime n' = Some now
    /\ (NeutralObject.type n = lighthouse \/ NeutralObject.type n = tank).
Proof.
  intros Hn. unfold turretFire. rewrite Hn.
  destruct (NeutralType_eqb (NeutralObject.type n) lighthouse
            || NeutralType_eqb (NeutralObject.type n) tank) eqn:Hty; [|done].
  assert (Htype : NeutralObject.type n = lighthouse \/ NeutralObject.type n = tank).
  { destruct (NeutralObject.type n); try discriminate; tauto. }
  destruct (match NeutralObject.lastFireTime n with
            | Some t => _ | None => true end); [|done].
  destruct (nearestTarget _ _ _ _ _) as [target|]; [|done].
  intros _. cbv zeta. cbn [modNeutral World.neutrals World.set_neutrals].
  rewrite list_lookup_alter_eq, neutrals_spawnNeutralBullet.
  destruct (NeutralType_eqb (NeutralObject.type n) tank).
  - destruct (World.players w !! target).
    + cbn [modNeutral World.neutrals World.set_neutrals].
      rewrite list_lookup_alter_eq, Hn. eexists. split; [reflexivity|]. by cbn.
    + rewrite Hn. eexists. split; [reflexivity|]. by cbn.
  - rewrite Hn. eexists. split; [reflexivity|]. by cbn.
Qed.

(** X16. The fire rate of a turret: a turret whose last shot was at a time
    [t] other than 0, at most [fireRate] ms ago, does nothing; and once a
    turret has fired at a time [now] other than 0, calling it again at any
    [now'] with [now' - now <= fireRate] changes nothing (2000 ms for a
    lighthouse, 1500 ms for a tank). *)
Theorem turretFire_rate_limit (now now' : Z) (w : World.t) (c : nat)
    (n : NeutralObject.t) :
  World.neutrals w !! c = Some n ->
  let fireRate :=
    if NeutralType_eqb (NeutralObject.type n) lighthouse
    then LIGHTHOUSE_FIRE_RATE else TANK_FIRE_RATE in
  let w1 := turretFire Math_sqrt Math_cos Math_sin Math_atan2 now w c in
  (forall t, NeutralObject.lastFireTime n = Some t -> t <> 0 -> now - t <= fireRate ->
     w1 = w)
  /\ (World.bullets w1 <> World.bullets w -> now <> 0 -> now' - now <= fireRate ->
      turretFire Math_sqrt Math_cos Math_sin Math_atan2 now' w1 c = w1).
Proof.
  intros Hn fireRate w1.
  assert (Hquiet : forall now w c n t,
            World.neutrals w !! c = Some n ->
            NeutralObject.lastFireTime n = Some t -> t <> 0 ->
            now - t <= (if NeutralType_eqb (NeutralObject.type n) lighthouse
                        then LIGHTHOUSE_FIRE_RATE else TANK_FIRE_RATE) ->
            turretFire Math_sqrt Math_cos Math_sin Math_atan2 now w c = w).
  { clear. intros now w c n t Hn Ht Ht0 Hgap. unfold turretFire. rewrite Hn, Ht.
    destruct (_ || _); [|done].
    apply Z.eqb_neq in Ht0. rewrite Ht0.
    replace (_ <? now - t) with false; [done|].
    symmetry. apply Z.ltb_ge. exact Hgap. }
  split.
  - intros t Ht Ht0 Hgap. by apply (Hquiet now w c n t).
  - intros Hfired Hnow Hgap.
    destruct (turretFire_fired now w c n Hn Hfired) as (n' & Hn' & Hty & Hlast & _).
    apply (Hquiet now' w1 c n' now); [done|done|done|]. by rewrite Hty.
Qed.

End TurretFacts.

(** Witness of X16: the tank of [rammedWorld], which fired at 4000, is
    silent at 5000; it fires at 6000 and is silent again at 7000. *)
Lemma turretFire_rate_limit_witness :
  turretFire sqrt6 (fun _ => 1%Q) (fun _ => 0%Q) (fun _ _ => 0%Q) 5000 rammedWorld 0
  = rammedWorld
  /\ turretFire sqrt6 (fun _ => 1%Q) (fun _ => 0%Q) (fun _ _ => 0%Q) 7000
       (turretFire sqrt6 (fun _ => 1%Q) (fun _ => 0%Q) (fun _ _ => 0%Q) 6000 rammedWorld 0) 0
     = turretFire sqrt6 (fun _ => 1%Q) (fun _ => 0%Q) (fun _ _ => 0%Q) 6000 rammedWorld 0.
Proof.
  split.
  - refine (proj1 (turretFire_rate_limit sqrt6 (fun _ => 1%Q) (fun _ => 0%Q)
                     (fun _ _ => 0%Q) 5000 5000 rammedWorld 0 _ eq_refl)
                  4000 eq_refl _ _); [discriminate|vm_compute; discriminate].
  - refine (proj2 (turretFire_rate_limit sqrt6 (fun _ => 1%Q) (fun _ => 0%Q)
                     (fun _ _ => 0%Q) 6000 7000 rammedWorld 0 _ eq_refl) _ _ _).
    + vm_compute. discriminate.
    + discriminate.
    + vm_compute. discriminate.
Defined.

(** ** Neutral spawning *)

Section SpawnFacts.
Variable Math_sqrt Math_cos Math_sin : Q -> Q.
Variable Math_PI : Q.

(** A position that the attempt loop accepts is one of its draws, and is
    clear of every island. *)
Lemma spawnPosition_Some (islands : list Island.t) (rnd : nat -> Q) (k fuel : nat)
    (x y : Q) (k' : nat) :
  spawnPosition Math_sqrt islands rnd k fuel = Some (x, y, k') ->
  exists j, x = (rnd j * (WORLD_WIDTH - (200 # 1)) + (100 # 1))%Q
    /\ y = (rnd (S j) * (WORLD_HEIGHT - (200 # 1)) + (100 # 1))%Q
    /\ (j < k + 2 * fuel)%nat
    /\ forall isl, isl ∈ islands ->
         let dx := (x - Island.x isl)%Q in
         let dy := (y - Island.y isl)%Q in
         (Island.radius isl + (80 # 1) <= Math_sqrt (dx * dx + dy * dy))%Q.
Proof.
  revert k. induction fuel as [|fuel IH]; intros k; [discriminate|].
  cbn [spawnPosition]. cbv zeta.
  destruct (forallb _ islands) eqn:Hv.
  - intros [= <- <- <-]. exists k. split; [done|]. split; [done|]. split; [lia|].
    intros isl Hin. rewrite forallb_forall in Hv.
    specialize (Hv isl (proj1 (list_elem_of_In _ _) Hin)). cbv zeta in Hv.
    apply negb_true_iff in Hv. by apply ltb_false.
  - intros H. destruct (IH _ H) as (j & ? & ? & ? & ?). exists j.
    split; [done|]. split; [done|]. split; [lia|done].
Qed.

(** X17. [spawnNeutral] respects the population cap and the islands: it
    adds at most one neutral and none when [MAX_NEUTRALS] are present; a new
    neutral has full, positive health, lies at one of the drawn positions at
    least radius + 80 from the centre of every island (as measured by
    [Math.sqrt]), inside the world with a margin of 100 when the draws are
    in [0, 1), and takes the next id; the population after the call is at
    most the larger of the old population and [MAX_NEUTRALS]; neutrals with
    positive health at most their maximum stay so; players and bullets are
    unchanged. *)
Theorem spawnNeutral_bounds (rnd : nat -> Q) (w : World.t) :
  let w' := spawnNeutral Math_sqrt Math_cos Math_sin Math_PI rnd w in
  (World.neutrals w' = World.neutrals w
   \/ exists n,
        World.neutrals w' = World.neutrals w ++ [n]
        /\ (length (World.neutrals w) < MAX_NEUTRALS)%nat
        /\ afloat n
        /\ NeutralObject.health n = NeutralObject.maxHealth n
        /\ NeutralObject.id n
           = NeutralType_name (NeutralObject.type n) +:+ "-"
             +:+ pretty (World.neutralIdCounter w)
        /\ World.neutralIdCounter w' = World.neutralIdCounter w + 1
        /\ (forall isl, isl ∈ World.islands w ->
              let dx := (NeutralObject.x n - Island.x isl)%Q in
              let dy := (NeutralObject.y n - Island.y isl)%Q in
              (Island.radius isl + (80 # 1) <= Math_sqrt (dx * dx + dy * dy))%Q)
        /\ ((forall k, (0 <= rnd k < 1)%Q) ->
            (100 <= NeutralObject.x n < WORLD_WIDTH - 100)%Q
            /\ (100 <= NeutralObject.y n < WORLD_HEIGHT - 100)%Q))
  /\ (length (World.neutrals w') <= Nat.max (length (World.neutrals w)) MAX_NEUTRALS)%nat
  /\ (Forall afloat (World.neutrals w) -> Forall afloat (World.neutrals w'))
  /\ World.players w' = World.players w
  /\ World.bullets w' = World.bullets w.
Proof.
  intros w'.
  assert (Hcase : World.neutrals w' = World.neutrals w /\ World.players w' = World.players w
                  /\ World.bullets w' = World.bullets w
                  \/ exists n,
        World.neutrals w' = World.neutrals w ++ [n]
        /\ (length (World.neutrals w) < MAX_NEUTRALS)%nat
        /\ afloat n
        /\ NeutralObject.health n = NeutralObject.maxHealth n
        /\ NeutralObject.id n
           = NeutralType_name (NeutralObject.type n) +:+ "-"
             +:+ pretty (World.neutralIdCounter w)
        /\ World.neutralIdCounter w' = World.neutralIdCounter w + 1
        /\ (forall isl, isl ∈ World.islands w ->
              let dx := (NeutralObject.x n - Island.x isl)%Q in
              let dy := (NeutralObject.y n - Island.y isl)%Q in
              (Island.radius isl + (80 # 1) <= Math_sqrt (dx * dx + dy * dy))%Q)
        /\ ((forall k, (0 <= rnd k < 1)%Q) ->
            (100 <= NeutralObject.x n < WORLD_WIDTH - 100)%Q
            /\ (100 <= NeutralObject.y n < WORLD_HEIGHT - 100)%Q)
        /\ World.players w' = World.players w
        /\ World.bullets w' = World.bullets w).
  { subst w'. unfold spawnNeutral.
    destruct (MAX_NEUTRALS <=? length (World.neutrals w))%nat eqn:Hcap; [by left|].
    apply Nat.leb_gt in Hcap. cbv zeta.
    destruct (spawnPosition _ _ _ _ _) as [[[x y] k]|] eqn:Hpos; [|by left].
    apply spawnPosition_Some in Hpos as (j & Hx & Hy & _ & Hclear).
    right. eexists. split; [reflexivity|]. split; [done|].
    cbn [NeutralObject.health NeutralObject.maxHealth NeutralObject.id NeutralObject.type
         NeutralObject.x NeutralObject.y World.neutralIdCounter World.set_neutralIdCounter
         World.players World.bullets World.set_neutrals].
    split; [|split; [done|split; [done|split; [done|split; [exact Hclear|split]]]]].
    - unfold afloat. cbn [NeutralObject.health NeutralObject.maxHealth].
      destruct (JS.ltb (rnd 0%nat) (6 # 10)); [lia|].
      destruct (JS.ltb (rnd 0%nat) (9 # 10)); lia.
    - intros Hrnd. rewrite Hx, Hy. unfold WORLD_WIDTH, WORLD_HEIGHT.
      pose proof (Hrnd j) as [? ?]. pose proof (Hrnd (S j)) as [? ?].
      split; split; lra.
    - done. }
  split; [|split; [|split; [|split]]].
  - destruct Hcase as [(? & _)|(n & ? & ? & ? & ? & ? & ? & ? & ? & _)]; [by left|].
    right. exists n. done.
  - destruct Hcase as [(-> & _)|(n & -> & Hlt & _)]; [lia|].
    rewrite length_app. cbn. lia.
  - intros Hall. destruct Hcase as [(-> & _)|(n & -> & _ & Hn & _)]; [done|].
    apply Forall_app. split; [done|]. by constructor.
  - destruct Hcase as [(_ & ? & _)|(n & _ & _ & _ & _ & _ & _ & _ & _ & ? & _)]; done.
  - destruct Hcase as [(_ & _ & ?)|(n & _ & _ & _ & _ & _ & _ & _ & _ & _ & ?)]; done.
Qed.

End SpawnFacts.

(** ** Respawning *)

(** X18. [handleRespawn] of a registered player, dead or alive, resets its
    progress: the player is alive at the drawn position with rotation 0, in
    a patrol boat of health 100 of 100, at level 1 with no xp, score, kills,
    stat points or upgrade points, and protected until [now + 3000]; its id,
    name, input, ability state and death time are kept, and the other
    players are unchanged.  For the local player the reset state is saved,
    so that a later [handleJoinGame] registers a fresh player object; for
    another player the storage is unchanged. *)
Theorem handleRespawn_resets (playerId : string) (now : Z) (r1 r2 : Q) (w : World.t)
    (i : nat) (p : Player.t) :
  players_get playerId w = Some (i, p) ->
  let w' := handleRespawn playerId now r1 r2 w in
  let x := (r1 * (2000 # 1) + (500 # 1))%Q in
  let y := (r2 * (2000 # 1) + (500 # 1))%Q in
  let s := Player.ship p in
  World.players w' !! i
  = Some (Player.mk (Player.id p) (Player.name p)
            (Ship.mk (Ship.id s) x y 0 (Ship.velocityX s) (Ship.velocityY s)
                     100 100 1 0 patrol_boat 0 0 DEFAULT_STATS
                     (Ship.abilityActive s) (Ship.abilityCooldown s)
                     (Ship.isStealthed s) (Ship.isShielded s))
            (Player.lastInput p) (now + 3000) (Player.lastFireTime p) 0 false
            (Player.deathTime p) (Player.abilityActiveUntil p)
            (Player.abilityCooldownUntil p))
  /\ (forall j, j <> i -> World.players w' !! j = World.players w !! j)
  /\ ((0 <= r1 < 1)%Q -> (0 <= r2 < 1)%Q ->
      (500 <= x < 2500)%Q /\ (500 <= y < 2500)%Q)
  /\ World.emitted w'
     = World.emitted w ++ [Ev.respawned x y; Ev.playerStats DEFAULT_STATS 0 50]
  /\ (playerId <> localPlayerId -> World.storage w' = World.storage w)
  /\ (playerId = localPlayerId ->
      Storage.navalwar_save (World.storage w')
      = Some (SaveState.mk 0 1 0 patrol_boat DEFAULT_STATS 0)
      /\ forall playerName now' r1' r2', exists k,
           players_get localPlayerId
             (handleJoinGame localPlayerId playerName now' r1' r2' w')
           = Some (k, newPlayer localPlayerId playerName
                        (r1' * (2000 # 1) + (500 # 1))%Q
                        (r2' * (2000 # 1) + (500 # 1))%Q now')).
Proof.
  intros Hget w' x y s.
  pose proof (players_get_Some _ _ _ _ Hget) as [Hi Hid].
  assert (Hw' : w' = handleRespawn playerId now r1 r2 w) by reflexivity.
  unfold handleRespawn in Hw'. rewrite Hget in Hw'. cbv zeta in Hw'.
  match type of Hw' with _ = sendStats i (emit _ (savePlayerState i (modPlayer i ?f w))) =>
    set (reset := f) in Hw';
    set (w1 := modPlayer i reset w) in Hw'
  end.
  assert (H1 : World.players w1 !! i = Some (reset p)).
  { unfold w1. by rewrite players_modPlayer, list_lookup_alter_eq, Hi. }
  assert (Hplayers : World.players w' = World.players w1).
  { rewrite Hw'. by rewrite players_sendStats, players_emit, players_savePlayerState. }
  assert (Hsave : World.storage (savePlayerState i w1)
                  = if String.eqb playerId localPlayerId
                    then Storage.mk (Some (SaveState.mk 0 1 0 patrol_boat DEFAULT_STATS 0))
                           (Storage.navalwar_leaderboard (World.storage w))
                    else World.storage w).
  { unfold savePlayerState. rewrite H1.
    replace (Player.id (reset p)) with playerId by (by rewrite <- Hid).
    destruct (String.eqb playerId localPlayerId); reflexivity. }
  assert (Hstorage : World.storage w' = World.storage (savePlayerState i w1)).
  { rewrite Hw'. by rewrite storage_sendStats. }
  split; [|split; [|split; [|split; [|split]]]].
  - rewrite Hplayers, H1. reflexivity.
  - intros j Hne. rewrite Hplayers. unfold w1.
    by rewrite players_modPlayer, list_lookup_alter_ne.
  - intros [? ?] [? ?]. unfold x, y. split; split; lra.
  - rewrite Hw'. unfold sendStats.
    rewrite players_emit, players_savePlayerState, H1.
    cbn [emit World.emitted World.set_emitted].
    rewrite emitted_savePlayerState. cbn. by rewrite <- app_assoc.
  - intros Hne. rewrite Hstorage, Hsave.
    apply String.eqb_neq in Hne. by rewrite Hne.
  - intros ->. rewrite String.eqb_refl in Hsave.
    assert (Hs : Storage.navalwar_save (World.storage w')
                 = Some (SaveState.mk 0 1 0 patrol_boat DEFAULT_STATS 0))
      by (by rewrite Hstorage, Hsave).
    split; [exact Hs|].
    intros playerName now' r1' r2'.
    destruct (handleJoinGame_registers localPlayerId playerName now' r1' r2' w') as [k Hk].
    exists k. rewrite Hk. unfold loadPlayerState. rewrite Hs. reflexivity.
Qed.

(** Witness of X18: the dead Ann of [graveWorld] respawns at 9000. *)
Lemma handleRespawn_resets_witness :
  World.players (handleRespawn "local-player" 9000 (1 # 2) (1 # 4) graveWorld) !! 0%nat
  = Some (Player.mk "local-player" "Ann"
            (Ship.mk "local-player" ((1 # 2) * (2000 # 1) + (500 # 1))%Q
                     ((1 # 4) * (2000 # 1) + (500 # 1))%Q 0 0 0
                     100 100 1 0 patrol_boat 0 0 DEFAULT_STATS false 0 false false)
            (PlayerInput.mk (Some (100 # 1)) (Some (100 # 1)) 0 false false false)
            12000 0 0 false 5000 0 0).
Proof.
  exact (proj1 (handleRespawn_resets "local-player" 9000 (1 # 2) (1 # 4) graveWorld
                  0 deadAnn eq_refl)).
Defined.

(** ** The first hit of a segment on a circle *)

Section FirstHit.
Import Geometry.
Local Open Scope R_scope.

(** X19. [getFirstSegmentCircleHitT] returns the first crossing: a result
    [t] lies in [0, 1], the point of the segment at [t] is on the circle,
    and no point of the segment at an earlier parameter is on the circle;
    there is no result exactly when the squared length of the segment is at
    most 1e-9 or no point of the segment is on the circle. *)
Theorem getFirstSegmentCircleHitT_first (ax ay bx by_ cx cy r : R) :
  let onCircle (t : R) : Prop :=
    (ax + (bx - ax) * t - cx) * (ax + (bx - ax) * t - cx)
    + (ay + (by_ - ay) * t - cy) * (ay + (by_ - ay) * t - cy) = r * r in
  let lenSq := (bx - ax) * (bx - ax) + (by_ - ay) * (by_ - ay) in
  match getFirstSegmentCircleHitT ax ay bx by_ cx cy r with
  | Some t =>
      1 / 1000000000 < lenSq /\ 0 <= t <= 1 /\ onCircle t
      /\ forall t', 0 <= t' <= 1 -> onCircle t' -> t <= t'
  | None =>
      lenSq <= 1 / 1000000000 \/ forall t', 0 <= t' <= 1 -> ~ onCircle t'
  end.
Proof.
  intros onCircle lenSq.
  destruct (getFirstSegmentCircleHitT ax ay bx by_ cx cy r) as [t|] eqn:Hhit.
  - pose proof (hit_sound _ _ _ _ _ _ _ _ Hhit) as [Ht Hon].
    assert (Hlen : 1 / 1000000000 < lenSq).
    { revert Hhit. unfold getFirstSegmentCircleHitT. fold lenSq.
      destruct (Rle_dec _ _); [discriminate|]. lra. }
    split; [done|]. split; [done|]. split; [exact Hon|].
    intros t' Ht' Hon'. revert Hhit. unfold getFirstSegmentCircleHitT.
    set (dx := bx - ax) in *. set (dy := by_ - ay) in *.
    set (a := dx * dx + dy * dy) in *.
    set (fx := ax - cx). set (fy := ay - cy).
    set (b := 2 * (fx * dx + fy * dy)).
    set (c := fx * fx + fy * fy - r * r).
    set (disc := b * b - 4 * a * c).
    assert (E : a * t' * t' + b * t' + c = 0).
    { unfold onCircle in Hon'. unfold a, b, c, fx, fy. nra. }
    assert (Hdisc : disc = (2 * a * t' + b) * (2 * a * t' + b)).
    { unfold disc. nra. }
    destruct (Rle_dec a (1 / 1000000000)) as [Ha|Ha]; [discriminate|].
    destruct (Rlt_dec disc 0) as [Hd|Hd]; [discriminate|].
    assert (Hapos : 0 < a) by (unfold lenSq in Hlen; lra).
    assert (Hi : 0 < 1 / (2 * a)).
    { apply Rdiv_lt_0_compat; lra. }
    pose proof (sqrt_pos disc) as Hsq.
    assert (Hcase : (- b - sqrt disc) * (1 / (2 * a)) = t'
                    \/ (- b + sqrt disc) * (1 / (2 * a)) = t').
    { destruct (Rle_dec 0 (2 * a * t' + b)) as [Hs|Hs].
      - right. rewrite Hdisc, sqrt_square by exact Hs. field. lra.
      - left. replace disc with ((- (2 * a * t' + b)) * (- (2 * a * t' + b))) by lra.
        rewrite sqrt_square by lra. field. lra. }
    assert (Hord : (- b - sqrt disc) * (1 / (2 * a)) <= (- b + sqrt disc) * (1 / (2 * a))).
    { apply Rmult_le_compat_r; lra. }
    destruct (Rle_dec 0 _) as [L1|L1].
    + destruct (Rle_dec _ 1) as [U1|U1].
      * intros [= <-]. destruct Hcase; lra.
      * destruct (Rle_dec 0 _) as [L2|L2]; [|discriminate].
        destruct (Rle_dec _ 1) as [U2|U2]; [|discriminate].
        intros [= <-]. destruct Hcase; lra.
    + destruct (Rle_dec 0 _) as [L2|L2]; [|discriminate].
      destruct (Rle_dec _ 1) as [U2|U2]; [|discriminate].
      intros [= <-]. destruct Hcase; lra.
  - destruct (Rle_dec lenSq (1 / 1000000000)) as [Hlen|Hlen]; [by left|].
    right. intros t' Ht' Hon'.
    destruct (hit_complete ax ay bx by_ cx cy r t') as [t Hsome]; [|done|exact Hon'|].
    + unfold lenSq in Hlen. lra.
    + congruence.
Qed.

End FirstHit.

(** ** Ship classes and abilities *)

(** X20. [handleUpgradeShipClass] is gated by the unlock level alone: below
    the unlock level of the class nothing changes; from that level on, and
    from any current class, the player gets the class, the maximum health of
    the class plus 10 per health-bonus point and full health, while level,
    xp, score, kills, stats, upgrade points, ability state and every other
    player stay as they are; one playerStats notification is sent. *)
Theorem handleUpgradeShipClass_unlock (playerId : string) (shipClass : ShipClass)
    (w : World.t) (i : nat) (p : Player.t) :
  players_get playerId w = Some (i, p) ->
  let w' := handleUpgradeShipClass playerId shipClass w in
  let maxHealth :=
    ShipStats.maxHealth (SHIP_STATS shipClass)
    + PlayerStats.healthBonus (Ship.stats (Player.ship p)) * 10 in
  (Ship.level (Player.ship p) < SHIP_UNLOCK_LEVELS shipClass -> w' = w)
  /\ (SHIP_UNLOCK_LEVELS shipClass <= Ship.level (Player.ship p) ->
      World.players w' !! i
      = Some (Player.on_ship
                (fun s => Ship.set_health maxHealth
                            (Ship.set_maxHealth maxHealth
                               (Ship.set_shipClass shipClass s))) p)
      /\ (forall j, j <> i -> World.players w' !! j = World.players w !! j)
      /\ World.emitted w'
         = World.emitted w
           ++ [Ev.playerStats (Ship.stats (Player.ship p)) (Player.upgradePoints p)
                              (getXPToNextLevel (Ship.level (Player.ship p)))]
      /\ (playerId <> localPlayerId -> World.storage w' = World.storage w)
      /\ (playerId = localPlayerId ->
          Storage.navalwar_save (World.storage w')
          = Some (SaveState.mk (Ship.score (Player.ship p)) (Ship.level (Player.ship p))
                               (Ship.xp (Player.ship p)) shipClass
                               (Ship.stats (Player.ship p)) (Player.upgradePoints p)))).
Proof.
  intros Hget w' maxHealth.
  pose proof (players_get_Some _ _ _ _ Hget) as [Hi Hid].
  subst w'. unfold handleUpgradeShipClass. rewrite Hget. split.
  - intros Hlt. apply Z.ltb_lt in Hlt. by rewrite Hlt.
  - intros Hge. apply Z.ltb_ge in Hge. rewrite Hge. cbv zeta.
    match goal with |- context [modPlayer i ?f w] =>
      set (upgrade := f); set (w1 := modPlayer i upgrade w) end.
    assert (H1 : World.players w1 !! i = Some (upgrade p)).
    { unfold w1. by rewrite players_modPlayer, list_lookup_alter_eq, Hi. }
    split; [|split; [|split; [|split]]].
    + by rewrite players_savePlayerState, players_sendStats, H1.
    + intros j Hne. rewrite players_savePlayerState, players_sendStats. unfold w1.
      by rewrite players_modPlayer, list_lookup_alter_ne.
    + rewrite emitted_savePlayerState. unfold sendStats. rewrite H1. reflexivity.
    + intros Hne. unfold savePlayerState. rewrite players_sendStats, H1.
      replace (Player.id (upgrade p)) with playerId by (by rewrite <- Hid).
      apply String.eqb_neq in Hne. rewrite Hne. cbn [negb].
      by rewrite storage_sendStats.
    + intros ->. unfold savePlayerState. rewrite players_sendStats, H1.
      replace (Player.id (upgrade p)) with localPlayerId by (by rewrite <- Hid).
      rewrite String.eqb_refl. reflexivity.
Qed.

(** Witness of X20: Ann, at level 1, asks for a cruiser (level 4) in vain. *)
Lemma handleUpgradeShipClass_unlock_witness :
  handleUpgradeShipClass "local-player" cruiser upgradeWorld = upgradeWorld.
Proof.
  refine (proj1 (handleUpgradeShipClass_unlock "local-player" cruiser upgradeWorld
                   0 upgradeAnn eq_refl) _).
  reflexivity.
Defined.

(** The player that [updateAbility] leaves at position [i], as a function of
    the player found there. *)
Lemma updateAbility_step (i : nat) (now : Z) (input : PlayerInput.t) (w : World.t)
    (p : Player.t) (cfg : AbilityConfig.t) :
  World.players w !! i = Some p ->
  SHIP_ABILITIES (Ship.shipClass (Player.ship p)) = Some cfg ->
  let pa :=
    Player.on_ship (Ship_set_abilityCooldown
                      (Z.max 0 (Player.abilityCooldownUntil p - now))) p in
  let pb :=
    if (0 <? Player.abilityActiveUntil p) && (Player.abilityActiveUntil p <=? now)
    then Player_set_abilityActiveUntil 0
           (Player.on_ship (fun s => Ship.set_isShielded false
                                       (Ship_set_isStealthed false
                                          (Ship_set_abilityActive false s))) pa)
    else pa in
  let fire :=
    PlayerInput.useAbility input && (Player.abilityCooldownUntil p <=? now)
    && negb (Ship.abilityActive (Player.ship pb)) in
  let pc :=
    Player_set_abilityCooldownUntil (now + AbilityConfig.cooldown cfg)
      (Player_set_abilityActiveUntil (now + AbilityConfig.duration cfg)
         (Player.on_ship (Ship_set_abilityActive true) pb)) in
  let w' := updateAbility i now input w in
  World.players w'
  = <[i := if fire then
             match AbilityConfig.ability cfg with
             | Ability.stealth => Player.on_ship (Ship_set_isStealthed true) pc
             | Ability.shield => Player.on_ship (Ship.set_isShielded true) pc
             | _ => pc
             end
           else pb]> (World.players w)
  /\ World.drones w'
     = (if fire && match AbilityConfig.ability cfg with Ability.drone => true | _ => false end
        then World.drones w
             ++ [Drone.mk ("drone-" +:+ pretty (World.droneIdCounter w)) (Player.id p)
                          (Ship.x (Player.ship p)) (Ship.y (Player.ship p))
                          (Ship.rotation (Player.ship p)) 30 DRONE_LIFETIME]
        else World.drones w)
  /\ World.bullets w' = World.bullets w
  /\ World.neutrals w' = World.neutrals w
  /\ World.emitted w' = World.emitted w
  /\ World.storage w' = World.storage w
  /\ World.islands w' = World.islands w.
Proof.
  intros Hi Hcfg pa pb fire pc w'. subst w'. unfold updateAbility.
  rewrite Hi, Hcfg. cbv zeta. fold pa.
  assert (Hlen : (i < length (World.players w))%nat) by (by eapply lookup_lt_Some).
  set (w1 := modPlayer i _ w).
  assert (H1 : World.players w1 = <[i := pa]> (World.players w)).
  { unfold w1. rewrite players_modPlayer. by apply alter_as_insert. }
  set (w2 := if _ && _ then _ else w1).
  assert (H2 : World.players w2 = <[i := pb]> (World.players w)
               /\ World.drones w2 = World.drones w /\ World.bullets w2 = World.bullets w
               /\ World.neutrals w2 = World.neutrals w
               /\ World.emitted w2 = World.emitted w
               /\ World.storage w2 = World.storage w
               /\ World.islands w2 = World.islands w
               /\ World.droneIdCounter w2 = World.droneIdCounter w).
  { unfold w2, pb. destruct (_ && _).
    - split; [|done]. rewrite players_modPlayer, H1.
      rewrite (alter_as_insert _ _ _ pa) by (by apply list_lookup_insert_eq).
      by rewrite list_insert_insert_eq.
    - by rewrite H1. }
  clearbody w2. destruct H2 as (H2 & D2 & B2 & N2 & E2 & S2 & I2 & C2).
  assert (Hb : World.players w2 !! i = Some pb).
  { rewrite H2. by apply list_lookup_insert_eq. }
  rewrite Hb.
  replace (Player.abilityCooldownUntil pb) with (Player.abilityCooldownUntil p)
    by (unfold pb, pa; by destruct (_ && _)).
  fold fire. destruct fire.
  - set (w3 := modPlayer i _ w2).
    assert (H3 : World.players w3 = <[i := pc]> (World.players w)).
    { unfold w3. rewrite players_modPlayer, (alter_as_insert _ _ _ pb) by done.
      by rewrite H2, list_insert_insert_eq. }
    assert (Hc : World.players w3 !! i = Some pc).
    { rewrite H3. by apply list_lookup_insert_eq. }
    assert (Hpc : Player.id pc = Player.id p /\ Ship.x (Player.ship pc) = Ship.x (Player.ship p)
                  /\ Ship.y (Player.ship pc) = Ship.y (Player.ship p)
                  /\ Ship.rotation (Player.ship pc) = Ship.rotation (Player.ship p)).
    { unfold pc, pb, pa. by destruct (_ && _). }
    destruct Hpc as (Hid & Hx & Hy & Hr).
    destruct (AbilityConfig.ability cfg); cbn [andb].
    + rewrite players_modPlayer, (alter_as_insert _ _ _ pc) by done.
      by rewrite H3, list_insert_insert_eq.
    + rewrite players_modPlayer, (alter_as_insert _ _ _ pc) by done.
      by rewrite H3, list_insert_insert_eq.
    + done.
    + unfold spawnDrone. rewrite Hc.
      cbn [World.players World.drones World.bullets World.neutrals World.emitted
           World.storage World.islands World_set_droneIdCounter World.set_drones].
      rewrite H3, Hid, Hx, Hy, Hr. cbn [w3 modPlayer World.set_players World.drones
        World.droneIdCounter World.bullets World.neutrals World.emitted World.storage
        World.islands].
      by rewrite D2, C2.
  - cbn [andb]. done.
Qed.

(** The cooldown of every ability is longer than its duration. *)
Lemma ability_duration_lt_cooldown (c : ShipClass) (cfg : AbilityConfig.t) :
  SHIP_ABILITIES c = Some cfg ->
  0 < AbilityConfig.duration cfg < AbilityConfig.cooldown cfg.
Proof. destruct c; intros [= <-]; cbn; lia. Qed.

(** X21. The cycle of an ability.  A player whose class has an ability,
    that asks for it at [now] when it is not active and its cooldown is
    over, gets it: the ability is active until [now + duration], the
    cooldown runs until [now + cooldown], a submarine is stealthed, a
    cruiser shielded, and a carrier launches one drone at its position.
    A later [updateAbility] before [now + duration] keeps all of this
    whatever the input; one from [now + duration] on and before
    [now + cooldown] ends the ability, clears the stealth and shield flags
    and refuses a new activation. *)
Theorem ability_cycle (i : nat) (now : Z) (input : PlayerInput.t) (w : World.t)
    (p : Player.t) (cfg : AbilityConfig.t) :
  World.players w !! i = Some p ->
  SHIP_ABILITIES (Ship.shipClass (Player.ship p)) = Some cfg ->
  PlayerInput.useAbility input = true ->
  Player.abilityCooldownUntil p <= now ->
  Ship.abilityActive (Player.ship p) = false ->
  0 <= now ->
  let w1 := updateAbility i now input w in
  exists p1,
    World.players w1 !! i = Some p1
    /\ Ship.abilityActive (Player.ship p1) = true
    /\ Player.abilityActiveUntil p1 = now + AbilityConfig.duration cfg
    /\ Player.abilityCooldownUntil p1 = now + AbilityConfig.cooldown cfg
    /\ (AbilityConfig.ability cfg = Ability.stealth ->
        Ship.isStealthed (Player.ship p1) = true)
    /\ (AbilityConfig.ability cfg = Ability.shield ->
        Ship.isShielded (Player.ship p1) = true)
    /\ (AbilityConfig.ability cfg = Ability.drone ->
        World.drones w1
        = World.drones w
          ++ [Drone.mk ("drone-" +:+ pretty (World.droneIdCounter w)) (Player.id p)
                       (Ship.x (Player.ship p)) (Ship.y (Player.ship p))
                       (Ship.rotation (Player.ship p)) 30 DRONE_LIFETIME])
    /\ (AbilityConfig.ability cfg <> Ability.drone -> World.drones w1 = World.drones w)
    /\ (forall now' input',
          now <= now' < now + AbilityConfig.duration cfg ->
          let w2 := updateAbility i now' input' w1 in
          World.players w2 !! i
          = Some (Player.on_ship
                    (Ship_set_abilityCooldown (now + AbilityConfig.cooldown cfg - now')) p1)
          /\ World.drones w2 = World.drones w1)
    /\ (forall now' input',
          now + AbilityConfig.duration cfg <= now' < now + AbilityConfig.cooldown cfg ->
          let w2 := updateAbility i now' input' w1 in
          World.players w2 !! i
          = Some (Player_set_abilityActiveUntil 0
                    (Player.on_ship
                       (fun s => Ship.set_isShielded false
                                   (Ship_set_isStealthed false
                                      (Ship_set_abilityActive false
                                         (Ship_set_abilityCooldown
                                            (now + AbilityConfig.cooldown cfg - now') s))))
                       p1))
          /\ World.drones w2 = World.drones w1).
Proof.
  intros Hi Hcfg Huse Hcool Hidle Hnow w1.
  pose proof (ability_duration_lt_cooldown _ _ Hcfg) as Hdur.
  assert (Hlen : (i < length (World.players w))%nat) by (by eapply lookup_lt_Some).
  destruct (updateAbility_step i now input w p cfg Hi Hcfg)
    as (HP & HD & _). cbv zeta in HP, HD. fold w1 in HP, HD.
  rewrite Huse in HP, HD.
  replace (Player.abilityCooldownUntil p <=? now) with true in HP, HD
    by (symmetry; by apply Z.leb_le).
  set (pa := Player.on_ship (Ship_set_abilityCooldown
               (Z.max 0 (Player.abilityCooldownUntil p - now))) p) in *.
  set (pb := if (0 <? Player.abilityActiveUntil p) && (Player.abilityActiveUntil p <=? now)
             then _ else pa) in *.
  assert (Hb : Ship.abilityActive (Player.ship pb) = false
               /\ Ship.shipClass (Player.ship pb) = Ship.shipClass (Player.ship p)).
  { unfold pb, pa. by destruct (_ && _). }
  destruct Hb as [Hb Hbc]. rewrite Hb in HP, HD. cbn [andb negb] in HP, HD.
  set (pc := Player_set_abilityCooldownUntil _ (Player_set_abilityActiveUntil _ _)) in *.
  set (p1 := match AbilityConfig.ability cfg with
             | Ability.stealth => Player.on_ship (Ship_set_isStealthed true) pc
             | Ability.shield => Player.on_ship (Ship.set_isShielded true) pc
             | _ => pc
             end) in *.
  assert (H1 : World.players w1 !! i = Some p1).
  { rewrite HP. by apply list_lookup_insert_eq. }
  assert (Hp1 : Ship.abilityActive (Player.ship p1) = true
                /\ Player.abilityActiveUntil p1 = now + AbilityConfig.duration cfg
                /\ Player.abilityCooldownUntil p1 = now + AbilityConfig.cooldown cfg
                /\ Ship.shipClass (Player.ship p1) = Ship.shipClass (Player.ship p)).
  { unfold p1. destruct (AbilityConfig.ability cfg); cbn; by rewrite ?Hbc. }
  destruct Hp1 as (Hact & Hau & Hcu & Hclass).
  exists p1. split; [exact H1|]. split; [exact Hact|]. split; [exact Hau|].
  split; [exact Hcu|].
  split; [intros Ha; unfold p1; by rewrite Ha|].
  split; [intros Ha; unfold p1; by rewrite Ha|].
  split; [intros Ha; by rewrite Ha in HD|].
  split; [intros Ha; by destruct (AbilityConfig.ability cfg)|].
  assert (Hcfg1 : SHIP_ABILITIES (Ship.shipClass (Player.ship p1)) = Some cfg)
    by (by rewrite Hclass).
  split.
  - intros now' input' Hnow' w2.
    destruct (updateAbility_step i now' input' w1 p1 cfg H1 Hcfg1) as (HP2 & HD2 & _).
    cbv zeta in HP2, HD2. fold w2 in HP2, HD2.
    rewrite Hau, Hcu in HP2, HD2.
    replace (now + AbilityConfig.duration cfg <=? now') with false in HP2, HD2
      by (symmetry; apply Z.leb_gt; lia).
    replace (now + AbilityConfig.cooldown cfg <=? now') with false in HP2, HD2
      by (symmetry; apply Z.leb_gt; lia).
    rewrite !andb_false_r in HP2, HD2. cbn [andb] in HP2, HD2.
    split; [|exact HD2].
    rewrite HP2, list_lookup_insert_eq by (by eapply lookup_lt_Some).
    by rewrite Z.max_r by lia.
  - intros now' input' Hnow' w2.
    destruct (updateAbility_step i now' input' w1 p1 cfg H1 Hcfg1) as (HP2 & HD2 & _).
    cbv zeta in HP2, HD2. fold w2 in HP2, HD2.
    rewrite Hau, Hcu in HP2, HD2.
    replace (0 <? now + AbilityConfig.duration cfg) with true in HP2, HD2
      by (symmetry; apply Z.ltb_lt; lia).
    replace (now + AbilityConfig.duration cfg <=? now') with true in HP2, HD2
      by (symmetry; apply Z.leb_le; lia).
    replace (now + AbilityConfig.cooldown cfg <=? now') with false in HP2, HD2
      by (symmetry; apply Z.leb_gt; lia).
    cbn [andb] in HP2, HD2. rewrite andb_false_r in HP2, HD2. cbn [andb] in HP2, HD2.
    split; [|exact HD2].
    rewrite HP2, list_lookup_insert_eq by (by eapply lookup_lt_Some).
    by rewrite Z.max_r by lia.
Qed.

(** Witness of X21: Ann's submarine goes into stealth at time 1000. *)
Lemma ability_cycle_witness :
  exists p1,
    World.players (updateAbility 0 1000 abilityInput subWorld) !! 0%nat = Some p1
    /\ Ship.isStealthed (Player.ship p1) = true
    /\ Player.abilityActiveUntil p1 = 1000 + 4000.
Proof.
  destruct (ability_cycle 0 1000 abilityInput subWorld subAnn
              (AbilityConfig.mk Ability.stealth 12000 4000 "Invisibility (4s)")
              eq_refl eq_refl eq_refl ltac:(discriminate) eq_refl ltac:(discriminate))
    as (p1 & H1 & _ & Hau & _ & Hs & _).
  exists p1. split; [exact H1|]. split; [exact (Hs eq_refl)|exact Hau].
Defined.

(** ** Homing drones *)

Section DroneFacts.
Variable Math_sqrt Math_cos Math_sin : Q -> Q.
Variable Math_atan2 : Q -> Q -> Q.

Lemma delete_alter_same {A : Type} (f : A -> A) (c : nat) (l : list A) :
  delete c (alter f c l) = delete c l.
Proof.
  revert c. induction l as [|a l IH]; intros [|c]; cbn; try done.
  f_equal. apply IH.
Qed.

Lemma drones_awardXP i amount w : World.drones (awardXP i amount w) = World.drones w.
Proof.
  unfold awardXP. destruct (World.players w !! i) as [player|]; [|done].
  cbn zeta.
  assert (Hsave : forall w0, World.drones (savePlayerState i w0) = World.drones w0).
  { intros w0. unfold savePlayerState. destruct (World.players w0 !! i); [|done].
    by destruct (negb _). }
  assert (Hsend : forall w0, World.drones (sendStats i w0) = World.drones w0).
  { intros w0. unfold sendStats. by destruct (World.players w0 !! i). }
  rewrite Hsave, Hsend. by destruct (_ && _).
Qed.

(** What [damageNeutral] may change. *)
Lemma damageNeutral_effect (c : nat) (damage : Z) (attackerId : string) (w : World.t) :
  let w' := damageNeutral c damage attackerId w in
  World.bullets w' = World.bullets w
  /\ World.islands w' = World.islands w
  /\ World.drones w' = World.drones w
  /\ sublist (map neutralFrame (World.neutrals w')) (map neutralFrame (World.neutrals w))
  /\ (0 <= damage -> Forall afloat (World.neutrals w) -> Forall afloat (World.neutrals w'))
  /\ (Forall capped (World.players w) -> Forall capped (World.players w'))
  /\ map playerFrame (World.players w') = map playerFrame (World.players w)
  /\ (players_get attackerId w = None -> World.players w' = World.players w)
  /\ (attackerId <> localPlayerId -> World.storage w' = World.storage w).
Proof.
  intros w'. subst w'. unfold damageNeutral.
  destruct (World.neutrals w !! c) as [n|] eqn:Hc.
  2: { repeat split; try done. }
  cbv zeta. set (h := NeutralObject.health n - damage).
  set (w1 := emit _ (modNeutral c (NeutralObject.set_health h) w)).
  assert (Hfr : map neutralFrame (World.neutrals w1) = map neutralFrame (World.neutrals w)).
  { unfold w1. cbn [emit World.neutrals World.set_emitted modNeutral World.set_neutrals].
    by apply map_alter_kept. }
  assert (Hn1 : World.neutrals w1 = alter (NeutralObject.set_health h) c (World.neutrals w))
    by reflexivity.
  destruct (Z.leb_spec h 0) as [Hdead|Halive].
  - set (w2 := World.set_neutrals _ w1).
    assert (Hsub : sublist (map neutralFrame (World.neutrals w2))
                           (map neutralFrame (World.neutrals w))).
    { rewrite <- Hfr. unfold w2. cbn [World.neutrals World.set_neutrals].
      apply fmap_sublist. apply sublist_delete. }
    assert (Hafloat : Forall afloat (World.neutrals w) -> Forall afloat (World.neutrals w2)).
    { intros Hall. unfold w2. cbn [World.neutrals World.set_neutrals]. rewrite Hn1.
      apply Forall_lookup. intros j x Hj.
      rewrite delete_alter_same in Hj.
      apply (Forall_delete _ _ c) in Hall. rewrite Forall_lookup in Hall.
      by eapply Hall. }
    destruct (players_get attackerId w2) as [[k q]|] eqn:Hget.
    + cbn [emit World.bullets World.islands World.drones World.neutrals World.players
           World.storage World.set_emitted].
      rewrite neutrals_awardXP.
      pose proof (frame_awardXP k (NeutralObject.xpValue n) w2) as HF.
      unfold collisionFrame in HF.
      split; [transitivity (World.bullets w2); [congruence|done]|].
      split; [transitivity (World.islands w2); [congruence|done]|].
      split; [by rewrite drones_awardXP|].
      split; [done|]. split; [auto|]. split; [intros; by apply capped_awardXP|].
      split; [transitivity (map playerFrame (World.players w2)); [congruence|done]|].
      split.
      * intros Hnone. exfalso.
        assert (players_get attackerId w2 = players_get attackerId w)
          by (by apply players_get_ext).
        congruence.
      * intros Hne. apply players_get_Some in Hget as [Hk Hid].
        rewrite (storage_awardXP k _ w2 q Hk); [done|congruence].
    + repeat split; try done; auto.
  - split; [done|]. split; [done|]. split; [done|].
    split; [by rewrite Hfr|]. split; [|done].
    intros Hd Hall. rewrite Hn1. apply Forall_alter; [done|].
    intros x Hx [? ?]. assert (x = n) by congruence. subst x.
    unfold afloat. cbn. unfold h. lia.
Qed.

(** One drone of [updateDrones]: what happens to the drone and to the world. *)
Lemma updateDrone_effect (dt : Q) (d : Drone.t) (w : World.t) :
  let r := updateDrone Math_sqrt Math_cos Math_sin Math_atan2 dt d w in
  (forall d', fst r = Some d' ->
     Drone.id d' = Drone.id d /\ Drone.ownerId d' = Drone.ownerId d
     /\ Drone.health d' = Drone.health d
     /\ Drone.lifetime d' = (Drone.lifetime d - dt * (1000 # 1))%Q
     /\ (0 < Drone.lifetime d')%Q)
  /\ (snd r = w \/ exists c, snd r = damageNeutral c DRONE_DAMAGE "drone" w).
Proof.
  intros r. subst r. unfold updateDrone. cbv zeta.
  destruct (JS.leb _ 0) eqn:Hl; [split; [discriminate|by left]|].
  apply leb_false in Hl.
  destruct (droneTarget _ _ _) as [[target|] minDist].
  - destruct (World.neutrals w !! target) as [t|].
    + destruct (JS.ltb minDist (20 # 1)).
      * split; [discriminate|]. right. by exists target.
      * split; [|by left]. cbn [fst]. intros d' [= <-]. by cbn.
    + split; [|by left]. cbn [fst]. intros d' [= <-]. by cbn.
  - split; [|by left]. cbn [fst]. intros d' [= <-]. by cbn.
Qed.

(** X22. One [updateDrones] step.  Every drone left is an old drone, aged
    by the step, with positive lifetime and the same id, owner and health;
    the drones left keep their order.  A neutral hit by a homing drone
    loses [DRONE_DAMAGE] health and is removed at once when its health
    drops to 0 or below, so neutrals with positive health at most their
    maximum stay so, and the neutrals left are old neutrals (up to health),
    in order.  The attacker passed to [damageNeutral] is the string 'drone':
    unless a player has that id no player changes (a homing kill awards no
    xp), and in any case a player changes only as by an xp award and the
    storage is unchanged.  Bullets and islands are unchanged. *)
Theorem updateDrones_effect (dt : Q) (w : World.t) :
  let w' := updateDrones Math_sqrt Math_cos Math_sin Math_atan2 dt w in
  (forall d', d' ∈ World.drones w' ->
     exists d, d ∈ World.drones w
       /\ Drone.id d' = Drone.id d /\ Drone.ownerId d' = Drone.ownerId d
       /\ Drone.health d' = Drone.health d
       /\ Drone.lifetime d' = (Drone.lifetime d - dt * (1000 # 1))%Q
       /\ (0 < Drone.lifetime d')%Q)
  /\ sublist (map Drone.id (World.drones w')) (map Drone.id (World.drones w))
  /\ sublist (map neutralFrame (World.neutrals w')) (map neutralFrame (World.neutrals w))
  /\ (Forall afloat (World.neutrals w) -> Forall afloat (World.neutrals w'))
  /\ (Forall capped (World.players w) -> Forall capped (World.players w'))
  /\ map playerFrame (World.players w') = map playerFrame (World.players w)
  /\ (players_has "drone" w = false -> World.players w' = World.players w)
  /\ World.storage w' = World.storage w
  /\ World.bullets w' = World.bullets w
  /\ World.islands w' = World.islands w.
Proof.
  intros w'. subst w'. unfold updateDrones.
  set (step := fun (d : Drone.t) '(kept, w) =>
                 match updateDrone Math_sqrt Math_cos Math_sin Math_atan2 dt d w with
                 | (Some d', w') => (d' :: kept, w')
                 | (None, w') => (kept, w')
                 end).
  assert (Hgen : forall l,
    let r := foldr step ([], w) l in
    (forall d', d' ∈ fst r ->
       exists d, d ∈ l
         /\ Drone.id d' = Drone.id d /\ Drone.ownerId d' = Drone.ownerId d
         /\ Drone.health d' = Drone.health d
         /\ Drone.lifetime d' = (Drone.lifetime d - dt * (1000 # 1))%Q
         /\ (0 < Drone.lifetime d')%Q)
    /\ sublist (map Drone.id (fst r)) (map Drone.id l)
    /\ sublist (map neutralFrame (World.neutrals (snd r)))
               (map neutralFrame (World.neutrals w))
    /\ (Forall afloat (World.neutrals w) -> Forall afloat (World.neutrals (snd r)))
    /\ (Forall capped (World.players w) -> Forall capped (World.players (snd r)))
    /\ map playerFrame (World.players (snd r)) = map playerFrame (World.players w)
    /\ (players_has "drone" w = false -> World.players (snd r) = World.players w)
    /\ World.storage (snd r) = World.storage w
    /\ World.bullets (snd r) = World.bullets w
    /\ World.islands (snd r) = World.islands w
    /\ World.drones (snd r) = World.drones w).
  { induction l as [|d l IH]; intros r.
    - subst r. cbn. repeat split; try done; try (by constructor);
        try (intros d' Hd'; by apply elem_of_nil in Hd').
    - subst r. cbn [foldr]. cbv zeta in IH.
      destruct (foldr step ([], w) l) as [kept w1]. cbn [fst snd] in IH.
      destruct IH as (Hd & Hids & Hfr & Haf & Hcap & Hpf & Hpl & Hst & Hb & Hi & Hdr).
      change (step d (kept, w1))
        with (match updateDrone Math_sqrt Math_cos Math_sin Math_atan2 dt d w1 with
              | (Some d', w') => (d' :: kept, w')
              | (None, w') => (kept, w')
              end).
      pose proof (updateDrone_effect dt d w1) as [Hdrone Hworld]. cbv zeta in *.
      assert (Hw : let w2 := snd (updateDrone Math_sqrt Math_cos Math_sin Math_atan2 dt d w1) in
                sublist (map neutralFrame (World.neutrals w2))
                        (map neutralFrame (World.neutrals w))
                /\ (Forall afloat (World.neutrals w) -> Forall afloat (World.neutrals w2))
                /\ (Forall capped (World.players w) -> Forall capped (World.players w2))
                /\ map playerFrame (World.players w2) = map playerFrame (World.players w)
                /\ (players_has "drone" w = false -> World.players w2 = World.players w)
                /\ World.storage w2 = World.storage w
                /\ World.bullets w2 = World.bullets w
                /\ World.islands w2 = World.islands w
                /\ World.drones w2 = World.drones w).
      { cbv zeta. destruct Hworld as [->|[c ->]]; [done|].
        destruct (damageNeutral_effect c DRONE_DAMAGE "drone" w1)
          as (Hb' & Hi' & Hdr' & Hfr' & Haf' & Hcap' & Hpf' & Hpl' & Hst').
        split; [by etrans|].
        split; [intros; apply Haf'; [unfold DRONE_DAMAGE; lia|auto]|].
        split; [auto|]. split; [by rewrite Hpf'|].
        split; [|split; [rewrite Hst'; [done|discriminate]|by rewrite Hb', Hi', Hdr']].
        intros Hno. specialize (Hpl Hno). rewrite Hpl'; [done|].
        unfold players_has in Hno.
        rewrite (players_get_ext "drone" w w1 Hpl).
        by destruct (players_get "drone" w). }
      destruct (updateDrone Math_sqrt Math_cos Math_sin Math_atan2 dt d w1)
        as [[d1|] w2]; cbn [fst snd] in *.
      + split; [|split; [|exact Hw]].
        * intros d' Hin. apply elem_of_cons in Hin as [->|Hin].
          -- exists d. split; [by left|]. by apply Hdrone.
          -- destruct (Hd d' Hin) as (d0 & Hd0 & Hrest). exists d0.
             split; [by right|done].
        * cbn [map]. destruct (Hdrone d1 eq_refl) as (-> & _). by constructor.
      + split; [|split; [|exact Hw]].
        * intros d' Hin. destruct (Hd d' Hin) as (d0 & Hd0 & Hrest). exists d0.
          split; [by right|done].
        * cbn [map]. by constructor. }
  specialize (Hgen (World.drones w)). cbv zeta in Hgen.
  destruct (foldr step ([], w) (World.drones w)) as [kept w1]. cbn [fst snd] in Hgen.
  cbn [World.drones World.set_drones World.neutrals World.players World.storage
       World.bullets World.islands].
  destruct Hgen as (? & ? & ? & ? & ? & ? & ? & ? & ? & ? & _). done.
Qed.

End DroneFacts.

(** ** The players' step *)

Lemma map_insert_kept {A B : Type} (g : A -> B) (i : nat) (x y : A) (l : list A) :
  l !! i = Some x -> g y = g x -> map g (<[i := y]> l) = map g l.
Proof.
  revert i. induction l as [|a l IH]; intros [|i] Hi Hg; cbn in *; try done.
  - injection Hi as ->. by rewrite Hg.
  - f_equal. by apply IH.
Qed.

Section PlayerStep.
Variable Math_sqrt Math_cos Math_sin : Q -> Q.

Lemma moveShip_frame (dt : Q) (islands : list Island.t) (input : PlayerInput.t)
    (p : Player.t) :
  motionFrame (Player.on_ship (moveShip Math_sqrt Math_cos Math_sin dt islands input) p)
  = motionFrame p.
Proof.
  unfold Player.on_ship, moveShip. cbv beta zeta.
  match goal with |- context [foldl ?f ?s0 islands] =>
    set (step := f); set (start := s0) end.
  assert (Hstart : motionFrame (Player.set_ship start p) = motionFrame p).
  { unfold start. destruct (PlayerInput.x input), (PlayerInput.y input); reflexivity. }
  clearbody start. revert start Hstart.
  induction islands as [|isl islands IH]; intros start Hstart; [exact Hstart|].
  cbn [foldl]. apply IH. rewrite <- Hstart. reflexivity.
Qed.

(** What [updateAbility] may change. *)
Lemma updateAbility_frame (i : nat) (now : Z) (input : PlayerInput.t) (w : World.t) :
  let w' := updateAbility i now input w in
  map motionFrame (World.players w') = map motionFrame (World.players w)
  /\ (forall j, j <> i -> World.players w' !! j = World.players w !! j)
  /\ (forall p, World.players w !! i = Some p ->
        exists p', World.players w' !! i = Some p'
                   /\ Player.lastFireTime p' = Player.lastFireTime p)
  /\ (exists ds, World.drones w' = World.drones w ++ ds)
  /\ World.bullets w' = World.bullets w
  /\ World.neutrals w' = World.neutrals w
  /\ World.islands w' = World.islands w
  /\ World.emitted w' = World.emitted w
  /\ World.storage w' = World.storage w.
Proof.
  intros w'.
  assert (Hsame : w' = w -> map motionFrame (World.players w') = map motionFrame (World.players w)
  /\ (forall j, j <> i -> World.players w' !! j = World.players w !! j)
  /\ (forall p, World.players w !! i = Some p ->
        exists p', World.players w' !! i = Some p'
                   /\ Player.lastFireTime p' = Player.lastFireTime p)
  /\ (exists ds, World.drones w' = World.drones w ++ ds)
  /\ World.bullets w' = World.bullets w
  /\ World.neutrals w' = World.neutrals w
  /\ World.islands w' = World.islands w
  /\ World.emitted w' = World.emitted w
  /\ World.storage w' = World.storage w).
  { intros ->. repeat split; try done; [eauto|]. exists []. by rewrite app_nil_r. }
  destruct (World.players w !! i) as [p|] eqn:Hi.
  2: { apply Hsame. subst w'. unfold updateAbility. by rewrite Hi. }
  destruct (SHIP_ABILITIES (Ship.shipClass (Player.ship p))) as [cfg|] eqn:Hcfg.
  2: { apply Hsame. subst w'. unfold updateAbility. by rewrite Hi, Hcfg. }
  destruct (updateAbility_step i now input w p cfg Hi Hcfg)
    as (HP & HD & HB & HN & HE & HS & HI). cbv zeta in HP, HD.
  fold w' in HP, HD, HB, HN, HE, HS, HI.
  split; [|split; [|split; [|split; [|done]]]].
  - rewrite HP. apply (map_insert_kept _ _ p); [done|].
    destruct ((0 <? Player.abilityActiveUntil p) && (Player.abilityActiveUntil p <=? now));
      destruct (_ && _); try reflexivity;
      destruct (AbilityConfig.ability cfg); reflexivity.
  - intros j Hne. rewrite HP. by apply list_lookup_insert_ne.
  - intros q [= <-]. eexists. split.
    + rewrite HP. apply list_lookup_insert_eq. by eapply lookup_lt_Some.
    + destruct ((0 <? Player.abilityActiveUntil p) && (Player.abilityActiveUntil p <=? now));
        destruct (_ && _); try reflexivity;
        destruct (AbilityConfig.ability cfg); reflexivity.
  - rewrite HD.
    match goal with |- exists ds, (if ?c then _ else _) = _ => destruct c end;
      [eexists; reflexivity|].
    exists []. by rewrite app_nil_r.
Qed.

(** The loop body of [updatePlayers]: what it may change. *)
Lemma updatePlayer_effect (dt : Q) (now : Z) (w : World.t) (i : nat) (p : Player.t) :
  World.players w !! i = Some p ->
  let w' := updatePlayer Math_sqrt Math_cos Math_sin dt now w i in
  exists p' bs ds,
    World.players w' = <[i := p']> (World.players w)
    /\ motionFrame p' = motionFrame p
    /\ (Player.isDead p = true -> p' = p)
    /\ Player.lastFireTime p' = (if firesAt now p then now else Player.lastFireTime p)
    /\ World.bullets w' = World.bullets w ++ bs
    /\ (if firesAt now p
        then exists b, bs = [b]
               /\ Bullet.ownerId b = Player.id p
               /\ Bullet.damage b
                  = ShipStats.damage (SHIP_STATS (Ship.shipClass (Player.ship p)))
                    + PlayerStats.damageBonus (Ship.stats (Player.ship p)) * 2
               /\ Bullet.lifetime b = (2000 # 1)%Q
               /\ Bullet.ignoreTerrain b = true
        else bs = [])
    /\ World.drones w' = World.drones w ++ ds
    /\ World.neutrals w' = World.neutrals w
    /\ World.islands w' = World.islands w
    /\ World.emitted w' = World.emitted w
    /\ World.storage w' = World.storage w.
Proof.
  intros Hi w'. subst w'. unfold updatePlayer, firesAt. rewrite Hi.
  assert (Hlen : (i < length (World.players w))%nat) by (by eapply lookup_lt_Some).
  destruct (Player.isDead p) eqn:Hdead.
  { exists p, [], []. cbn [negb andb]. rewrite !app_nil_r, list_insert_id by done. done. }
  cbv zeta. cbn [negb andb].
  set (w1 := modPlayer i _ w).
  set (p1 := Player.on_ship (moveShip Math_sqrt Math_cos Math_sin dt (World.islands w)
                               (Player.lastInput p)) p).
  assert (H1 : World.players w1 = <[i := p1]> (World.players w)).
  { unfold w1. rewrite players_modPlayer. by apply alter_as_insert. }
  assert (H1i : World.players w1 !! i = Some p1).
  { rewrite H1. by apply list_lookup_insert_eq. }
  assert (F1 : motionFrame p1 = motionFrame p) by apply moveShip_frame.
  assert (L1 : Player.lastFireTime p1 = Player.lastFireTime p) by reflexivity.
  fold (fireCooldownOf p).
  set (fires := PlayerInput.fire (Player.lastInput p)
                && (fireCooldownOf p <? now - Player.lastFireTime p)).
  set (w2 := if fires then _ else w1).
  assert (H2 : exists p2 bs,
            World.players w2 = <[i := p2]> (World.players w)
            /\ motionFrame p2 = motionFrame p
            /\ Player.lastFireTime p2 = (if fires then now else Player.lastFireTime p)
            /\ World.bullets w2 = World.bullets w ++ bs
            /\ (if fires
                then exists b, bs = [b]
                       /\ Bullet.ownerId b = Player.id p
                       /\ Bullet.damage b
                          = ShipStats.damage (SHIP_STATS (Ship.shipClass (Player.ship p)))
                            + PlayerStats.damageBonus (Ship.stats (Player.ship p)) * 2
                       /\ Bullet.lifetime b = (2000 # 1)%Q
                       /\ Bullet.ignoreTerrain b = true
                else bs = [])
            /\ World.drones w2 = World.drones w
            /\ World.neutrals w2 = World.neutrals w
            /\ World.islands w2 = World.islands w
            /\ World.emitted w2 = World.emitted w
            /\ World.storage w2 = World.storage w).
  { unfold w2. destruct fires.
    - unfold spawnBullet. rewrite H1i.
      exists (Player_set_lastFireTime now p1). eexists.
      split.
      { rewrite players_modPlayer.
        cbn [World.players World.set_bulletIdCounter World.set_bullets].
        rewrite (alter_as_insert _ _ _ p1) by done.
        by rewrite H1, list_insert_insert_eq. }
      split; [rewrite <- F1; reflexivity|]. split; [reflexivity|].
      split; [reflexivity|]. split; [|done].
      eexists. split; [reflexivity|].
      cbn [Bullet.ownerId Bullet.damage Bullet.lifetime Bullet.ignoreTerrain].
      assert (Hs : Player.id p1 = Player.id p
                   /\ Ship.shipClass (Player.ship p1) = Ship.shipClass (Player.ship p)
                   /\ Ship.stats (Player.ship p1) = Ship.stats (Player.ship p)).
      { apply (f_equal (fun q => (Player.id q, Ship.shipClass (Player.ship q),
                                   Ship.stats (Player.ship q)))) in F1.
        cbn in F1. by injection F1. }
      destruct Hs as (-> & -> & ->). done.
    - exists p1, []. rewrite app_nil_r. done. }
  clearbody w2.
  destruct H2 as (p2 & bs & HP2 & F2 & L2 & HB2 & Hbs & HD2 & HN2 & HI2 & HE2 & HS2).
  destruct (updateAbility_frame i now (Player.lastInput p) w2)
    as (HF3 & HO3 & HL3 & (ds & HD3) & HB3 & HN3 & HI3 & HE3 & HS3). cbv zeta in *.
  assert (H2i : World.players w2 !! i = Some p2).
  { rewrite HP2. by apply list_lookup_insert_eq. }
  destruct (HL3 p2 H2i) as (p3 & Hp3 & Hl3).
  exists p3, bs, ds.
  split.
  { apply list_eq. intros j. destruct (decide (j = i)) as [->|Hne].
    - rewrite Hp3. symmetry. by apply list_lookup_insert_eq.
    - rewrite HO3 by done. rewrite HP2.
      by rewrite !list_lookup_insert_ne by done. }
  split.
  { assert (Hm : map motionFrame (World.players
                   (updateAbility i now (Player.lastInput p) w2)) !! i
                 = map motionFrame (World.players w2) !! i) by (by rewrite HF3).
    change (map motionFrame) with (fmap (M := list) motionFrame) in Hm.
    rewrite !list_lookup_fmap, Hp3, H2i in Hm. cbn in Hm. congruence. }
  split; [intros; congruence|].
  split; [congruence|]. split; [congruence|]. split; [done|].
  split; [by rewrite HD3, HD2|]. by rewrite HN3, HI3, HE3, HS3.
Qed.

(** X23. One [updatePlayers] step.  It changes, of every player, only the
    position, heading, velocity, fire time and ability state; a dead player
    is not changed at all.  A living player fires exactly when its input
    asks for it and more than its cooldown, which is at least 100 ms, has
    passed since its last shot; its fire time then becomes [now].  The
    bullets appended are exactly one per firing player, in player order,
    owned by it, with the damage of its class plus 2 per damage-bonus
    point, lifetime 2000, ignoring terrain.  Drones are only appended;
    neutrals, islands, notifications and the storage are unchanged. *)
Theorem updatePlayers_effect (dt : Q) (now : Z) (w : World.t) :
  let w' := updatePlayers Math_sqrt Math_cos Math_sin dt now w in
  map motionFrame (World.players w') = map motionFrame (World.players w)
  /\ (forall i p, World.players w !! i = Some p ->
        exists p', World.players w' !! i = Some p'
          /\ (Player.isDead p = true -> p' = p)
          /\ Player.lastFireTime p'
             = (if firesAt now p then now else Player.lastFireTime p)
          /\ (firesAt now p = true -> 100 < now - Player.lastFireTime p))
  /\ (exists bs,
        World.bullets w' = World.bullets w ++ bs
        /\ Forall2 (fun b p =>
                      Bullet.ownerId b = Player.id p
                      /\ Bullet.damage b
                         = ShipStats.damage (SHIP_STATS (Ship.shipClass (Player.ship p)))
                           + PlayerStats.damageBonus (Ship.stats (Player.ship p)) * 2
                      /\ Bullet.lifetime b = (2000 # 1)%Q
                      /\ Bullet.ignoreTerrain b = true)
                   bs (List.filter (firesAt now) (World.players w)))
  /\ (exists ds, World.drones w' = World.drones w ++ ds)
  /\ World.neutrals w' = World.neutrals w
  /\ World.islands w' = World.islands w
  /\ World.emitted w' = World.emitted w
  /\ World.storage w' = World.storage w.
Proof.
  intros w'. subst w'. unfold updatePlayers.
  set (R := fun (b : Bullet.t) (p : Player.t) =>
              Bullet.ownerId b = Player.id p
              /\ Bullet.damage b
                 = ShipStats.damage (SHIP_STATS (Ship.shipClass (Player.ship p)))
                   + PlayerStats.damageBonus (Ship.stats (Player.ship p)) * 2
              /\ Bullet.lifetime b = (2000 # 1)%Q
              /\ Bullet.ignoreTerrain b = true).
  assert (Hgen : forall m k w0,
    (forall j, (k <= j)%nat -> World.players w0 !! j = World.players w !! j) ->
    let w' := foldl (updatePlayer Math_sqrt Math_cos Math_sin dt now) w0 (seq k m) in
    map motionFrame (World.players w') = map motionFrame (World.players w0)
    /\ (forall j, (j < k)%nat \/ (k + m <= j)%nat ->
          World.players w' !! j = World.players w0 !! j)
    /\ (forall j p, (k <= j < k + m)%nat -> World.players w !! j = Some p ->
          exists p', World.players w' !! j = Some p'
            /\ (Player.isDead p = true -> p' = p)
            /\ Player.lastFireTime p'
               = (if firesAt now p then now else Player.lastFireTime p))
    /\ (exists bs,
          World.bullets w' = World.bullets w0 ++ bs
          /\ Forall2 R bs (List.filter (firesAt now) (take m (drop k (World.players w)))))
    /\ (exists ds, World.drones w' = World.drones w0 ++ ds)
    /\ World.neutrals w' = World.neutrals w0
    /\ World.islands w' = World.islands w0
    /\ World.emitted w' = World.emitted w0
    /\ World.storage w' = World.storage w0).
  { induction m as [|m IH]; intros k w0 Hfut w'.
    - subst w'. cbn [seq foldl take List.filter].
      split; [done|]. split; [done|]. split; [intros; lia|].
      split; [exists []; by rewrite app_nil_r|].
      split; [exists []; by rewrite app_nil_r|]. done.
    - subst w'. cbn [seq foldl].
      destruct (World.players w !! k) as [p|] eqn:Hk.
      + assert (Hk0 : World.players w0 !! k = Some p) by (by rewrite Hfut).
        destruct (updatePlayer_effect dt now w0 k p Hk0)
          as (p' & bs & ds & HP & HF & Hdead & HL & HB & Hbs & HD & HN & HI & HE & HS).
        cbv zeta in *.
        set (w1 := updatePlayer Math_sqrt Math_cos Math_sin dt now w0 k) in *.
        destruct (IH (S k) w1) as (IF & IO & IP & (bs' & IB & IR) & (ds' & ID) & IN & II
                                   & IE & IS).
        { intros j Hj. rewrite HP, list_lookup_insert_ne by lia. apply Hfut. lia. }
        cbv zeta in *.
        split; [rewrite IF, HP; by apply (map_insert_kept _ _ p)|].
        split.
        { intros j Hj. rewrite IO by lia. rewrite HP. apply list_lookup_insert_ne. lia. }
        split.
        { intros j q Hj Hq. destruct (decide (j = k)) as [->|Hne].
          - assert (q = p) by congruence. subst q. exists p'.
            split; [|done]. rewrite IO by lia. rewrite HP.
            apply list_lookup_insert_eq. by eapply lookup_lt_Some.
          - apply IP; [lia|done]. }
        split.
        { exists (bs ++ bs'). split; [by rewrite IB, HB, app_assoc|].
          rewrite (drop_S _ p) by done. cbn [take List.filter].
          destruct (firesAt now p).
          - destruct Hbs as (b & -> & Hb). cbn [app]. constructor; [exact Hb|exact IR].
          - subst bs. exact IR. }
        split; [exists (ds ++ ds'); by rewrite ID, HD, app_assoc|].
        by rewrite IN, II, IE, IS.
      + assert (Hk0 : World.players w0 !! k = None) by (by rewrite Hfut).
        assert (Hstep : updatePlayer Math_sqrt Math_cos Math_sin dt now w0 k = w0).
        { unfold updatePlayer. by rewrite Hk0. }
        rewrite Hstep.
        destruct (IH (S k) w0) as (IF & IO & IP & (bs' & IB & IR) & ID & IN).
        { intros j Hj. apply Hfut. lia. }
        cbv zeta in *.
        split; [done|]. split; [intros j Hj; apply IO; lia|].
        split.
        { intros j q Hj Hq. destruct (decide (j = k)) as [->|Hne]; [congruence|].
          apply IP; [lia|done]. }
        split; [|done].
        exists bs'. split; [done|].
        rewrite drop_ge by (apply lookup_ge_None; exact Hk). rewrite take_nil.
        rewrite drop_ge in IR by (apply lookup_ge_None in Hk; lia).
        by rewrite take_nil in IR. }
  destruct (Hgen (length (World.players w)) 0%nat w) as (HF & _ & HP & HB & HD & HN);
    [done|].
  cbv zeta in *. rewrite drop_0, firstn_all in HB.
  split; [done|]. split; [|done].
  intros i p Hi. destruct (HP i p) as (p' & Hp' & Hdead & HL).
  { apply lookup_lt_Some in Hi. lia. }
  { done. }
  exists p'. split; [done|]. split; [done|]. split; [done|].
  unfold firesAt. intros Hf. apply andb_prop in Hf as [_ Hf].
  apply Z.ltb_lt in Hf. unfold fireCooldownOf in Hf. lia.
Qed.

End PlayerStep.

Lemma lookup_map_eq {A B : Type} (g : A -> B) (l l' : list A) (i : nat) (x' : A) :
  map g l' = map g l -> l' !! i = Some x' ->
  exists x, l !! i = Some x /\ g x' = g x.
Proof.
  intros Hm Hi.
  assert (H : map g l' !! i = map g l !! i) by (by rewrite Hm).
  change (map g) with (fmap (M := list) g) in H.
  rewrite !list_lookup_fmap, Hi in H.
  destruct (l !! i) as [x|]; [|done]. exists x. split; [done|]. cbn in H. congruence.
Qed.

Lemma Forall_map_eq {A B : Type} (g : A -> B) (P : A -> Prop) (l l' : list A) :
  map g l' = map g l -> (forall x x', g x' = g x -> P x -> P x') ->
  Forall P l -> Forall P l'.
Proof.
  intros Hm HP Hall. apply Forall_lookup. intros i x' Hi.
  destruct (lookup_map_eq g l l' i x' Hm Hi) as (x & Hx & Hg).
  rewrite Forall_lookup in Hall. by eapply HP, Hall.
Qed.

(** ** The neutrals' step *)

Section NeutralStep.
Variable Math_sqrt Math_cos Math_sin : Q -> Q.
Variable Math_atan2 : Q -> Q -> Q.
Variable Math_PI : Q.

Lemma moveCargo_vitals (dt : Q) (islands : list Island.t) (rnd : nat -> Q) (k : nat)
    (n : NeutralObject.t) :
  neutralVitals (fst (moveCargo Math_sqrt Math_cos Math_sin Math_PI dt islands rnd k n))
  = neutralVitals n
  /\ (NeutralObject.type n <> cargo ->
      fst (moveCargo Math_sqrt Math_cos Math_sin Math_PI dt islands rnd k n) = n).
Proof.
  unfold moveCargo.
  destruct (NeutralObject.type n) eqn:Hty; try (split; [reflexivity|done]).
  destruct (NeutralObject.rotation n) as [rotation|]; [|split; [reflexivity|done]].
  destruct (NeutralObject.velocityX n) as [vx|]; [|split; [reflexivity|done]].
  destruct (NeutralObject.velocityY n) as [vy|]; [|split; [reflexivity|done]].
  cbv zeta. split; [|done].
  destruct (_ || _); destruct (_ || _);
    match goal with |- context [foldl ?f ?a islands] => destruct (foldl f a islands)
      as [[[[[x y] r] vx'] vy'] k'] end;
    unfold neutralVitals; cbn; by rewrite ?Hty.
Qed.

(** What a turret may change. *)
Lemma turretFire_effect (now : Z) (w : World.t) (c : nat) :
  let w' := turretFire Math_sqrt Math_cos Math_sin Math_atan2 now w c in
  World.players w' = World.players w
  /\ map neutralVitals (World.neutrals w') = map neutralVitals (World.neutrals w)
  /\ (forall n, World.neutrals w !! c = Some n -> NeutralObject.type n = buoy ->
        World.neutrals w' = World.neutrals w)
  /\ (World.bullets w' = World.bullets w
      \/ exists n b target,
           World.neutrals w !! c = Some n
           /\ (NeutralObject.type n = lighthouse \/ NeutralObject.type n = tank)
           /\ World.bullets w' = World.bullets w ++ [b]
           /\ Bullet.ownerId b = NeutralObject.id n
           /\ Bullet.damage b
              = (if NeutralType_eqb (NeutralObject.type n) lighthouse
                 then LIGHTHOUSE_DAMAGE else TANK_DAMAGE)
           /\ Bullet.lifetime b = (3000 # 1)%Q
           /\ Bullet.ignoreTerrain b = NeutralType_eqb (NeutralObject.type n) tank
           /\ nearestTarget Math_sqrt now n
                (if NeutralType_eqb (NeutralObject.type n) lighthouse
                 then LIGHTHOUSE_RANGE else TANK_RANGE) w = Some target)
  /\ World.islands w' = World.islands w
  /\ World.drones w' = World.drones w
  /\ World.emitted w' = World.emitted w
  /\ World.storage w' = World.storage w.
Proof.
  intros w'. subst w'. unfold turretFire.
  destruct (World.neutrals w !! c) as [n|] eqn:Hn.
  2: { repeat split; try done. by left. }
  destruct (NeutralType_eqb (NeutralObject.type n) lighthouse
            || NeutralType_eqb (NeutralObject.type n) tank) eqn:Hty.
  2: { repeat split; try done. by left. }
  assert (Htype : NeutralObject.type n = lighthouse \/ NeutralObject.type n = tank).
  { destruct (NeutralObject.type n); try discriminate; tauto. }
  destruct (match NeutralObject.lastFireTime n with
            | Some t => _ | None => true end).
  2: { repeat split; try done. by left. }
  destruct (nearestTarget _ _ _ _ _) as [target|] eqn:Ht.
  2: { repeat split; try done. by left. }
  apply nearestTarget_Some in Ht as Hp. destruct Hp as (tp & Htp & _).
  cbv zeta.
  set (w1 := if NeutralType_eqb (NeutralObject.type n) tank then _ else w).
  assert (H1 : World.players w1 = World.players w
               /\ map neutralVitals (World.neutrals w1) = map neutralVitals (World.neutrals w)
               /\ World.bullets w1 = World.bullets w
               /\ World.bulletIdCounter w1 = World.bulletIdCounter w
               /\ World.islands w1 = World.islands w
               /\ World.drones w1 = World.drones w
               /\ World.emitted w1 = World.emitted w
               /\ World.storage w1 = World.storage w).
  { unfold w1. destruct (NeutralType_eqb _ tank); [|done]. rewrite Htp.
    split; [done|]. split; [|done].
    cbn [modNeutral World.neutrals World.set_neutrals]. by apply map_alter_kept. }
  clearbody w1. destruct H1 as (P1 & N1 & B1 & C1 & I1 & D1 & E1 & S1).
  unfold spawnNeutralBullet. rewrite P1, Htp.
  cbn [modNeutral World.players World.neutrals World.bullets World.islands World.drones
       World.emitted World.storage World.set_neutrals World.set_bulletIdCounter
       World.set_bullets].
  split; [done|]. split; [by rewrite map_alter_kept|].
  split.
  { intros n0 [= <-] Hb. destruct Htype; congruence. }
  split; [|done].
  right. eexists n, _, target. split; [done|]. split; [done|].
  split; [by rewrite B1|]. done.
Qed.

(** The loop body of [updateNeutrals], in a world [w0] whose neutrals are
    those of [w] up to position, heading, velocity and fire time. *)
Lemma updateNeutral_effect (dt : Q) (now : Z) (rnd : nat -> Q) (w w0 : World.t)
    (k c : nat) :
  map neutralVitals (World.neutrals w0) = map neutralVitals (World.neutrals w) ->
  let st1 := updateNeutral Math_sqrt Math_cos Math_sin Math_atan2 Math_PI dt now rnd
                           (w0, k) c in
  map neutralVitals (World.neutrals (fst st1)) = map neutralVitals (World.neutrals w)
  /\ (exists bs,
        World.bullets (fst st1) = World.bullets w0 ++ bs
        /\ (length bs <= 1)%nat
        /\ Forall (fun b =>
                     exists n, n ∈ World.neutrals w
                       /\ (NeutralObject.type n = lighthouse \/ NeutralObject.type n = tank)
                       /\ Bullet.ownerId b = NeutralObject.id n
                       /\ Bullet.damage b
                          = (if NeutralType_eqb (NeutralObject.type n) lighthouse
                             then LIGHTHOUSE_DAMAGE else TANK_DAMAGE)
                       /\ Bullet.lifetime b = (3000 # 1)%Q
                       /\ Bullet.ignoreTerrain b
                          = NeutralType_eqb (NeutralObject.type n) tank) bs)
  /\ World.players (fst st1) = World.players w0
  /\ World.islands (fst st1) = World.islands w0
  /\ World.drones (fst st1) = World.drones w0
  /\ World.emitted (fst st1) = World.emitted w0
  /\ World.storage (fst st1) = World.storage w0.
Proof.
  intros Hv. cbv zeta. unfold updateNeutral.
  destruct (World.neutrals w0 !! c) as [n|] eqn:Hn.
  2: { cbn [fst]. split; [done|]. split; [|done].
       exists []. rewrite app_nil_r. split; [done|]. split; [cbn; lia|constructor]. }
  pose proof (moveCargo_vitals dt (World.islands w0) rnd k n) as [Hvit _].
  destruct (moveCargo _ _ _ _ _ _ _ _ n) as [n' k']. cbn [fst] in *.
  set (w1 := modNeutral c (fun _ => n') w0).
  assert (Hv1 : map neutralVitals (World.neutrals w1)
                = map neutralVitals (World.neutrals w)).
  { rewrite <- Hv. unfold w1. cbn [modNeutral World.neutrals World.set_neutrals].
    apply map_alter_kept. intros x Hx. assert (x = n) by congruence. by subst x. }
  assert (Hc1 : World.neutrals w1 !! c = Some n').
  { unfold w1. cbn [modNeutral World.neutrals World.set_neutrals].
    by rewrite list_lookup_alter_eq, Hn. }
  destruct (turretFire_effect now w1 c) as (TP & TN & _ & TB & TI & TD & TE & TS).
  cbv zeta in *.
  split; [by rewrite TN|]. split; [|by rewrite TP, TI, TD, TE, TS].
  destruct TB as [TB|(n1 & b & target & Hn1 & Hty & TB & Ho & Hd & Hl & Hig & _)].
  - exists []. rewrite app_nil_r. split; [done|]. split; [cbn; lia|constructor].
  - exists [b]. split; [done|]. split; [cbn; lia|]. constructor; [|constructor].
    assert (n1 = n') by congruence. subst n1.
    destruct (lookup_map_eq neutralVitals (World.neutrals w) (World.neutrals w1) c n'
                Hv1 Hc1) as (n0 & Hn0 & Hv0).
    assert (Hid : NeutralObject.id n' = NeutralObject.id n0
                  /\ NeutralObject.type n' = NeutralObject.type n0).
    { apply (f_equal (fun x => (NeutralObject.id x, NeutralObject.type x))) in Hv0.
      cbn in Hv0. by injection Hv0. }
    destruct Hid as [Hid Hty0].
    exists n0. split; [by eapply list_elem_of_lookup_2|].
    rewrite <- Hid, <- Hty0. done.
Qed.

(** X24. One [updateNeutrals] step.  No neutral is added, removed or
    reordered, and none changes id, type, health, maximum health or xp
    value: cargo vessels move and turn, turrets turn and record their fire
    time.  The bullets appended come from lighthouses and tanks that have a
    target, at most one per turret, owned by the turret, with damage 15 for
    a lighthouse and 20 for a tank and lifetime 3000; only a tank's bullet
    ignores terrain.  Players, islands, drones, notifications and the
    storage are unchanged. *)
Theorem updateNeutrals_effect (dt : Q) (now : Z) (rnd : nat -> Q) (w : World.t) :
  let w' := updateNeutrals Math_sqrt Math_cos Math_sin Math_atan2 Math_PI dt now rnd w in
  map neutralVitals (World.neutrals w') = map neutralVitals (World.neutrals w)
  /\ (exists bs,
        World.bullets w' = World.bullets w ++ bs
        /\ (length bs <= length (World.neutrals w))%nat
        /\ Forall (fun b =>
                     exists n, n ∈ World.neutrals w
                       /\ (NeutralObject.type n = lighthouse \/ NeutralObject.type n = tank)
                       /\ Bullet.ownerId b = NeutralObject.id n
                       /\ Bullet.damage b
                          = (if NeutralType_eqb (NeutralObject.type n) lighthouse
                             then LIGHTHOUSE_DAMAGE else TANK_DAMAGE)
                       /\ Bullet.lifetime b = (3000 # 1)%Q
                       /\ Bullet.ignoreTerrain b
                          = NeutralType_eqb (NeutralObject.type n) tank) bs)
  /\ World.players w' = World.players w
  /\ World.islands w' = World.islands w
  /\ World.drones w' = World.drones w
  /\ World.emitted w' = World.emitted w
  /\ World.storage w' = World.storage w.
Proof.
  intros w'. subst w'. unfold updateNeutrals.
  set (good := fun (b : Bullet.t) =>
                 exists n, n ∈ World.neutrals w
                   /\ (NeutralObject.type n = lighthouse \/ NeutralObject.type n = tank)
                   /\ Bullet.ownerId b = NeutralObject.id n
                   /\ Bullet.damage b
                      = (if NeutralType_eqb (NeutralObject.type n) lighthouse
                         then LIGHTHOUSE_DAMAGE else TANK_DAMAGE)
                   /\ Bullet.lifetime b = (3000 # 1)%Q
                   /\ Bullet.ignoreTerrain b = NeutralType_eqb (NeutralObject.type n) tank).
  assert (Hgen : forall l st,
    map neutralVitals (World.neutrals (fst st)) = map neutralVitals (World.neutrals w) ->
    let st' := foldl (updateNeutral Math_sqrt Math_cos Math_sin Math_atan2 Math_PI dt now rnd)
                     st l in
    map neutralVitals (World.neutrals (fst st')) = map neutralVitals (World.neutrals w)
    /\ (exists bs, World.bullets (fst st') = World.bullets (fst st) ++ bs
                   /\ (length bs <= length l)%nat /\ Forall good bs)
    /\ World.players (fst st') = World.players (fst st)
    /\ World.islands (fst st') = World.islands (fst st)
    /\ World.drones (fst st') = World.drones (fst st)
    /\ World.emitted (fst st') = World.emitted (fst st)
    /\ World.storage (fst st') = World.storage (fst st)).
  { induction l as [|c l IH]; intros [w0 k] Hv st'.
    - subst st'. cbn. split; [done|]. split; [|done].
      exists []. rewrite app_nil_r. split; [done|]. split; [cbn; lia|constructor].
    - subst st'. cbn [foldl]. cbn [fst] in Hv.
      pose proof (updateNeutral_effect dt now rnd w w0 k c Hv) as Hstep.
      cbv zeta in Hstep. fold good in Hstep.
      destruct (updateNeutral _ _ _ _ _ _ _ _ (w0, k) c) as [w1 k1]. cbn [fst] in Hstep.
      destruct Hstep as (Hv1 & (bs & HB & Hlen & Hgood) & HP & HI & HD & HE & HS).
      destruct (IH (w1, k1) Hv1) as (IV & (bs' & IB & Ilen & Igood) & IP & II & ID & IE & IS).
      cbv zeta in *. cbn [fst] in *.
      split; [done|]. split; [|by rewrite IP, II, ID, IE, IS].
      exists (bs ++ bs'). split; [by rewrite IB, HB, app_assoc|].
      split; [rewrite length_app; cbn; lia|]. by apply Forall_app. }
  destruct (Hgen (seq 0 (length (World.neutrals w))) (w, 0%nat) eq_refl)
    as (HV & (bs & HB & Hlen & Hgood) & Hrest).
  cbv zeta in *. cbn [fst] in *. split; [done|]. split; [|done].
  exists bs. split; [done|]. split; [by rewrite length_seq in Hlen|done].
Qed.

End NeutralStep.

(** ** The invariant through collision resolution *)

Lemma shipshape_capped (p : Player.t) : shipshape p -> capped p.
Proof.
  intros (Hh & Hm & Hs). split; [done|]. rewrite Hm.
  specialize (Hs healthBonus). cbn in Hs.
  destruct (Ship.shipClass (Player.ship p)); cbn; lia.
Qed.

Lemma statsIn_frame (w w' : World.t) :
  collisionFrame w' = collisionFrame w ->
  Forall statsIn (World.players w) -> Forall statsIn (World.players w').
Proof.
  intros HF. apply (Forall_map_eq playerFrame).
  - unfold collisionFrame in HF. congruence.
  - intros x x' Hf Hx stat.
    replace (Ship.stats (Player.ship x')) with (Ship.stats (Player.ship x)); [apply Hx|].
    apply (f_equal (fun p => Ship.stats (Player.ship p))) in Hf. by cbn in Hf.
Qed.

(** Ships in order stay in order under a change that keeps the frame of
    collision resolution and the upper health bound. *)
Lemma shipshape_frame (l l' : list Player.t) :
  map playerFrame l' = map playerFrame l -> Forall capped l' ->
  Forall shipshape l -> Forall shipshape l'.
Proof.
  intros Hm Hc Hall. apply Forall_lookup. intros i x' Hi.
  destruct (lookup_map_eq playerFrame l l' i x' Hm Hi) as (x & Hx & Hf).
  rewrite Forall_lookup in Hall, Hc.
  destruct (Hall i x Hx) as (_ & Hmax & Hs). destruct (Hc i x' Hi) as [Hh _].
  apply (f_equal (fun p => (Ship.maxHealth (Player.ship p), Ship.shipClass (Player.ship p),
                            Ship.stats (Player.ship p)))) in Hf.
  cbn in Hf. injection Hf as E1 E2 E3.
  split; [done|]. rewrite E1, E2, E3. done.
Qed.

Lemma shipshape_motion (l l' : list Player.t) :
  map motionFrame l' = map motionFrame l -> Forall shipshape l -> Forall shipshape l'.
Proof.
  intros Hm. apply (Forall_map_eq motionFrame _ _ _ Hm).
  intros x x' Hf (Hh & Hmax & Hs).
  apply (f_equal (fun p => (Ship.health (Player.ship p), Ship.maxHealth (Player.ship p),
                            Ship.shipClass (Player.ship p), Ship.stats (Player.ship p))))
    in Hf.
  cbn in Hf. injection Hf as E0 E1 E2 E3.
  unfold shipshape. cbv zeta. rewrite E0, E1, E2, E3. done.
Qed.

Section Provisions.
Variable Math_sqrt : Q -> Q.
Variable toISOString : Z -> string.
Variable now : Z.

Lemma provisioned_step (w w' : World.t) :
  collisionFrame w' = collisionFrame w -> World.storage w' = World.storage w ->
  provisioned w -> provisioned w'.
Proof.
  intros HF HS [Hp Hs]. split; [by eapply statsIn_frame|by rewrite HS].
Qed.

Lemma provisioned_savePlayerState i w : provisioned w -> provisioned (savePlayerState i w).
Proof.
  intros [Hp Hs]. split; [by rewrite players_savePlayerState|].
  unfold savePlayerState. destruct (World.players w !! i) as [player|] eqn:Hi; [|done].
  destruct (negb _); [done|].
  intros state [= <-]. cbn [SaveState.stats].
  rewrite Forall_lookup in Hp. by apply (Hp i player).
Qed.

Lemma provisioned_awardXP k amount w : provisioned w -> provisioned (awardXP k amount w).
Proof.
  intros HP. unfold awardXP.
  destruct (World.players w !! k) as [player|] eqn:Hk; [|done]. cbv zeta.
  apply provisioned_savePlayerState.
  apply (provisioned_step w); [| |done].
  - rewrite frame_sendStats. destruct (_ && _).
    + rewrite frame_emit. apply frame_modPlayer_at. intros p Hp.
      assert (p = player) by congruence. subst p. reflexivity.
    + apply frame_modPlayer_at. intros p Hp.
      assert (p = player) by congruence. subst p. reflexivity.
  - rewrite storage_sendStats. by destruct (_ && _).
Qed.

Lemma provisioned_handlePlayerDeath v killerId weaponType w :
  provisioned w ->
  provisioned (handlePlayerDeath toISOString v killerId weaponType now w).
Proof.
  intros HP. unfold handlePlayerDeath.
  destruct (World.players w !! v) as [player|]; [|done].
  destruct (Player.isDead player); [done|].
  set (w0 := if String.eqb _ _ then _ else w).
  assert (H0 : provisioned w0).
  { unfold w0. destruct (String.eqb _ _); [|done].
    destruct HP as [Hp Hs]. split; [done|]. intros state Hstate. discriminate. }
  clearbody w0.
  set (w1 := modPlayer v _ w0).
  assert (H1 : provisioned w1).
  { apply (provisioned_step w0); [by apply frame_modPlayer|done|done]. }
  clearbody w1.
  destruct (players_get killerId w1) as [[k killer]|].
  - cbv beta iota zeta.
    match goal with |- provisioned (emit _ (emit _ (emit _ ?w4))) =>
      apply (provisioned_step w4); [by rewrite !frame_emit|done|] end.
    apply provisioned_awardXP.
    match goal with |- provisioned (modPlayer k ?f2 (modPlayer k ?f1 w1)) =>
      apply (provisioned_step w1); [by rewrite !frame_modPlayer|done|done] end.
  - destruct (List.find _ _);
      match goal with |- provisioned (emit _ (emit _ (emit _ ?w4))) =>
        apply (provisioned_step w4); [by rewrite !frame_emit|done|done] end.
Qed.

Lemma provisioned_bulletShipCandidates bullet candidates st :
  provisioned (Pass.world st) ->
  provisioned (Pass.world (bulletShipCandidates toISOString now bullet candidates st)).
Proof.
  revert st. induction candidates as [|c rest IH]; intros st HP; [done|].
  cbn [bulletShipCandidates]. cbv zeta.
  destruct (World.players (Pass.world st) !! c) as [player|]; [|by apply IH].
  destruct (String.eqb _ _); [by apply IH|].
  destruct (Player.isDead player); [by apply IH|].
  destruct (Ship.isStealthed _); [by apply IH|].
  destruct (now <? Player.spawnProtectionUntil player); [by apply IH|].
  destruct (JS.ltb _ _); [|by apply IH].
  destruct (Ship.isShielded _).
  - apply IH. cbn [Pass.world]. by apply (provisioned_step (Pass.world st)).
  - cbn [Pass.world].
    match goal with |- context [emit ?e (modPlayer c ?f (Pass.world st))] =>
      assert (H1 : provisioned (emit e (modPlayer c f (Pass.world st))))
        by (apply (provisioned_step (Pass.world st));
            [rewrite frame_emit; by apply frame_modPlayer|done|done])
    end.
    destruct (_ <=? 0); [by apply provisioned_handlePlayerDeath|done].
Qed.

Lemma provisioned_checkBulletShipCollisions shipGrid st :
  provisioned (Pass.world st) ->
  provisioned (Pass.world (checkBulletShipCollisions toISOString now shipGrid st)).
Proof.
  unfold checkBulletShipCollisions. cbv zeta.
  generalize (World.bullets (Pass.world st)). intros bs. revert st.
  induction bs as [|b bs IH]; intros st HP; [done|].
  cbn [foldl]. apply IH. destruct (bool_decide _); [done|].
  by apply provisioned_bulletShipCandidates.
Qed.

Lemma provisioned_bulletNeutralCandidates bullet candidates st :
  provisioned (Pass.world st) ->
  provisioned (Pass.world (bulletNeutralCandidates bullet candidates st)).
Proof.
  revert st. induction candidates as [|c rest IH]; intros st HP; [done|].
  cbn [bulletNeutralCandidates]. cbv zeta.
  destruct (World.neutrals (Pass.world st) !! c) as [neutral|]; [|by apply IH].
  destruct (String.eqb _ _); [by apply IH|].
  destruct (negb _); [by apply IH|].
  destruct (JS.ltb _ _); [|by apply IH].
  unfold bulletHitsNeutral. cbv zeta.
  match goal with |- context [modNeutral c ?f (Pass.world st)] =>
    assert (H1 : provisioned (modNeutral c f (Pass.world st)))
      by (apply (provisioned_step (Pass.world st)); [by apply frame_modNeutral|done|done])
  end.
  destruct (_ <=? 0); [|done].
  destruct (players_get _ _) as [[shooter ?]|]; [|done].
  cbn [Pass.world].
  match goal with |- provisioned (emit _ ?w2) =>
    apply (provisioned_step w2); [by rewrite frame_emit|done|] end.
  by apply provisioned_awardXP.
Qed.

Lemma provisioned_checkBulletNeutralCollisions neutralGrid st :
  provisioned (Pass.world st) ->
  provisioned (Pass.world (checkBulletNeutralCollisions neutralGrid st)).
Proof.
  unfold checkBulletNeutralCollisions. cbv zeta.
  generalize (World.bullets (Pass.world st)). intros bs. revert st.
  induction bs as [|b bs IH]; intros st HP; [done|].
  cbn [foldl]. apply IH. destruct (bool_decide _); [done|].
  by apply provisioned_bulletNeutralCandidates.
Qed.

Lemma provisioned_shipShipPair playerIndex i p1 w p2 :
  provisioned w ->
  provisioned (shipShipPair Math_sqrt toISOString now playerIndex i p1 w p2).
Proof.
  intros HP. unfold shipShipPair.
  destruct (World.players w !! p1) as [player1|]; [|done].
  destruct (World.players w !! p2) as [player2|]; [|done].
  destruct (playerIndex !! _) as [j|]; [|done].
  destruct (j <=? i)%nat; [done|]. cbv zeta.
  destruct (_ && _); [|done].
  match goal with |- context [modPlayer p2 ?f6 (modPlayer p1 ?f5 (modPlayer p2 ?f4
      (modPlayer p2 ?f3 (modPlayer p1 ?f2 (modPlayer p1 ?f1 w)))))] =>
    set (w6 := modPlayer p2 f6 (modPlayer p1 f5 (modPlayer p2 f4
      (modPlayer p2 f3 (modPlayer p1 f2 (modPlayer p1 f1 w))))));
    assert (H6 : provisioned w6)
      by (apply (provisioned_step w);
          [unfold w6; rewrite !frame_modPlayer; reflexivity|done|done])
  end.
  clearbody w6.
  set (w7 := match World.players w6 !! p1 with Some _ => _ | None => w6 end).
  assert (H7 : provisioned w7).
  { unfold w7. destruct (World.players w6 !! p1) as [q1|]; [|done].
    destruct (_ && _); [by apply provisioned_handlePlayerDeath|done]. }
  clearbody w7.
  destruct (World.players w7 !! p2) as [q2|]; [|done].
  destruct (_ && _); [by apply provisioned_handlePlayerDeath|done].
Qed.

Lemma provisioned_checkShipShipCollisions livingPlayers shipGrid w :
  provisioned w ->
  provisioned (checkShipShipCollisions Math_sqrt toISOString now livingPlayers shipGrid w).
Proof.
  unfold checkShipShipCollisions. cbv zeta.
  apply (world_foldl_kept provisioned).
  intros a [i p1] Ha. destruct (World.players a !! p1) as [player1|]; [|done].
  revert Ha. apply (world_foldl_kept provisioned).
  intros a' p2. apply provisioned_shipShipPair.
Qed.

Lemma provisioned_droneShip d w c :
  provisioned w -> provisioned (droneShip Math_sqrt toISOString now d w c).
Proof.
  intros HP. unfold droneShip.
  destruct (World.drones w !! d) as [drone|]; [|done].
  destruct (World.players w !! c) as [player|]; [|done]. cbv zeta.
  destruct (_ || _); [done|].
  destruct (Ship.isStealthed _); [done|].
  destruct (now <? _); [done|].
  destruct (_ && _); [|done].
  match goal with |- provisioned (modDrone d ?f ?w1) =>
    apply (provisioned_step w1); [by apply frame_modDrone|done|] end.
  destruct (negb _); [|done].
  match goal with |- context [emit ?e (modPlayer c ?f w)] =>
    assert (H1 : provisioned (emit e (modPlayer c f w)))
      by (apply (provisioned_step w);
          [rewrite frame_emit; by apply frame_modPlayer|done|done])
  end.
  destruct (_ <=? 0); [by apply provisioned_handlePlayerDeath|done].
Qed.

Lemma provisioned_droneNeutral d owner st c :
  provisioned (Pass.world st) -> provisioned (Pass.world (droneNeutral d owner st c)).
Proof.
  intros HP. unfold droneNeutral. cbv zeta.
  destruct (World.drones (Pass.world st) !! d) as [drone|]; [|done].
  destruct (World.neutrals (Pass.world st) !! c) as [neutral|]; [|done].
  destruct (bool_decide _); [done|].
  destruct (JS.ltb _ _); [|done].
  match goal with |- context [modNeutral c ?f (Pass.world st)] =>
    assert (H1 : provisioned (modNeutral c f (Pass.world st)))
      by (apply (provisioned_step (Pass.world st)); [by apply frame_modNeutral|done|done])
  end.
  destruct (_ <=? 0); cbn [Pass.world]; [|done].
  match goal with |- provisioned (emit _ ?w2) =>
    apply (provisioned_step w2); [by rewrite frame_emit|done|] end.
  by apply provisioned_awardXP.
Qed.

Lemma provisioned_checkDroneCollisions shipGrid neutralGrid st :
  provisioned (Pass.world st) ->
  provisioned (Pass.world (checkDroneCollisions Math_sqrt toISOString now shipGrid
                             neutralGrid st)).
Proof.
  unfold checkDroneCollisions.
  generalize (seq 0 (length (World.drones (Pass.world st)))). intros ds. revert st.
  induction ds as [|d ds IH]; intros st HP; [done|].
  cbn [foldl]. apply IH. unfold droneCollisions. cbv zeta.
  destruct (World.drones (Pass.world st) !! d) as [drone|]; [|done].
  destruct (players_get _ _) as [[owner ?]|]; [|done].
  match goal with |- context [foldl (droneShip _ _ _ d) ?w ?l] =>
    set (w1 := foldl (droneShip Math_sqrt toISOString now d) w l);
    assert (H1 : provisioned w1)
      by (apply (world_foldl_kept provisioned); [intros; by apply provisioned_droneShip|done])
  end.
  clearbody w1. destruct (World.drones w1 !! d) as [drone1|]; [|done].
  match goal with |- context [foldl (droneNeutral d owner) ?st1 ?l] =>
    generalize l; intros cs;
    assert (Hst : provisioned (Pass.world st1)) by done;
    revert Hst; generalize st1
  end.
  induction cs as [|c cs IHc]; intros st1 Hst; [done|].
  cbn [foldl]. apply IHc. by apply provisioned_droneNeutral.
Qed.

Lemma provisioned_checkCollisions w :
  provisioned w -> provisioned (checkCollisions Math_sqrt toISOString now w).
Proof.
  intros HP. unfold checkCollisions. cbv zeta.
  set (st1 := checkBulletShipCollisions _ _ _ _).
  assert (H1 : provisioned (Pass.world st1))
    by (by apply provisioned_checkBulletShipCollisions).
  clearbody st1.
  set (st2 := checkBulletNeutralCollisions _ st1).
  assert (H2 : provisioned (Pass.world st2))
    by (by apply provisioned_checkBulletNeutralCollisions).
  clearbody st2.
  set (w3 := checkShipShipCollisions _ _ _ _ _ _).
  assert (H3 : provisioned w3) by (by apply provisioned_checkShipShipCollisions).
  clearbody w3.
  set (st4 := checkDroneCollisions _ _ _ _ _ _).
  assert (H4 : provisioned (Pass.world st4))
    by (by apply provisioned_checkDroneCollisions).
  clearbody st4.
  destruct (bool_decide (Pass.bulletsToRemove st4 = ∅));
    destruct (bool_decide (Pass.neutralsToRemove st4 = ∅)); exact H4.
Qed.

End Provisions.

(** ** The invariant of the server *)

Lemma shipshape_statsIn (l : list Player.t) : Forall shipshape l -> Forall statsIn l.
Proof. intros H. eapply Forall_impl; [exact H|]. by intros p (_ & _ & ?). Qed.

Lemma shipshape_capped_all (l : list Player.t) : Forall shipshape l -> Forall capped l.
Proof. intros H. eapply Forall_impl; [exact H|]. apply shipshape_capped. Qed.

Lemma seaworthy_provisioned (w : World.t) : seaworthy w -> provisioned w.
Proof. intros (Hp & _ & _ & Hs). split; [by apply shipshape_statsIn|done]. Qed.

(** [Math.round] of a share of [m1] is at most [m1]. *)
Lemma round_ratio_le (h m0 m1 : Z) :
  h <= m0 -> 0 < m0 -> 0 <= m1 ->
  JS.round (inject_Z h / inject_Z m0 * inject_Z m1) <= m1.
Proof.
  intros Hh Hm0 Hm1. unfold JS.round.
  assert (Hr : (inject_Z h / inject_Z m0 <= 1)%Q).
  { apply Qle_shift_div_r.
    - change 0%Q with (inject_Z 0). rewrite <- Zlt_Qlt. exact Hm0.
    - rewrite Qmult_1_l. rewrite <- Zle_Qle. exact Hh. }
  assert (Hx : (inject_Z h / inject_Z m0 * inject_Z m1 <= inject_Z m1)%Q).
  { rewrite <- (Qmult_1_l (inject_Z m1)) at 2. apply Qmult_le_compat_r; [exact Hr|].
    change 0%Q with (inject_Z 0). rewrite <- Zle_Qle. exact Hm1. }
  destruct (Z_le_gt_dec (Qfloor (inject_Z h / inject_Z m0 * inject_Z m1 + (1 # 2))) m1)
    as [Hle|Hgt]; [exact Hle|exfalso].
  pose proof (Qfloor_le (inject_Z h / inject_Z m0 * inject_Z m1 + (1 # 2))) as Hf.
  assert (Hz : (inject_Z (m1 + 1)
                <= inject_Z (Qfloor (inject_Z h / inject_Z m0 * inject_Z m1 + (1 # 2))))%Q).
  { rewrite <- Zle_Qle. lia. }
  rewrite inject_Z_plus in Hz. change (inject_Z 1) with 1%Q in Hz.
  revert Hx Hf Hz.
  generalize (inject_Z (Qfloor (inject_Z h / inject_Z m0 * inject_Z m1 + (1 # 2)))).
  generalize (inject_Z h / inject_Z m0 * inject_Z m1)%Q. generalize (inject_Z m1).
  intros a b c Hx Hf Hz. lra.
Qed.

Section Invariant.
Variable Math_sqrt Math_cos Math_sin : Q -> Q.
Variable Math_atan2 : Q -> Q -> Q.
Variable toISOString : Z -> string.
Variable Math_PI : Q.

Lemma seaworthy_spawnNeutral (rnd : nat -> Q) (w : World.t) :
  seaworthy w -> seaworthy (spawnNeutral Math_sqrt Math_cos Math_sin Math_PI rnd w).
Proof.
  intros (Hp & Hn & Hb & Hs). unfold spawnNeutral.
  destruct (_ <=? _)%nat; [done|]. cbv zeta.
  destruct (spawnPosition _ _ _ _ _) as [[[x y] k]|]; [|done].
  split; [done|]. split; [|done].
  cbn [World.neutrals World.set_neutralIdCounter World.set_neutrals].
  apply Forall_app. split; [done|]. constructor; [|constructor].
  unfold afloat. cbn [NeutralObject.health NeutralObject.maxHealth].
  destruct (JS.ltb (rnd 0%nat) (6 # 10)); [lia|].
  destruct (JS.ltb (rnd 0%nat) (9 # 10)); lia.
Qed.

Lemma seaworthy_updatePlayers (dt : Q) (now : Z) (w : World.t) :
  seaworthy w -> seaworthy (updatePlayers Math_sqrt Math_cos Math_sin dt now w).
Proof.
  unfold updatePlayers. apply (world_foldl_kept seaworthy).
  clear w. intros w i (Hp & Hn & Hb & Hs).
  destruct (World.players w !! i) as [p|] eqn:Hi.
  2: { unfold updatePlayer. by rewrite Hi. }
  destruct (updatePlayer_effect Math_sqrt Math_cos Math_sin dt now w i p Hi)
    as (p' & bs & ds & HP & HF & _ & _ & HB & Hbs & _ & HN & _ & _ & HS).
  cbv zeta in *.
  assert (Hpp : shipshape p) by (rewrite Forall_lookup in Hp; by eapply Hp).
  split; [|split; [by rewrite HN|split; [|by rewrite HS]]].
  - rewrite HP. apply Forall_insert; [done|].
    assert (Hl : Forall shipshape [p']).
    { apply (shipshape_motion [p]); [cbn; by rewrite HF|by constructor]. }
    by inversion Hl.
  - rewrite HB. apply Forall_app. split; [done|].
    destruct (firesAt now p).
    + destruct Hbs as (b & -> & _ & Hd & _). constructor; [|constructor].
      rewrite Hd. destruct Hpp as (_ & _ & Hst). specialize (Hst damageBonus).
      cbn in Hst. destruct (Ship.shipClass (Player.ship p)); cbn; lia.
    + subst bs. constructor.
Qed.

Lemma afloat_vitals (l l' : list NeutralObject.t) :
  map neutralVitals l' = map neutralVitals l -> Forall afloat l -> Forall afloat l'.
Proof.
  intros Hm. apply (Forall_map_eq neutralVitals _ _ _ Hm).
  intros x x' Hv Hx.
  apply (f_equal (fun n => (NeutralObject.health n, NeutralObject.maxHealth n))) in Hv.
  cbn in Hv. injection Hv as E1 E2. unfold afloat. by rewrite E1, E2.
Qed.

Lemma seaworthy_updateNeutrals (dt : Q) (now : Z) (rnd : nat -> Q) (w : World.t) :
  seaworthy w ->
  seaworthy (updateNeutrals Math_sqrt Math_cos Math_sin Math_atan2 Math_PI dt now rnd w).
Proof.
  unfold updateNeutrals. generalize (seq 0 (length (World.neutrals w))).
  generalize 0%nat. intros k l. revert w k.
  induction l as [|c l IH]; intros w k Hw; [exact Hw|].
  cbn [foldl].
  pose proof (updateNeutral_effect Math_sqrt Math_cos Math_sin Math_atan2 Math_PI
                dt now rnd w w k c eq_refl) as Hstep.
  cbv zeta in Hstep.
  destruct (updateNeutral _ _ _ _ _ _ _ _ (w, k) c) as [w1 k1]. cbn [fst] in Hstep.
  destruct Hstep as (HV & (bs & HB & _ & Hgood) & HP & _ & _ & _ & HS).
  apply IH. destruct Hw as (Hp & Hn & Hb & Hs).
  split; [by rewrite HP|]. split; [by apply (afloat_vitals (World.neutrals w))|].
  split; [|by rewrite HS].
  rewrite HB. apply Forall_app. split; [done|].
  eapply Forall_impl; [exact Hgood|].
  intros b (n & _ & _ & _ & -> & _).
  destruct (NeutralType_eqb _ _); [unfold LIGHTHOUSE_DAMAGE|unfold TANK_DAMAGE]; lia.
Qed.

Lemma seaworthy_damageNeutral (c : nat) (w : World.t) :
  seaworthy w -> seaworthy (damageNeutral c DRONE_DAMAGE "drone" w).
Proof.
  intros (Hp & Hn & Hb & Hs).
  destruct (damageNeutral_effect c DRONE_DAMAGE "drone" w)
    as (HB & _ & _ & _ & Haf & Hcap & Hpf & _ & Hst).
  cbv zeta in *.
  split; [|split; [|split]].
  - apply (shipshape_frame (World.players w)); [done| |done].
    apply Hcap. by apply shipshape_capped_all.
  - apply Haf; [unfold DRONE_DAMAGE; lia|done].
  - by rewrite HB.
  - rewrite Hst; [done|discriminate].
Qed.

Lemma seaworthy_updateDrones (dt : Q) (w : World.t) :
  seaworthy w -> seaworthy (updateDrones Math_sqrt Math_cos Math_sin Math_atan2 dt w).
Proof.
  intros Hw. unfold updateDrones.
  match goal with |- context [foldr ?f ([], w) _] => set (step := f) end.
  assert (Hgen : forall l, seaworthy (snd (foldr step ([], w) l))).
  { induction l as [|d l IH]; [done|]. cbn [foldr].
    destruct (foldr step ([], w) l) as [kept w1]. cbn [snd] in IH.
    change (step d (kept, w1))
      with (match updateDrone Math_sqrt Math_cos Math_sin Math_atan2 dt d w1 with
            | (Some d', w') => (d' :: kept, w')
            | (None, w') => (kept, w')
            end).
    pose proof (updateDrone_effect Math_sqrt Math_cos Math_sin Math_atan2 dt d w1)
      as [_ Hworld]. cbv zeta in Hworld.
    destruct (updateDrone Math_sqrt Math_cos Math_sin Math_atan2 dt d w1)
      as [[d1|] w2]; cbn [fst snd] in *;
      (destruct Hworld as [->|[c ->]]; [done|by apply seaworthy_damageNeutral]). }
  specialize (Hgen (World.drones w)).
  destruct (foldr step ([], w) (World.drones w)) as [kept w1]. cbn [snd] in Hgen.
  exact Hgen.
Qed.

Lemma seaworthy_updateBullets (dt : Q) (w : World.t) :
  seaworthy w -> seaworthy (updateBullets Math_sqrt dt w).
Proof.
  intros (Hp & Hn & Hb & Hs). split; [done|]. split; [done|]. split; [|done].
  apply Forall_forall. intros b' Hin.
  apply updateBullets_elem in Hin as (b & Hb0 & Hstep).
  apply bulletStep_Flies_inv in Hstep as (-> & _). cbn [Bullet.damage].
  rewrite Forall_forall in Hb. by apply Hb.
Qed.

Lemma filter_Forall {A : Type} (P : A -> Prop) (f : A -> bool) (l : list A) :
  Forall P l -> Forall P (List.filter f l).
Proof.
  intros H. induction H as [|a l Ha Hl IH]; cbn; [constructor|].
  destruct (f a); [by constructor|done].
Qed.

Lemma seaworthy_checkCollisions (now : Z) (w : World.t) :
  seaworthy w -> seaworthy (checkCollisions Math_sqrt toISOString now w).
Proof.
  intros Hw. pose proof (seaworthy_provisioned w Hw) as Hprov.
  apply (provisioned_checkCollisions Math_sqrt toISOString now) in Hprov as [_ Hsaved].
  revert Hsaved.
  destruct Hw as (Hp & Hn & Hb & Hs).
  destruct (checkCollisions_passes Math_sqrt toISOString now w) as (st & -> & HF & HB).
  destruct (HB (shipshape_capped_all _ Hp) Hn Hb) as [HP4 HN4].
  assert (Hpf : map playerFrame (World.players (Pass.world st))
                = map playerFrame (World.players w)).
  { unfold collisionFrame in HF. congruence. }
  assert (Hbs : World.bullets (Pass.world st) = World.bullets w).
  { unfold collisionFrame in HF. congruence. }
  assert (Hship : Forall shipshape (World.players (Pass.world st))).
  { by apply (shipshape_frame (World.players w)). }
  assert (Hout : forall keep : NeutralObject.t -> bool,
            (forall n, keep n = true -> NeutralObject.id n ∉ Pass.neutralsToRemove st) ->
            Forall afloat (List.filter keep (World.neutrals (Pass.world st)))).
  { intros keep Hkeep. apply Forall_forall. intros n Hin.
    apply list_elem_of_In, filter_In in Hin as [Hin Hk].
    apply list_elem_of_In, list_elem_of_lookup in Hin as [c Hc].
    destruct (HN4 c n Hc) as [Hmax [Hpos|Hrem]]; [done|].
    by apply Hkeep in Hk. }
  assert (Hall : Pass.neutralsToRemove st = ∅ ->
                 Forall afloat (World.neutrals (Pass.world st))).
  { intros He. apply Forall_lookup. intros c n Hc.
    destruct (HN4 c n Hc) as [Hmax [Hpos|Hrem]]; [done|].
    rewrite He in Hrem. by apply not_elem_of_empty in Hrem. }
  cbv zeta.
  destruct (bool_decide (Pass.bulletsToRemove st = ∅));
    destruct (bool_decide (Pass.neutralsToRemove st = ∅)) eqn:Hne;
    cbn [World.players World.neutrals World.bullets World.storage
         World.set_bullets World.set_neutrals];
    intros Hsaved; (split; [exact Hship|split; [|split; [|exact Hsaved]]]).
  all: try (apply Hall; by apply bool_decide_eq_true in Hne).
  all: try (apply Hout; intros n Hk;
            apply negb_true_iff, bool_decide_eq_false in Hk; exact Hk).
  all: try (apply filter_Forall).
  all: try (rewrite Hbs; exact Hb).
  destruct (Pass.world st); cbn in *. by rewrite Hbs.
Qed.

Lemma seaworthy_tick (now : Z) (rnd rnd' : nat -> Q) (w : World.t) :
  seaworthy w ->
  seaworthy (tick Math_sqrt Math_cos Math_sin Math_atan2 toISOString Math_PI
                  now rnd rnd' w).
Proof.
  intros Hw. unfold tick. cbv zeta.
  match goal with |- seaworthy (broadcastGameState _ ?w5) =>
    assert (H5 : seaworthy w5); [|exact H5] end.
  apply seaworthy_checkCollisions, seaworthy_updateBullets, seaworthy_updateDrones,
    seaworthy_updateNeutrals, seaworthy_updatePlayers.
  destruct (_ <? _); [|done].
  apply (seaworthy_spawnNeutral rnd) in Hw. exact Hw.
Qed.

End Invariant.

Lemma seaworthy_emit (e : Ev.t) (w : World.t) : seaworthy w -> seaworthy (emit e w).
Proof. done. Qed.

Lemma seaworthy_sendStats (i : nat) (w : World.t) : seaworthy w -> seaworthy (sendStats i w).
Proof. unfold sendStats. by destruct (World.players w !! i). Qed.

Lemma seaworthy_savePlayerState (i : nat) (w : World.t) :
  seaworthy w -> seaworthy (savePlayerState i w).
Proof.
  intros (Hp & Hn & Hb & Hs). unfold savePlayerState.
  destruct (World.players w !! i) as [player|] eqn:Hi; [|done].
  destruct (negb _); [done|]. cbv zeta.
  split; [done|]. split; [done|]. split; [done|].
  intros state [= <-]. cbn [SaveState.stats].
  rewrite Forall_lookup in Hp. by destruct (Hp i player Hi) as (_ & _ & ?).
Qed.

Lemma seaworthy_modPlayer (i : nat) (f : Player.t -> Player.t) (w : World.t) :
  (forall p, World.players w !! i = Some p -> shipshape p -> shipshape (f p)) ->
  seaworthy w -> seaworthy (modPlayer i f w).
Proof.
  intros Hf (Hp & Hn & Hb & Hs). split; [|done].
  cbn [modPlayer World.players World.set_players].
  apply Forall_lookup. intros j q Hj. rewrite Forall_lookup in Hp.
  destruct (decide (j = i)) as [->|Hne].
  - rewrite list_lookup_alter_eq in Hj.
    destruct (World.players w !! i) as [p|] eqn:Hi; [|done].
    injection Hj as <-. apply Hf; [done|]. by apply (Hp i).
  - rewrite list_lookup_alter_ne in Hj by done. by apply (Hp j).
Qed.

Lemma shipshape_recalculateShipStats (p : Player.t) :
  Ship.health (Player.ship p) <= Ship.maxHealth (Player.ship p) ->
  statsIn p -> shipshape (recalculateShipStats p).
Proof.
  intros Hh Hs. unfold recalculateShipStats. cbv zeta.
  pose proof (Hs healthBonus) as Hb. cbn in Hb.
  assert (Hmax : 0 <= ShipStats.maxHealth (SHIP_STATS (Ship.shipClass (Player.ship p)))
                      + PlayerStats.healthBonus (Ship.stats (Player.ship p)) * 10).
  { destruct (Ship.shipClass (Player.ship p)); cbn; lia. }
  destruct (0 <? Ship.maxHealth (Player.ship p)) eqn:Hpos.
  - apply Z.ltb_lt in Hpos. split; [|split; [done|exact Hs]].
    cbn. by apply round_ratio_le.
  - apply Z.ltb_ge in Hpos. split; [|split; [done|exact Hs]].
    cbn. lia.
Qed.

Lemma seaworthy_handlePlayerInput (playerId : string) (input : PlayerInput.t)
    (w : World.t) :
  seaworthy w -> seaworthy (handlePlayerInput playerId input w).
Proof.
  intros Hw. unfold handlePlayerInput.
  destruct (players_get playerId w) as [[i ?]|]; [|done].
  by apply seaworthy_modPlayer.
Qed.

Lemma seaworthy_handleUpgradeShipClass (playerId : string) (shipClass : ShipClass)
    (w : World.t) :
  seaworthy w -> seaworthy (handleUpgradeShipClass playerId shipClass w).
Proof.
  intros Hw. unfold handleUpgradeShipClass.
  destruct (players_get playerId w) as [[i player]|]; [|done].
  destruct (_ <? _); [done|]. cbv zeta.
  apply seaworthy_savePlayerState, seaworthy_sendStats, seaworthy_modPlayer; [|done].
  intros p _ (_ & _ & Hs). split; [cbn; lia|]. split; [done|exact Hs].
Qed.

Lemma seaworthy_handleUpgradeStat (playerId : string) (stat : StatName) (w : World.t) :
  seaworthy w -> seaworthy (handleUpgradeStat playerId stat w).
Proof.
  intros Hw. unfold handleUpgradeStat.
  destruct (players_get playerId w) as [[i player]|] eqn:Hget; [|done].
  apply players_get_Some in Hget as [Hi _].
  destruct (_ <=? 0); [done|].
  destruct (MAX_STAT_POINTS <=? _) eqn:Hcap; [done|]. apply Z.leb_gt in Hcap.
  cbv zeta.
  apply seaworthy_savePlayerState, seaworthy_sendStats, seaworthy_modPlayer; [|done].
  intros p Hp (Hh & _ & Hs). assert (p = player) by congruence. subst p.
  apply shipshape_recalculateShipStats; [exact Hh|].
  intros other. cbn.
  assert (Hd : other = stat \/ other <> stat)
    by (destruct other, stat; (by left) || (by right)).
  destruct Hd as [->|Hne].
  - rewrite stat_get_set_eq. specialize (Hs stat). lia.
  - rewrite stat_get_set_ne by done. apply Hs.
Qed.

Lemma seaworthy_handleRespawn (playerId : string) (now : Z) (r1 r2 : Q) (w : World.t) :
  seaworthy w -> seaworthy (handleRespawn playerId now r1 r2 w).
Proof.
  intros Hw. unfold handleRespawn.
  destruct (players_get playerId w) as [[i player]|]; [|done]. cbv zeta.
  apply seaworthy_sendStats, seaworthy_emit, seaworthy_savePlayerState,
    seaworthy_modPlayer; [|done].
  intros p _ _. split; [cbn; lia|]. split; [done|].
  intros stat. by destruct stat.
Qed.

Lemma shipshape_loadPlayerState (w : World.t) (player : Player.t) :
  savedGood (World.storage w) -> shipshape player -> shipshape (loadPlayerState w player).
Proof.
  intros Hs Hp. unfold loadPlayerState.
  destruct (Storage.navalwar_save (World.storage w)) as [state|] eqn:Hst; [|done].
  cbv zeta. specialize (Hs state Hst).
  set (q := Player.set_upgradePoints _ _).
  assert (Hq : statsIn q) by exact Hs.
  pose proof (Hs healthBonus) as Hb. cbn in Hb.
  unfold recalculateShipStats. cbv zeta.
  destruct (0 <? _); (split; [cbn; lia|]; split; [reflexivity|exact Hs]).
Qed.

Lemma seaworthy_players_set (id : string) (player : Player.t) (w : World.t) :
  shipshape player -> seaworthy w -> seaworthy (players_set id player w).
Proof.
  intros Hpl (Hp & Hn & Hb & Hs). unfold players_set.
  destruct (players_get id w) as [[i ?]|]; (split; [|done]);
    cbn [World.players World.set_players].
  - by apply Forall_insert.
  - apply Forall_app. split; [done|]. by constructor.
Qed.

Lemma seaworthy_handleJoinGame (playerId playerName : string) (now : Z) (r1 r2 : Q)
    (w : World.t) :
  seaworthy w -> seaworthy (handleJoinGame playerId playerName now r1 r2 w).
Proof.
  intros Hw. unfold handleJoinGame. cbv zeta.
  set (w2 := emit _ (emit _ _)).
  assert (H2 : seaworthy w2).
  { apply seaworthy_emit, seaworthy_emit, seaworthy_players_set; [|done].
    apply shipshape_loadPlayerState; [by destruct Hw as (_ & _ & _ & ?)|].
    split; [cbn; lia|]. split; [done|]. intros stat. by destruct stat. }
  destruct (players_get playerId w2) as [[i ?]|]; [|done].
  by apply seaworthy_sendStats.
Qed.

Section Reachable.
Variable Math_sqrt Math_cos Math_sin : Q -> Q.
Variable Math_atan2 : Q -> Q -> Q.
Variable toISOString : Z -> string.
Variable Math_PI : Q.

Lemma seaworthy_call (c : Call) (w : World.t) :
  seaworthy w ->
  seaworthy (call Math_sqrt Math_cos Math_sin Math_atan2 toISOString Math_PI c w).
Proof.
  intros Hw. destruct c; cbn [call].
  - by apply seaworthy_tick.
  - by apply seaworthy_handleJoinGame.
  - by apply seaworthy_handlePlayerInput.
  - by apply seaworthy_handleUpgradeShipClass.
  - by apply seaworthy_handleUpgradeStat.
  - by apply seaworthy_handleRespawn.
Qed.

Lemma seaworthy_spawnTanks (rnd : nat -> Q) (w : World.t) :
  seaworthy w -> seaworthy (spawnTanks Math_PI rnd w).
Proof.
  unfold spawnTanks. generalize (World.islands w). generalize 0%nat.
  intros k l. revert w k. induction l as [|island l IH]; intros w k Hw; [exact Hw|].
  cbn [foldl]. destruct (JS.ltb (rnd k) (5 # 10)); [|by apply IH].
  apply IH. destruct Hw as (Hp & Hn & Hb & Hs). split; [done|]. split; [|done].
  cbn. apply Forall_app. split; [done|]. constructor; [|constructor].
  unfold afloat. cbn. lia.
Qed.

Lemma seaworthy_initialWorld (now : Z) (rnds : nat -> nat -> Q) (rnd : nat -> Q)
    (storage : Storage.t) :
  savedGood storage ->
  seaworthy (initialWorld Math_sqrt Math_cos Math_sin Math_PI now rnds rnd storage).
Proof.
  intros Hs. unfold initialWorld. cbv zeta.
  apply seaworthy_spawnTanks. unfold spawnInitialNeutrals.
  apply (world_foldl_kept seaworthy).
  - intros w i. apply seaworthy_spawnNeutral.
  - split; [constructor|]. split; [constructor|]. split; [constructor|exact Hs].
Qed.

(** X25. Whatever has been saved in the browser with stats between 0 and
    [MAX_STAT_POINTS], the server that the constructor builds, and every
    state it reaches through ticks of the game loop and calls of [joinGame],
    [emitInput], [emitUpgradeShip], [emitUpgradeStat] and [emitRespawn], in
    any order and with any clock and random values, satisfies: every ship
    has [health <= maxHealth], [maxHealth] is the base value of its class
    plus 10 per point of health bonus, and each of its four stats is between
    0 and [MAX_STAT_POINTS]; every neutral in the list has
    [0 < health <= maxHealth]; every bullet has a damage of at least 0; and
    the saved game again has its stats between 0 and [MAX_STAT_POINTS]. *)
Theorem server_invariant (now : Z) (rnds : nat -> nat -> Q) (rnd : nat -> Q)
    (storage : Storage.t) (calls : list Call) :
  savedGood storage ->
  seaworthy (run Math_sqrt Math_cos Math_sin Math_atan2 toISOString Math_PI calls
                 (initialWorld Math_sqrt Math_cos Math_sin Math_PI now rnds rnd storage)).
Proof.
  intros Hs. unfold run. apply (world_foldl_kept seaworthy).
  - intros w c. apply seaworthy_call.
  - by apply seaworthy_initialWorld.
Qed.

End Reachable.

(** Witness of X25: a server started over a saved destroyer of level 3
    with two points of health bonus, then a join, a stat upgrade and a
    tick. *)
Lemma server_invariant_witness :
  seaworthy
    (run (fun q => q) (fun _ => 1%Q) (fun _ => 0%Q) (fun _ _ => 0%Q) (fun _ => "date")
         (355 # 113)
         [JoinGame "Ann" 1000 (1 # 2) (1 # 4); EmitUpgradeStat healthBonus;
          Tick 1050 (fun _ => (1 # 2)%Q) (fun _ => (1 # 2)%Q)]
         (initialWorld (fun q => q) (fun _ => 1%Q) (fun _ => 0%Q) (355 # 113) 0
            (fun _ _ => (1 # 2)%Q) (fun _ => (1 # 4)%Q)
            (Storage.mk (Some (SaveState.mk 500 3 20 destroyer (PlayerStats.mk 2 0 1 0) 1))
                        None))).
Proof.
  apply server_invariant.
  intros state H stat. injection H as <-. destruct stat; cbn; unfold MAX_STAT_POINTS; lia.
Defined.

(** * The states that the server reaches *)

(** ** Game states in the log, and the lower bound on the health of ships *)

Lemma snapshotsOf_logged (w : World.t) (st : GameState.t) :
  st ∈ snapshotsOf w <-> Ev.gameState st ∈ World.emitted w.
Proof.
  unfold snapshotsOf. rewrite list_elem_of_omap. split.
  - intros (e & He & Hst). destruct e; try discriminate. by injection Hst as <-.
  - intros H. by exists (Ev.gameState st).
Qed.

Lemma snapshotsOf_emit (e : Ev.t) (w : World.t) :
  silent e -> snapshotsOf (emit e w) = snapshotsOf w.
Proof.
  intros He. unfold snapshotsOf, emit. cbn [World.emitted World.set_emitted].
  rewrite omap_app. destruct e; cbn; try by rewrite app_nil_r. done.
Qed.

Lemma trim_emit (X : list GameState.t) (e : Ev.t) (w : World.t) :
  silent e -> trim X w -> trim X (emit e w).
Proof. intros He [Hp Hs]. split; [done|]. by rewrite snapshotsOf_emit. Qed.

Lemma trim_same (X : list GameState.t) (w w' : World.t) :
  World.players w' = World.players w -> World.emitted w' = World.emitted w ->
  trim X w -> trim X w'.
Proof.
  intros HP HE [Hp Hs]. split; [by rewrite HP|]. unfold snapshotsOf. by rewrite HE.
Qed.

Lemma trim_modPlayer (X : list GameState.t) (i : nat) (f : Player.t -> Player.t)
    (w : World.t) :
  (forall p, World.players w !! i = Some p -> sturdy p -> sturdy (f p)) ->
  trim X w -> trim X (modPlayer i f w).
Proof.
  intros Hf [Hp Hs]. split; [|done]. rewrite players_modPlayer.
  apply Forall_lookup. intros j q Hj. rewrite Forall_lookup in Hp.
  destruct (decide (j = i)) as [->|Hne].
  - rewrite list_lookup_alter_eq in Hj.
    destruct (World.players w !! i) as [p|] eqn:Hi; [|done].
    injection Hj as <-. apply Hf; [done|]. by apply (Hp i).
  - rewrite list_lookup_alter_ne in Hj by done. by apply (Hp j).
Qed.

Lemma trim_sendStats (X : list GameState.t) (i : nat) (w : World.t) :
  trim X w -> trim X (sendStats i w).
Proof.
  intros H. unfold sendStats. destruct (World.players w !! i); [|done].
  by apply trim_emit.
Qed.

Lemma trim_savePlayerState (X : list GameState.t) (i : nat) (w : World.t) :
  trim X w -> trim X (savePlayerState i w).
Proof.
  intros H. unfold savePlayerState. destruct (World.players w !! i); [|done].
  destruct (negb _); [done|]. by apply (trim_same X w).
Qed.

Lemma trim_awardXP (X : list GameState.t) (k : nat) (amount : Z) (w : World.t) :
  trim X w -> trim X (awardXP k amount w).
Proof.
  intros H. unfold awardXP.
  destruct (World.players w !! k) as [player|] eqn:Hk; [|done]. cbv zeta.
  apply trim_savePlayerState, trim_sendStats.
  assert (Hpl : sturdy player).
  { destruct H as [Hp _]. rewrite Forall_lookup in Hp. by apply (Hp k). }
  destruct (_ && _).
  - apply trim_emit; [done|]. apply trim_modPlayer; [|done].
    intros p _ _. destruct Hpl as [_ Hm]. split; cbn; lia.
  - apply trim_modPlayer; [|done]. intros p _ _. exact Hpl.
Qed.

Section TrimPass.
Variable Math_sqrt : Q -> Q.
Variable toISOString : Z -> string.
Variable now : Z.

(** The death of a living player makes its ship sturdy whatever its health
    was. *)
Lemma trim_handlePlayerDeath_victim (X : list GameState.t) (v : nat)
    (killerId weaponType : string) (w : World.t) (player : Player.t) :
  World.players w !! v = Some player ->
  Player.isDead player = false ->
  0 <= Ship.maxHealth (Player.ship player) ->
  (forall j p, j <> v -> World.players w !! j = Some p -> sturdy p) ->
  snapshotsOf w = X ->
  trim X (handlePlayerDeath toISOString v killerId weaponType now w).
Proof.
  intros Hv Hdead Hmax Hothers HX. unfold handlePlayerDeath. rewrite Hv, Hdead.
  set (w0 := if String.eqb _ _ then _ else w).
  assert (H0 : World.players w0 = World.players w /\ World.emitted w0 = World.emitted w).
  { unfold w0. by destruct (String.eqb _ _). }
  destruct H0 as [HP0 HE0]. clearbody w0.
  set (w1 := modPlayer v _ w0).
  assert (H1 : trim X w1).
  { split.
    - unfold w1. rewrite players_modPlayer, HP0. apply Forall_lookup. intros j q Hj.
      destruct (decide (j = v)) as [->|Hne].
      + rewrite list_lookup_alter_eq, Hv in Hj. injection Hj as <-.
        split; cbn; [lia|exact Hmax].
      + rewrite list_lookup_alter_ne in Hj by done. by apply (Hothers j).
    - unfold snapshotsOf, w1. cbn [modPlayer World.emitted World.set_players].
      rewrite HE0. exact HX. }
  clearbody w1.
  destruct (players_get killerId w1) as [[k killer]|].
  - cbv beta iota zeta. do 3 (apply trim_emit; [done|]).
    apply trim_awardXP.
    apply trim_modPlayer; [by intros p _ [? ?]|].
    apply trim_modPlayer; [by intros p _ [? ?]|]. done.
  - destruct (List.find _ _); by do 3 (apply trim_emit; [done|]).
Qed.

Lemma trim_handlePlayerDeath (X : list GameState.t) (v : nat)
    (killerId weaponType : string) (w : World.t) :
  trim X w -> trim X (handlePlayerDeath toISOString v killerId weaponType now w).
Proof.
  intros H. destruct (World.players w !! v) as [player|] eqn:Hv.
  2: { unfold handlePlayerDeath. by rewrite Hv. }
  destruct (Player.isDead player) eqn:Hdead.
  { unfold handlePlayerDeath. by rewrite Hv, Hdead. }
  destruct H as [Hp HX]. rewrite Forall_lookup in Hp.
  apply (trim_handlePlayerDeath_victim X v killerId weaponType w player); try done.
  - by destruct (Hp v player Hv).
  - intros j p _ Hj. by apply (Hp j).
Qed.

(** A hit on a living ship: the health is assigned, the hit is notified
    and the ship dies when the health is 0 or less. *)
Lemma trim_strike (X : list GameState.t) (c : nat) (h : Z) (e : Ev.t)
    (killerId weaponType : string) (w : World.t) (player : Player.t) :
  World.players w !! c = Some player ->
  Player.isDead player = false ->
  silent e ->
  trim X w ->
  trim X (if h <=? 0
          then handlePlayerDeath toISOString c killerId weaponType now
                 (emit e (modPlayer c (Player.on_ship (Ship.set_health h)) w))
          else emit e (modPlayer c (Player.on_ship (Ship.set_health h)) w)).
Proof.
  intros Hc Hdead He [Hp HX]. rewrite Forall_lookup in Hp.
  destruct (Hp c player Hc) as [_ Hmax].
  destruct (h <=? 0) eqn:Hh.
  - apply (trim_handlePlayerDeath_victim X c killerId weaponType _
             (Player.on_ship (Ship.set_health h) player)).
    + rewrite players_emit, players_modPlayer, list_lookup_alter_eq, Hc. reflexivity.
    + exact Hdead.
    + exact Hmax.
    + intros j p Hne Hj.
      rewrite players_emit, players_modPlayer, list_lookup_alter_ne in Hj by done.
      by apply (Hp j).
    + rewrite snapshotsOf_emit by done. exact HX.
  - apply Z.leb_gt in Hh. apply trim_emit; [done|].
    apply trim_modPlayer; [|by split; [apply Forall_lookup|]].
    intros p _ [_ Hm]. split; cbn; [lia|exact Hm].
Qed.

Lemma trim_bulletShipCandidates (X : list GameState.t) (bullet : Bullet.t)
    (candidates : list nat) (st : Pass.t) :
  trim X (Pass.world st) ->
  trim X (Pass.world (bulletShipCandidates toISOString now bullet candidates st)).
Proof.
  revert st. induction candidates as [|c rest IH]; intros st H; [done|].
  cbn [bulletShipCandidates]. cbv zeta.
  destruct (World.players (Pass.world st) !! c) as [player|] eqn:Hc; [|by apply IH].
  destruct (String.eqb _ _); [by apply IH|].
  destruct (Player.isDead player) eqn:Hdead; [by apply IH|].
  destruct (Ship.isStealthed _); [by apply IH|].
  destruct (now <? Player.spawnProtectionUntil player); [by apply IH|].
  destruct (JS.ltb _ _); [|by apply IH].
  destruct (Ship.isShielded _).
  - apply IH. cbn [Pass.world]. by apply trim_emit.
  - cbn [Pass.world]. by apply (trim_strike X c _ _ _ _ _ player).
Qed.

Lemma trim_checkBulletShipCollisions (X : list GameState.t)
    (shipGrid : SpatialHashGrid.t nat) (st : Pass.t) :
  trim X (Pass.world st) ->
  trim X (Pass.world (checkBulletShipCollisions toISOString now shipGrid st)).
Proof.
  unfold checkBulletShipCollisions. cbv zeta.
  generalize (World.bullets (Pass.world st)). intros bs. revert st.
  induction bs as [|b bs IH]; intros st H; [done|].
  cbn [foldl]. apply IH. destruct (bool_decide _); [done|].
  by apply trim_bulletShipCandidates.
Qed.

Lemma trim_bulletNeutralCandidates (X : list GameState.t) (bullet : Bullet.t)
    (candidates : list nat) (st : Pass.t) :
  trim X (Pass.world st) ->
  trim X (Pass.world (bulletNeutralCandidates bullet candidates st)).
Proof.
  revert st. induction candidates as [|c rest IH]; intros st H; [done|].
  cbn [bulletNeutralCandidates]. cbv zeta.
  destruct (World.neutrals (Pass.world st) !! c) as [neutral|]; [|by apply IH].
  destruct (String.eqb _ _); [by apply IH|].
  destruct (negb _); [by apply IH|].
  destruct (JS.ltb _ _); [|by apply IH].
  unfold bulletHitsNeutral. cbv zeta.
  match goal with |- context [modNeutral c ?f (Pass.world st)] =>
    assert (H1 : trim X (modNeutral c f (Pass.world st)))
      by (by apply (trim_same X (Pass.world st)))
  end.
  destruct (_ <=? 0); [|done].
  destruct (players_get _ _) as [[shooter ?]|]; [|done].
  cbn [Pass.world]. apply trim_emit; [done|]. by apply trim_awardXP.
Qed.

Lemma trim_checkBulletNeutralCollisions (X : list GameState.t)
    (neutralGrid : SpatialHashGrid.t nat) (st : Pass.t) :
  trim X (Pass.world st) ->
  trim X (Pass.world (checkBulletNeutralCollisions neutralGrid st)).
Proof.
  unfold checkBulletNeutralCollisions. cbv zeta.
  generalize (World.bullets (Pass.world st)). intros bs. revert st.
  induction bs as [|b bs IH]; intros st H; [done|].
  cbn [foldl]. apply IH. destruct (bool_decide _); [done|].
  by apply trim_bulletNeutralCandidates.
Qed.

Lemma trim_droneShip (X : list GameState.t) (d : nat) (w : World.t) (c : nat) :
  trim X w -> trim X (droneShip Math_sqrt toISOString now d w c).
Proof.
  intros H. unfold droneShip.
  destruct (World.drones w !! d) as [drone|]; [|done].
  destruct (World.players w !! c) as [player|] eqn:Hc; [|done]. cbv zeta.
  destruct (String.eqb _ _); [done|]. cbn [orb].
  destruct (Player.isDead player) eqn:Hdead; [done|].
  destruct (Ship.isStealthed _); [done|].
  destruct (now <? _); [done|].
  destruct (_ && _); [|done].
  match goal with |- trim X (modDrone d ?f ?w1) =>
    apply (trim_same X w1); [done|done|] end.
  destruct (negb _); [|done].
  by apply (trim_strike X c _ _ _ _ _ player).
Qed.

Lemma trim_droneNeutral (X : list GameState.t) (d owner : nat) (st : Pass.t) (c : nat) :
  trim X (Pass.world st) -> trim X (Pass.world (droneNeutral d owner st c)).
Proof.
  intros H. unfold droneNeutral. cbv zeta.
  destruct (World.drones (Pass.world st) !! d) as [drone|]; [|done].
  destruct (World.neutrals (Pass.world st) !! c) as [neutral|]; [|done].
  destruct (bool_decide _); [done|].
  destruct (JS.ltb _ _); [|done].
  match goal with |- context [modNeutral c ?f (Pass.world st)] =>
    assert (H1 : trim X (modNeutral c f (Pass.world st)))
      by (by apply (trim_same X (Pass.world st)))
  end.
  destruct (_ <=? 0); cbn [Pass.world]; [|done].
  apply trim_emit; [done|]. by apply trim_awardXP.
Qed.

Lemma trim_checkDroneCollisions (X : list GameState.t)
    (shipGrid neutralGrid : SpatialHashGrid.t nat) (st : Pass.t) :
  trim X (Pass.world st) ->
  trim X (Pass.world (checkDroneCollisions Math_sqrt toISOString now shipGrid
                        neutralGrid st)).
Proof.
  unfold checkDroneCollisions.
  generalize (seq 0 (length (World.drones (Pass.world st)))). intros ds. revert st.
  induction ds as [|d ds IH]; intros st H; [done|].
  cbn [foldl]. apply IH. unfold droneCollisions. cbv zeta.
  destruct (World.drones (Pass.world st) !! d) as [drone|]; [|done].
  destruct (players_get _ _) as [[owner ?]|]; [|done].
  match goal with |- context [foldl (droneShip _ _ _ d) ?w ?l] =>
    set (w1 := foldl (droneShip Math_sqrt toISOString now d) w l);
    assert (H1 : trim X w1)
      by (apply (world_foldl_kept (trim X)); [intros; by apply trim_droneShip|done])
  end.
  clearbody w1. destruct (World.drones w1 !! d) as [drone1|]; [|done].
  match goal with |- context [foldl (droneNeutral d owner) ?st1 ?l] =>
    generalize l; intros cs;
    assert (Hst : trim X (Pass.world st1)) by done;
    revert Hst; generalize st1
  end.
  induction cs as [|c cs IHc]; intros st1 Hst; [done|].
  cbn [foldl]. apply IHc. by apply trim_droneNeutral.
Qed.

End TrimPass.

(** ** The passes on a world with one player *)

Section SoloPass.
Variable Math_sqrt : Q -> Q.
Variable toISOString : Z -> string.
Variable now : Z.

Lemma solo_lookup (w : World.t) (j : nat) (p : Player.t) :
  (length (World.players w) <= 1)%nat -> World.players w !! j = Some p -> j = 0%nat.
Proof. intros Hlen Hj. apply lookup_lt_Some in Hj. lia. Qed.

(** With at most one player the only pair of candidates is a ship with
    itself, at distance 0. *)
Lemma shipShipPair_solo (playerIndex : gmap string nat) (i p1 : nat) (w : World.t)
    (p2 : nat) :
  (length (World.players w) <= 1)%nat ->
  shipShipPair Math_sqrt toISOString now playerIndex i p1 w p2 = w.
Proof.
  intros Hlen. unfold shipShipPair.
  destruct (World.players w !! p1) as [player1|] eqn:Hp1; [|done].
  destruct (World.players w !! p2) as [player2|] eqn:Hp2; [|done].
  assert (p1 = 0%nat) by (by eapply solo_lookup).
  assert (p2 = 0%nat) by (by eapply solo_lookup).
  subst p1 p2. assert (player2 = player1) by congruence. subst player2.
  destruct (playerIndex !! _) as [j|]; [|done].
  destruct (j <=? i)%nat; [done|]. cbv zeta.
  replace (JS.ltb tiny _) with false; [by rewrite andb_false_r|].
  symmetry. unfold JS.ltb. apply negb_false_iff, Qle_bool_iff.
  set (x := Ship.x (Player.ship player1)). set (y := Ship.y (Player.ship player1)).
  assert (E : ((x - x) * (x - x) + (y - y) * (y - y) == 0)%Q) by ring.
  rewrite E. unfold tiny. discriminate.
Qed.

Lemma checkShipShipCollisions_solo (livingPlayers : list nat)
    (shipGrid : SpatialHashGrid.t nat) (w : World.t) :
  (length (World.players w) <= 1)%nat ->
  checkShipShipCollisions Math_sqrt toISOString now livingPlayers shipGrid w = w.
Proof.
  intros Hlen. unfold checkShipShipCollisions. cbv zeta.
  set (playerIndex := foldl _ ∅ _). clearbody playerIndex.
  generalize (imap (fun i p => (i, p)) livingPlayers). intros l.
  induction l as [|[i p1] l IH]; [done|].
  cbn [foldl]. destruct (World.players w !! p1) as [player1|]; [|exact IH].
  assert (E : forall cs,
            foldl (shipShipPair Math_sqrt toISOString now playerIndex i p1) w cs = w).
  { induction cs as [|p2 cs IHc]; [done|]. cbn [foldl]. by rewrite shipShipPair_solo. }
  rewrite E. exact IH.
Qed.

End SoloPass.

(** ** The invariant of the reachable states *)

Lemma solo_ids (w w' : World.t) :
  map Player.id (World.players w') = map Player.id (World.players w) ->
  solo w -> solo w'.
Proof.
  intros Hm [Hlen Hid]. split.
  - rewrite <- (length_map Player.id), Hm, length_map. exact Hlen.
  - apply (Forall_map_eq Player.id _ _ _ Hm); [|exact Hid].
    intros x x' E Hx. by rewrite E.
Qed.

Lemma solo_frame (w w' : World.t) :
  map playerFrame (World.players w') = map playerFrame (World.players w) ->
  solo w -> solo w'.
Proof.
  intros Hm. apply solo_ids.
  apply (f_equal (map Player.id)) in Hm. by rewrite !map_map in Hm.
Qed.

Lemma solo_same (w w' : World.t) :
  World.players w' = World.players w -> solo w -> solo w'.
Proof. intros E. unfold solo. by rewrite E. Qed.

Lemma solo_modPlayer (i : nat) (f : Player.t -> Player.t) (w : World.t) :
  (forall p, Player.id (f p) = Player.id p) -> solo w -> solo (modPlayer i f w).
Proof.
  intros Hf. apply solo_ids. rewrite players_modPlayer.
  apply list_eq. intros j. rewrite !list_lookup_fmap.
  destruct (decide (j = i)) as [->|Hne].
  - rewrite list_lookup_alter_eq. destruct (World.players w !! i); cbn; [|done].
    by rewrite Hf.
  - by rewrite list_lookup_alter_ne.
Qed.

Lemma solo_no_drone_player (w : World.t) : solo w -> players_get "drone" w = None.
Proof.
  intros [_ Hid]. unfold players_get. apply list_find_None.
  eapply Forall_impl; [exact Hid|]. intros p Hp. cbn. rewrite Hp. discriminate.
Qed.

(** In a solo world the local player, once registered, is found. *)
Lemma solo_get (w : World.t) :
  solo w ->
  (World.players w = [] /\ players_get localPlayerId w = None)
  \/ exists p, World.players w = [p] /\ players_get localPlayerId w = Some (0%nat, p).
Proof.
  intros [Hlen Hid]. destruct (World.players w) as [|p [|q l]] eqn:E.
  - left. split; [done|]. unfold players_get. by rewrite E.
  - right. exists p. split; [done|]. unfold players_get. rewrite E.
    inversion Hid as [|? ? Hp _]; subst. cbn.
    destruct (decide (Player.id p = localPlayerId)); [done|contradiction].
  - cbn in Hlen. lia.
Qed.

Section Steady.
Variable Math_sqrt Math_cos Math_sin : Q -> Q.
Variable Math_atan2 : Q -> Q -> Q.
Variable toISOString : Z -> string.
Variable Math_PI : Q.

Lemma frame_players (w w' : World.t) :
  collisionFrame w' = collisionFrame w ->
  map playerFrame (World.players w') = map playerFrame (World.players w).
Proof. unfold collisionFrame. congruence. Qed.

Lemma trim_checkCollisions (X : list GameState.t) (now : Z) (w : World.t) :
  (length (World.players w) <= 1)%nat ->
  trim X w -> trim X (checkCollisions Math_sqrt toISOString now w).
Proof.
  intros Hlen H. unfold checkCollisions. cbv zeta.
  set (st0 := Pass.mk w ∅ ∅).
  set (st1 := checkBulletShipCollisions _ _ _ st0).
  assert (H1 : trim X (Pass.world st1))
    by (by apply trim_checkBulletShipCollisions).
  assert (F1 : map playerFrame (World.players (Pass.world st1))
               = map playerFrame (World.players w)).
  { apply frame_players.
    apply (proj1 (frame_checkBulletShipCollisions toISOString now _ st0)). }
  clearbody st1.
  set (st2 := checkBulletNeutralCollisions _ st1).
  assert (H2 : trim X (Pass.world st2))
    by (by apply trim_checkBulletNeutralCollisions).
  assert (F2 : map playerFrame (World.players (Pass.world st2))
               = map playerFrame (World.players w)).
  { rewrite <- F1. apply frame_players, frame_checkBulletNeutralCollisions. }
  clearbody st2.
  rewrite checkShipShipCollisions_solo.
  2: { rewrite <- (length_map playerFrame), F2, length_map. exact Hlen. }
  set (st4 := checkDroneCollisions _ _ _ _ _ _).
  assert (H4 : trim X (Pass.world st4)) by (by apply trim_checkDroneCollisions).
  clearbody st4.
  destruct (bool_decide (Pass.bulletsToRemove st4 = ∅));
    destruct (bool_decide (Pass.neutralsToRemove st4 = ∅)); exact H4.
Qed.

Lemma solo_checkCollisions (now : Z) (w : World.t) :
  solo w -> solo (checkCollisions Math_sqrt toISOString now w).
Proof.
  destruct (checkCollisions_passes Math_sqrt toISOString now w) as (st & -> & HF & _).
  intros H. apply (solo_frame w); [|done]. rewrite <- (frame_players _ _ HF).
  cbv zeta. by destruct (bool_decide _); destruct (bool_decide _).
Qed.

Lemma trim_damageNeutral (X : list GameState.t) (c : nat) (damage : Z)
    (attackerId : string) (w : World.t) :
  trim X w -> trim X (damageNeutral c damage attackerId w).
Proof.
  intros H. unfold damageNeutral.
  destruct (World.neutrals w !! c) as [n|]; [|done]. cbv zeta.
  match goal with |- context [emit ?e (modNeutral c ?f w)] =>
    assert (H1 : trim X (emit e (modNeutral c f w)))
      by (apply trim_emit; [done|]; by apply (trim_same X w))
  end.
  destruct (_ <=? 0); [|done].
  match goal with |- context [World.set_neutrals ?l ?w1] =>
    assert (H2 : trim X (World.set_neutrals l w1)) by (by apply (trim_same X w1))
  end.
  destruct (players_get _ _) as [[player ?]|]; [|done].
  apply trim_emit; [done|]. by apply trim_awardXP.
Qed.

Lemma crew_updateDrones (X : list GameState.t) (dt : Q) (w : World.t) :
  solo w -> trim X w ->
  solo (updateDrones Math_sqrt Math_cos Math_sin Math_atan2 dt w)
  /\ trim X (updateDrones Math_sqrt Math_cos Math_sin Math_atan2 dt w).
Proof.
  intros Hs Ht. unfold updateDrones.
  match goal with |- context [foldr ?f ([], w) _] => set (step := f) end.
  assert (Hgen : forall l, solo (snd (foldr step ([], w) l))
                           /\ trim X (snd (foldr step ([], w) l))).
  { induction l as [|d l IH]; [done|]. cbn [foldr].
    destruct (foldr step ([], w) l) as [kept w1]. cbn [snd] in IH.
    change (step d (kept, w1))
      with (match updateDrone Math_sqrt Math_cos Math_sin Math_atan2 dt d w1 with
            | (Some d', w') => (d' :: kept, w')
            | (None, w') => (kept, w')
            end).
    pose proof (updateDrone_effect Math_sqrt Math_cos Math_sin Math_atan2 dt d w1)
      as [_ Hworld]. cbv zeta in Hworld.
    assert (Hdmg : forall c, solo (damageNeutral c DRONE_DAMAGE "drone" w1)
                             /\ trim X (damageNeutral c DRONE_DAMAGE "drone" w1)).
    { intros c. split; [|apply trim_damageNeutral; apply IH].
      apply (solo_frame w1); [|apply IH].
      apply (damageNeutral_effect c DRONE_DAMAGE "drone" w1). }
    destruct (updateDrone Math_sqrt Math_cos Math_sin Math_atan2 dt d w1)
      as [[d1|] w2]; cbn [fst snd] in *;
      (destruct Hworld as [->|[c ->]]; [exact IH|apply Hdmg]). }
  specialize (Hgen (World.drones w)).
  destruct (foldr step ([], w) (World.drones w)) as [kept w1]. cbn [snd] in Hgen.
  destruct Hgen as [G1 G2]. split.
  - by apply (solo_same w1).
  - by apply (trim_same X w1).
Qed.

Lemma crew_updatePlayers (X : list GameState.t) (dt : Q) (now : Z) (w : World.t) :
  solo w /\ trim X w ->
  solo (updatePlayers Math_sqrt Math_cos Math_sin dt now w)
  /\ trim X (updatePlayers Math_sqrt Math_cos Math_sin dt now w).
Proof.
  unfold updatePlayers.
  apply (world_foldl_kept (fun w => solo w /\ trim X w)).
  clear w. intros w i [Hs Ht].
  destruct (World.players w !! i) as [p|] eqn:Hi.
  2: { unfold updatePlayer. by rewrite Hi. }
  destruct (updatePlayer_effect Math_sqrt Math_cos Math_sin dt now w i p Hi)
    as (p' & bs & ds & HP & HF & _ & _ & _ & _ & _ & _ & _ & HE & _).
  cbv zeta in *.
  assert (Hid : Player.id p' = Player.id p)
    by (apply (f_equal Player.id) in HF; exact HF).
  assert (Hh : Ship.health (Player.ship p') = Ship.health (Player.ship p))
    by (apply (f_equal (fun q => Ship.health (Player.ship q))) in HF; exact HF).
  assert (Hm : Ship.maxHealth (Player.ship p') = Ship.maxHealth (Player.ship p))
    by (apply (f_equal (fun q => Ship.maxHealth (Player.ship q))) in HF; exact HF).
  split.
  - apply (solo_ids w); [|done]. rewrite HP. apply list_eq. intros j.
    rewrite !list_lookup_fmap. destruct (decide (j = i)) as [->|Hne].
    + rewrite list_lookup_insert_eq by (by eapply lookup_lt_Some).
      rewrite Hi. cbn. by rewrite Hid.
    + by rewrite list_lookup_insert_ne.
  - destruct Ht as [Hp HX]. split.
    + rewrite HP. apply Forall_insert; [done|].
      rewrite Forall_lookup in Hp. destruct (Hp i p Hi) as [? ?].
      unfold sturdy. by rewrite Hh, Hm.
    + unfold snapshotsOf. rewrite HE. exact HX.
Qed.

Lemma crew_updateNeutrals (X : list GameState.t) (dt : Q) (now : Z) (rnd : nat -> Q)
    (w : World.t) :
  solo w /\ trim X w ->
  solo (updateNeutrals Math_sqrt Math_cos Math_sin Math_atan2 Math_PI dt now rnd w)
  /\ trim X (updateNeutrals Math_sqrt Math_cos Math_sin Math_atan2 Math_PI dt now rnd w).
Proof.
  unfold updateNeutrals. generalize (seq 0 (length (World.neutrals w))).
  generalize 0%nat. intros k l. revert w k.
  induction l as [|c l IH]; intros w k Hw; [exact Hw|].
  cbn [foldl].
  pose proof (updateNeutral_effect Math_sqrt Math_cos Math_sin Math_atan2 Math_PI
                dt now rnd w w k c eq_refl) as Hstep.
  cbv zeta in Hstep.
  destruct (updateNeutral _ _ _ _ _ _ _ _ (w, k) c) as [w1 k1]. cbn [fst] in Hstep.
  destruct Hstep as (_ & _ & HP & _ & _ & HE & _).
  apply IH. destruct Hw as [Hs Ht]. split.
  - by apply (solo_same w).
  - by apply (trim_same X w).
Qed.

Lemma crew_spawnNeutral (X : list GameState.t) (rnd : nat -> Q) (w : World.t) :
  solo w /\ trim X w ->
  solo (spawnNeutral Math_sqrt Math_cos Math_sin Math_PI rnd w)
  /\ trim X (spawnNeutral Math_sqrt Math_cos Math_sin Math_PI rnd w).
Proof.
  intros H. unfold spawnNeutral.
  destruct (_ <=? _)%nat; [done|]. cbv zeta.
  destruct (spawnPosition _ _ _ _ _) as [[[x y] k]|]; [|done]. exact H.
Qed.

Lemma snapshotsOf_broadcastGameState (now : Z) (w : World.t) :
  snapshotsOf (broadcastGameState now w) = snapshotsOf w ++ [snapshot now w].
Proof.
  unfold snapshotsOf, broadcastGameState, emit.
  cbn [World.emitted World.set_emitted]. by rewrite omap_app.
Qed.

Lemma healthy_snapshot (now : Z) (w : World.t) :
  seaworthy w -> Forall sturdy (World.players w) -> healthy (snapshot now w).
Proof.
  intros (Hp & Hn & _ & _) Hs. split; cbn [snapshot GameState.ships GameState.neutrals].
  - apply Forall_fmap. apply Forall_lookup. intros i p Hi.
    rewrite Forall_lookup in Hp, Hs.
    destruct (Hp i p Hi) as (Hh & _). destruct (Hs i p Hi) as [H0 _]. cbn. lia.
  - eapply Forall_impl; [exact Hn|]. intros n [? ?]. lia.
Qed.

Lemma shipyard_intro (w : World.t) :
  seaworthy w -> solo w -> trim (snapshotsOf w) w -> Forall healthy (snapshotsOf w) ->
  shipyard w.
Proof. intros Hs Ho [Hp _] HX. split; [done|]. split; [done|]. split; done. Qed.

Lemma shipyard_step (w w' : World.t) :
  shipyard w -> seaworthy w' -> solo w' -> trim (snapshotsOf w) w' -> shipyard w'.
Proof.
  intros (_ & _ & _ & HX) Hsea Hsolo [Hst HE].
  split; [done|]. split; [done|]. split; [done|]. by rewrite HE.
Qed.

Lemma shipyard_tick (now : Z) (rnd rnd' : nat -> Q) (w : World.t) :
  shipyard w ->
  shipyard (tick Math_sqrt Math_cos Math_sin Math_atan2 toISOString Math_PI
                 now rnd rnd' w).
Proof.
  intros (Hsea & Hsolo & Hst & HX).
  set (X := snapshotsOf w) in *.
  assert (Ht : trim X w) by done.
  unfold tick. cbv zeta.
  set (w1 := if _ <? _ then _ else w).
  assert (S1 : seaworthy w1).
  { unfold w1. destruct (_ <? _); [|done].
    apply (seaworthy_spawnNeutral Math_sqrt Math_cos Math_sin Math_PI rnd) in Hsea.
    exact Hsea. }
  assert (C1 : solo w1 /\ trim X w1).
  { unfold w1. destruct (_ <? _); [|done].
    destruct (crew_spawnNeutral X rnd w (conj Hsolo Ht)) as [A B]. split.
    - by apply (solo_same _ _ eq_refl).
    - by apply (trim_same X _ _ eq_refl eq_refl). }
  clearbody w1.
  set (w2 := updatePlayers _ _ _ _ _ w1).
  assert (S2 : seaworthy w2) by (by apply seaworthy_updatePlayers).
  assert (C2 : solo w2 /\ trim X w2) by (by apply crew_updatePlayers).
  clearbody w2.
  set (w3 := updateNeutrals _ _ _ _ _ _ _ _ w2).
  assert (S3 : seaworthy w3) by (by apply seaworthy_updateNeutrals).
  assert (C3 : solo w3 /\ trim X w3) by (by apply crew_updateNeutrals).
  clearbody w3.
  set (w4 := updateDrones _ _ _ _ _ w3).
  assert (S4 : seaworthy w4) by (by apply seaworthy_updateDrones).
  assert (C4 : solo w4 /\ trim X w4) by (apply crew_updateDrones; apply C3).
  clearbody w4.
  set (w5 := updateBullets _ _ w4).
  assert (S5 : seaworthy w5) by (by apply seaworthy_updateBullets).
  assert (C5 : solo w5 /\ trim X w5).
  { destruct C4 as [A B]. split.
    - by apply (solo_same w4).
    - by apply (trim_same X w4). }
  clearbody w5.
  set (w6 := checkCollisions _ _ _ w5).
  assert (S6 : seaworthy w6) by (by apply seaworthy_checkCollisions).
  assert (C6 : solo w6 /\ trim X w6).
  { destruct C5 as [A B]. split.
    - by apply solo_checkCollisions.
    - apply trim_checkCollisions; [apply A|exact B]. }
  clearbody w6. destruct C6 as [A [B1 B2]].
  split; [exact S6|]. split; [exact A|]. split; [exact B1|].
  rewrite snapshotsOf_broadcastGameState, B2. apply Forall_app. split; [exact HX|].
  constructor; [|constructor]. by apply healthy_snapshot.
Qed.

End Steady.

(** [Math.round] of a share of [m1] is not negative. *)
Lemma round_ratio_nonneg (h m0 m1 : Z) :
  0 <= h -> 0 < m0 -> 0 <= m1 ->
  0 <= JS.round (inject_Z h / inject_Z m0 * inject_Z m1).
Proof.
  intros Hh Hm0 Hm1. unfold JS.round.
  assert (Hx : (0 <= inject_Z h / inject_Z m0 * inject_Z m1 + (1 # 2))%Q).
  { assert (H1 : (0 <= inject_Z h / inject_Z m0)%Q).
    { apply Qle_shift_div_l.
      - change 0%Q with (inject_Z 0). rewrite <- Zlt_Qlt. exact Hm0.
      - rewrite Qmult_0_l. change 0%Q with (inject_Z 0). rewrite <- Zle_Qle. exact Hh. }
    assert (H2 : (0 <= inject_Z m1)%Q)
      by (change 0%Q with (inject_Z 0); rewrite <- Zle_Qle; exact Hm1).
    pose proof (Qmult_le_0_compat _ _ H1 H2). lra. }
  apply Qfloor_resp_le in Hx. exact Hx.
Qed.

Lemma shipshape_max_nonneg (p : Player.t) :
  shipshape p -> 0 <= Ship.maxHealth (Player.ship p).
Proof. intros H. by destruct (shipshape_capped p H). Qed.

Lemma solo_sendStats (i : nat) (w : World.t) : solo w -> solo (sendStats i w).
Proof. apply solo_same, players_sendStats. Qed.

Lemma solo_savePlayerState (i : nat) (w : World.t) : solo w -> solo (savePlayerState i w).
Proof. apply solo_same, players_savePlayerState. Qed.

Lemma solo_emit (e : Ev.t) (w : World.t) : solo w -> solo (emit e w).
Proof. apply solo_same, players_emit. Qed.

Lemma shipyard_handlePlayerInput (input : PlayerInput.t) (w : World.t) :
  shipyard w -> shipyard (handlePlayerInput localPlayerId input w).
Proof.
  intros H. apply (shipyard_step w); [done|by apply seaworthy_handlePlayerInput; apply H| |].
  - unfold handlePlayerInput. destruct (players_get _ _) as [[i ?]|]; [|apply H].
    apply solo_modPlayer; [done|apply H].
  - unfold handlePlayerInput. destruct (players_get _ _) as [[i ?]|].
    + apply trim_modPlayer; [by intros p _ ?|]. split; [apply H|done].
    + split; [apply H|done].
Qed.

Lemma shipyard_handleUpgradeShipClass (shipClass : ShipClass) (w : World.t) :
  shipyard w -> shipyard (handleUpgradeShipClass localPlayerId shipClass w).
Proof.
  intros H.
  apply (shipyard_step w); [done|by apply seaworthy_handleUpgradeShipClass; apply H| |].
  - unfold handleUpgradeShipClass. destruct (players_get _ _) as [[i ?]|]; [|apply H].
    destruct (_ <? _); [apply H|]. cbv zeta.
    apply solo_savePlayerState, solo_sendStats, solo_modPlayer; [done|apply H].
  - assert (Ht : trim (snapshotsOf w) w) by (split; [apply H|done]).
    unfold handleUpgradeShipClass.
    destruct (players_get _ _) as [[i pl]|] eqn:Hget; [|done].
    destruct (_ <? _); [done|]. cbv zeta.
    apply trim_savePlayerState, trim_sendStats, trim_modPlayer; [|done].
    intros p Hp _.
    destruct H as ((Hship & _) & _). rewrite Forall_lookup in Hship.
    destruct (Hship i p Hp) as (_ & _ & Hs). specialize (Hs healthBonus). cbn in Hs.
    assert (0 <= ShipStats.maxHealth (SHIP_STATS shipClass)
                 + PlayerStats.healthBonus (Ship.stats (Player.ship p)) * 10)
      by (destruct shipClass; cbn; lia).
    split; cbn; lia.
Qed.

Lemma sturdy_recalculateShipStats (p : Player.t) :
  0 <= Ship.health (Player.ship p) -> statsIn p -> sturdy (recalculateShipStats p).
Proof.
  intros Hh Hs. unfold recalculateShipStats. cbv zeta.
  pose proof (Hs healthBonus) as Hb. cbn in Hb.
  assert (Hmax : 0 <= ShipStats.maxHealth (SHIP_STATS (Ship.shipClass (Player.ship p)))
                      + PlayerStats.healthBonus (Ship.stats (Player.ship p)) * 10).
  { destruct (Ship.shipClass (Player.ship p)); cbn; lia. }
  destruct (0 <? Ship.maxHealth (Player.ship p)) eqn:Hpos.
  - apply Z.ltb_lt in Hpos. split; cbn; [|exact Hmax]. by apply round_ratio_nonneg.
  - split; cbn; [exact Hh|exact Hmax].
Qed.

Lemma shipyard_handleUpgradeStat (stat : StatName) (w : World.t) :
  shipyard w -> shipyard (handleUpgradeStat localPlayerId stat w).
Proof.
  intros H.
  apply (shipyard_step w); [done|by apply seaworthy_handleUpgradeStat; apply H| |].
  - unfold handleUpgradeStat. destruct (players_get _ _) as [[i ?]|]; [|apply H].
    destruct (_ <=? 0); [apply H|]. destruct (MAX_STAT_POINTS <=? _); [apply H|].
    cbv zeta. apply solo_savePlayerState, solo_sendStats, solo_modPlayer; [|apply H].
    intros p. unfold recalculateShipStats. cbv zeta. by destruct (0 <? _).
  - assert (Ht : trim (snapshotsOf w) w) by (split; [apply H|done]).
    unfold handleUpgradeStat.
    destruct (players_get _ _) as [[i pl]|] eqn:Hget; [|done].
    destruct (_ <=? 0); [done|].
    destruct (MAX_STAT_POINTS <=? _) eqn:Hcap; [done|]. apply Z.leb_gt in Hcap.
    apply players_get_Some in Hget as [Hi _].
    cbv zeta.
    apply trim_savePlayerState, trim_sendStats, trim_modPlayer; [|done].
    intros p Hp [Hh _]. assert (p = pl) by congruence. subst p.
    destruct H as ((Hship & _) & _). rewrite Forall_lookup in Hship.
    destruct (Hship i pl Hp) as (_ & _ & Hs).
    apply sturdy_recalculateShipStats; [exact Hh|].
    intros other. cbn.
    assert (Hd : other = stat \/ other <> stat)
      by (destruct other, stat; (by left) || (by right)).
    destruct Hd as [->|Hne].
    + rewrite stat_get_set_eq. specialize (Hs stat). lia.
    + rewrite stat_get_set_ne by done. apply Hs.
Qed.

Lemma shipyard_handleRespawn (now : Z) (r1 r2 : Q) (w : World.t) :
  shipyard w -> shipyard (handleRespawn localPlayerId now r1 r2 w).
Proof.
  intros H.
  apply (shipyard_step w); [done|by apply seaworthy_handleRespawn; apply H| |].
  - unfold handleRespawn. destruct (players_get _ _) as [[i ?]|]; [|apply H].
    cbv zeta.
    apply solo_sendStats, solo_emit, solo_savePlayerState, solo_modPlayer; [done|apply H].
  - assert (Ht : trim (snapshotsOf w) w) by (split; [apply H|done]).
    unfold handleRespawn. destruct (players_get _ _) as [[i pl]|]; [|done].
    cbv zeta.
    apply trim_sendStats, trim_emit; [done|].
    apply trim_savePlayerState, trim_modPlayer; [|done].
    intros p _ _. split; cbn; lia.
Qed.

Lemma sturdy_loadPlayerState (w : World.t) (player : Player.t) :
  savedGood (World.storage w) -> sturdy player -> sturdy (loadPlayerState w player).
Proof.
  intros Hs Hp. unfold loadPlayerState.
  destruct (Storage.navalwar_save (World.storage w)) as [state|] eqn:Hst; [|done].
  cbv zeta. specialize (Hs state Hst).
  pose proof (Hs healthBonus) as Hb. cbn in Hb.
  assert (0 <= ShipStats.maxHealth (SHIP_STATS (SaveState.shipClass state))
               + PlayerStats.healthBonus (SaveState.stats state) * 10)
    by (destruct (SaveState.shipClass state); cbn; lia).
  unfold recalculateShipStats. cbv zeta.
  destruct (0 <? _); split; cbn; lia.
Qed.

Lemma shipyard_handleJoinGame (playerName : string) (now : Z) (r1 r2 : Q) (w : World.t) :
  shipyard w -> shipyard (handleJoinGame localPlayerId playerName now r1 r2 w).
Proof.
  intros H.
  apply (shipyard_step w); [done|by apply seaworthy_handleJoinGame; apply H| |].
  - unfold handleJoinGame. cbv zeta.
    set (player := loadPlayerState w _).
    assert (Hid : Player.id player = localPlayerId) by apply loadPlayerState_id.
    clearbody player.
    match goal with |- solo (match players_get _ ?w2 with _ => _ end) =>
      assert (H2 : solo w2); [|destruct (players_get _ w2) as [[i ?]|];
                               [by apply solo_sendStats|done]]
    end.
    apply solo_emit, solo_emit.
    unfold players_set.
    destruct (solo_get w ltac:(apply H)) as [[E ->]|(p & E & ->)].
    + split; cbn; rewrite E; cbn; [lia|]. by constructor.
    + split; cbn; rewrite E; cbn; [lia|]. by constructor.
  - assert (Ht : trim (snapshotsOf w) w) by (split; [apply H|done]).
    unfold handleJoinGame. cbv zeta.
    set (player := loadPlayerState w _).
    assert (Hst : sturdy player).
    { apply sturdy_loadPlayerState; [apply H|]. split; cbn; lia. }
    clearbody player.
    match goal with |- trim _ (match players_get _ ?w2 with _ => _ end) =>
      assert (H2 : trim (snapshotsOf w) w2);
        [|destruct (players_get _ w2) as [[i ?]|]; [by apply trim_sendStats|done]]
    end.
    apply trim_emit; [done|]. apply trim_emit; [done|].
    destruct Ht as [Hp HX]. unfold players_set.
    destruct (players_get _ w) as [[i ?]|]; (split; [|done]); cbn.
    + by apply Forall_insert.
    + apply Forall_app. split; [done|]. by constructor.
Qed.

Section Reached.
Variable Math_sqrt Math_cos Math_sin : Q -> Q.
Variable Math_atan2 : Q -> Q -> Q.
Variable toISOString : Z -> string.
Variable Math_PI : Q.

Lemma shipyard_call (c : Call) (w : World.t) :
  shipyard w ->
  shipyard (call Math_sqrt Math_cos Math_sin Math_atan2 toISOString Math_PI c w).
Proof.
  intros Hw. destruct c; cbn [call].
  - by apply shipyard_tick.
  - by apply shipyard_handleJoinGame.
  - by apply shipyard_handlePlayerInput.
  - by apply shipyard_handleUpgradeShipClass.
  - by apply shipyard_handleUpgradeStat.
  - by apply shipyard_handleRespawn.
Qed.

Lemma initialWorld_players (now : Z) (rnds : nat -> nat -> Q) (rnd : nat -> Q)
    (storage : Storage.t) :
  let w := initialWorld Math_sqrt Math_cos Math_sin Math_PI now rnds rnd storage in
  World.players w = [] /\ World.emitted w = [].
Proof.
  cbv zeta. unfold initialWorld. cbv zeta.
  set (w0 := World.mk _ _ _ _ _ _ _ _ _ _ _).
  assert (H0 : World.players w0 = [] /\ World.emitted w0 = []) by done.
  clearbody w0.
  assert (H1 : World.players (spawnInitialNeutrals Math_sqrt Math_cos Math_sin Math_PI
                                rnds w0) = []
               /\ World.emitted (spawnInitialNeutrals Math_sqrt Math_cos Math_sin Math_PI
                                   rnds w0) = []).
  { unfold spawnInitialNeutrals.
    apply (world_foldl_kept (fun w => World.players w = [] /\ World.emitted w = []));
      [|done].
    intros w i Hw. unfold spawnNeutral.
    destruct (_ <=? _)%nat; [done|]. cbv zeta.
    destruct (spawnPosition _ _ _ _ _) as [[[x y] k]|]; [|done]. exact Hw. }
  revert H1. generalize (spawnInitialNeutrals Math_sqrt Math_cos Math_sin Math_PI rnds w0).
  intros w1 H1. unfold spawnTanks. generalize (World.islands w1). generalize 0%nat.
  intros k l. revert w1 k H1. induction l as [|island l IH]; intros w1 k H1; [exact H1|].
  cbn [foldl]. destruct (JS.ltb (rnd k) (5 # 10)); by apply IH.
Qed.

Lemma shipyard_initialWorld (now : Z) (rnds : nat -> nat -> Q) (rnd : nat -> Q)
    (storage : Storage.t) :
  savedGood storage ->
  shipyard (initialWorld Math_sqrt Math_cos Math_sin Math_PI now rnds rnd storage).
Proof.
  intros Hs. destruct (initialWorld_players now rnds rnd storage) as [HP HE].
  split; [by apply seaworthy_initialWorld|].
  unfold solo, snapshotsOf. rewrite HP, HE. cbn.
  split; [split; [lia|constructor]|]. split; constructor.
Qed.

Lemma reachable_shipyard (w : World.t) :
  reachable Math_sqrt Math_cos Math_sin Math_atan2 toISOString Math_PI w -> shipyard w.
Proof.
  induction 1 as [now rnds rnd|now rnds rnd w Hw IH|c w Hw IH].
  - apply shipyard_initialWorld. intros state H. discriminate.
  - apply shipyard_initialWorld. apply IH.
  - by apply shipyard_call.
Qed.

(** C1. In every state that the server reaches, by ticks of the game loop
    and calls of its public methods in any order and with any clock and
    random values, every game state that [broadcastGameState] has emitted
    so far has the health of every ship and of every neutral at least 0 and
    at most its maximum. *)
Theorem C1_emitted_health_bounds (w : World.t) (st : GameState.t) :
  reachable Math_sqrt Math_cos Math_sin Math_atan2 toISOString Math_PI w ->
  Ev.gameState st ∈ World.emitted w ->
  Forall (fun s => 0 <= Ship.health s <= Ship.maxHealth s) (GameState.ships st)
  /\ Forall (fun n => 0 <= NeutralObject.health n <= NeutralObject.maxHealth n)
            (GameState.neutrals st).
Proof.
  intros Hw Hin. apply reachable_shipyard in Hw as (_ & _ & _ & HX).
  rewrite Forall_forall in HX. apply (HX st). by apply snapshotsOf_logged.
Qed.

End Reached.

(** ** One bullet against the ships *)

Lemma solo_singleton (w : World.t) (c : nat) (p : Player.t) :
  (length (World.players w) <= 1)%nat -> World.players w !! c = Some p ->
  c = 0%nat /\ World.players w = [p].
Proof.
  destruct (World.players w) as [|q [|r l]]; intros Hlen Hc.
  - by rewrite lookup_nil in Hc.
  - destruct c as [|c]; cbn in Hc; [|discriminate].
    split; [done|congruence].
  - cbn in Hlen. lia.
Qed.

Section OneTarget.
Variable toISOString : Z -> string.
Variable now : Z.

Lemma handlePlayerDeath_solo (killerId weaponType : string) (w : World.t)
    (p : Player.t) :
  World.players w = [p] -> Player.isDead p = false -> killerId <> Player.id p ->
  World.players (handlePlayerDeath toISOString 0 killerId weaponType now w)
  = [Player.set_deathTime now (Player.set_isDead true (Player.on_ship (Ship.set_health 0) p))]
  /\ World.neutrals (handlePlayerDeath toISOString 0 killerId weaponType now w)
     = World.neutrals w.
Proof.
  intros Hw Hdead Hk. split; [|apply neutrals_handlePlayerDeath].
  unfold handlePlayerDeath. rewrite Hw. cbn [lookup list_lookup]. rewrite Hdead.
  set (w0 := if String.eqb _ _ then _ else w).
  assert (H0 : World.players w0 = [p]).
  { unfold w0. by destruct (String.eqb _ _). }
  clearbody w0.
  set (w1 := modPlayer 0 _ w0).
  assert (H1 : World.players w1
               = [Player.set_deathTime now
                    (Player.set_isDead true (Player.on_ship (Ship.set_health 0) p))]).
  { unfold w1. rewrite players_modPlayer, H0. reflexivity. }
  assert (Hget : players_get killerId w1 = None).
  { unfold players_get. rewrite H1. cbn.
    destruct (decide (Player.id p = killerId)); [congruence|done]. }
  rewrite Hget. by destruct (List.find _ _).
Qed.

Lemma bulletShipCandidates_solo (bullet : Bullet.t) (candidates : list nat)
    (st : Pass.t) :
  (length (World.players (Pass.world st)) <= 1)%nat ->
  let st1 := bulletShipCandidates toISOString now bullet candidates st in
  st1 = st
  \/ exists p,
       World.players (Pass.world st) = [p]
       /\ Player.isDead p = false
       /\ Bullet.ownerId bullet <> Player.id p
       /\ Pass.bulletsToRemove st1 = {[Bullet.id bullet]} ∪ Pass.bulletsToRemove st
       /\ Pass.neutralsToRemove st1 = Pass.neutralsToRemove st
       /\ World.neutrals (Pass.world st1) = World.neutrals (Pass.world st)
       /\ World.players (Pass.world st1) = [shipAfterHit now bullet p].
Proof.
  revert st. induction candidates as [|c rest IH]; intros st Hlen; [by left|].
  cbn [bulletShipCandidates]. cbv zeta.
  destruct (World.players (Pass.world st) !! c) as [player|] eqn:Hc; [|by apply IH].
  destruct (solo_singleton _ _ _ Hlen Hc) as [-> Hw].
  destruct (String.eqb _ _) eqn:Hown; [by apply IH|].
  apply String.eqb_neq in Hown.
  destruct (Player.isDead player) eqn:Hdead; [by apply IH|].
  destruct (Ship.isStealthed _); [by apply IH|].
  destruct (now <? Player.spawnProtectionUntil player); [by apply IH|].
  destruct (JS.ltb _ _); [|by apply IH].
  right. exists player. split; [done|]. split; [done|]. split; [done|].
  destruct (Ship.isShielded (Player.ship player)) eqn:Hsh.
  - match goal with |- context [bulletShipCandidates _ _ _ rest ?s] => set (st2 := s) end.
    assert (Hlen2 : (length (World.players (Pass.world st2)) <= 1)%nat) by exact Hlen.
    destruct (IH st2 Hlen2) as [->|(p & Hp & _ & _ & HB & HN & Hn & HP)].
    + unfold shipAfterHit. rewrite Hsh. by repeat split.
    + assert (p = player) by (cbn in Hp; congruence). subst p.
      rewrite HB, HN, Hn, HP. unfold shipAfterHit. rewrite Hsh.
      repeat split; try done. unfold st2. cbn [Pass.bulletsToRemove].
      by rewrite (assoc_L (∪)), union_idemp_L.
  - cbn [Pass.world Pass.bulletsToRemove Pass.neutralsToRemove].
    split; [done|]. split; [done|].
    unfold shipAfterHit. rewrite Hsh. cbv zeta.
    destruct (_ <=? 0).
    + match goal with |- context [handlePlayerDeath _ 0 ?k ?wt now ?w1] =>
        destruct (handlePlayerDeath_solo k wt w1
                    (Player.on_ship
                       (Ship.set_health (Ship.health (Player.ship player)
                                         - Bullet.damage bullet)) player))
          as [HP Hn]
      end.
      * rewrite players_emit, players_modPlayer, Hw. reflexivity.
      * exact Hdead.
      * exact Hown.
      * rewrite Hn. split; [done|]. rewrite HP. reflexivity.
    + split; [done|]. rewrite players_emit, players_modPlayer, Hw. reflexivity.
Qed.

End OneTarget.

Lemma bulletNeutralCandidates_one_neutral (bullet : Bullet.t) (candidates : list nat)
    (st : Pass.t) :
  exists c, forall j, j <> c ->
    World.neutrals (Pass.world (bulletNeutralCandidates bullet candidates st)) !! j
    = World.neutrals (Pass.world st) !! j.
Proof.
  revert st. induction candidates as [|c rest IH]; intros st; [by exists 0%nat|].
  cbn [bulletNeutralCandidates]. cbv zeta.
  destruct (World.neutrals (Pass.world st) !! c) as [neutral|]; [|apply IH].
  destruct (String.eqb _ _); [apply IH|].
  destruct (negb _); [apply IH|].
  destruct (JS.ltb _ _); [|apply IH].
  exists c. intros j Hne. unfold bulletHitsNeutral. cbv zeta.
  destruct (_ <=? 0); [destruct (players_get _ _) as [[shooter ?]|]|];
    cbn [Pass.world emit World.neutrals World.set_emitted];
    rewrite ?neutrals_awardXP; cbn [modNeutral World.neutrals World.set_neutrals];
    by rewrite list_lookup_alter_ne.
Qed.

(** C2. Within a collision pass a bullet decrements the health of at most
    one ship, and once its id is in the removal set it damages nothing
    more.  [bulletVsShips] and [bulletVsNeutrals] are what the two bullet
    loops do for one bullet.  For any number of ships, every ship but at
    most one comes out of the ship loop of a bullet undamaged, every
    neutral but at most one keeps its health in the neutral loop, and a
    bullet whose id is in the removal set is skipped by both loops.  The
    states that the server reaches have at most one ship, since only
    [joinGame] registers a player, always under the id of the local player;
    with at most one ship, a bullet that the ship loop marks has hit that
    ship: a shielded ship is left as it was, which ends the resolution of
    the bullet as no candidate is left to damage, an unshielded ship has
    lost the damage of the bullet once (and is dead with health 0 when that
    sinks it), and no neutral has changed. *)
Theorem C2_bullet_one_target (toISOString : Z -> string) (now : Z) (st : Pass.t)
    (bullet : Bullet.t) (shipGrid neutralGrid : SpatialHashGrid.t nat) :
  let marked (s : Pass.t) : Prop := Bullet.id bullet ∈ Pass.bulletsToRemove s in
  let st1 := bulletVsShips toISOString now shipGrid st bullet in
  (forall s, checkBulletShipCollisions toISOString now shipGrid s
             = foldl (bulletVsShips toISOString now shipGrid) s
                     (World.bullets (Pass.world s)))
  /\ (forall s, checkBulletNeutralCollisions neutralGrid s
                = foldl (bulletVsNeutrals neutralGrid) s (World.bullets (Pass.world s)))
  /\ (exists victim, forall j p,
        j <> victim -> World.players (Pass.world st) !! j = Some p ->
        stays j p (Pass.world st1))
  /\ (exists c, forall j, j <> c ->
        World.neutrals (Pass.world (bulletVsNeutrals neutralGrid st bullet)) !! j
        = World.neutrals (Pass.world st) !! j)
  /\ (forall s, marked s ->
        bulletVsShips toISOString now shipGrid s bullet = s
        /\ bulletVsNeutrals neutralGrid s bullet = s)
  /\ ((length (World.players (Pass.world st)) <= 1)%nat ->
      ~ marked st -> marked st1 ->
      exists p,
        World.players (Pass.world st) = [p]
        /\ Player.isDead p = false
        /\ Bullet.ownerId bullet <> Player.id p
        /\ World.players (Pass.world st1) = [shipAfterHit now bullet p]
        /\ World.neutrals (Pass.world st1) = World.neutrals (Pass.world st)
        /\ Pass.neutralsToRemove st1 = Pass.neutralsToRemove st
        /\ bulletVsNeutrals neutralGrid st1 bullet = st1)
  /\ (forall (Math_sqrt Math_cos Math_sin : Q -> Q) (Math_atan2 : Q -> Q -> Q)
             (Math_PI : Q) (w : World.t),
        reachable Math_sqrt Math_cos Math_sin Math_atan2 toISOString Math_PI w ->
        (length (World.players w) <= 1)%nat).
Proof.
  intros marked st1.
  assert (Hskip : forall s, marked s ->
            bulletVsShips toISOString now shipGrid s bullet = s
            /\ bulletVsNeutrals neutralGrid s bullet = s).
  { intros s Hs. unfold bulletVsShips, bulletVsNeutrals.
    by rewrite (bool_decide_eq_true_2 _ Hs). }
  split; [reflexivity|]. split; [reflexivity|]. split.
  { unfold st1, bulletVsShips. destruct (bool_decide _).
    - exists 0%nat. intros j p _ Hj. by apply stays_here.
    - apply bulletShipCandidates_one_victim. }
  split.
  { unfold bulletVsNeutrals. destruct (bool_decide _); [by exists 0%nat|].
    apply bulletNeutralCandidates_one_neutral. }
  split; [exact Hskip|]. split.
  - intros Hlen Hun Hm.
    assert (E1 : st1 = bulletShipCandidates toISOString now bullet
                         (SpatialHashGrid.queryInto shipGrid (Bullet.x bullet)
                            (Bullet.y bullet) (SHIP_RADIUS + BULLET_RADIUS)%Q []) st).
    { unfold st1, bulletVsShips. by rewrite (bool_decide_eq_false_2 _ Hun). }
    destruct (bulletShipCandidates_solo toISOString now bullet
                (SpatialHashGrid.queryInto shipGrid (Bullet.x bullet)
                   (Bullet.y bullet) (SHIP_RADIUS + BULLET_RADIUS)%Q []) st Hlen)
      as [E|(p & Hp & Hdead & Hown & HB & HN & Hn & HP)]; rewrite <- E1 in *.
    + exfalso. apply Hun. unfold marked in Hm. by rewrite E in Hm.
    + exists p. repeat split; try done.
      apply (proj2 (Hskip _ Hm)).
  - intros Math_sqrt Math_cos Math_sin Math_atan2 Math_PI w Hw.
    apply reachable_shipyard in Hw as (_ & [Hlen _] & _). exact Hlen.
Qed.

(** Witness of C2: the tank bullet on shielded Ann, alone in the world, is
    marked and leaves her as she was. *)
Lemma C2_bullet_one_target_witness :
  let st := Pass.mk soloShieldedWorld ∅ ∅ in
  let grid := shipGridOf soloShieldedWorld (livingPlayersOf soloShieldedWorld) in
  exists p,
    World.players soloShieldedWorld = [p]
    /\ Player.isDead p = false
    /\ Bullet.ownerId tankBullet <> Player.id p
    /\ World.players (Pass.world (bulletVsShips stamp 5000 grid st tankBullet))
       = [shipAfterHit 5000 tankBullet p]
    /\ World.neutrals (Pass.world (bulletVsShips stamp 5000 grid st tankBullet)) = []
    /\ Pass.neutralsToRemove (bulletVsShips stamp 5000 grid st tankBullet) = ∅
    /\ bulletVsNeutrals (neutralGridOf soloShieldedWorld)
         (bulletVsShips stamp 5000 grid st tankBullet) tankBullet
       = bulletVsShips stamp 5000 grid st tankBullet.
Proof.
  intros st grid.
  refine (proj1 (proj2 (proj2 (proj2 (proj2 (proj2
            (C2_bullet_one_target stamp 5000 st tankBullet grid
               (neutralGridOf soloShieldedWorld))))))) _ _ _).
  - cbn. lia.
  - cbn. apply not_elem_of_empty.
  - match goal with |- ?P => apply (bool_decide_unpack P) end. vm_compute. exact I.
Defined.

(** Witness of C1: the game state that the tick of [harbourWorld] emitted
    shows Ann with health 100 and 43 neutrals within their bounds. *)
Lemma C1_emitted_health_bounds_witness :
  length (snapshotsOf harbourWorld) = 1%nat
  /\ Forall (fun st =>
               Forall (fun s => 0 <= Ship.health s <= Ship.maxHealth s)
                      (GameState.ships st)
               /\ Forall (fun n => 0 <= NeutralObject.health n
                                   <= NeutralObject.maxHealth n)
                         (GameState.neutrals st))
            (snapshotsOf harbourWorld).
Proof.
  split; [vm_compute; reflexivity|].
  apply Forall_forall. intros st Hin.
  refine (C1_emitted_health_bounds sqrt6 (fun _ => 1%Q) (fun _ => 0%Q) (fun _ _ => 0%Q)
            stamp (355 # 113) harbourWorld st _ _).
  - unfold harbourWorld. apply reachable_call. apply reachable_call.
    apply reachable_first.
  - apply snapshotsOf_logged. exact Hin.
Defined.
